(* ===== verification/_CoqProject ===== *)
-Q . S2P
Prelude.v
Errors.v
Regexp.v
FS.v
Linter.v
Printing.v
Runes.v
Samples.v
Enforce.v
Taxonomy.v
Stateful.v
Order.v
Paths.v
Trace.v
Checks.v
Policy.v
Laws.v
Modes.v
Machine.v
Scenarios.v
Subtree.v
Messages.v
Skips.v
Utf8.v
PathClean.v
Registry.v
Listing.v
Root.v
Lexico.v
