(* ===== verification/Prelude.v ===== *)
(** * Verification of the melange package linter (pkg/build/linter.go)

    ** The program

    [src/pkg/build/linter.go] validates the staged file tree of a package
    before it is packed.  It has two parts.

    - The linter registry: the Go map [Linters] from a check name to a
      [Linter], a pair of a [LinterFunc] and a remediation hint [Explain].
      Four checks are registered: [isSetUidOrGidLinter] (setuidgid),
      [tempDirLinter] (tempdir), [usrLocalLinter] (usrlocal) and
      [varEmptyLinter] (varempty).  The three path checks match the
      relative path of an entry against a regular expression compiled at
      package initialisation; the mode check reads the [fs.FileMode] bits
      of the entry.
    - The tree enforcer [lintPackageFs]: it hands the closure [walkCb] to
      [fs.WalkDir]; on every call the closure first returns the error of
      the walk, if there is one, and otherwise runs the requested linters
      in order and returns the first failure, wrapped by [fmt.Errorf] with
      the name of the linter, the path, the cause and the hint.

    The registry is read by the enforcer through the map lookup only; the
    enforcer reaches the file system through [fs.WalkDir] only; the
    linters reach it through the [Info] method of the entry only.

    ** The development, file by file (in dependency order)

    - [Prelude] (this file): what every component shares.  Byte strings
      ([HasPrefix], [HasSuffix] and their characterisations by [+:+],
      cancellation of [+:+] at the head and at tails of the same length,
      the order of [String.ltb] as a strict order), the first-failure
      fold [first_some] behind both loops of the program with its lemmas
      (among them what the fold over a sublist finds), the tactics
      [case_scrutinee], [case_if] and [simp_first], and the hint and
      rewrite database [lint].
    - [Errors]: Go's [error] values.  [error] is an inductive type with the
      two shapes [fmt.Errorf] produces ([errorString], [wrapError]) and the
      two sentinels of [io/fs] ([SkipDir], [SkipAll]) that [fs.WalkDir]
      compares by identity; [Error] is the message, [Unwrap] the wrapped
      cause, [Is] the chain walk of [errors.Is].  [Errorf] interprets a
      format string with the verbs [%s] and [%w], so the model of each
      [fmt.Errorf] call of the source is that call.  [result] is the sum
      behind Go's [(value, error)] returns.  [ret] adds to a return value
      the outcome [Panic], so that a method call on a [nil] interface is a
      value of the model and its absence a theorem; [stop], [stopOf] and
      [retOf] read a result as the reason to stop a loop.
    - [Regexp]: the fragment of Go's [regexp] that the source uses:
      literals, [^], [$], groups, [|] and [?].  [Compile] parses a pattern
      with an operator stack in the manner of [regexp/syntax] and
      [MustCompile] is [Compile] on the patterns that parse; [matches] is
      the denotation of an expression over a text split into what is
      before, inside and after the match; [MatchString] is the executable
      backtracking matcher.  Theorems: the matcher decides the denotation
      ([MatchString_spec]), and an expression of the fragment matches
      exactly the texts that one of finitely many anchored words fits
      ([MatchString_alts]), which turns each pattern of the source into
      prefix and suffix tests.
    - [FS]: the [io/fs] side.  [FileMode] is a 32-bit integer in [Z] with
      the mode bits at Go's positions and [hasMode m bit] is [m&bit != 0];
      [FileInfo] and [DirEntry] are records; a file tree is a rose tree
      [fsnode] in which every directory carries what [ReadDir] returns for
      it, the entries read and an optional error; [FS] adds the outcome of
      [Stat] on the root.  [Clean] is [path.Clean], element by element
      (empty elements and [.] dropped, [..] removing the element before it
      or kept at the start of a path that is not rooted), and [Join] is
      [path.Join] of two elements, which cleans what it joins; [walkDir]
      and [WalkDir] are the library's functions with their handling of
      [SkipDir] and [SkipAll].  [events] is the sequence of calls an
      uninterrupted walk makes.  The class [NeverSkips] states what the
      theorems need of a walk function (it never returns a sentinel);
      against it, [WalkDir] is proved to be the first failure over
      [events] ([WalkDir_first_some]).  The weaker class [NeverSkipsDir]
      allows [SkipAll], which ends the walk without error
      ([WalkDir_first_stop]).  [sortedFS] states that every
      listing is in increasing order of file name, as [ReadDir] returns it.
      [reportsFollow] states that a call that carries an error comes right
      after the call on the same entry, which holds of [events]
      ([events_report]); with it, a walk that visits no entry twice makes
      no call twice ([events_NoDup]).
    - [Linter]: the registry and the checks.  [LinterContext],
      [LinterFunc], [Linter], the map [Linters] as a [gmap string Linter],
      the four compiled patterns and the four linter functions, each
      translated branch by branch.  The types of the two configuration
      pointers are parameters of the section: the program stores them and
      never reads them.  The class [Returns] is what the enforcer asks of
      a linter function (handed an entry, it does not panic); the four
      linters are instances and [Linters_Returns] is the promise of the
      registry.  Theorems: the entries of the registry, the four
      patterns as prefix and suffix tests, the exact outcome of every
      linter on every branch.
    - [Printing]: the printer [print] of the fragment and the shape
      [parsed] of the expressions the parser builds (an alternation of
      concatenations of pieces, nested to the left).  Theorems: [Compile]
      reads back what [print] writes ([Compile_print]); what [Compile]
      accepts has that shape and prints as the pattern ([print_Compile],
      by an invariant of the parser stack); so the four expressions of the
      source stand for their literals.
    - [Runes]: bytes against runes.  [DecodeRuneInString] is the decoder
      of [unicode/utf8] (the table of first bytes, the accepted ranges of
      the second byte, [RuneError] of width one on bytes that are no
      encoding), [runes] the runes a matcher steps through and
      [MatchStringR] the matcher over them.  Theorem: for an expression
      with ASCII literals [MatchString] and [MatchStringR] agree on every
      text ([MatchString_runes]).
    - [Samples]: concrete trees and contexts, on which the theorems are
      applied and the definitions are run.
    - [Enforce]: [lintLoop] (the [for] loop of [walkCb]), [walkCb] and
      [lintPackageFs], with the three errors of the enforcer in closed form
      ([unknownError], [failedError], [traverseError]) and one turn of the
      loop as [lintOne].  [walkCb] is an instance of [NeverSkips].
      Theorems: [lintPackageFs] is the first failure over the calls of the
      walk; it passes exactly when every requested linter passes on every
      entry; it never panics; an unknown name always fails the run; the
      message of a failure holds the four pieces the contract promises; a
      traversal error is surfaced before any linter runs; fail-fast.
    - [Taxonomy]: the three kinds of failure of the specification as the
      type [reason] (unknown linter, traversal failure, linter failure),
      [errorOf] the error the program builds for each, and [diagnose], which
      computes the reason of a run from the registry and the calls of the
      walk.  Theorems: the result of [lintPackageFs] is the error of the
      diagnosis, and the diagnosis is justified by the tree, the names and
      the registry; a traversal error at a directory is reported only
      after every requested linter passed on that directory.
    - [Stateful]: the walk for a function value with a state, as Go
      closures have.  [walker S] is a computation over a state, [orElse]
      the control flow "stop with the error, else go on", and [walkDirS]
      and [WalkDirS] are [walkDir] and [WalkDir] written with it.
      Theorems: forgetting the state gives [walkDir] and [WalkDir]
      ([WalkDirS_erase]); for a function that never skips the walk runs
      the calls of [events] in order and stops after the first that fails
      ([WalkDirS_runCalls]; [WalkDirS_first_stop] when the function may
      return [SkipAll]).
    - [Order]: the order of the walk.  An entry has a key, the names on
      the way from the root, and its path is the key joined by slashes;
      on a tree with sorted listings the keys of the visited entries are
      strictly increasing in the order [keyLt] (a key before its
      extensions, otherwise by the first names that differ).  Theorem: a
      failing run reports the violation with the least key.
    - [Paths]: paths against keys.  For names as a directory holds them
      (not empty, neither [.] nor [..], without a slash) [Join] adds a
      slash and the name ([Join_joinPath]), so the path of an entry is its
      key joined by slashes ([joinKey_joinPath]), and a path starts with
      the path of a directory and a slash exactly when the key lies
      strictly under the key of the directory ([HasPrefix_under]); the
      key is read back from the path ([keyOf_joinKey]), so two entries
      never share a path ([visits_paths_NoDup]) and the walk makes no
      call twice ([events_NoDup_valid]).
      Theorem: each path linter fails exactly on the entries strictly
      inside the directories it guards.
    - [Trace]: the program with a log.  [lintLoopS], [walkCbS] and
      [lintPackageFsS] are the three functions of the enforcer where each
      call of a linter function appends the name and the path to the log;
      [invocations] is the log of a run.  The log does not change the
      result ([lintPackageFsS_result]).  Theorems: the calls are a prefix
      of the plan (entries in walk order, names in list order), the whole
      plan when the run passes; a failing linter is the last one called;
      no linter is called twice on a path ([invocations_once]).
    - [Checks]: each of the four checks from the registry to the result of
      the run: an entry that violates a requested check fails the run
      whatever else the tree holds; on a tree that can be read a run of
      one check returns the error of the first violating entry in the
      order of the walk; a path check passes exactly when the directories
      it guards hold nothing.
    - [Policy]: the policy the four checks enforce, stated on the tree:
      [compliant pkg fsys] holds when every entry has a mode that can be
      read, without the setuid and setgid bits, and lies under none of the
      guarded directories ([usr/local] being allowed to a compat
      package).  Theorem: on a tree that can be read and whose names are
      file names the run of the default checks passes exactly when the
      tree is compliant ([default_checks_iff]).
    - [Laws]: what a run depends on and how runs compose: the context is
      read through the package name only; a pass does not depend on the
      order or the grouping of the names; [usrlocal] is a no-op for a
      compat package.  [sameName] (contexts with the same package name) is
      an equivalence, and [lintPackageFs] and [passes] are [Proper] for it
      and for permutations of the names.
    - [Modes]: the mode word at its width.  [validMode] is membership in
      32 bits; [clearSetid] clears the setuid and setgid bits and
      [clearFS] does so on every mode of a tree.  Theorems: the verdict
      of [isSetUidOrGidLinter] by the range of the mode (setuid from
      [2^23] up in every block of [2^24], setgid from [2^22] up in every
      block of [2^23], so every mode below [2^22] passes, Unix mode words
      with the bit [04000] included), the same for two modes with the
      same 32-bit value ([setuidgid_by_range]); on a cleared tree the
      setuidgid check is a no-op ([setuidgid_cleared]).
    - [Machine]: the run as the state machine
      [NotStarted -> Walking -> Succeeded | Failed] of the specification,
      one transition per call of [walkCb], as the relation [step] and as
      the function [next].  A [Walking] state holds the calls made and the
      work left (the stack of the depth-first walk).  Theorems: [step] and
      [next] agree and the machine is deterministic; it is stuck in the
      terminal states only; the invariant of the reachable states; a
      failing run makes no call after the one that fails; the terminal
      state reached is the result of [lintPackageFs] (refinement, in both
      directions); from every reachable state the run ends, in that state
      and no other; run as a function, the machine computes the result
      within two transitions more than the walk has calls
      ([run_enough_fuel]).
    - [Scenarios]: the runs the specification lists as testable, and the
      runs in which the program and the specification part ways.
    - [Subtree]: the run against the shape of the tree.  [within] relates
      a tree to the tree with entries removed, [keepOnly] removes the
      entries a predicate rejects, [culprit] is the call a run stops at,
      and [lintNode] is the run on one subtree.  Theorems: removal never
      creates a violation ([lintPackageFs_within]); the error of a
      failing run stays the same as long as the call it stopped at is
      kept ([lintPackageFs_culprit_kept]); the run is the first failure
      among the root and the runs on the subtrees of the root, each on
      its own ([lintPackageFs_by_subtrees]).
    - [Messages]: the text of the errors.  [unknownText] and [failedText]
      are the two texts the loop builds and [violations] the messages of
      the four linters.  Theorem: on trees read without error, two runs
      that fail with the same text failed for the same reason
      ([message_determines_failure]).  The text of a traversal error,
      whose path is not quoted, does not always tell the path from the
      cause ([traversal_text_ambiguous]).
    - [Skips]: the walk of a function that does return [SkipDir] or
      [SkipAll].  [prune fn root fsys] is the tree without what such a
      function asks to leave out and [heeded fn] the function with
      [SkipDir] turned into [nil].  Theorems: the walk ends as the walk of
      [heeded fn] on the pruned tree ([WalkDir_prune]), that is, at the
      first call over the calls of the pruned tree that returns an error,
      [SkipAll] ending it without error ([WalkDir_skipping]); the calls
      of the pruned tree are calls of the tree, in order
      ([prune_events]); the calls the walk makes, kept as a list in the
      state of the walk of [Stateful], are those of the pruned tree up to
      the first that stops it ([callsOf_prune]); the closure of
      [lintPackageFs] prunes nothing ([walkCb_prunes_nothing]), and with
      a name that is not in the registry it is called once, on the root
      ([unknown_linter_one_call]).
    - [Utf8]: the decoder of [Runes] against the encoder.  [EncodeRune]
      is the encoder of [unicode/utf8] with its truncations, [encoding]
      the well-formed byte sequences of the Unicode standard.  Theorems:
      every rune the decoder yields is a scalar value
      ([DecodeRuneInString_valid]); the decoder reads back what the
      encoder writes ([Decode_Encode]) and accepts nothing else
      ([Encode_Decode]).
    - [PathClean]: what [path.Clean] returns, on every path.  [cleanForm]
      is the form of the elements it writes: [..] some times, never in a
      rooted path, then names that are neither empty nor [.] nor [..].
      Theorems: [Clean] returns [/], [.] or such elements joined by
      slashes ([Clean_cleanForm]), never the empty path, and does nothing
      to a path it returned ([Clean_idempotent]); [Join] returns clean
      paths; on any tree, whatever its names, the linters are called on
      clean paths that do not start with a slash
      ([invocations_clean_paths]).
    - [Registry]: the registry as the package variable it is.
      [lintLoopIn], [walkCbIn] and [lintPackageFsIn] are the loop, the
      closure and the run reading a registry [reg]; at [Linters] they are
      the program ([lintPackageFsIn_Linters]).  An assignment to an entry
      is [<[n := l]> reg] and [delete(Linters, n)] is [delete n reg].
      The class [Behaved] is what the run asks of a registry (its
      functions return when handed an entry); [Linters] has it, and
      assignment of a function that returns and deletion keep it.
      Theorems, for every registry: the errors of the loop are built by
      [fmt.Errorf], so no registered function prunes the walk; a run
      reads the registry at the requested names only
      ([lintPackageFsIn_agree]); over a registry that behaves the run
      never panics and fails as soon as a requested name is missing
      ([lintPackageFsIn_returns]); replacing a linter by a laxer one
      keeps every pass.
    - [Listing]: listings in directory order.  [sortNode] and [sortFS]
      sort every listing of a tree by name, as [fs.ReadDir] does before
      [fs.WalkDir] sees it; [distinctFS] says that no directory holds a
      name twice.  Theorems: the sorted tree has sorted listings and a
      sorted tree is left as it is; the calls of the walk of the sorted
      tree are the calls of the walk of the tree in another order, so a
      run passes on both or on neither ([lintPackageFs_sortFS_pass]); the
      error of a failing run is that of the entry with the least key,
      whatever order the directories gave ([lintPackageFs_sortFS]).
    - [Root]: the run on the root.  The first call of the walk is on
      the path [.], with the error of [Stat] or with the entry of the
      root.  Theorems: the exact result of a run with a name that is not
      in the registry ([lintPackageFs_unknown_exact]); the run on the
      tree that holds nothing but its root is the loop on the root, and
      the default checks pass on it exactly when the root has neither the
      setuid nor the setgid bit ([default_checks_root_only]).
    - [Lexico]: the order of the walk against the order of the paths as
      strings.  [plainFS] says that every byte of every name is above the
      slash.  Theorems: for such names a key is before another exactly
      when its path is the smaller string ([keyLt_paths]), so on such a
      tree a failing run reports the violation with the least path
      ([lintPackageFs_reports_least_path]); with a hyphen or a dot in a
      name the two orders part, for every directory [x], name [y] in it
      and sibling [x-z]: the run reports [x/y] though [x-z] is the smaller
      path ([walk_parts_from_path_order], sample [hyphen_before_slash]).

    ** How the model corresponds to the code

    - A Go [error] that may be [nil] is an [option error]; [None] is [nil].
      A function that returns [error] returns [ret (option error)]:
      [Return None] for [nil], [Return (Some e)] for an error, [Panic] for a
      run-time panic.  The entry [d] of a linter is an [option DirEntry],
      [None] for the [nil] interface that [fs.WalkDir] passes when [Stat]
      on the root fails.
    - Strings are Rocq [string]s, sequences of 8-bit characters, as Go
      strings are sequences of bytes.  Matching is byte-wise; on patterns
      whose literals are ASCII this coincides with Go's matching on UTF-8
      runes, because an ASCII byte is never part of a longer encoding:
      [Runes.MatchString_runes] proves it.
    - The map [Linters] is not written after initialisation by the code
      under study: it is a constant [gmap], and [Linters !! name] is the
      two-valued lookup of the source.  Go does not enforce this (the
      variable is exported); the theorems on [lintPackageFs] hold of runs
      in which no other code writes to the map or to the four pattern
      variables, and [Registry] states what a run does over a map that
      was written.  A registered function is a function of its three
      arguments: it does not write to the registry during the run.
    - The [for] loop over the linter names is the structural recursion
      [lintLoop]; its early returns are the branches that do not recurse.
    - The file system is an argument of the run, fixed during it: the
      program only reads it.
    - The program has no state of its own.  Where the order of its calls
      is the claim ([Trace]), the calls of the linter functions are made
      observable by a log threaded through the same three functions, and
      the log is proved not to change the result.

    ** Bounds and fuel

    The tree is finite, so [walkDir] is structural on it and needs no
    fuel; the matcher is structural on the expression, with the rest of
    the input as its continuation; the parser is structural on the
    pattern.  [Runes.runes] takes the length of the text as fuel, enough
    because every rune takes a byte at least ([runesFrom_enough]).  The
    other fuel is that of [Machine.run], and [run_enough_fuel] proves
    that two more than the number of calls of the walk, or any larger
    number, is enough on every tree; [step_sn] states the same without
    fuel, as the well-foundedness of the transitions.  Mode bits are
    tested with [Z.land] against [Z.shiftl 1 k]; [hasMode_shiftl] reduces
    the test to [Z.testbit], for any integer, so the theorems on the
    linters assume no bound on the mode; [Modes.setuidgid_by_range] reads
    the two tests as ranges of the mode and shows that the verdict is a
    function of the 32-bit value.  A rune is an [int32] in Go; [Utf8.DecodeRuneInString_valid]
    shows that the decoder stays below [0x110000], and [EncodeRune] takes
    its argument modulo [2^32] and each byte modulo [256], as the
    conversions of the library do.

    ** Not modelled

    Lines 1 to 23 of the source are the licence text, the package clause
    and the imports: they hold no code.  Every declaration after them is
    translated.  The program is sequential and holds no state between
    runs, so there is no interleaving of threads and no resource to model.
    The loading of the configuration, the construction of the staged tree
    and the command line are callers of this file and are outside it; the
    types [config.Configuration] and [config.Checks] are opaque.  Symbolic
    links are entries like any other ([fs.WalkDir] does not follow them).
    Modification times and the [Sys] field of [FileInfo] are never read by
    the program and are left out of the record.  [fs.ReadDir] sorts with
    a sort of its own; the model sorts by insertion, and a listing in
    increasing order of name is the same whatever sort produced it
    ([Listing.sortByName_unique]): the names of a directory are distinct
    in a file system, and the theorems on the sorted tree assume it
    ([distinctFS]).  Of the standard library,
    what the program does not use is left out: character classes and
    repetition in patterns, other formatting verbs, opening and reading
    files. *)

From Stdlib Require Export ZArith String Ascii List Lia.
From stdpp Require Export prelude strings.


(** ** Tactics *)

(** Case analysis on the scrutinee of the first [match] of the goal,
    keeping the equation. *)
Ltac case_scrutinee :=
  match goal with
  | |- context [match ?x with _ => _ end] =>
      let E := fresh "E" in destruct x eqn:E
  end.

(** Case analysis on the condition of an [if] of the goal. *)
Ltac case_if :=
  match goal with
  | |- context [if ?b then _ else _] => destruct b
  end.

Create HintDb lint discriminated.
Create Rewrite HintDb lint.

(** ** Byte strings *)

Section Strings.

Implicit Types s t p : string.

(** The double quote, for format strings that quote an argument. *)
Definition dquote : string := String "034"%char EmptyString.

(** [strings.HasPrefix]: [s] starts with [p]. *)
Fixpoint HasPrefix (s p : string) {struct p} : bool :=
  match p, s with
  | EmptyString, _ => true
  | String a p', String b s' => if Ascii.eqb a b then HasPrefix s' p' else false
  | String _ _, EmptyString => false
  end.

(** [strings.HasSuffix]: some tail of [s] is [p]. *)
Fixpoint HasSuffix (s p : string) : bool :=
  if String.eqb s p then true
  else match s with
       | EmptyString => false
       | String _ s' => HasSuffix s' p
       end.

Lemma string_app_nil_l s : "" +:+ s = s.
Proof. reflexivity. Qed.

Lemma string_app_cons a s t : String a s +:+ t = String a (s +:+ t).
Proof. reflexivity. Qed.

Lemma string_app_nil_r s : s +:+ "" = s.
Proof. induction s; rewrite ?string_app_cons; [reflexivity | congruence]. Qed.

Lemma string_app_assoc s t p : (s +:+ t) +:+ p = s +:+ (t +:+ p).
Proof. induction s; rewrite ?string_app_cons; [reflexivity | congruence]. Qed.

Lemma string_app_length s t :
  String.length (s +:+ t) = (String.length s + String.length t)%nat.
Proof. induction s; rewrite ?string_app_cons; simpl; [reflexivity | lia]. Qed.

Lemma string_app_eq_nil s t : s +:+ t = "" -> s = "" /\ t = "".
Proof. destruct s; rewrite ?string_app_cons; [auto | discriminate]. Qed.

Lemma string_app_inv_head s t p : s +:+ t = s +:+ p -> t = p.
Proof. induction s; rewrite ?string_app_cons; [auto | intros [= H]; auto]. Qed.

(** Two ways to cut the same string: the shorter tail ends the longer. *)
Lemma string_app_eq_suffix s1 : forall s2 t1 t2,
  s1 +:+ t1 = s2 +:+ t2 -> (String.length t2 <= String.length t1)%nat ->
  exists u, s2 = s1 +:+ u /\ t1 = u +:+ t2.
Proof.
  induction s1 as [|a s1 IH]; intros s2 t1 t2; [by exists s2 |].
  destruct s2 as [|b s2]; rewrite !string_app_cons, ?string_app_nil_l.
  - intros <-. cbn [String.length]. rewrite string_app_length. lia.
  - intros [= -> H] Hl. destruct (IH _ _ _ H Hl) as (u & -> & ->). by exists u.
Qed.

(** Tails of the same length are cut at the same place. *)
Lemma string_app_inj_tail s1 s2 t1 t2 :
  String.length t1 = String.length t2 ->
  s1 +:+ t1 = s2 +:+ t2 -> s1 = s2 /\ t1 = t2.
Proof.
  intros Hl H. destruct (string_app_eq_suffix _ _ _ _ H) as (u & -> & ->); [lia |].
  rewrite string_app_length in Hl. destruct u; [| simpl in Hl; lia].
  by rewrite string_app_nil_r.
Qed.

Lemma HasPrefix_spec s p : HasPrefix s p = true <-> exists t, s = p +:+ t.
Proof.
  revert s; induction p as [|a p IH]; intros s; simpl.
  - split; [exists s; reflexivity | reflexivity].
  - destruct s as [|b s]; [split; [discriminate | intros [t Ht]; discriminate] |].
    destruct (Ascii.eqb_spec a b) as [->|Hne].
    + rewrite IH. split; intros [t Ht]; exists t.
      * subst. reflexivity.
      * rewrite string_app_cons in Ht. congruence.
    + split; [discriminate | intros [t Ht]].
      rewrite string_app_cons in Ht. congruence.
Qed.

Lemma HasPrefix_app p t : HasPrefix (p +:+ t) p = true.
Proof. apply HasPrefix_spec. eauto. Qed.

Lemma HasPrefix_false s p : HasPrefix s p = false <-> forall t, s <> p +:+ t.
Proof.
  rewrite <- not_true_iff_false, HasPrefix_spec. split.
  - intros H t Ht. apply H. eauto.
  - intros H [t Ht]. exact (H t Ht).
Qed.

Lemma HasSuffix_unfold s p :
  HasSuffix s p =
  if String.eqb s p then true
  else match s with
       | EmptyString => false
       | String _ s' => HasSuffix s' p
       end.
Proof. destruct s; reflexivity. Qed.

Lemma HasSuffix_spec s p : HasSuffix s p = true <-> exists t, s = t +:+ p.
Proof.
  induction s as [|b s IH]; rewrite HasSuffix_unfold;
    (match goal with |- context [String.eqb ?x p] =>
       destruct (String.eqb_spec x p) as [<-|Hne] end);
    try (split; [exists ""; reflexivity | reflexivity]).
  - split; [discriminate | intros [t Ht]].
    symmetry in Ht. apply string_app_eq_nil in Ht. destruct Ht; congruence.
  - rewrite IH. split; intros [t Ht].
    + exists (String b t). rewrite string_app_cons. congruence.
    + destruct t as [|c t]; [rewrite string_app_nil_l in Ht; congruence |].
      rewrite string_app_cons in Ht. exists t. congruence.
Qed.

Lemma HasSuffix_app t p : HasSuffix (t +:+ p) p = true.
Proof. apply HasSuffix_spec. eauto. Qed.

(** The order of Go's [<] on strings, byte by byte. *)

Lemma ascii_compare_refl a : Ascii.compare a a = Eq.
Proof. unfold Ascii.compare. apply N.compare_refl. Qed.

Lemma ascii_compare_Lt_trans a b c :
  Ascii.compare a b = Lt -> Ascii.compare b c = Lt -> Ascii.compare a c = Lt.
Proof. unfold Ascii.compare. rewrite !N.compare_lt_iff. lia. Qed.

Lemma string_compare_refl s : String.compare s s = Eq.
Proof. induction s as [|a s IH]; simpl; [reflexivity | by rewrite ascii_compare_refl]. Qed.

Lemma string_compare_Lt_trans s : forall t u,
  String.compare s t = Lt -> String.compare t u = Lt -> String.compare s u = Lt.
Proof.
  induction s as [|a s IH]; intros [|b t] [|c u]; simpl; try congruence.
  destruct (Ascii.compare a b) eqn:Eab; try discriminate;
    destruct (Ascii.compare b c) eqn:Ebc; try discriminate.
  - apply Ascii.compare_eq_iff in Eab as ->, Ebc as ->. rewrite ascii_compare_refl. apply IH.
  - apply Ascii.compare_eq_iff in Eab as ->. by rewrite Ebc.
  - apply Ascii.compare_eq_iff in Ebc as <-. by rewrite Eab.
  - by rewrite (ascii_compare_Lt_trans _ _ _ Eab Ebc).
Qed.

Lemma ltb_irrefl s : String.ltb s s = false.
Proof. unfold String.ltb. by rewrite string_compare_refl. Qed.

Lemma ltb_trans s t u :
  String.ltb s t = true -> String.ltb t u = true -> String.ltb s u = true.
Proof.
  unfold String.ltb. intros Hs Ht.
  destruct (String.compare s t) eqn:E1; try discriminate.
  destruct (String.compare t u) eqn:E2; try discriminate.
  by rewrite (string_compare_Lt_trans _ _ _ E1 E2).
Qed.

End Strings.

Arguments HasPrefix : simpl never.
Arguments HasSuffix : simpl never.

(** ** The first failure over a sequence

    Both loops of the program (over the linters of one entry, over the
    entries of the tree) stop at the first step that returns an error. *)

Section FirstSome.

Context {A B : Type}.
Implicit Types (f g : A -> option B) (l : list A).

Fixpoint first_some f l : option B :=
  match l with
  | [] => None
  | x :: l' => match f x with
               | Some b => Some b
               | None => first_some f l'
               end
  end.

Lemma first_some_nil f : first_some f [] = None.
Proof. reflexivity. Qed.

Lemma first_some_cons_None f x l :
  f x = None -> first_some f (x :: l) = first_some f l.
Proof. intros H. simpl. rewrite H. reflexivity. Qed.

Lemma first_some_cons_Some f x l b :
  f x = Some b -> first_some f (x :: l) = Some b.
Proof. intros H. simpl. rewrite H. reflexivity. Qed.

Lemma first_some_app f l1 l2 :
  first_some f (l1 ++ l2) =
  match first_some f l1 with
  | Some b => Some b
  | None => first_some f l2
  end.
Proof.
  induction l1 as [|x l1 IH]; simpl; [reflexivity |].
  destruct (f x); [reflexivity | exact IH].
Qed.

Lemma first_some_None f l :
  first_some f l = None <-> Forall (fun x => f x = None) l.
Proof.
  induction l as [|x l IH]; simpl.
  - split; [constructor | reflexivity].
  - rewrite Forall_cons_iff, <- IH. destruct (f x); intuition congruence.
Qed.

Lemma first_some_Some f l b :
  first_some f l = Some b <->
  exists l1 x l2, l = l1 ++ x :: l2 /\ first_some f l1 = None /\ f x = Some b.
Proof.
  induction l as [|x l IH]; simpl.
  - split; [discriminate | intros (l1 & y & l2 & H & _); destruct l1; discriminate].
  - destruct (f x) as [b'|] eqn:E.
    + split.
      * intros [= ->]. exists [], x, l. auto.
      * intros ([|y l1] & z & l2 & H & H1 & H2); simpl in *.
        -- inversion H; subst. congruence.
        -- inversion H; subst. rewrite E in H1. discriminate.
    + rewrite IH. split.
      * intros (l1 & y & l2 & -> & H1 & H2).
        exists (x :: l1), y, l2. simpl. rewrite E. auto.
      * intros ([|y l1] & z & l2 & H & H1 & H2); simpl in *.
        -- inversion H; subst. congruence.
        -- inversion H; subst. rewrite E in H1. eauto 6.
Qed.

Lemma first_some_ext f g l :
  (forall x, In x l -> f x = g x) -> first_some f l = first_some g l.
Proof.
  induction l as [|x l IH]; simpl; intros H; [reflexivity |].
  rewrite (H x), IH by auto. reflexivity.
Qed.

Lemma first_some_In f l b :
  first_some f l = Some b -> exists x, In x l /\ f x = Some b.
Proof.
  rewrite first_some_Some. intros (l1 & x & l2 & -> & _ & H).
  exists x. split; [apply in_elt | exact H].
Qed.

Lemma first_some_const_None l : first_some (fun _ : A => @None B) l = None.
Proof. induction l; simpl; auto. Qed.

Lemma first_some_singleton f x : first_some f [x] = f x.
Proof. simpl. destruct (f x); reflexivity. Qed.

End FirstSome.

Lemma first_some_map {A B C : Type} (f : B -> option C) (g : A -> B) (l : list A) :
  first_some f (map g l) = first_some (fun x => f (g x)) l.
Proof.
  induction l as [|x l IH]; simpl; [reflexivity |].
  destruct (f (g x)); [reflexivity | exact IH].
Qed.

(** Elements on which [f] gives nothing can be filtered out. *)
Lemma first_some_option_map {A B C : Type} (f : A -> option B) (g : B -> C) (l : list A) :
  first_some (fun x => option_map g (f x)) l = option_map g (first_some f l).
Proof. induction l as [|x l IH]; simpl; [reflexivity |]. destruct (f x); auto. Qed.

Lemma first_some_filter {A B : Type} (f : A -> option B) (p : A -> bool) (l : list A) :
  (forall x, In x l -> p x = false -> f x = None) ->
  first_some f (List.filter p l) = first_some f l.
Proof.
  induction l as [|x l IH]; simpl; [reflexivity |]. intros H.
  destruct (p x) eqn:E; simpl.
  - destruct (f x); [reflexivity | apply IH; auto].
  - rewrite (H x (or_introl eq_refl) E). apply IH; auto.
Qed.

(** A fold over fewer elements, in the same order, finds at most what
    the fold over all of them finds. *)
Lemma first_some_sublist_None {A B : Type} (f : A -> option B) (l' l : list A) :
  sublist l' l -> first_some f l = None -> first_some f l' = None.
Proof.
  rewrite !first_some_None, !Forall_forall. intros Hs H x Hx.
  exact (H x (elem_of_sublist _ _ _ Hx Hs)).
Qed.

(** When the element the fold stops at is kept, and stands once in the
    list, the fold over the kept elements stops at it too. *)
Lemma first_some_sublist_Some {A B : Type} (f : A -> option B) (l' l1 l2 : list A) x b :
  NoDup (l1 ++ x :: l2) -> sublist l' (l1 ++ x :: l2) -> x ∈ l' ->
  first_some f l1 = None -> f x = Some b -> first_some f l' = Some b.
Proof.
  intros Hn (k1 & k2 & -> & H1 & H2)%sublist_app_r Hx Hl1 Hfx.
  rewrite first_some_app, (first_some_sublist_None f _ _ H1 Hl1).
  apply NoDup_app in Hn as (_ & Hn1 & [Hn2 _]%NoDup_cons).
  apply sublist_cons_r in H2 as [H2|(k & -> & _)]; [| by apply first_some_cons_Some].
  apply elem_of_app in Hx as [Hx|Hx].
  - destruct (Hn1 x (elem_of_sublist _ _ _ Hx H1)). left.
  - destruct (Hn2 (elem_of_sublist _ _ _ Hx H2)).
Qed.

#[export] Hint Rewrite @first_some_nil @first_some_app @first_some_singleton
  @first_some_const_None
  @first_some_map : lint.
#[export] Hint Rewrite string_app_nil_l string_app_cons string_app_nil_r
  string_app_assoc : lint.
#[export] Hint Resolve HasPrefix_app HasSuffix_app : lint.

(** Rewrite with the equations of [first_some] and simplify. *)
Ltac simp_first := autorewrite with lint; simpl.
