(* ===== verification/Errors.v ===== *)
(** * Go error values, [fmt.Errorf] and results

    The program builds every error it returns with [fmt.Errorf], and
    [fs.WalkDir] tells its two sentinel errors from all others by identity.
    [error] has one constructor for each: a plain message, a message that
    wraps a cause ([%w]), and the sentinels [SkipDir] and [SkipAll].
    [result] is the sum behind a [(value, error)] return, [ret] tells a
    return from a panic. *)

From S2P Require Import Prelude.

(** ** Errors *)

Inductive error : Type :=
| errorString (s : string)
| wrapError (msg : string) (err : error)
| SkipDir
| SkipAll.

#[export] Instance error_eq_dec : EqDecision error.
Proof. solve_decision. Defined.

(** The [Error] method: the message. *)
Definition Error (e : error) : string :=
  match e with
  | errorString s => s
  | wrapError msg _ => msg
  | SkipDir => "skip this directory"
  | SkipAll => "skip everything and stop the walk"
  end.

(** [errors.Unwrap]. *)
Definition Unwrap (e : error) : option error :=
  match e with
  | wrapError _ err => Some err
  | _ => None
  end.

(** [errors.Is]: [target] is [err] or is in the chain [err] wraps. *)
Fixpoint Is (err target : error) : bool :=
  if decide (err = target) then true
  else match err with
       | wrapError _ e => Is e target
       | _ => false
       end.

(** A walk function asks to skip by returning one of the sentinels itself,
    not an error that wraps it. *)
Definition isSkip (e : error) : bool :=
  match e with
  | SkipDir | SkipAll => true
  | _ => false
  end.

(** ** Results: Go's [(value, error)] returns *)

Inductive result (A : Type) : Type :=
| Ok (a : A)
| Err (e : error).
Arguments Ok {A} a.
Arguments Err {A} e.

(** ** Returns and panics

    A Go function either returns or panics.  The only panic the program
    can raise is the call of a method on a [nil] directory entry. *)

Inductive ret (A : Type) : Type :=
| Return (a : A)
| Panic.
Arguments Return {A} a.
Arguments Panic {A}.

(** What ends a loop early: a failure that is returned, or a panic. *)
Inductive stop : Type :=
| Failed (e : error)
| Panicked.

(** How a step of a loop ended. *)
Definition stopOf (r : ret (option error)) : option stop :=
  match r with
  | Return None => None
  | Return (Some e) => Some (Failed e)
  | Panic => Some Panicked
  end.

(** How a loop that stopped (or did not) returns. *)
Definition retOf (s : option stop) : ret (option error) :=
  match s with
  | None => Return None
  | Some (Failed e) => Return (Some e)
  | Some Panicked => Panic
  end.

(** ** [fmt.Sprintf] and [fmt.Errorf], verbs [%s], [%w] and [%%] *)

(** An operand: a string, or an error (printed as its message). *)
Inductive arg : Type :=
| argS (s : string)
| argE (e : error).

Definition show (a : arg) : string :=
  match a with
  | argS s => s
  | argE e => Error e
  end.

Definition isVerb (c : ascii) : bool := Ascii.eqb c "s" || Ascii.eqb c "w".

(** The text with each verb replaced by its operand.  A verb with no
    operand left prints as [%!v(MISSING)], as in Go. *)
Fixpoint Sprintf (format : string) (args : list arg) : string :=
  match format with
  | EmptyString => EmptyString
  | String c rest =>
      if Ascii.eqb c "%" then
        match rest with
        | EmptyString => "%!(NOVERB)"
        | String v rest' =>
            if isVerb v then
              match args with
              | a :: args' => show a +:+ Sprintf rest' args'
              | [] => "%!" +:+ String v "(MISSING)" +:+ Sprintf rest' []
              end
            else if Ascii.eqb v "%" then String "%" (Sprintf rest' args)
            else String "%" (String v (Sprintf rest' args))
        end
      else String c (Sprintf rest args)
  end.

(** The operand of the first [%w] verb, when it is an error. *)
Fixpoint wrapped (format : string) (args : list arg) : option error :=
  match format with
  | EmptyString => None
  | String c rest =>
      if Ascii.eqb c "%" then
        match rest with
        | EmptyString => None
        | String v rest' =>
            if isVerb v then
              match args with
              | argE e :: args' =>
                  if Ascii.eqb v "w" then Some e else wrapped rest' args'
              | argS _ :: args' => wrapped rest' args'
              | [] => None
              end
            else wrapped rest' args
        end
      else wrapped rest args
  end.

Definition Errorf (format : string) (args : list arg) : error :=
  match wrapped format args with
  | Some e => wrapError (Sprintf format args) e
  | None => errorString (Sprintf format args)
  end.

(** [Contains s sub]: [sub] occurs in [s] ([strings.Contains]). *)
Definition Contains (s sub : string) : Prop :=
  exists a b, s = a +:+ sub +:+ b.

(** ** Lemmas *)

Lemma Error_Errorf format args : Error (Errorf format args) = Sprintf format args.
Proof. unfold Errorf. destruct (wrapped format args); reflexivity. Qed.

Lemma isSkip_Errorf format args : isSkip (Errorf format args) = false.
Proof. unfold Errorf. destruct (wrapped format args); reflexivity. Qed.

Lemma isSkip_spec e : isSkip e = true <-> e = SkipDir \/ e = SkipAll.
Proof. destruct e; simpl; intuition congruence. Qed.

Lemma Errorf_not_Skip format args :
  Errorf format args <> SkipDir /\ Errorf format args <> SkipAll.
Proof.
  pose proof (isSkip_Errorf format args) as H.
  split; intros E; rewrite E in H; discriminate.
Qed.

Lemma Unwrap_Errorf format args : Unwrap (Errorf format args) = wrapped format args.
Proof. unfold Errorf. destruct (wrapped format args); reflexivity. Qed.

Lemma Is_refl e : Is e e = true.
Proof. destruct e; simpl; try case_decide; congruence. Qed.

Lemma Is_wrapError msg e target : Is e target = true -> Is (wrapError msg e) target = true.
Proof. intros H. simpl. case_decide; [reflexivity | exact H]. Qed.

Lemma Is_Unwrap e e' target :
  Unwrap e = Some e' -> Is e' target = true -> Is e target = true.
Proof. destruct e; simpl; intros [= ->]. apply Is_wrapError. Qed.

Lemma retOf_stopOf r : retOf (stopOf r) = r.
Proof. destruct r as [[e|]|]; reflexivity. Qed.

Lemma stopOf_retOf s : stopOf (retOf s) = s.
Proof. destruct s as [[e|]|]; reflexivity. Qed.

Lemma stopOf_None r : stopOf r = None <-> r = Return None.
Proof. destruct r as [[e|]|]; simpl; split; congruence. Qed.

Lemma ret_eta (r : ret (option error)) :
  match r with
  | Panic => Panic
  | Return (Some err) => Return (Some err)
  | Return None => Return None
  end = r.
Proof. destruct r as [[e|]|]; reflexivity. Qed.

Lemma stopOf_Panicked r : stopOf r = Some Panicked <-> r = Panic.
Proof. destruct r as [[e|]|]; simpl; split; congruence. Qed.

Lemma stopOf_Failed r e : stopOf r = Some (Failed e) <-> r = Return (Some e).
Proof. destruct r as [[e'|]|]; simpl; split; congruence. Qed.

Lemma retOf_None s : retOf s = Return None <-> s = None.
Proof. destruct s as [[e|]|]; simpl; split; congruence. Qed.

Lemma retOf_Some s e : retOf s = Return (Some e) <-> s = Some (Failed e).
Proof. destruct s as [[e'|]|]; simpl; split; congruence. Qed.

Lemma retOf_Panic s : retOf s = Panic <-> s = Some Panicked.
Proof. destruct s as [[e|]|]; simpl; split; congruence. Qed.

Lemma Contains_refl s : Contains s s.
Proof. exists "", "". rewrite string_app_nil_r. reflexivity. Qed.

Lemma Contains_app_l s t sub : Contains t sub -> Contains (s +:+ t) sub.
Proof.
  intros (a & b & ->). exists (s +:+ a), b. rewrite string_app_assoc. reflexivity.
Qed.

Lemma Contains_app_r s t sub : Contains s sub -> Contains (s +:+ t) sub.
Proof.
  intros (a & b & ->). exists a, (b +:+ t). rewrite !string_app_assoc. reflexivity.
Qed.

Lemma Contains_cons c t sub : Contains t sub -> Contains (String c t) sub.
Proof. apply (Contains_app_l (String c "")). Qed.

#[export] Hint Resolve Contains_refl Contains_app_l Contains_app_r Contains_cons : lint.
#[export] Hint Rewrite Error_Errorf isSkip_Errorf Unwrap_Errorf
  retOf_stopOf stopOf_retOf : lint.
