(* ===== verification/Regexp.v ===== *)
(** * Regular expressions: the fragment of Go's [regexp] the linters use

    The four patterns of the source are written with literals, the anchors
    [^] and [$], groups, [|] and [?].  [Compile] parses that fragment with
    the stack discipline of [regexp/syntax] (operands are pushed, [|] and
    [(] are markers, [concat] and [alternate] collapse what is above the
    topmost marker); any other metacharacter is refused.  [matches] is the
    meaning of an expression: the text is split into what comes before the
    match, the match and what comes after, so that [^] and [$] can look at
    their context.  [MatchString] is the executable search, proved to
    decide the meaning.  Because the fragment has no repetition, an
    expression denotes a finite list of anchored words, [alts]; matching is
    a prefix, suffix, equality or substring test on each. *)

From S2P Require Import Prelude.

(** ** Syntax *)

Inductive Regexp : Type :=
| NoMatch
| EmptyMatch
| Literal (c : ascii)
| BeginText
| EndText
| Capture (r : Regexp)
| Quest (r : Regexp)
| Concat (r1 r2 : Regexp)
| Alternate (r1 r2 : Regexp).

#[export] Instance Regexp_eq_dec : EqDecision Regexp.
Proof. solve_decision. Defined.

(** ** Parsing: [regexp/syntax.Parse] on the fragment *)

Inductive item : Type :=
| IRegexp (r : Regexp)
| ILeftParen
| IVerticalBar.

(** The operands above the topmost marker, bottom first, and the rest. *)
Fixpoint popOperands (stk : list item) (acc : list Regexp) : list Regexp * list item :=
  match stk with
  | IRegexp r :: stk' => popOperands stk' (r :: acc)
  | _ => (acc, stk)
  end.

(** [collapse]: one operand stays as it is, several are joined by [op]. *)
Definition collapse (op : Regexp -> Regexp -> Regexp) (empty : Regexp)
    (subs : list Regexp) : Regexp :=
  match subs with
  | [] => empty
  | r :: subs' => fold_left op subs' r
  end.

Definition concat (stk : list item) : list item :=
  let '(subs, rest) := popOperands stk [] in
  IRegexp (collapse Concat EmptyMatch subs) :: rest.

Definition alternate (stk : list item) : list item :=
  let '(subs, rest) := popOperands stk [] in
  IRegexp (collapse Alternate NoMatch subs) :: rest.

(** [swapVerticalBar]: an operand that sits on a bar goes below it. *)
Definition swapVerticalBar (stk : list item) : option (list item) :=
  match stk with
  | IRegexp r :: IVerticalBar :: stk' => Some (IVerticalBar :: IRegexp r :: stk')
  | _ => None
  end.

Definition parseVerticalBar (stk : list item) : list item :=
  let stk1 := concat stk in
  match swapVerticalBar stk1 with
  | Some stk2 => stk2
  | None => IVerticalBar :: stk1
  end.

(** The alternation of what is above the topmost parenthesis. *)
Definition closeAlternation (stk : list item) : list item :=
  let stk1 := concat stk in
  alternate match swapVerticalBar stk1 with
            | Some (_ :: stk2) => stk2
            | _ => stk1
            end.

Definition parseRightParen (stk : list item) : option (list item) :=
  match closeAlternation stk with
  | IRegexp r :: ILeftParen :: stk' => Some (IRegexp (Capture r) :: stk')
  | _ => None
  end.

Definition parseQuest (stk : list item) : option (list item) :=
  match stk with
  | IRegexp r :: stk' => Some (IRegexp (Quest r) :: stk')
  | _ => None
  end.

Definition isMeta (c : ascii) : bool :=
  existsb (Ascii.eqb c) ["*"; "+"; "."; "["; "]"; "{"; "}"; "\"]%char.

Fixpoint parseLoop (s : string) (stk : list item) : option Regexp :=
  match s with
  | EmptyString =>
      match closeAlternation stk with
      | [IRegexp r] => Some r
      | _ => None
      end
  | String c rest =>
      if Ascii.eqb c "(" then
        match rest with
        | String "?" _ => None
        | _ => parseLoop rest (ILeftParen :: stk)
        end
      else if Ascii.eqb c "|" then parseLoop rest (parseVerticalBar stk)
      else if Ascii.eqb c ")" then
        match parseRightParen stk with
        | Some stk' => parseLoop rest stk'
        | None => None
        end
      else if Ascii.eqb c "^" then parseLoop rest (IRegexp BeginText :: stk)
      else if Ascii.eqb c "$" then parseLoop rest (IRegexp EndText :: stk)
      else if Ascii.eqb c "?" then
        match rest, parseQuest stk with
        | String "?" _, _ => None
        | _, Some stk' => parseLoop rest stk'
        | _, None => None
        end
      else if isMeta c then None
      else parseLoop rest (IRegexp (Literal c) :: stk)
  end.

Definition Compile (pattern : string) : option Regexp := parseLoop pattern [].

Definition MustCompile (pattern : string) : Regexp :=
  match Compile pattern with
  | Some r => r
  | None => NoMatch
  end.

(** ** Meaning *)

Definition isEmpty (s : string) : bool :=
  match s with
  | EmptyString => true
  | String _ _ => false
  end.

(** [matches r b s a]: in the text [b +:+ s +:+ a], the expression [r]
    matches the part [s] that stands between [b] and [a]. *)
Inductive matches : Regexp -> string -> string -> string -> Prop :=
| matches_EmptyMatch b a : matches EmptyMatch b "" a
| matches_Literal c b a : matches (Literal c) b (String c "") a
| matches_BeginText a : matches BeginText "" "" a
| matches_EndText b : matches EndText b "" ""
| matches_Capture r b s a : matches r b s a -> matches (Capture r) b s a
| matches_Quest_some r b s a : matches r b s a -> matches (Quest r) b s a
| matches_Quest_none r b a : matches (Quest r) b "" a
| matches_Concat r1 r2 b s1 s2 a :
    matches r1 b s1 (s2 +:+ a) -> matches r2 (b +:+ s1) s2 a ->
    matches (Concat r1 r2) b (s1 +:+ s2) a
| matches_Alternate_l r1 r2 b s a : matches r1 b s a -> matches (Alternate r1 r2) b s a
| matches_Alternate_r r1 r2 b s a : matches r2 b s a -> matches (Alternate r1 r2) b s a.

(** The expression matches somewhere in the text. *)
Definition Matches (r : Regexp) (text : string) : Prop :=
  exists b s a, text = b +:+ s +:+ a /\ matches r b s a.

(** ** The matcher *)

(** [run r start inp k]: [r] matches a prefix of [inp] and [k] accepts
    what follows; [start] says whether [inp] is the whole text. *)
Fixpoint run (r : Regexp) (start : bool) (inp : string)
    (k : bool -> string -> bool) : bool :=
  match r with
  | NoMatch => false
  | EmptyMatch => k start inp
  | Literal c =>
      match inp with
      | String c' rest => Ascii.eqb c c' && k false rest
      | EmptyString => false
      end
  | BeginText => start && k start inp
  | EndText => isEmpty inp && k start inp
  | Capture r1 => run r1 start inp k
  | Quest r1 => run r1 start inp k || k start inp
  | Concat r1 r2 => run r1 start inp (fun st i => run r2 st i k)
  | Alternate r1 r2 => run r1 start inp k || run r2 start inp k
  end.

Definition accept (_ : bool) (_ : string) : bool := true.

(** Try every position of the text, from the left. *)
Fixpoint search (r : Regexp) (start : bool) (inp : string) : bool :=
  run r start inp accept ||
  match inp with
  | EmptyString => false
  | String _ rest => search r false rest
  end.

(** The method [MatchString] of a compiled expression. *)
Definition MatchString (r : Regexp) (s : string) : bool := search r true s.

(** ** Anchored words *)

Record word : Type := Word { atBegin : bool; letters : string; atEnd : bool }.

(** The concatenation of two anchored words, when it can match at all: an
    anchor in the middle of a non-empty match never holds. *)
Definition seqWord (x y : word) : list word :=
  if (atBegin y && negb (isEmpty (letters x))) || (atEnd x && negb (isEmpty (letters y)))
  then []
  else [Word (atBegin x || atBegin y) (letters x +:+ letters y) (atEnd x || atEnd y)].

Fixpoint alts (r : Regexp) : list word :=
  match r with
  | NoMatch => []
  | EmptyMatch => [Word false "" false]
  | Literal c => [Word false (String c "") false]
  | BeginText => [Word true "" false]
  | EndText => [Word false "" true]
  | Capture r1 => alts r1
  | Quest r1 => alts r1 ++ [Word false "" false]
  | Concat r1 r2 => x ← alts r1; y ← alts r2; seqWord x y
  | Alternate r1 r2 => alts r1 ++ alts r2
  end.

(** [strings.Contains] as a test. *)
Fixpoint Containsb (s sub : string) : bool :=
  HasPrefix s sub ||
  match s with
  | EmptyString => false
  | String _ s' => Containsb s' sub
  end.

Definition wordMatch (text : string) (x : word) : bool :=
  match atBegin x, atEnd x with
  | true, true => String.eqb text (letters x)
  | true, false => HasPrefix text (letters x)
  | false, true => HasSuffix text (letters x)
  | false, false => Containsb text (letters x)
  end.

(** The word [x] fits the part [s] between [b] and [a]. *)
Definition fits (x : word) (b s a : string) : Prop :=
  s = letters x /\ (atBegin x = true -> b = "") /\ (atEnd x = true -> a = "").

(** ** The matcher decides the meaning *)

Lemma isEmpty_true s : isEmpty s = true <-> s = "".
Proof. destruct s; simpl; split; congruence. Qed.

Lemma isEmpty_app s t : isEmpty (s +:+ t) = isEmpty s && isEmpty t.
Proof. destruct s; reflexivity. Qed.

Lemma run_complete r b s a :
  matches r b s a ->
  forall k, k (isEmpty (b +:+ s)) a = true -> run r (isEmpty b) (s +:+ a) k = true.
Proof.
  induction 1; intros k Hk; simpl;
    rewrite ?string_app_nil_r, ?string_app_nil_l in *; simpl; auto.
  - rewrite Ascii.eqb_refl.
    rewrite isEmpty_app, andb_false_r in Hk. exact Hk.
  - rewrite IHmatches by exact Hk. reflexivity.
  - rewrite Hk. apply orb_true_r.
  - rewrite string_app_assoc. apply IHmatches1, IHmatches2.
    rewrite string_app_assoc. exact Hk.
  - rewrite IHmatches by exact Hk. reflexivity.
  - rewrite IHmatches by exact Hk. apply orb_true_r.
Qed.

Lemma run_sound r : forall b inp k,
  run r (isEmpty b) inp k = true ->
  exists s a, inp = s +:+ a /\ matches r b s a /\ k (isEmpty (b +:+ s)) a = true.
Proof.
  induction r; intros b inp k; simpl; intros H.
  - discriminate.
  - exists "", inp. rewrite ?string_app_nil_l, ?string_app_nil_r. eauto using matches.
  - destruct inp as [|c' rest]; [discriminate |].
    apply andb_true_iff in H as [Hc Hk]. apply Ascii.eqb_eq in Hc as <-.
    exists (String c ""), rest. rewrite isEmpty_app, andb_false_r.
    eauto using matches.
  - apply andb_true_iff in H as [Hb Hk]. apply isEmpty_true in Hb as ->.
    exists "", inp. eauto using matches.
  - apply andb_true_iff in H as [Hi Hk]. apply isEmpty_true in Hi as ->.
    exists "", "". rewrite ?string_app_nil_l, ?string_app_nil_r. eauto using matches.
  - destruct (IHr _ _ _ H) as (s & a & -> & Hm & Hk). eauto 6 using matches.
  - apply orb_true_iff in H as [H|H].
    + destruct (IHr _ _ _ H) as (s & a & -> & Hm & Hk). eauto 6 using matches.
    + exists "", inp. rewrite ?string_app_nil_l, ?string_app_nil_r. eauto using matches.
  - destruct (IHr1 _ _ _ H) as (s1 & a1 & -> & Hm1 & H2).
    destruct (IHr2 _ _ _ H2) as (s2 & a & -> & Hm2 & Hk).
    exists (s1 +:+ s2), a. rewrite <- !string_app_assoc in *.
    rewrite string_app_assoc. eauto using matches.
  - apply orb_true_iff in H as [H|H].
    + destruct (IHr1 _ _ _ H) as (s & a & -> & Hm & Hk). eauto 6 using matches.
    + destruct (IHr2 _ _ _ H) as (s & a & -> & Hm & Hk). eauto 6 using matches.
Qed.

Lemma run_accept r b s a :
  matches r b s a -> run r (isEmpty b) (s +:+ a) accept = true.
Proof. intros H. apply run_complete; [exact H | reflexivity]. Qed.

Lemma isEmpty_snoc b c : isEmpty (b +:+ String c "") = false.
Proof. rewrite isEmpty_app. apply andb_false_r. Qed.

Lemma search_spec r inp : forall b,
  search r (isEmpty b) inp = true <->
  exists b' s a, inp = b' +:+ s +:+ a /\ matches r (b +:+ b') s a.
Proof.
  induction inp as [|c rest IH]; intros b; simpl; rewrite orb_true_iff; split.
  - intros [H|H]; [|discriminate].
    apply run_sound in H as (s & a & E & Hm & _).
    exists "", s, a. rewrite string_app_nil_r. split; [exact E | exact Hm].
  - intros ([|c b'] & s & a & E & Hm); [|discriminate].
    left. rewrite string_app_nil_r in Hm. rewrite string_app_nil_l in E.
    rewrite E. apply run_accept, Hm.
  - intros [H|H].
    + apply run_sound in H as (s & a & E & Hm & _).
      exists "", s, a. rewrite string_app_nil_r. split; [exact E | exact Hm].
    + rewrite <- (isEmpty_snoc b c) in H.
      apply IH in H as (b' & s & a & -> & Hm).
      exists (String c b'), s, a. rewrite string_app_assoc in Hm.
      split; [reflexivity | exact Hm].
  - intros ([|c' b'] & s & a & E & Hm).
    + left. rewrite string_app_nil_r in Hm. rewrite string_app_nil_l in E.
      rewrite E. apply run_accept, Hm.
    + right. rewrite string_app_cons in E. injection E as -> ->.
      rewrite <- (isEmpty_snoc b c'). apply IH.
      exists b', s, a. rewrite string_app_assoc. split; [reflexivity | exact Hm].
Qed.

Theorem MatchString_spec r text : MatchString r text = true <-> Matches r text.
Proof. exact (search_spec r text ""). Qed.

(** ** An expression is its list of anchored words *)

Lemma seqWord_fits x y b s1 s2 a :
  fits x b s1 (s2 +:+ a) -> fits y (b +:+ s1) s2 a ->
  exists z, z ∈ seqWord x y /\ fits z b (s1 +:+ s2) a.
Proof.
  intros (-> & Hb1 & He1) (-> & Hb2 & He2). unfold seqWord.
  assert (atBegin y && negb (isEmpty (letters x))
          || atEnd x && negb (isEmpty (letters y)) = false) as ->.
  { apply orb_false_iff; split; apply andb_false_iff.
    - destruct (atBegin y); [right | left; reflexivity].
      destruct (string_app_eq_nil _ _ (Hb2 eq_refl)) as [_ ->]. reflexivity.
    - destruct (atEnd x); [right | left; reflexivity].
      destruct (string_app_eq_nil _ _ (He1 eq_refl)) as [-> _]. reflexivity. }
  eexists; split; [apply list_elem_of_here |].
  split; [reflexivity |]; simpl; split; intros [H|H]%orb_true_iff; auto.
  - exact (proj1 (string_app_eq_nil _ _ (Hb2 H))).
  - exact (proj2 (string_app_eq_nil _ _ (He1 H))).
Qed.

Lemma seqWord_inv x y z b s a :
  z ∈ seqWord x y -> fits z b s a ->
  exists s1 s2, s = s1 +:+ s2 /\ fits x b s1 (s2 +:+ a) /\ fits y (b +:+ s1) s2 a.
Proof.
  unfold seqWord. case_match eqn:G; [intros []%elem_of_nil |].
  apply orb_false_iff in G as [G1 G2].
  intros ->%list_elem_of_singleton (-> & Hb & He); simpl in *.
  exists (letters x), (letters y). split; [reflexivity |].
  split; (split; [reflexivity |]); split; intros H; rewrite H in *; simpl in *.
  - auto.
  - apply negb_false_iff, isEmpty_true in G2 as ->. rewrite He by reflexivity. reflexivity.
  - apply negb_false_iff, isEmpty_true in G1 as ->.
    rewrite Hb by apply orb_true_r. reflexivity.
  - apply He, orb_true_r.
Qed.

Lemma matches_alts r b s a :
  matches r b s a <-> exists x, x ∈ alts r /\ fits x b s a.
Proof.
  split.
  - induction 1; simpl;
      try (eexists; split; [apply list_elem_of_here | repeat split; simpl; congruence]).
    + exact IHmatches.
    + destruct IHmatches as (x & Hx & Hf). exists x. rewrite elem_of_app. auto.
    + eexists. rewrite elem_of_app, list_elem_of_singleton.
      split; [right; reflexivity | repeat split; simpl; congruence].
    + destruct IHmatches1 as (x & Hx & Hfx), IHmatches2 as (y & Hy & Hfy).
      destruct (seqWord_fits _ _ _ _ _ _ Hfx Hfy) as (z & Hz & Hfz).
      exists z. split; [| exact Hfz].
      apply list_elem_of_bind. exists x. split; [| exact Hx].
      apply list_elem_of_bind. eauto.
    + destruct IHmatches as (x & Hx & Hf). exists x. rewrite elem_of_app. auto.
    + destruct IHmatches as (x & Hx & Hf). exists x. rewrite elem_of_app. auto.
  - revert b s a. induction r; simpl; intros b s a (x & Hx & Hf).
    + inv Hx.
    + apply list_elem_of_singleton in Hx as ->. destruct Hf as (-> & _ & _). constructor.
    + apply list_elem_of_singleton in Hx as ->. destruct Hf as (-> & _ & _). constructor.
    + apply list_elem_of_singleton in Hx as ->. destruct Hf as (-> & Hb & _).
      rewrite (Hb eq_refl). constructor.
    + apply list_elem_of_singleton in Hx as ->. destruct Hf as (-> & _ & He).
      rewrite (He eq_refl). constructor.
    + constructor. eauto.
    + apply elem_of_app in Hx as [Hx | ->%list_elem_of_singleton].
      * apply matches_Quest_some. eauto.
      * destruct Hf as (-> & _ & _). apply matches_Quest_none.
    + apply list_elem_of_bind in Hx as (x1 & Hx & Hx1).
      apply list_elem_of_bind in Hx as (x2 & Hx & Hx2).
      destruct (seqWord_inv _ _ _ _ _ _ Hx Hf) as (s1 & s2 & -> & H1 & H2).
      constructor; eauto.
    + apply elem_of_app in Hx as [Hx|Hx]; [apply matches_Alternate_l | apply matches_Alternate_r]; eauto.
Qed.

Lemma Containsb_spec s sub :
  Containsb s sub = true <-> exists b a, s = b +:+ sub +:+ a.
Proof.
  induction s as [|c s IH]; simpl; rewrite orb_true_iff, HasPrefix_spec.
  - split.
    + intros [[t Ht]|[=]]. exists "", t. exact Ht.
    + intros ([|c b] & a & E); [left; exists a; exact E | discriminate].
  - rewrite IH. split.
    + intros [[t Ht]|(b & a & ->)]; [exists "", t; exact Ht |].
      exists (String c b), a. reflexivity.
    + intros ([|c' b] & a & E); [left; exists a; exact E |].
      right. exists b, a. rewrite string_app_cons in E. congruence.
Qed.

Lemma wordMatch_spec text x :
  wordMatch text x = true <->
  exists b a, text = b +:+ letters x +:+ a /\ fits x b (letters x) a.
Proof.
  unfold wordMatch, fits. destruct x as [[] w []]; simpl.
  - rewrite String.eqb_eq. split.
    + intros ->. exists "", "". rewrite string_app_nil_r, string_app_nil_l. repeat split; congruence.
    + intros (b & a & -> & _ & Hb & Ha). rewrite Hb, Ha by reflexivity.
      rewrite string_app_nil_r, string_app_nil_l. reflexivity.
  - rewrite HasPrefix_spec. split.
    + intros [t ->]. exists "", t. rewrite string_app_nil_l. repeat split; congruence.
    + intros (b & a & -> & _ & Hb & _). rewrite Hb by reflexivity.
      exists a. apply string_app_nil_l.
  - rewrite HasSuffix_spec. split.
    + intros [t ->]. exists t, "". rewrite string_app_nil_r. repeat split; congruence.
    + intros (b & a & -> & _ & _ & Ha). rewrite Ha by reflexivity.
      rewrite string_app_nil_r. eauto.
  - rewrite Containsb_spec. split.
    + intros (b & a & ->). exists b, a. repeat split; discriminate.
    + intros (b & a & -> & _); eauto.
Qed.

Lemma Matches_alts r text :
  Matches r text <-> exists x, x ∈ alts r /\ wordMatch text x = true.
Proof.
  unfold Matches. setoid_rewrite matches_alts. setoid_rewrite wordMatch_spec. split.
  - intros (b & s & a & -> & x & Hx & Hf). pose proof Hf as [-> _]. eauto 6.
  - intros (x & Hx & b & a & -> & Hf). eauto 7.
Qed.

(** [MatchString] tests the text against each anchored word. *)
Theorem MatchString_alts r text :
  MatchString r text = existsb (wordMatch text) (alts r).
Proof.
  apply eq_true_iff_eq.
  rewrite MatchString_spec, Matches_alts, existsb_exists.
  by setoid_rewrite list_elem_of_In.
Qed.
