(* ===== verification/FS.v ===== *)
(** * The file system side: [io/fs] modes, entries, trees and [WalkDir]

    [lintPackageFs] sees the file tree through [fs.WalkDir] only, and the
    linters see an entry through [fs.DirEntry].  This file models both.

    - [FileMode] is Go's [uint32] of mode bits, kept in [Z] with its range
      [validMode]; the bit tests of the program are [Z.land]s.
    - A tree node [FsNode d dirs rderr] is an entry [d] with the outcome of
      [ReadDir] on it: the listing [dirs] and an optional error.  By the
      contract of [fs.ReadDirFS] a listing is sorted by file name;
      [sortedNode] states it, [sortByName] establishes it.
    - [walkDir] and [WalkDir] follow the library's code, including the
      second call of the function after a failed [ReadDir] and the
      treatment of [SkipDir] and [SkipAll].
    - A walk function returns an error, returns [nil], or panics ([ret]);
      a panic ends the walk.
    - [events] lists the calls an uninterrupted walk makes.  For a function
      that never asks to skip (class [NeverSkips]), the walk ends as the
      first call over [events] that does not return [nil]
      ([WalkDir_first_some]).
    - In [events] a call that carries an error comes right after the call
      on the same entry ([reportsFollow], [events_report]): the walk
      reports a failed [ReadDir] once its function has returned [nil] on
      the directory. *)

From S2P Require Import Prelude Errors.

#[local] Open Scope Z_scope.

(** ** File modes *)

Definition FileMode : Type := Z.

Definition ModeDir : FileMode := Z.shiftl 1 31.
Definition ModeAppend : FileMode := Z.shiftl 1 30.
Definition ModeExclusive : FileMode := Z.shiftl 1 29.
Definition ModeTemporary : FileMode := Z.shiftl 1 28.
Definition ModeSymlink : FileMode := Z.shiftl 1 27.
Definition ModeDevice : FileMode := Z.shiftl 1 26.
Definition ModeNamedPipe : FileMode := Z.shiftl 1 25.
Definition ModeSocket : FileMode := Z.shiftl 1 24.
Definition ModeSetuid : FileMode := Z.shiftl 1 23.
Definition ModeSetgid : FileMode := Z.shiftl 1 22.
Definition ModeCharDevice : FileMode := Z.shiftl 1 21.
Definition ModeSticky : FileMode := Z.shiftl 1 20.
Definition ModeIrregular : FileMode := Z.shiftl 1 19.

Definition ModeType : FileMode :=
  Z.lor ModeDir (Z.lor ModeSymlink (Z.lor ModeNamedPipe (Z.lor ModeSocket
    (Z.lor ModeDevice (Z.lor ModeCharDevice ModeIrregular))))).

Definition ModePerm : FileMode := 511.

(** A mode is a 32-bit unsigned integer. *)
Definition validMode (m : FileMode) : Prop := 0 <= m < 2 ^ 32.

(** [m & bit != 0]. *)
Definition hasMode (m bit : FileMode) : bool := negb (Z.land m bit =? 0).

(** ** Entries *)

Record FileInfo : Type := {
  fiName : string;
  Size : Z;
  Mode : FileMode
}.

(** A directory entry: its name, its type bits, and what [Info] returns
    when it is called (the metadata, or the error of a failed [lstat]). *)
Record DirEntry : Type := {
  Name : string;
  Type_ : FileMode;
  Info : result FileInfo
}.

Definition IsDir (d : DirEntry) : bool := hasMode (Type_ d) ModeDir.

(** [fs.FileInfoToDirEntry]: the entry of the root is built from the
    result of [Stat]; its [Info] cannot fail. *)
Definition FileInfoToDirEntry (info : FileInfo) : DirEntry :=
  {| Name := fiName info;
     Type_ := Z.land (Mode info) ModeType;
     Info := Ok info |}.

(** ** Trees *)

#[local] Unset Elimination Schemes.
Inductive fsnode : Type :=
| FsNode (entry : DirEntry) (dirs : list fsnode) (rderr : option error).
#[local] Set Elimination Schemes.

Definition nodeEntry (n : fsnode) : DirEntry := let 'FsNode d _ _ := n in d.
Definition nodeDirs (n : fsnode) : list fsnode := let 'FsNode _ l _ := n in l.
Definition nodeName (n : fsnode) : string := Name (nodeEntry n).

(** A file system as [WalkDir] reads it: the result of [Stat] on the root
    and of [ReadDir] on it. *)
Record FS : Type := {
  statRoot : result FileInfo;
  rootDirs : list fsnode;
  rootErr : option error
}.

Definition rootNode (fsys : FS) (info : FileInfo) : fsnode :=
  FsNode (FileInfoToDirEntry info) (rootDirs fsys) (rootErr fsys).

(** Induction on trees, with the hypothesis for every node of a listing. *)
Fixpoint fsnode_forall_ind (P : fsnode -> Prop)
    (step : forall d dirs rderr, Forall P dirs -> P (FsNode d dirs rderr))
    (n : fsnode) : P n :=
  match n with
  | FsNode d dirs rderr =>
      step d dirs rderr
        ((fix all (l : list fsnode) : Forall P l :=
            match l with
            | [] => @List.Forall_nil _ P
            | x :: l' => @List.Forall_cons _ P x l' (fsnode_forall_ind P step x) (all l')
            end) dirs)
  end.

(** ** Sorted listings *)

(** Insertion of a node by file name, bytes compared as Go compares
    strings. *)
Fixpoint insertByName (n : fsnode) (l : list fsnode) : list fsnode :=
  match l with
  | [] => [n]
  | m :: l' =>
      if String.leb (nodeName n) (nodeName m) then n :: l
      else m :: insertByName n l'
  end.

Definition sortByName (l : list fsnode) : list fsnode := foldr insertByName [] l.

(** Every listing of the tree is in increasing order of file name. *)
Fixpoint sortedNode (n : fsnode) : bool :=
  match n with
  | FsNode _ dirs _ =>
      let fix all (l : list fsnode) : bool :=
        match l with
        | [] => true
        | x :: l' => sortedNode x && all l'
        end in
      let fix inc (l : list fsnode) : bool :=
        match l with
        | x :: ((y :: _) as l') => String.ltb (nodeName x) (nodeName y) && inc l'
        | _ => true
        end in
      inc dirs && all dirs
  end.

Definition sortedFS (fsys : FS) : bool :=
  match statRoot fsys with
  | Ok info => sortedNode (rootNode fsys info)
  | Err _ => true
  end.

(** ** Paths *)

(** The elements of a path: what stands between its slashes. *)
Fixpoint segments (s : string) : list string :=
  match s with
  | EmptyString => [""]
  | String c s' =>
      if Ascii.eqb c "/" then "" :: segments s'
      else match segments s' with
           | x :: l => String c x :: l
           | [] => [String c ""]
           end
  end.

(** [path.Clean]: the shortest path that names what [path] names.  The
    loop of [Clean] reads one element of the path in a turn: an empty
    element and [.] are dropped; [..] removes the element written last,
    when there is one and it is not itself [..], is dropped at the start
    of a rooted path and is written at the start of any other; every
    other element is written.  [out] holds the elements written, the last
    one first.  The elements are joined by slashes, after a slash when the
    path is rooted; a path with no element left is [/] or [.]. *)
Definition Clean (path : string) : string :=
  let rooted := match path with String c _ => Ascii.eqb c "/" | EmptyString => false end in
  let turn (out : list string) (elem : string) : list string :=
    if String.eqb elem "" || String.eqb elem "." then out
    else if String.eqb elem ".." then
      match out with
      | x :: out' => if String.eqb x ".." then elem :: out else out'
      | [] => if rooted then [] else [elem]
      end
    else elem :: out in
  match rev (fold_left turn (segments path) []) with
  | [] => if rooted then "/" else "."
  | out => (if rooted then "/" else "") +:+ String.concat "/" out
  end.

(** [path.Join] of two elements: empty when both are, else [Clean] of the
    elements that come after the empty ones at the start, with a slash in
    between. *)
Definition Join (dir elem : string) : string :=
  if String.eqb dir "" then
    if String.eqb elem "" then "" else Clean elem
  else Clean (dir +:+ "/" +:+ elem).

(** ** The walk *)

(** [fs.WalkDirFunc]: the path, the entry ([nil] when [Stat] on the root
    failed) and the error of the walk, if any. *)
Definition WalkDirFunc : Type :=
  string -> option DirEntry -> option error -> ret (option error).

Definition isSkipDir (e : error) : bool := bool_decide (e = SkipDir).

(** What [walkDir] returns after a call of its function that failed with
    [err] on the entry [d]. *)
Definition skipped (err : error) (d : DirEntry) : option error :=
  if isSkipDir err && IsDir d then None else Some err.

(** [walkDir], with its loop over the listing as the inner [fix]. *)
Fixpoint walkDir (name : string) (n : fsnode) (walkDirFn : WalkDirFunc) :
    ret (option error) :=
  match n with
  | FsNode d dirs rderr =>
      match walkDirFn name (Some d) None with
      | Panic => Panic
      | Return (Some err) => Return (skipped err d)
      | Return None =>
          if negb (IsDir d) then Return None
          else
            match match rderr with
                  | Some err => walkDirFn name (Some d) (Some err)
                  | None => Return None
                  end with
            | Panic => Panic
            | Return (Some err) => Return (skipped err d)
            | Return None =>
                (fix loop (l : list fsnode) : ret (option error) :=
                   match l with
                   | [] => Return None
                   | d1 :: l' =>
                       match walkDir (Join name (nodeName d1)) d1 walkDirFn with
                       | Panic => Panic
                       | Return (Some err) =>
                           Return (if isSkipDir err then None else Some err)
                       | Return None => loop l'
                       end
                   end) dirs
            end
      end
  end.

(** The loop of [walkDir] over a listing, on its own. *)
Fixpoint walkDirs (name : string) (l : list fsnode) (walkDirFn : WalkDirFunc) :
    ret (option error) :=
  match l with
  | [] => Return None
  | d1 :: l' =>
      match walkDir (Join name (nodeName d1)) d1 walkDirFn with
      | Panic => Panic
      | Return (Some err) => Return (if isSkipDir err then None else Some err)
      | Return None => walkDirs name l' walkDirFn
      end
  end.

Definition WalkDir (fsys : FS) (root : string) (fn : WalkDirFunc) : ret (option error) :=
  let err :=
    match statRoot fsys with
    | Err err => fn root None (Some err)
    | Ok info => walkDir root (rootNode fsys info) fn
    end in
  match err with
  | Return (Some e) => Return (if isSkip e then None else Some e)
  | _ => err
  end.

(** ** The calls of an uninterrupted walk *)

(** One call of the walk function. *)
Definition call : Type := string * option DirEntry * option error.

(** How the call ends: [None] when the walk goes on. *)
Definition apply (fn : WalkDirFunc) (c : call) : option stop :=
  let '(name, d, err) := c in stopOf (fn name d err).

Fixpoint nodeEvents (name : string) (n : fsnode) : list call :=
  match n with
  | FsNode d dirs rderr =>
      (name, Some d, None) ::
      (if IsDir d then
         match rderr with
         | Some err => [(name, Some d, Some err)]
         | None => []
         end ++
         (fix each (l : list fsnode) : list call :=
            match l with
            | [] => []
            | d1 :: l' => nodeEvents (Join name (nodeName d1)) d1 ++ each l'
            end) dirs
       else [])
  end.

Fixpoint dirsEvents (name : string) (l : list fsnode) : list call :=
  match l with
  | [] => []
  | d1 :: l' => nodeEvents (Join name (nodeName d1)) d1 ++ dirsEvents name l'
  end.

Definition events (fsys : FS) (root : string) : list call :=
  match statRoot fsys with
  | Err err => [(root, None, Some err)]
  | Ok info => nodeEvents root (rootNode fsys info)
  end.

(** The call of the walk on an entry. *)
Definition entryCall (v : string * DirEntry) : call := (fst v, Some (snd v), None).

(** The entry and the path of a call that carries no error. *)
Definition visitOf (c : call) : option (string * DirEntry) :=
  match c with
  | (name, Some d, None) => Some (name, d)
  | _ => None
  end.

(** The entries an uninterrupted walk visits, with their paths. *)
Definition visits (fsys : FS) (root : string) : list (string * DirEntry) :=
  omap visitOf (events fsys root).

(** The paths of the calls of the walk, in order. *)
Definition paths (fsys : FS) (root : string) : list string :=
  map (fun c : call => fst (fst c)) (events fsys root).

(** No listing of the tree fails. *)
Fixpoint readableNode (n : fsnode) : bool :=
  match n with
  | FsNode _ dirs rderr =>
      match rderr with
      | None =>
          (fix all (l : list fsnode) : bool :=
             match l with
             | [] => true
             | x :: l' => readableNode x && all l'
             end) dirs
      | Some _ => false
      end
  end.

(** The root can be read and no listing fails. *)
Definition readableFS (fsys : FS) : bool :=
  match statRoot fsys with
  | Ok info => readableNode (rootNode fsys info)
  | Err _ => false
  end.

(** Every call that carries an error comes right after the call on the
    same entry: [prev] is the call before the first of the list. *)
Fixpoint reportsFollow (prev : option call) (l : list call) : Prop :=
  match l with
  | [] => True
  | c :: l' =>
      match c with
      | (name, d, Some _) => d <> None /\ prev = Some (name, d, None)
      | _ => True
      end /\ reportsFollow (Some c) l'
  end.

(** What the walk asks of its function to be a plain traversal: it never
    returns one of the sentinels. *)
Class NeverSkips (fn : WalkDirFunc) : Prop :=
  never_skips : forall name d err e,
    fn name d err = Return (Some e) -> isSkip e = false.

(** The weaker demand, under which every directory is walked in full: the
    function never returns [SkipDir].  It may end the walk with
    [SkipAll]. *)
Class NeverSkipsDir (fn : WalkDirFunc) : Prop :=
  never_skips_dir : forall name d err e,
    fn name d err = Return (Some e) -> isSkipDir e = false.

(** ** Lemmas: modes *)

Lemma land_pow2 m k :
  0 <= k -> Z.land m (2 ^ k) = if Z.testbit m k then 2 ^ k else 0.
Proof.
  intros Hk. apply Z.bits_inj'. intros n Hn.
  rewrite Z.land_spec, Z.pow2_bits_eqb by exact Hk.
  destruct (Z.eqb_spec k n) as [->|Hne].
  - destruct (Z.testbit m n); [rewrite Z.pow2_bits_true by exact Hn | rewrite Z.bits_0]; reflexivity.
  - rewrite andb_false_r. destruct (Z.testbit m k); [| rewrite Z.bits_0; reflexivity].
    rewrite Z.pow2_bits_false by exact Hne. reflexivity.
Qed.

Lemma hasMode_shiftl m k : 0 <= k -> hasMode m (Z.shiftl 1 k) = Z.testbit m k.
Proof.
  intros Hk. unfold hasMode. rewrite Z.shiftl_1_l, land_pow2 by exact Hk.
  destruct (Z.testbit m k); [| reflexivity].
  destruct (Z.eqb_spec (2 ^ k) 0) as [E|_]; [| reflexivity].
  pose proof (Z.pow_pos_nonneg 2 k). lia.
Qed.

Lemma hasMode_Setuid m : hasMode m ModeSetuid = Z.testbit m 23.
Proof. apply hasMode_shiftl. lia. Qed.

Lemma hasMode_Setgid m : hasMode m ModeSetgid = Z.testbit m 22.
Proof. apply hasMode_shiftl. lia. Qed.

Lemma hasMode_Dir m : hasMode m ModeDir = Z.testbit m 31.
Proof. apply hasMode_shiftl. lia. Qed.

Lemma IsDir_FileInfoToDirEntry info :
  IsDir (FileInfoToDirEntry info) = hasMode (Mode info) ModeDir.
Proof.
  unfold IsDir. simpl. rewrite !hasMode_Dir, Z.land_spec.
  replace (Z.testbit ModeType 31) with true by reflexivity. apply andb_true_r.
Qed.

(** ** Lemmas: the walk *)

Lemma walkDir_unfold name d dirs rderr fn :
  walkDir name (FsNode d dirs rderr) fn =
  match fn name (Some d) None with
  | Panic => Panic
  | Return (Some err) => Return (skipped err d)
  | Return None =>
      if negb (IsDir d) then Return None
      else
        match match rderr with
              | Some err => fn name (Some d) (Some err)
              | None => Return None
              end with
        | Panic => Panic
        | Return (Some err) => Return (skipped err d)
        | Return None => walkDirs name dirs fn
        end
  end.
Proof.
  simpl. repeat case_scrutinee; try reflexivity.
  all: induction dirs as [|d1 l IH]; simpl; [reflexivity |].
  all: destruct (walkDir _ d1 fn) as [[e|]|]; [reflexivity | exact IH | reflexivity].
Qed.

Lemma nodeEvents_unfold name d dirs rderr :
  nodeEvents name (FsNode d dirs rderr) =
  (name, Some d, None) ::
  (if IsDir d then
     match rderr with
     | Some err => [(name, Some d, Some err)]
     | None => []
     end ++ dirsEvents name dirs
   else []).
Proof.
  simpl. destruct (IsDir d); [| reflexivity]. do 2 f_equal.
  induction dirs as [|d1 l IH]; simpl; [reflexivity | rewrite IH; reflexivity].
Qed.

Lemma isSkipDir_isSkip e : isSkip e = false -> isSkipDir e = false.
Proof. destruct e; simpl; intros H; try discriminate; reflexivity. Qed.

Lemma skipped_not_skip err d : isSkip err = false -> skipped err d = Some err.
Proof. intros H. unfold skipped. rewrite (isSkipDir_isSkip _ H). reflexivity. Qed.

#[export] Instance NeverSkips_NeverSkipsDir fn `{!NeverSkips fn} : NeverSkipsDir fn.
Proof. intros name d err e H. apply isSkipDir_isSkip, (never_skips _ _ _ _ H). Qed.

Lemma skipped_not_skipDir err d : isSkipDir err = false -> skipped err d = Some err.
Proof. intros H. unfold skipped. by rewrite H. Qed.

Section Full.

Context (fn : WalkDirFunc) `{!NeverSkipsDir fn}.

Lemma apply_not_skipDir c e : apply fn c = Some (Failed e) -> isSkipDir e = false.
Proof.
  destruct c as [[name d] err]. unfold apply. intros H.
  apply (never_skips_dir name d err). destruct (fn name d err) as [[e'|]|]; simpl in H; congruence.
Qed.

Lemma first_some_not_skipDir l e :
  first_some (apply fn) l = Some (Failed e) -> isSkipDir e = false.
Proof. intros (c & _ & Hc)%first_some_In. exact (apply_not_skipDir _ _ Hc). Qed.

Lemma walkDirs_first_some name l :
  Forall (fun n => forall name,
            walkDir name n fn = retOf (first_some (apply fn) (nodeEvents name n))) l ->
  walkDirs name l fn = retOf (first_some (apply fn) (dirsEvents name l)).
Proof.
  induction 1 as [|d1 l H1 _ IH]; simpl; [reflexivity |].
  rewrite first_some_app, H1, IH.
  destruct (first_some _ (nodeEvents _ d1)) as [[e|]|] eqn:E; try reflexivity.
  simpl. rewrite (first_some_not_skipDir _ _ E). reflexivity.
Qed.

(** The walk of a node ends as the first call that does not return [nil]. *)
Lemma walkDir_first_some n : forall name,
  walkDir name n fn = retOf (first_some (apply fn) (nodeEvents name n)).
Proof.
  induction n as [d dirs rderr IH] using fsnode_forall_ind; intros name.
  rewrite walkDir_unfold, nodeEvents_unfold. simpl.
  destruct (fn name (Some d) None) as [[e|]|] eqn:E0; simpl; try reflexivity.
  { rewrite skipped_not_skipDir by exact (never_skips_dir _ _ _ _ E0). reflexivity. }
  destruct (IsDir d); simpl; [| reflexivity].
  rewrite first_some_app, (walkDirs_first_some _ _ IH).
  destruct rderr as [err|]; simpl; [| reflexivity].
  destruct (fn name (Some d) (Some err)) as [[e|]|] eqn:E1; simpl; try reflexivity.
  rewrite skipped_not_skipDir by exact (never_skips_dir _ _ _ _ E1). reflexivity.
Qed.

(** [WalkDir] ends at the first call of the walk that does not return
    [nil]; when that call returns [SkipAll] the walk ends without error. *)
Lemma WalkDir_first_stop fsys root :
  WalkDir fsys root fn =
  match retOf (first_some (apply fn) (events fsys root)) with
  | Return (Some e) => Return (if isSkip e then None else Some e)
  | r => r
  end.
Proof.
  unfold WalkDir, events. destruct (statRoot fsys) as [info|err]; cbv zeta.
  - rewrite walkDir_first_some. by destruct (first_some _ _) as [[e|]|].
  - simpl. by destruct (fn root None (Some err)) as [[e|]|].
Qed.

End Full.

Section Plain.

Context (fn : WalkDirFunc) `{!NeverSkips fn}.

Lemma apply_not_skip c e : apply fn c = Some (Failed e) -> isSkip e = false.
Proof.
  destruct c as [[name d] err]. unfold apply. intros H.
  apply (never_skips name d err). destruct (fn name d err) as [[e'|]|]; simpl in H; congruence.
Qed.

Lemma first_some_not_skip l e :
  first_some (apply fn) l = Some (Failed e) -> isSkip e = false.
Proof. intros (c & _ & Hc)%first_some_In. exact (apply_not_skip _ _ Hc). Qed.

(** [WalkDir] ends as the first call of the walk that does not return [nil]. *)
Theorem WalkDir_first_some fsys root :
  WalkDir fsys root fn = retOf (first_some (apply fn) (events fsys root)).
Proof.
  rewrite (WalkDir_first_stop fn).
  destruct (first_some _ _) as [[e|]|] eqn:E; simpl; try reflexivity.
  rewrite (first_some_not_skip _ _ E). reflexivity.
Qed.

End Plain.

(** *** Errors are reported after the entry *)

Lemma reportsFollow_app prev l1 l2 :
  reportsFollow prev l1 -> (forall prev', reportsFollow prev' l2) ->
  reportsFollow prev (l1 ++ l2).
Proof.
  revert prev. induction l1 as [|c l1 IH]; intros prev; cbn [app reportsFollow]; [auto |].
  intros [Hc H1] H2. split; [exact Hc | by apply IH].
Qed.

Lemma dirsEvents_reportsFollow name l :
  Forall (fun n => forall name prev, reportsFollow prev (nodeEvents name n)) l ->
  forall prev, reportsFollow prev (dirsEvents name l).
Proof.
  induction 1 as [|d1 l H1 _ IH]; intros prev; cbn [dirsEvents]; [exact I |].
  apply reportsFollow_app; [apply H1 | exact IH].
Qed.

Lemma nodeEvents_reportsFollow n : forall name prev, reportsFollow prev (nodeEvents name n).
Proof.
  induction n as [d dirs rderr IH] using fsnode_forall_ind; intros name prev.
  rewrite nodeEvents_unfold. split; [exact I |].
  destruct (IsDir d); [| exact I]. destruct rderr as [err|]; cbn [app].
  - split; [split; [discriminate | reflexivity] |]. by apply dirsEvents_reportsFollow.
  - by apply dirsEvents_reportsFollow.
Qed.

(** The call before a call that carries an error is the call on the same
    entry. *)
Lemma reportsFollow_split prev k1 k2 name d err :
  reportsFollow prev (k1 ++ (name, d, Some err) :: k2) ->
  d <> None /\
  match last k1 with Some c => Some c | None => prev end = Some (name, d, None).
Proof.
  revert prev. induction k1 as [|c k1 IH]; intros prev; cbn [app reportsFollow].
  - by intros [H _].
  - intros [_ H]. destruct (IH _ H) as [Hd Hl]. split; [exact Hd |].
    destruct k1 as [|c' k1]; [exact Hl |]. rewrite last_cons_cons.
    destruct (last (c' :: k1)) eqn:E; [exact Hl | by apply last_None in E].
Qed.

Lemma events_report fsys root k1 k2 name d err :
  events fsys root = k1 ++ (name, d, Some err) :: k2 ->
  (statRoot fsys = Err err /\ k1 = [] /\ name = root /\ d = None) \/
  exists e k0, d = Some e /\ k1 = k0 ++ [(name, Some e, None)].
Proof.
  unfold events. destruct (statRoot fsys) as [info|e].
  - intros H. right. pose proof (nodeEvents_reportsFollow (rootNode fsys info) root None) as Hf.
    rewrite H in Hf. apply reportsFollow_split in Hf as [Hd Hl].
    destruct d as [e|]; [| done]. destruct (last k1) as [c|] eqn:El; [| done].
    apply last_Some in El as [k0 ->]. injection Hl as ->. eauto.
  - intros H. left. destruct k1 as [|c [|c' k1]]; by simplify_eq/=.
Qed.

(** *** No call is made twice *)

(** In a sequence of calls where a report follows the call on its entry,
    no call is repeated when no entry is visited twice. *)
Lemma reportsFollow_NoDup l : forall prev,
  reportsFollow prev l ->
  Forall (fun c : call => c.1.2 = None -> c.2 <> None) l ->
  NoDup (omap visitOf (option_list prev ++ l)) -> NoDup l.
Proof.
  induction l as [|c l IH]; intros prev Hf Ha Hn; [constructor |].
  destruct Hf as [Hc Hf]. apply Forall_cons in Ha as [Hc0 Ha].
  rewrite omap_app in Hn. destruct c as [[p d] [err|]].
  - destruct Hc as [Hd ->]. destruct d as [e|]; [| done].
    cbn in Hn. apply NoDup_cons in Hn as [Hnin Hn].
    apply NoDup_cons. split; [| by apply (IH (Some (p, Some e, Some err)))].
    intros (k1 & k2 & ->)%list_elem_of_split.
    apply reportsFollow_split in Hf as [_ Hl].
    destruct (last k1) as [c|] eqn:E;
      [apply last_Some in E as [k0 ->] | apply last_None in E as ->; discriminate Hl].
    rewrite last_snoc in Hl. injection Hl as ->. apply Hnin, list_elem_of_omap.
    exists (p, Some e, None). split; [set_solver | done].
  - destruct d as [e|]; [| by destruct Hc0]. apply NoDup_app in Hn as (_ & _ & Hn).
    cbn in Hn. apply NoDup_cons. split; [| by apply (IH (Some (p, Some e, None)))].
    intros Hin. apply NoDup_cons in Hn as [Hnin _]. apply Hnin, list_elem_of_omap.
    by exists (p, Some e, None).
Qed.

(** The walk never calls its function with neither an entry nor an error. *)
Lemma nodeEvents_entry n : forall name c,
  In c (nodeEvents name n) -> exists p d err, c = (p, Some d, err).
Proof.
  induction n as [d dirs rderr IH] using fsnode_forall_ind; intros name c.
  rewrite nodeEvents_unfold. intros [<-|Hc]; [eauto |].
  destruct (IsDir d); [| destruct Hc].
  apply in_app_or in Hc as [Hc|Hc].
  - destruct rderr; [destruct Hc as [<-|[]]; eauto | destruct Hc].
  - clear -IH Hc. induction IH as [|d1 l H1 _ IHl]; simpl in Hc; [destruct Hc |].
    apply in_app_or in Hc as [Hc|Hc]; eauto.
Qed.

Lemma events_entry fsys root c :
  In c (events fsys root) ->
  exists p d err, c = (p, d, err) /\ (d = None -> err <> None).
Proof.
  unfold events. destruct (statRoot fsys) as [info|e].
  - intros (p & d & err & ->)%nodeEvents_entry. exists p, (Some d), err. split; congruence.
  - intros [<-|[]]. exists root, None, (Some e). split; congruence.
Qed.

(** A walk that visits no entry twice makes no call twice. *)
Lemma events_NoDup fsys root : NoDup (visits fsys root) -> NoDup (events fsys root).
Proof.
  unfold visits, events. destruct (statRoot fsys) as [info|e]; [| intros _; apply NoDup_singleton].
  intros Hn. apply (reportsFollow_NoDup _ None); [apply nodeEvents_reportsFollow | | exact Hn].
  apply Forall_forall. by intros c (p & d & err & ->)%list_elem_of_In%nodeEvents_entry.
Qed.

(** ** Lemmas: readable trees *)

Lemma readableNode_events n : forall name,
  readableNode n = true ->
  Forall (fun c => exists v, c = entryCall v) (nodeEvents name n).
Proof.
  induction n as [d dirs rderr IH] using fsnode_forall_ind; intros name.
  rewrite nodeEvents_unfold. simpl. destruct rderr; [discriminate |]. intros Hr.
  constructor; [exists (name, d); reflexivity |].
  destruct (IsDir d); [simpl | constructor].
  induction IH as [|d1 l H1 _ IHl]; simpl; [constructor |].
  apply andb_true_iff in Hr as [Hr1 Hr]. apply Forall_app. auto.
Qed.

Lemma omap_entryCall (l : list call) :
  Forall (fun c => exists v, c = entryCall v) l ->
  l = map entryCall (omap visitOf l).
Proof.
  induction 1 as [|c l [[p d] ->] _ IH]; [reflexivity |].
  simpl. f_equal. exact IH.
Qed.

(** On a readable tree the calls of the walk are its visits. *)
Lemma readable_events fsys root :
  readableFS fsys = true -> events fsys root = map entryCall (visits fsys root).
Proof.
  intros Hr. apply omap_entryCall. revert Hr. unfold readableFS, events.
  destruct (statRoot fsys); [apply readableNode_events | discriminate].
Qed.
