(* ===== verification/Linter.v ===== *)
(** * The linter registry and the four linters

    The declarations of [linter.go] from [LinterContext] to
    [isSetUidOrGidLinter], in the order of the source.

    - The types [config.Configuration] and [config.Checks] are declared in
      another package and this file never looks inside a value of either:
      they are the parameters [Configuration] and [Checks] of the section.
    - The map [Linters] is a [gmap string Linter]; a lookup [Linters !! n]
      is the two-valued Go lookup [linter, present := Linters[n]].
    - A [LinterFunc] takes the entry as Go passes it, an interface value
      that may be [nil] ([None]); a method call on [nil] panics. *)

From stdpp Require Import gmap.
From S2P Require Import Prelude Errors Regexp FS.

(** ** The compiled patterns *)

Definition isUsrLocalRegex : Regexp := MustCompile "^usr/local/".
Definition isVarEmptyRegex : Regexp := MustCompile "^var/empty/".
Definition isTempDirRegex : Regexp := MustCompile "^(var/)?(tmp|run)/".
Definition isCompatPackage : Regexp := MustCompile "-compat$".

Section Linters.

Context {Configuration Checks : Type}.

Record LinterContext : Type := {
  pkgname : string;
  cfg : option Configuration;
  chk : option Checks
}.

Definition LinterFunc : Type :=
  LinterContext -> string -> option DirEntry -> ret (option error).

Record Linter : Type := {
  LinterFunc_ : LinterFunc;
  Explain : string
}.

(** What the enforcer asks of a linter function: handed an entry, it
    returns. *)
Class Returns (f : LinterFunc) : Prop :=
  returns : forall lctx path (e : DirEntry), f lctx path (Some e) <> Panic.

(** ** The linters *)

Definition usrLocalLinter (lctx : LinterContext) (path : string)
    (_ : option DirEntry) : ret (option error) :=
  (* If this is already a compat package, do nothing. *)
  if MatchString isCompatPackage (pkgname lctx) then Return None
  else if MatchString isUsrLocalRegex path then
    Return (Some (Errorf "/usr/local path found in non-compat package" []))
  else Return None.

Definition varEmptyLinter (lctx : LinterContext) (path : string)
    (_ : option DirEntry) : ret (option error) :=
  if MatchString isVarEmptyRegex path then
    Return (Some (Errorf "Package writes to /var/empty" []))
  else Return None.

Definition tempDirLinter (lctx : LinterContext) (path : string)
    (_ : option DirEntry) : ret (option error) :=
  if MatchString isTempDirRegex path then
    Return (Some (Errorf "Package writes to a temp dir" []))
  else Return None.

Definition isSetUidOrGidLinter (lctx : LinterContext) (path : string)
    (d : option DirEntry) : ret (option error) :=
  match d with
  | None => Panic
  | Some d =>
      match Info d with
      | Err err => Return (Some err)
      | Ok info =>
          let mode := Mode info in
          if hasMode mode ModeSetuid then Return (Some (Errorf "File is setuid" []))
          else if hasMode mode ModeSetgid then Return (Some (Errorf "File is setgid" []))
          else Return None
      end
  end.

(** ** The registry *)

Definition Linters : gmap string Linter :=
  {[ "setuidgid" :=
       {| LinterFunc_ := isSetUidOrGidLinter;
          Explain := "Unset the setuid/setgid bit on the relevant files, or remove this linter" |};
     "tempdir" :=
       {| LinterFunc_ := tempDirLinter;
          Explain := "Remove any offending files in temporary dirs in the pipeline" |};
     "usrlocal" :=
       {| LinterFunc_ := usrLocalLinter;
          Explain := "This package should be a -compat package" |};
     "varempty" :=
       {| LinterFunc_ := varEmptyLinter;
          Explain := "Remove any offending files in /var/empty in the pipeline" |} ]}.

(** The names of the registry, in the order of the source. *)
Definition linterNames : list string := ["setuidgid"; "tempdir"; "usrlocal"; "varempty"].

End Linters.

Arguments LinterContext : clear implicits.
Arguments LinterFunc : clear implicits.
Arguments Linter : clear implicits.

(** ** The patterns as prefix and suffix tests (rewriting lemmas) *)

Lemma MatchString_words r text ws :
  alts r = ws -> MatchString r text = existsb (wordMatch text) ws.
Proof. intros <-. apply MatchString_alts. Qed.

Lemma MatchString_isUsrLocalRegex path :
  MatchString isUsrLocalRegex path = HasPrefix path "usr/local/".
Proof.
  rewrite (MatchString_words _ _ [Word true "usr/local/" false]) by reflexivity.
  apply orb_false_r.
Qed.

Lemma MatchString_isVarEmptyRegex path :
  MatchString isVarEmptyRegex path = HasPrefix path "var/empty/".
Proof.
  rewrite (MatchString_words _ _ [Word true "var/empty/" false]) by reflexivity.
  apply orb_false_r.
Qed.

Lemma MatchString_isTempDirRegex path :
  MatchString isTempDirRegex path =
  HasPrefix path "tmp/" || HasPrefix path "run/" ||
  HasPrefix path "var/tmp/" || HasPrefix path "var/run/".
Proof.
  rewrite (MatchString_words _ _
    [Word true "var/tmp/" false; Word true "var/run/" false;
     Word true "tmp/" false; Word true "run/" false]) by reflexivity.
  cbn [existsb wordMatch atBegin atEnd letters].
  destruct (HasPrefix path "tmp/"), (HasPrefix path "run/"),
    (HasPrefix path "var/tmp/"), (HasPrefix path "var/run/"); reflexivity.
Qed.

Lemma MatchString_isCompatPackage name :
  MatchString isCompatPackage name = HasSuffix name "-compat".
Proof.
  rewrite (MatchString_words _ _ [Word false "-compat" true]) by reflexivity.
  apply orb_false_r.
Qed.

#[export] Hint Rewrite MatchString_isUsrLocalRegex MatchString_isVarEmptyRegex
  MatchString_isTempDirRegex MatchString_isCompatPackage : lint.

(** ** The registry, entry by entry *)

Section Registry.

Context {Configuration Checks : Type}.
Abbreviation Linter := (Linter Configuration Checks).
Abbreviation LinterContext := (LinterContext Configuration Checks).
Implicit Types (lctx : LinterContext) (path name : string) (d : option DirEntry).

(** The four entries of the map literal. *)
Abbreviation setuidgidEntry := (@Build_Linter Configuration Checks isSetUidOrGidLinter
  "Unset the setuid/setgid bit on the relevant files, or remove this linter").
Abbreviation tempdirEntry := (@Build_Linter Configuration Checks tempDirLinter
  "Remove any offending files in temporary dirs in the pipeline").
Abbreviation usrlocalEntry := (@Build_Linter Configuration Checks usrLocalLinter
  "This package should be a -compat package").
Abbreviation varemptyEntry := (@Build_Linter Configuration Checks varEmptyLinter
  "Remove any offending files in /var/empty in the pipeline").

Lemma Linters_lookup name :
  Linters !! name =
  if decide ("setuidgid" = name) then Some setuidgidEntry
  else if decide ("tempdir" = name) then Some tempdirEntry
  else if decide ("usrlocal" = name) then Some usrlocalEntry
  else if decide ("varempty" = name) then Some varemptyEntry
  else None.
Proof.
  unfold Linters. rewrite !lookup_insert, lookup_singleton.
  repeat case_decide; reflexivity.
Qed.

Lemma Linters_setuidgid : Linters !! "setuidgid" = Some setuidgidEntry.
Proof. rewrite Linters_lookup. reflexivity. Qed.

Lemma Linters_tempdir : Linters !! "tempdir" = Some tempdirEntry.
Proof. rewrite Linters_lookup. reflexivity. Qed.

Lemma Linters_usrlocal : Linters !! "usrlocal" = Some usrlocalEntry.
Proof. rewrite Linters_lookup. reflexivity. Qed.

Lemma Linters_varempty : Linters !! "varempty" = Some varemptyEntry.
Proof. rewrite Linters_lookup. reflexivity. Qed.

Lemma Linters_lookup_Some name (l : Linter) :
  Linters !! name = Some l -> In name linterNames.
Proof.
  rewrite Linters_lookup. unfold linterNames.
  repeat case_decide; subst; simpl; intros ?; try discriminate; tauto.
Qed.

Lemma Linters_lookup_None name :
  ~ In name linterNames -> Linters !! name = (None : option Linter).
Proof.
  intros H. destruct (Linters !! name) as [l|] eqn:E; [| reflexivity].
  destruct (H (Linters_lookup_Some _ _ E)).
Qed.

(** The four linters return: the only method call on the entry, in
    [isSetUidOrGidLinter], is on an entry that is there. *)
#[export] Instance usrLocalLinter_Returns : Returns (@usrLocalLinter Configuration Checks).
Proof. intros lctx path e. unfold usrLocalLinter. repeat case_scrutinee; discriminate. Qed.

#[export] Instance varEmptyLinter_Returns : Returns (@varEmptyLinter Configuration Checks).
Proof. intros lctx path e. unfold varEmptyLinter. repeat case_scrutinee; discriminate. Qed.

#[export] Instance tempDirLinter_Returns : Returns (@tempDirLinter Configuration Checks).
Proof. intros lctx path e. unfold tempDirLinter. repeat case_scrutinee; discriminate. Qed.

#[export] Instance isSetUidOrGidLinter_Returns :
  Returns (@isSetUidOrGidLinter Configuration Checks).
Proof. intros lctx path e. cbn. repeat case_scrutinee; discriminate. Qed.

(** A registered linter handed an entry returns. *)
Lemma Linters_no_panic name (l : Linter) lctx path (e : DirEntry) :
  Linters !! name = Some l -> LinterFunc_ l lctx path (Some e) <> Panic.
Proof.
  rewrite Linters_lookup.
  repeat case_decide; intros [= <-]; cbn [LinterFunc_];
    [apply isSetUidOrGidLinter_Returns | apply tempDirLinter_Returns
    | apply usrLocalLinter_Returns | apply varEmptyLinter_Returns].
Qed.

(** What the registry promises the enforcer: every function it holds
    returns. *)
Lemma Linters_Returns name (l : Linter) : Linters !! name = Some l -> Returns (LinterFunc_ l).
Proof. intros H lctx path e. by apply (Linters_no_panic name). Qed.

(** ** The patterns *)

(** Package initialisation does not panic: each of the four patterns
    handed to [regexp.MustCompile] parses, and the compiled value is the
    parsed expression. *)
Theorem patterns_compile :
  Compile "^usr/local/" = Some isUsrLocalRegex /\
  Compile "^var/empty/" = Some isVarEmptyRegex /\
  Compile "^(var/)?(tmp|run)/" = Some isTempDirRegex /\
  Compile "-compat$" = Some isCompatPackage.
Proof. repeat split; vm_compute; reflexivity. Qed.

(** [isUsrLocalRegex] matches a path exactly when the path is
    [usr/local/] followed by anything: the match is anchored at the start
    and the slash after [local] is part of it. *)
Theorem isUsrLocalRegex_matches path :
  MatchString isUsrLocalRegex path = true <-> exists rest, path = "usr/local/" +:+ rest.
Proof. rewrite MatchString_isUsrLocalRegex. apply HasPrefix_spec. Qed.

(** [isVarEmptyRegex] matches a path exactly when the path is
    [var/empty/] followed by anything. *)
Theorem isVarEmptyRegex_matches path :
  MatchString isVarEmptyRegex path = true <-> exists rest, path = "var/empty/" +:+ rest.
Proof. rewrite MatchString_isVarEmptyRegex. apply HasPrefix_spec. Qed.

(** [isTempDirRegex] matches a path exactly when the path is one of
    [tmp/], [run/], [var/tmp/], [var/run/] followed by anything. *)
Theorem isTempDirRegex_matches path :
  MatchString isTempDirRegex path = true <->
  exists rest, path = "tmp/" +:+ rest \/ path = "run/" +:+ rest \/
               path = "var/tmp/" +:+ rest \/ path = "var/run/" +:+ rest.
Proof.
  rewrite MatchString_isTempDirRegex, !orb_true_iff, !HasPrefix_spec.
  split; [intros [[[[r H]|[r H]]|[r H]]|[r H]]; exists r; tauto |].
  intros (r & [H|[H|[H|H]]]); eauto.
Qed.

(** [isCompatPackage] matches a package name exactly when the name
    ends in [-compat]. *)
Theorem isCompatPackage_matches name :
  MatchString isCompatPackage name = true <-> exists stem, name = stem +:+ "-compat".
Proof. rewrite MatchString_isCompatPackage. apply HasSuffix_spec. Qed.

(** ** The linters, branch by branch *)

(** C5. [usrLocalLinter] returns [nil] for a package whose name ends in
    [-compat], whatever the path; for any other package it fails, with the
    message of the source, exactly on the paths that start with
    [usr/local/].  It never looks at the entry. *)
Theorem usrLocalLinter_spec lctx path d :
  usrLocalLinter lctx path d =
  if HasSuffix (pkgname lctx) "-compat" then Return None
  else if HasPrefix path "usr/local/"
       then Return (Some (errorString "/usr/local path found in non-compat package"))
       else Return None.
Proof. unfold usrLocalLinter. autorewrite with lint. reflexivity. Qed.

(** C8. [varEmptyLinter] fails, with the message of the source, exactly on
    the paths that start with [var/empty/]. *)
Theorem varEmptyLinter_spec lctx path d :
  varEmptyLinter lctx path d =
  if HasPrefix path "var/empty/"
  then Return (Some (errorString "Package writes to /var/empty"))
  else Return None.
Proof. unfold varEmptyLinter. autorewrite with lint. reflexivity. Qed.

(** C7. [tempDirLinter] fails, with the message of the source, exactly on
    the paths that start with [tmp/], [run/], [var/tmp/] or [var/run/]. *)
Theorem tempDirLinter_spec lctx path d :
  tempDirLinter lctx path d =
  if HasPrefix path "tmp/" || HasPrefix path "run/" ||
     HasPrefix path "var/tmp/" || HasPrefix path "var/run/"
  then Return (Some (errorString "Package writes to a temp dir"))
  else Return None.
Proof. unfold tempDirLinter. autorewrite with lint. reflexivity. Qed.

(** C6. [isSetUidOrGidLinter] on an entry: the error of [Info] is returned
    as it is; otherwise bit 23 of the mode (setuid) is tested before bit 22
    (setgid), so an entry with both is reported as setuid; with neither
    the linter returns [nil]. *)
Theorem isSetUidOrGidLinter_spec lctx path (e : DirEntry) :
  isSetUidOrGidLinter lctx path (Some e) =
  match Info e with
  | Err err => Return (Some err)
  | Ok info =>
      if Z.testbit (Mode info) 23 then Return (Some (errorString "File is setuid"))
      else if Z.testbit (Mode info) 22 then Return (Some (errorString "File is setgid"))
      else Return None
  end.
Proof.
  unfold isSetUidOrGidLinter. destruct (Info e) as [info|err]; [| reflexivity].
  cbv zeta. rewrite hasMode_Setuid, hasMode_Setgid. reflexivity.
Qed.

(** The registry holds exactly the four names of the source, each
    bound to its linter and its hint. *)
Theorem Linters_entries name (l : Linter) :
  Linters !! name = Some l <->
  (name = "setuidgid" /\ l = setuidgidEntry) \/
  (name = "tempdir" /\ l = tempdirEntry) \/
  (name = "usrlocal" /\ l = usrlocalEntry) \/
  (name = "varempty" /\ l = varemptyEntry).
Proof.
  rewrite Linters_lookup. split.
  - repeat case_decide; subst; intros [= <-]; tauto.
  - intros [[-> ->]|[[-> ->]|[[-> ->]|[-> ->]]]]; reflexivity.
Qed.

End Registry.
