(* ===== verification/Printing.v ===== *)
(** * Printing expressions: the parser and the printer are inverse

    [print] writes an expression of the fragment as a pattern.  [parsed]
    recognises the shape of the expressions the parser builds: an
    alternation of concatenations of pieces, nested to the left, a piece
    being an atom or an atom under [?], an atom a literal, an anchor or a
    group.  On that shape [Compile] reads back what [print] wrote; every
    pattern [Compile] accepts has that shape and is what [print] writes
    for its expression.  So the expressions of the four patterns of the
    source stand for their literals and for nothing else. *)

From stdpp Require Import gmap.
From S2P Require Import Prelude Regexp Linter.

(** ** The printer *)

Fixpoint print (r : Regexp) : string :=
  match r with
  | NoMatch | EmptyMatch => ""
  | Literal c => String c ""
  | BeginText => "^"
  | EndText => "$"
  | Capture r1 => "(" +:+ print r1 +:+ ")"
  | Quest r1 => print r1 +:+ "?"
  | Concat r1 r2 => print r1 +:+ print r2
  | Alternate r1 r2 => print r1 +:+ "|" +:+ print r2
  end.

(** ** The shape of a parsed expression *)

Definition isOperator (c : ascii) : bool :=
  existsb (Ascii.eqb c) ["("; ")"; "|"; "^"; "$"; "?"]%char.

(** A character that stands for itself in a pattern. *)
Definition plain (c : ascii) : bool := negb (isOperator c) && negb (isMeta c).

(** The levels of the grammar, from the tightest: an atom, a piece, a
    concatenation of one piece or more, a concatenation that may be empty,
    an alternation. *)
Definition atomLevel : nat := 0.
Definition pieceLevel : nat := 1.
Definition seqLevel : nat := 2.
Definition concatLevel : nat := 3.
Definition altLevel : nat := 4.

Fixpoint parsed (lv : nat) (r : Regexp) : bool :=
  match r with
  | NoMatch => false
  | EmptyMatch => concatLevel <=? lv
  | Literal c => plain c
  | BeginText | EndText => true
  | Capture r1 => parsed altLevel r1
  | Quest r1 => (pieceLevel <=? lv) && parsed atomLevel r1
  | Concat r1 r2 => (seqLevel <=? lv) && parsed seqLevel r1 && parsed pieceLevel r2
  | Alternate r1 r2 => (altLevel <=? lv) && parsed altLevel r1 && parsed concatLevel r2
  end.

(** The text does not start with a question mark. *)
Definition noQuest (s : string) : bool :=
  match s with
  | String "?" _ => false
  | _ => true
  end.

(** ** The stack of the parser after an expression *)

(** The pieces of a concatenation, pushed in order. *)
Fixpoint pushSeq (r : Regexp) (stk : list item) : list item :=
  match r with
  | EmptyMatch => stk
  | Concat r1 r2 => IRegexp r2 :: pushSeq r1 stk
  | _ => IRegexp r :: stk
  end.

(** The alternatives of an alternation, pushed in order. *)
Fixpoint pushAlts (r : Regexp) (stk : list item) : list item :=
  match r with
  | Alternate r1 r2 => IRegexp r2 :: pushAlts r1 stk
  | _ => IRegexp r :: stk
  end.

Fixpoint seqItems (r : Regexp) : list Regexp :=
  match r with
  | EmptyMatch => []
  | Concat r1 r2 => seqItems r1 ++ [r2]
  | _ => [r]
  end.

Fixpoint altItems (r : Regexp) : list Regexp :=
  match r with
  | Alternate r1 r2 => altItems r1 ++ [r2]
  | _ => [r]
  end.

(** The bottom of the stack or an open parenthesis: where an alternation
    starts. *)
Definition frame (stk : list item) : bool :=
  match stk with
  | [] | ILeftParen :: _ => true
  | _ => false
  end.

(** What the parser does on the text [print r] followed by [rest]. *)
Definition atomOK (r : Regexp) : Prop :=
  forall stk rest, parseLoop (print r +:+ rest) stk = parseLoop rest (IRegexp r :: stk).

Definition seqOK (r : Regexp) : Prop :=
  forall stk rest, noQuest rest = true ->
    parseLoop (print r +:+ rest) stk = parseLoop rest (pushSeq r stk).

Definition altOK (r : Regexp) : Prop :=
  forall base rest, frame base = true ->
    parseLoop (print r +:+ "|" +:+ rest) base =
    parseLoop rest (IVerticalBar :: pushAlts r base).

Definition closeOK (r : Regexp) : Prop :=
  forall base rest, frame base = true -> noQuest rest = true ->
    exists stk, parseLoop (print r +:+ rest) base = parseLoop rest stk /\
                closeAlternation stk = IRegexp r :: base.

(** ** The stack of the parser, read back *)

(** The operands above the topmost marker, bottom first, and what is
    below them. *)
Fixpoint operands (stk : list item) : list Regexp :=
  match stk with
  | IRegexp r :: stk' => operands stk' ++ [r]
  | _ => []
  end.

Fixpoint below (stk : list item) : list item :=
  match stk with
  | IRegexp _ :: stk' => below stk'
  | _ => stk
  end.

(** The level of the operands: pieces above a bar, concatenations under it. *)
Definition levelOf (under : bool) : nat := if under then concatLevel else pieceLevel.

(** The stacks the parser builds.  [under] tells whether the position is
    under a bar of the current group: there the operands are the
    alternatives read so far, and no second bar follows. *)
Fixpoint okStack (under : bool) (stk : list item) : bool :=
  match stk with
  | [] => true
  | IRegexp r :: stk' => parsed (levelOf under) r && okStack under stk'
  | IVerticalBar :: stk' =>
      negb under && match stk' with IRegexp _ :: _ => okStack true stk' | _ => false end
  | ILeftParen :: stk' => okStack false stk'
  end.

Definition separator (under : bool) : string := if under then "|" else "".

(** The text the parser has read when its stack is [stk]. *)
Fixpoint printStack (under : bool) (stk : list item) : string :=
  match stk with
  | [] => ""
  | IRegexp r :: stk' => printStack under stk' +:+ print r +:+ separator under
  | IVerticalBar :: stk' => printStack true stk'
  | ILeftParen :: stk' => printStack false stk' +:+ "("
  end.

Definition printItems (under : bool) (l : list Regexp) : string :=
  foldr (fun r s => print r +:+ separator under +:+ s) "" l.

Definition topQuest (stk : list item) : bool :=
  match stk with
  | IRegexp (Quest _) :: _ => true
  | _ => false
  end.

(** One character of [parseLoop]: the stack after it, if it is accepted. *)
Definition parseChar (c : ascii) (rest : string) (stk : list item) : option (list item) :=
  if Ascii.eqb c "(" then (if noQuest rest then Some (ILeftParen :: stk) else None)
  else if Ascii.eqb c "|" then Some (parseVerticalBar stk)
  else if Ascii.eqb c ")" then parseRightParen stk
  else if Ascii.eqb c "^" then Some (IRegexp BeginText :: stk)
  else if Ascii.eqb c "$" then Some (IRegexp EndText :: stk)
  else if Ascii.eqb c "?" then (if noQuest rest then parseQuest stk else None)
  else if isMeta c then None
  else Some (IRegexp (Literal c) :: stk).

(** The states of the parser: a stack it builds, and no question mark
    ahead of an operand that already has one. *)
Definition okState (s : string) (stk : list item) : Prop :=
  okStack false stk = true /\ (topQuest stk = true -> noQuest s = true).

(** ** Lemmas: levels *)

Lemma parsed_mono r lv lv' : (lv <= lv')%nat -> parsed lv r = true -> parsed lv' r = true.
Proof.
  intros Hle. destruct r; cbn [parsed]; try done;
    rewrite ?andb_true_iff, ?Nat.leb_le; intuition lia.
Qed.

(** Above the level of the concatenations there are the alternations only. *)
Lemma parsed_alt r :
  parsed altLevel r = true ->
  parsed concatLevel r = true \/
  exists r1 r2, r = Alternate r1 r2 /\ parsed altLevel r1 = true /\ parsed concatLevel r2 = true.
Proof.
  destruct r; cbn [parsed]; auto.
  rewrite !andb_true_iff. intros [[_ H1] H2]. right. eauto.
Qed.

(** A piece is one item, as it stands. *)
Lemma parsed_piece r stk : parsed pieceLevel r = true -> pushSeq r stk = IRegexp r :: stk.
Proof. destruct r; cbn; done. Qed.

(** ** Lemmas: the text of an expression *)

Lemma noQuest_cons c s : c <> "?"%char -> noQuest (String c s) = true.
Proof.
  intros Hc. unfold noQuest.
  destruct c as [[] [] [] [] [] [] [] []]; try reflexivity. by destruct Hc.
Qed.

Lemma plain_noQuest c : plain c = true -> c <> "?"%char.
Proof. by intros H ->. Qed.

(** The text of a concatenation of one piece or more starts with a
    character that is not a question mark. *)
Lemma noQuest_seq r s : parsed seqLevel r = true -> noQuest (print r +:+ s) = true.
Proof.
  revert s. induction r; intros s; cbn [parsed print];
    rewrite ?andb_true_iff, ?string_app_assoc, ?string_app_cons; try done.
  - intros H%plain_noQuest. by apply noQuest_cons.
  - intros [_ H]. apply IHr, (parsed_mono _ atomLevel); [unfold seqLevel, atomLevel; lia | done].
  - intros [[_ H] _]. by apply IHr1.
  - by intros [[? _] _].
Qed.

Lemma noQuest_print r s :
  parsed altLevel r = true -> noQuest s = true -> noQuest (print r +:+ s) = true.
Proof.
  revert s. induction r; intros s; cbn [parsed print];
    rewrite ?andb_true_iff, ?string_app_assoc, ?string_app_cons, ?string_app_nil_l; try done.
  - intros H%plain_noQuest _. by apply noQuest_cons.
  - intros [_ H] _. apply (noQuest_seq r), (parsed_mono _ atomLevel); [unfold seqLevel, atomLevel; lia | done].
  - intros [[_ H] _] _. by apply noQuest_seq.
  - intros [[_ H] _] _. by apply IHr1.
Qed.

(** ** Lemmas: one character of the parser *)

Lemma parseLoop_plain c rest stk :
  plain c = true -> parseLoop (String c rest) stk = parseLoop rest (IRegexp (Literal c) :: stk).
Proof.
  unfold plain, isOperator. cbn [existsb parseLoop].
  rewrite andb_true_iff, !negb_true_iff, !orb_false_iff. intros [(-> & -> & -> & -> & -> & -> & _) ->].
  reflexivity.
Qed.

Lemma parseLoop_open rest stk :
  noQuest rest = true -> parseLoop (String "(" rest) stk = parseLoop rest (ILeftParen :: stk).
Proof.
  intros H. cbn [parseLoop]. cbn [Ascii.eqb Bool.eqb].
  destruct rest as [|[[] [] [] [] [] [] [] []] rest]; done.
Qed.

Lemma parseLoop_close rest stk r base :
  closeAlternation stk = IRegexp r :: ILeftParen :: base ->
  parseLoop (String ")" rest) stk = parseLoop rest (IRegexp (Capture r) :: base).
Proof. intros H. cbn [parseLoop]. cbn [Ascii.eqb Bool.eqb]. unfold parseRightParen. by rewrite H. Qed.

Lemma parseLoop_quest rest r stk :
  noQuest rest = true ->
  parseLoop (String "?" rest) (IRegexp r :: stk) = parseLoop rest (IRegexp (Quest r) :: stk).
Proof.
  intros H. cbn [parseLoop]. cbn [Ascii.eqb Bool.eqb parseQuest].
  destruct rest as [|[[] [] [] [] [] [] [] []] rest]; done.
Qed.

Lemma parseLoop_bar rest stk :
  parseLoop (String "|" rest) stk = parseLoop rest (parseVerticalBar stk).
Proof. reflexivity. Qed.

(** ** Lemmas: collapsing the stack *)

Lemma popOperands_pushSeq r stk acc :
  popOperands (pushSeq r stk) acc = popOperands stk (seqItems r ++ acc).
Proof.
  revert acc. induction r; intros acc; try reflexivity.
  cbn [pushSeq popOperands seqItems]. by rewrite IHr1, <- app_assoc.
Qed.

Lemma popOperands_pushAlts r stk acc :
  popOperands (pushAlts r stk) acc = popOperands stk (altItems r ++ acc).
Proof.
  revert acc. induction r; intros acc; try reflexivity.
  cbn [pushAlts popOperands altItems]. by rewrite IHr1, <- app_assoc.
Qed.

Lemma collapse_snoc op e l r :
  l <> [] -> collapse op e (l ++ [r]) = op (collapse op e l) r.
Proof. destruct l as [|x l]; [done |]. intros _. cbn. by rewrite fold_left_app. Qed.

Lemma seqItems_nonempty r : parsed seqLevel r = true -> seqItems r <> [].
Proof. destruct r; cbn; try done. by destruct (seqItems r1). Qed.

Lemma collapse_seqItems r :
  parsed concatLevel r = true -> collapse Concat EmptyMatch (seqItems r) = r.
Proof.
  induction r; try done. cbn [parsed seqItems]. rewrite !andb_true_iff. intros [[_ H1] _].
  rewrite collapse_snoc by by apply seqItems_nonempty.
  rewrite IHr1; [done |]. by apply (parsed_mono _ seqLevel); [unfold seqLevel, concatLevel; lia |].
Qed.

Lemma altItems_nonempty r : altItems r <> [].
Proof. destruct r; cbn; try done. by destruct (altItems r1). Qed.

Lemma collapse_altItems r : collapse Alternate NoMatch (altItems r) = r.
Proof.
  induction r; try done. cbn [altItems].
  by rewrite collapse_snoc, IHr1 by apply altItems_nonempty.
Qed.

(** At a marker [popOperands] stops. *)
Lemma popOperands_marker stk acc :
  match stk with IRegexp _ :: _ => False | _ => True end -> popOperands stk acc = (acc, stk).
Proof. by destruct stk as [|[] ?]. Qed.

Lemma concat_pushSeq r stk :
  parsed concatLevel r = true ->
  match stk with IRegexp _ :: _ => False | _ => True end ->
  concat (pushSeq r stk) = IRegexp r :: stk.
Proof.
  intros Hr Hstk. unfold concat.
  by rewrite popOperands_pushSeq, (popOperands_marker _ _ Hstk), app_nil_r, collapse_seqItems.
Qed.

Lemma alternate_pushAlts r stk :
  frame stk = true -> alternate (pushAlts r stk) = IRegexp r :: stk.
Proof.
  intros Hstk. unfold alternate.
  rewrite popOperands_pushAlts, popOperands_marker, app_nil_r, collapse_altItems; [done |].
  by destruct stk as [|[] ?].
Qed.

Lemma frame_marker stk :
  frame stk = true -> match stk with IRegexp _ :: _ => False | _ => True end.
Proof. by destruct stk as [|[] ?]. Qed.

(** A concatenation closes to itself on a frame. *)
Lemma closeAlternation_seq r base :
  parsed concatLevel r = true -> frame base = true ->
  closeAlternation (pushSeq r base) = IRegexp r :: base.
Proof.
  intros Hr Hb. unfold closeAlternation. rewrite (concat_pushSeq r base Hr (frame_marker _ Hb)).
  replace (swapVerticalBar (IRegexp r :: base)) with (@None (list item))
    by (destruct base as [|[] ?]; cbn in Hb |- *; congruence).
  unfold alternate. cbn [popOperands].
  by rewrite (popOperands_marker base _ (frame_marker _ Hb)).
Qed.

(** ** Lemmas: the parser on the text of an expression *)

Lemma atomOK_Literal c : plain c = true -> atomOK (Literal c).
Proof. intros H stk rest. cbn [print]. rewrite string_app_cons, string_app_nil_l. by apply parseLoop_plain. Qed.

Lemma atomOK_BeginText : atomOK BeginText.
Proof. intros stk rest. reflexivity. Qed.

Lemma atomOK_EndText : atomOK EndText.
Proof. intros stk rest. reflexivity. Qed.

Lemma atomOK_Capture r : parsed altLevel r = true -> closeOK r -> atomOK (Capture r).
Proof.
  intros Hr Hc stk rest. cbn [print].
  rewrite !string_app_assoc, string_app_cons, string_app_nil_l.
  rewrite parseLoop_open by (apply noQuest_print; [done | by rewrite string_app_cons]).
  destruct (Hc (ILeftParen :: stk) (")" +:+ rest)) as (stk' & -> & Hclose);
    [done | by rewrite string_app_cons |].
  rewrite string_app_cons, string_app_nil_l. by apply parseLoop_close.
Qed.

Lemma seqOK_piece r : parsed pieceLevel r = true -> atomOK r -> seqOK r.
Proof. intros Hr Ha stk rest _. by rewrite Ha, parsed_piece. Qed.

Lemma seqOK_Quest r : atomOK r -> seqOK (Quest r).
Proof.
  intros Ha stk rest Hq. cbn [print pushSeq].
  rewrite string_app_assoc, Ha, string_app_cons, string_app_nil_l. by apply parseLoop_quest.
Qed.

Lemma seqOK_Concat r1 r2 :
  parsed pieceLevel r2 = true -> seqOK r1 -> seqOK r2 -> seqOK (Concat r1 r2).
Proof.
  intros H2 Hs1 Hs2 stk rest Hq. cbn [print pushSeq]. rewrite string_app_assoc.
  rewrite Hs1 by (apply noQuest_seq, (parsed_mono _ pieceLevel);
                  [unfold pieceLevel, seqLevel; lia | done]).
  by rewrite Hs2, parsed_piece.
Qed.

Lemma seqOK_EmptyMatch : seqOK EmptyMatch.
Proof. intros stk rest _. cbn [print pushSeq]. by rewrite string_app_nil_l. Qed.

Lemma noQuest_bar rest : noQuest ("|" +:+ rest) = true.
Proof. by rewrite string_app_cons. Qed.

(** After the bar that follows a concatenation. *)
Lemma parseVerticalBar_first r base :
  parsed concatLevel r = true -> frame base = true ->
  parseVerticalBar (pushSeq r base) = IVerticalBar :: IRegexp r :: base.
Proof.
  intros Hr Hb. unfold parseVerticalBar. rewrite (concat_pushSeq r base Hr (frame_marker _ Hb)).
  destruct base as [|[] ?]; cbn in Hb |- *; congruence.
Qed.

Lemma parseVerticalBar_next r stk :
  parsed concatLevel r = true ->
  parseVerticalBar (pushSeq r (IVerticalBar :: stk)) = IVerticalBar :: IRegexp r :: stk.
Proof. intros Hr. unfold parseVerticalBar. by rewrite concat_pushSeq. Qed.

Lemma altOK_seq r : parsed concatLevel r = true -> seqOK r -> altOK r.
Proof.
  intros Hr Hs base rest Hb.
  rewrite Hs, string_app_cons, string_app_nil_l, parseLoop_bar by apply noQuest_bar.
  rewrite parseVerticalBar_first by done. by destruct r.
Qed.

Lemma altOK_Alternate r1 r2 :
  parsed concatLevel r2 = true -> altOK r1 -> seqOK r2 -> altOK (Alternate r1 r2).
Proof.
  intros H2 Ha Hs base rest Hb. cbn [print pushAlts]. rewrite !string_app_assoc.
  rewrite Ha, Hs, string_app_cons, string_app_nil_l, parseLoop_bar by (done || apply noQuest_bar).
  by rewrite parseVerticalBar_next.
Qed.

Lemma closeOK_seq r : parsed concatLevel r = true -> seqOK r -> closeOK r.
Proof.
  intros Hr Hs base rest Hb Hq. exists (pushSeq r base).
  split; [by apply Hs | by apply closeAlternation_seq].
Qed.

Lemma closeOK_Alternate r1 r2 :
  parsed concatLevel r2 = true -> altOK r1 -> seqOK r2 -> closeOK (Alternate r1 r2).
Proof.
  intros H2 Ha Hs base rest Hb Hq. exists (pushSeq r2 (IVerticalBar :: pushAlts r1 base)).
  cbn [print]. rewrite !string_app_assoc, Ha, Hs by done. split; [done |].
  unfold closeAlternation. rewrite concat_pushSeq by done. cbn [swapVerticalBar].
  exact (alternate_pushAlts (Alternate r1 r2) base Hb).
Qed.

(** The parser on the text of a parsed expression, level by level. *)
Lemma parse_print r :
  (parsed atomLevel r = true -> atomOK r) /\
  (parsed concatLevel r = true -> seqOK r) /\
  (parsed altLevel r = true -> altOK r /\ closeOK r).
Proof.
  induction r as [| | c | | | r IH | r IH | r1 IH1 r2 IH2 | r1 IH1 r2 IH2]; cbn [parsed];
    rewrite ?andb_true_iff.
  - done.
  - pose proof seqOK_EmptyMatch. split_and!; [done | done |]. split; [by apply altOK_seq | by apply closeOK_seq].
  - pose proof (atomOK_Literal c) as Ha. split; [done |].
    assert (plain c = true -> seqOK (Literal c)) by (intros; apply seqOK_piece; auto).
    split; [done |]. split; [apply altOK_seq | apply closeOK_seq]; auto.
  - pose proof (seqOK_piece BeginText eq_refl atomOK_BeginText).
    split_and!; [by intros; apply atomOK_BeginText | done |].
    split; [by apply altOK_seq | by apply closeOK_seq].
  - pose proof (seqOK_piece EndText eq_refl atomOK_EndText).
    split_and!; [by intros; apply atomOK_EndText | done |].
    split; [by apply altOK_seq | by apply closeOK_seq].
  - destruct IH as (_ & _ & IH).
    assert (Ha : parsed altLevel r = true -> atomOK (Capture r))
      by (intros H; apply atomOK_Capture; [done | by apply IH]).
    assert (Hs : parsed altLevel r = true -> seqOK (Capture r))
      by (intros H; apply seqOK_piece; auto).
    split_and!; [done | done |]. split; [apply altOK_seq | apply closeOK_seq]; auto.
  - destruct IH as (IH & _).
    assert (Hs : parsed atomLevel r = true -> seqOK (Quest r))
      by (intros H; apply seqOK_Quest; auto).
    split_and!; [by intros [? _] | by intros [_ ?]; auto |].
    intros [_ H]. split; [apply altOK_seq | apply closeOK_seq]; cbn [parsed]; auto.
  - destruct IH1 as (_ & IH1 & _), IH2 as (IH2a & IH2 & _).
    assert (Hs : parsed seqLevel r1 = true /\ parsed pieceLevel r2 = true -> seqOK (Concat r1 r2)).
    { intros [H1 H2]. apply seqOK_Concat; [done | |].
      - apply IH1, (parsed_mono _ seqLevel); [unfold seqLevel, concatLevel; lia | done].
      - apply IH2, (parsed_mono _ pieceLevel); [unfold pieceLevel, concatLevel; lia | done]. }
    split_and!; [by intros [[? _] _] | by intros [[_ ?] ?]; auto |].
    intros [[_ H1] H2].
    split; [apply altOK_seq | apply closeOK_seq]; cbn [parsed]; rewrite ?H1, ?H2; auto.
  - destruct IH1 as (_ & _ & IH1), IH2 as (_ & IH2 & _).
    split_and!; [by intros [[? _] _] | by intros [[? _] _] |].
    intros [[_ H1] H2]. destruct (IH1 H1) as [Ha _].
    split; [apply altOK_Alternate | apply closeOK_Alternate]; auto.
Qed.

(** ** Lemmas: reading the stack back *)

Lemma popOperands_spec stk acc : popOperands stk acc = (operands stk ++ acc, below stk).
Proof.
  revert acc. induction stk as [|[r| |] stk IH]; intros acc; cbn; try done.
  by rewrite IH, <- app_assoc.
Qed.

Lemma parseLoop_parseChar c rest stk :
  parseLoop (String c rest) stk =
  match parseChar c rest stk with
  | Some stk' => parseLoop rest stk'
  | None => None
  end.
Proof.
  cbn [parseLoop]. unfold parseChar. repeat case_match; by simplify_eq/=.
Qed.

Lemma printItems_app u l1 l2 : printItems u (l1 ++ l2) = printItems u l1 +:+ printItems u l2.
Proof.
  induction l1 as [|x l1 IH]; cbn [app printItems foldr]; [by rewrite string_app_nil_l |].
  fold (printItems u (l1 ++ l2)) (printItems u l1). by rewrite IH, !string_app_assoc.
Qed.

Lemma printItems_singleton u r : printItems u [r] = print r +:+ separator u.
Proof. cbn. by rewrite string_app_nil_r. Qed.

Lemma below_marker stk : match below stk with IRegexp _ :: _ => False | _ => True end.
Proof. induction stk as [|[] stk IH]; done. Qed.

(** Above the topmost marker the stack holds operands of its level. *)
Lemma okStack_operands u stk :
  okStack u stk = true ->
  Forall (fun r => parsed (levelOf u) r = true) (operands stk) /\
  okStack u (below stk) = true /\
  printStack u stk = printStack u (below stk) +:+ printItems u (operands stk).
Proof.
  induction stk as [|[r| |] stk IH]; cbn [okStack operands below printStack];
    try (intros H; split_and!; [constructor | done | by rewrite string_app_nil_r]).
  rewrite andb_true_iff. intros [Hr Hs]. destruct (IH Hs) as (Hf & Hb & Hp).
  split_and!; [apply Forall_app; split; [done | by repeat constructor] | done |].
  by rewrite Hp, printItems_app, printItems_singleton, !string_app_assoc.
Qed.

(** Under a bar the operands go down to the frame of the group. *)
Lemma okStack_under stk :
  okStack true (below stk) = true ->
  frame (below stk) = true /\ okStack false (below stk) = true /\
  printStack true (below stk) = printStack false (below stk).
Proof. pose proof (below_marker stk). by destruct (below stk) as [|[] ?]. Qed.

Lemma fold_Concat_parsed l : forall x,
  parsed seqLevel x = true -> Forall (fun r => parsed pieceLevel r = true) l ->
  parsed seqLevel (fold_left Concat l x) = true /\
  print (fold_left Concat l x) = print x +:+ printItems false l.
Proof.
  induction l as [|y l IH]; intros x Hx Hl; cbn [fold_left].
  - by rewrite string_app_nil_r.
  - inversion_clear Hl as [|?? Hy Hl'].
    destruct (IH (Concat x y)) as [H1 H2]; [by cbn; rewrite Hx, Hy | done |].
    split; [done |]. rewrite H2. cbn [print printItems foldr separator].
    by rewrite !string_app_assoc, string_app_nil_l.
Qed.

Lemma collapse_Concat_parsed l :
  Forall (fun r => parsed pieceLevel r = true) l ->
  parsed concatLevel (collapse Concat EmptyMatch l) = true /\
  print (collapse Concat EmptyMatch l) = printItems false l.
Proof.
  destruct l as [|x l]; [done |]. intros Hl. inversion_clear Hl as [|?? Hx Hl'].
  destruct (fold_Concat_parsed l x) as [H1 H2];
    [by apply (parsed_mono _ pieceLevel); [unfold pieceLevel, seqLevel; lia |] | done |].
  split; [by apply (parsed_mono _ seqLevel); [unfold seqLevel, concatLevel; lia |] |].
  cbn [collapse printItems foldr separator]. by rewrite H2, string_app_nil_l.
Qed.

Lemma fold_Alternate_parsed l : forall x,
  parsed altLevel x = true -> Forall (fun r => parsed concatLevel r = true) l ->
  parsed altLevel (fold_left Alternate l x) = true /\
  print (fold_left Alternate l x) +:+ "|" = print x +:+ "|" +:+ printItems true l.
Proof.
  induction l as [|y l IH]; intros x Hx Hl; cbn [fold_left]; [done |].
  inversion_clear Hl as [|?? Hy Hl'].
  destruct (IH (Alternate x y)) as [H1 H2]; [by cbn; rewrite Hx, Hy | done |].
  split; [done |]. rewrite H2. cbn [print printItems foldr separator].
  by rewrite !string_app_assoc.
Qed.

(** The alternatives read so far and the concatenation that ends the group. *)
Lemma collapse_Alternate_parsed front c :
  Forall (fun r => parsed concatLevel r = true) front -> parsed concatLevel c = true ->
  parsed altLevel (collapse Alternate NoMatch (front ++ [c])) = true /\
  print (collapse Alternate NoMatch (front ++ [c])) = printItems true front +:+ print c.
Proof.
  intros Hf Hc. destruct front as [|x front]; cbn [app collapse].
  - split; [by apply (parsed_mono _ concatLevel); [unfold altLevel, concatLevel; lia |] |].
    by rewrite string_app_nil_l.
  - inversion_clear Hf as [|?? Hx Hf']. rewrite fold_left_app. cbn [fold_left print].
    destruct (fold_Alternate_parsed front x) as [H1 H2];
      [by apply (parsed_mono _ concatLevel); [unfold altLevel, concatLevel; lia |] | done |].
    split; [by cbn; rewrite H1, Hc |].
    rewrite <- string_app_assoc, H2. cbn [printItems foldr separator].
    by rewrite !string_app_assoc.
Qed.

Lemma concat_inv stk :
  okStack false stk = true ->
  exists c, concat stk = IRegexp c :: below stk /\ parsed concatLevel c = true /\
            printStack false stk = printStack false (below stk) +:+ print c.
Proof.
  intros (Hf & _ & Hp)%okStack_operands. unfold concat. rewrite popOperands_spec, app_nil_r.
  destruct (collapse_Concat_parsed _ Hf) as [H1 H2].
  eexists. split_and!; [done.. |]. by rewrite Hp, H2.
Qed.

(** Closing a group whose stack holds no bar. *)
Lemma alternate_frame c base :
  frame base = true -> alternate (IRegexp c :: base) = IRegexp c :: base.
Proof.
  intros Hb. unfold alternate. cbn [popOperands].
  by rewrite (popOperands_marker base _ (frame_marker _ Hb)).
Qed.

(** Closing a group under a bar: the alternatives and the last
    concatenation become one alternation. *)
Lemma alternate_under c stk :
  parsed concatLevel c = true -> okStack true stk = true ->
  exists r, alternate (IRegexp c :: stk) = IRegexp r :: below stk /\
            parsed altLevel r = true /\
            printStack true stk +:+ print c = printStack false (below stk) +:+ print r.
Proof.
  intros Hc (Hf & Hb & Hp)%okStack_operands. apply okStack_under in Hb as (_ & _ & Hb).
  unfold alternate. rewrite popOperands_spec, app_nil_r. cbn [operands below].
  destruct (collapse_Alternate_parsed _ c Hf Hc) as [H1 H2].
  eexists. split_and!; [done.. |]. by rewrite Hp, Hb, H2, !string_app_assoc.
Qed.

Lemma closeAlternation_inv stk :
  okStack false stk = true ->
  exists r base, closeAlternation stk = IRegexp r :: base /\
    parsed altLevel r = true /\ okStack false base = true /\
    printStack false stk = printStack false base +:+ print r.
Proof.
  intros Hok. destruct (concat_inv stk Hok) as (c & Hc & Hpc & Hprint).
  apply okStack_operands in Hok as (_ & Hb & _). pose proof (below_marker stk) as Hm.
  unfold closeAlternation. rewrite Hc.
  destruct (below stk) as [|[r'| |] rest] eqn:E; [| done | |].
  - exists c, []. by split_and!; [| apply (parsed_mono _ concatLevel); [unfold altLevel, concatLevel; lia |] | |].
  - exists c, (ILeftParen :: rest). cbn [swapVerticalBar]. rewrite alternate_frame by done.
    by split_and!; [| apply (parsed_mono _ concatLevel); [unfold altLevel, concatLevel; lia |] | |].
  - cbn [swapVerticalBar]. cbn [okStack negb andb] in Hb.
    assert (Hr : okStack true rest = true) by by destruct rest as [|[] ?].
    destruct (alternate_under c rest Hpc Hr) as (r & -> & Hpr & Hp).
    apply okStack_operands in Hr as (_ & (_ & Hok' & _)%okStack_under & _).
    exists r, (below rest). split_and!; [done.. |]. by rewrite Hprint.
Qed.

Lemma parseVerticalBar_inv stk :
  okStack false stk = true ->
  okStack false (parseVerticalBar stk) = true /\ topQuest (parseVerticalBar stk) = false /\
  printStack false (parseVerticalBar stk) = printStack false stk +:+ "|".
Proof.
  intros Hok. destruct (concat_inv stk Hok) as (c & Hc & Hpc & Hprint).
  apply okStack_operands in Hok as (_ & Hb & _). pose proof (below_marker stk) as Hm.
  unfold parseVerticalBar. rewrite Hc, Hprint.
  destruct (below stk) as [|[r'| |] rest] eqn:E; [| done | |];
    cbn [swapVerticalBar okStack printStack levelOf separator negb andb topQuest] in Hb |- *;
    rewrite Hpc, ?string_app_assoc; try done.
  split_and!; [| done..]. by destruct rest as [|[] ?].
Qed.

Lemma parseRightParen_inv stk stk' :
  okStack false stk = true -> parseRightParen stk = Some stk' ->
  okStack false stk' = true /\ topQuest stk' = false /\
  printStack false stk' = printStack false stk +:+ ")".
Proof.
  intros (r & base & Hc & Hr & Hb & Hp)%closeAlternation_inv. unfold parseRightParen.
  rewrite Hc, Hp. destruct base as [|[] base]; try done. intros [= <-].
  cbn [okStack printStack levelOf separator topQuest print] in Hb |- *. rewrite Hb.
  split_and!; [by rewrite andb_true_r | done |]. by rewrite !string_app_assoc, string_app_nil_r.
Qed.

(** A piece that is not under a question mark is an atom. *)
Lemma parsed_piece_atom r :
  parsed pieceLevel r = true -> topQuest [IRegexp r] = false -> parsed atomLevel r = true.
Proof. by destruct r. Qed.

Lemma parseQuest_inv stk stk' :
  okStack false stk = true -> topQuest stk = false -> parseQuest stk = Some stk' ->
  okStack false stk' = true /\ printStack false stk' = printStack false stk +:+ "?".
Proof.
  destruct stk as [|[r| |] stk]; try done. cbn [okStack parseQuest levelOf].
  rewrite andb_true_iff. intros [Hr Hok] Hq [= <-].
  cbn [okStack printStack levelOf separator print parsed]. rewrite Hok.
  rewrite (parsed_piece_atom r Hr Hq). split; [done |]. by rewrite !string_app_assoc, !string_app_nil_r.
Qed.

Lemma okState_push s r stk :
  parsed pieceLevel r = true -> topQuest [IRegexp r] = false ->
  okStack false stk = true -> okState s (IRegexp r :: stk).
Proof.
  intros Hr Hq Hok. split; [by cbn [okStack levelOf]; rewrite Hr, Hok |].
  by destruct r.
Qed.

Lemma printStack_push r stk :
  printStack false (IRegexp r :: stk) = printStack false stk +:+ print r.
Proof. cbn [printStack separator]. by rewrite string_app_nil_r. Qed.

(** One character keeps the parser in its states, and the stack reads
    back as the text read so far. *)
Lemma parseChar_inv c rest stk stk' :
  okState (String c rest) stk -> parseChar c rest stk = Some stk' ->
  okState rest stk' /\ printStack false stk' = printStack false stk +:+ String c "".
Proof.
  intros [Hok Hq]. unfold parseChar.
  repeat (case_match; try done);
    repeat match goal with H : Ascii.eqb _ _ = true |- _ => apply Ascii.eqb_eq in H as -> end.
  - intros [= <-]. by split.
  - intros [= <-]. destruct (parseVerticalBar_inv stk Hok) as (Ho & Ht & Hp).
    split; [split; [done | by rewrite Ht] | done].
  - intros (Ho & Ht & Hp)%parseRightParen_inv; [| done]. split; [split; [done | by rewrite Ht] | done].
  - intros [= <-]. split; [by apply okState_push | by rewrite printStack_push].
  - intros [= <-]. split; [by apply okState_push | by rewrite printStack_push].
  - intros (Ho & Hp)%parseQuest_inv; [| done |]; [by split |].
    destruct (topQuest stk); [| done]. by specialize (Hq eq_refl).
  - intros [= <-]. split; [| by rewrite printStack_push]. apply okState_push; [| done..].
    cbn [parsed]. unfold plain, isOperator. cbn [existsb].
    by repeat match goal with H : _ = false |- _ => rewrite H; clear H end.
Qed.

Lemma parseLoop_inv s : forall stk r,
  okState s stk -> parseLoop s stk = Some r ->
  parsed altLevel r = true /\ print r = printStack false stk +:+ s.
Proof.
  induction s as [|c rest IH]; intros stk r Hok.
  - cbn [parseLoop]. destruct Hok as [Hok _].
    destruct (closeAlternation_inv stk Hok) as (r' & base & -> & Hr & _ & Hp).
    destruct base; [| done]. intros [= <-]. by rewrite string_app_nil_r, Hp, string_app_nil_l.
  - rewrite parseLoop_parseChar. destruct (parseChar c rest stk) as [stk'|] eqn:E; [| done].
    destruct (parseChar_inv _ _ _ _ Hok E) as [Hok' Hp]. intros H.
    destruct (IH _ _ Hok' H) as [Hr ->].
    by rewrite Hp, string_app_assoc, string_app_cons, string_app_nil_l.
Qed.

(** ** Theorems *)

(** [Compile] reads back what [print] writes for an expression of the
    shape the parser builds. *)
Theorem Compile_print r : parsed altLevel r = true -> Compile (print r) = Some r.
Proof.
  intros Hr. destruct (parse_print r) as (_ & _ & H). destruct (H Hr) as [_ Hc].
  destruct (Hc [] "" eq_refl eq_refl) as (stk & Hp & Hclose).
  rewrite string_app_nil_r in Hp. unfold Compile. rewrite Hp. cbn [parseLoop]. by rewrite Hclose.
Qed.

(** What [Compile] accepts has the shape [parsed] and prints as the
    pattern. *)
Theorem print_Compile s r : Compile s = Some r -> parsed altLevel r = true /\ print r = s.
Proof.
  intros H. destruct (parseLoop_inv s [] r) as [Hr Hp]; [by split | done |].
  by rewrite string_app_nil_l in Hp.
Qed.

(** C33. The parser and the printer are inverse of each other, and the four
    expressions of the source stand for their pattern literals: an
    expression of the shape the parser builds is read back by [Compile]
    from its text; a pattern that [Compile] accepts is the text of its
    expression, and the expression has that shape; and [isUsrLocalRegex],
    [isVarEmptyRegex], [isTempDirRegex] and [isCompatPackage] print as the
    literals of the source and compile from what they print. *)
Theorem patterns_round_trip :
  (forall r, parsed altLevel r = true -> Compile (print r) = Some r) /\
  (forall s r, Compile s = Some r -> parsed altLevel r = true /\ print r = s) /\
  print isUsrLocalRegex = "^usr/local/" /\
  print isVarEmptyRegex = "^var/empty/" /\
  print isTempDirRegex = "^(var/)?(tmp|run)/" /\
  print isCompatPackage = "-compat$" /\
  Forall (fun r => MustCompile (print r) = r)
    [isUsrLocalRegex; isVarEmptyRegex; isTempDirRegex; isCompatPackage].
Proof.
  split; [exact Compile_print |]. split; [exact print_Compile |].
  split_and!; [by apply print_Compile.. |].
  repeat constructor; unfold MustCompile; by rewrite Compile_print.
Qed.
