(* ===== verification/Runes.v ===== *)
(** * Bytes and runes: why matching byte by byte is enough

    Go's [regexp] reads its input rune by rune: a byte below [0x80] is a
    rune, and from any other byte [utf8.DecodeRuneInString] decodes the
    next rune, or yields [RuneError] of width one when the bytes are not an
    encoding.  The model of [Regexp] matches byte by byte.  This file
    models the decoder and a matcher over runes, and proves that for an
    expression whose literals are ASCII, as are those of the four patterns
    of the source, the two matchers agree on every text, valid UTF-8 or
    not: an ASCII literal matches no byte of a longer encoding and no
    [RuneError], and a match that starts inside an encoding consumes
    nothing, so it is also found at the start of the text. *)

From S2P Require Import Prelude Regexp Linter.

#[local] Open Scope Z_scope.

(** ** [unicode/utf8] *)

Definition rune : Type := Z.

Definition RuneError : rune := 65533.

Definition byte (c : ascii) : Z := Z.of_N (N_of_ascii c).

(** The continuation bytes. *)
Definition locb : Z := 128.
Definition hicb : Z := 191.

Definition maskx : Z := 63.
Definition mask2 : Z := 31.
Definition mask3 : Z := 15.
Definition mask4 : Z := 7.

(** What the first byte says: an ASCII byte, a byte that starts no
    encoding, or the size of the encoding and the range of its second
    byte (the table [first] with [acceptRanges]). *)
Inductive lead : Type :=
| Single
| Invalid
| Lead (size : nat) (lo hi : Z).

Definition first (b : Z) : lead :=
  if b <? 128 then Single
  else if b <? 194 then Invalid
  else if b <? 224 then Lead 2 locb hicb
  else if b =? 224 then Lead 3 160 hicb
  else if b <? 237 then Lead 3 locb hicb
  else if b =? 237 then Lead 3 locb 159
  else if b <? 240 then Lead 3 locb hicb
  else if b =? 240 then Lead 4 144 hicb
  else if b <? 244 then Lead 4 locb hicb
  else if b =? 244 then Lead 4 locb 143
  else Invalid.

(** The bytes after the first, for an encoding of [sz] bytes. *)
Definition decodeTail (s0 : Z) (sz : nat) (lo hi : Z) (t : string) : rune * nat :=
  match t with
  | String c1 t1 =>
      let s1 := byte c1 in
      if (s1 <? lo) || (hi <? s1) then (RuneError, 1%nat)
      else if (sz <=? 2)%nat then
        (Z.lor (Z.shiftl (Z.land s0 mask2) 6) (Z.land s1 maskx), 2%nat)
      else
        match t1 with
        | String c2 t2 =>
            let s2 := byte c2 in
            if (s2 <? locb) || (hicb <? s2) then (RuneError, 1%nat)
            else if (sz <=? 3)%nat then
              (Z.lor (Z.lor (Z.shiftl (Z.land s0 mask3) 12) (Z.shiftl (Z.land s1 maskx) 6))
                 (Z.land s2 maskx), 3%nat)
            else
              match t2 with
              | String c3 _ =>
                  let s3 := byte c3 in
                  if (s3 <? locb) || (hicb <? s3) then (RuneError, 1%nat)
                  else
                    (Z.lor (Z.lor (Z.lor (Z.shiftl (Z.land s0 mask4) 18)
                                     (Z.shiftl (Z.land s1 maskx) 12))
                              (Z.shiftl (Z.land s2 maskx) 6))
                       (Z.land s3 maskx), 4%nat)
              | EmptyString => (RuneError, 1%nat)
              end
        | EmptyString => (RuneError, 1%nat)
        end
  | EmptyString => (RuneError, 1%nat)
  end.

(** [utf8.DecodeRuneInString]: the first rune of [s] and its width in
    bytes; [RuneError] with width 1 when [s] does not start with an
    encoding, with width 0 when [s] is empty. *)
Definition DecodeRuneInString (s : string) : rune * nat :=
  match s with
  | EmptyString => (RuneError, 0%nat)
  | String c0 t0 =>
      let s0 := byte c0 in
      match first s0 with
      | Single => (s0, 1%nat)
      | Invalid => (RuneError, 1%nat)
      | Lead sz lo hi =>
          if (String.length s <? sz)%nat then (RuneError, 1%nat)
          else decodeTail s0 sz lo hi t0
      end
  end.

(** The text without its first [n] bytes. *)
Fixpoint dropBytes (n : nat) (s : string) : string :=
  match n, s with
  | S n', String _ s' => dropBytes n' s'
  | _, _ => s
  end.

(** The runes of a text, as the matcher steps through it.  The fuel is
    the length of the text: every step takes a byte at least. *)
Fixpoint runesFrom (fuel : nat) (s : string) : list rune :=
  match fuel, s with
  | S fuel', String _ _ =>
      let '(r, w) := DecodeRuneInString s in r :: runesFrom fuel' (dropBytes w s)
  | _, _ => []
  end.

Definition runes (s : string) : list rune := runesFrom (String.length s) s.

(** ** Matching runes *)

(** The literals of the expression are ASCII. *)
Fixpoint asciiOnly (r : Regexp) : bool :=
  match r with
  | Literal c => byte c <? 128
  | Capture r1 | Quest r1 => asciiOnly r1
  | Concat r1 r2 | Alternate r1 r2 => asciiOnly r1 && asciiOnly r2
  | _ => true
  end.

(** [run] over runes: the literal [c] is the rune [byte c]. *)
Fixpoint runR (r : Regexp) (start : bool) (inp : list rune)
    (k : bool -> list rune -> bool) : bool :=
  match r with
  | NoMatch => false
  | EmptyMatch => k start inp
  | Literal c =>
      match inp with
      | x :: rest => (byte c =? x) && k false rest
      | [] => false
      end
  | BeginText => start && k start inp
  | EndText => match inp with [] => k start inp | _ => false end
  | Capture r1 => runR r1 start inp k
  | Quest r1 => runR r1 start inp k || k start inp
  | Concat r1 r2 => runR r1 start inp (fun st i => runR r2 st i k)
  | Alternate r1 r2 => runR r1 start inp k || runR r2 start inp k
  end.

Definition acceptR (_ : bool) (_ : list rune) : bool := true.

Fixpoint searchR (r : Regexp) (start : bool) (inp : list rune) : bool :=
  runR r start inp acceptR ||
  match inp with
  | [] => false
  | _ :: rest => searchR r false rest
  end.

(** [MatchString] as Go computes it, rune by rune. *)
Definition MatchStringR (r : Regexp) (s : string) : bool := searchR r true (runes s).

(** The expression matches the empty text inside a text, away from its
    ends. *)
Fixpoint nullable (r : Regexp) : bool :=
  match r with
  | EmptyMatch | Quest _ => true
  | Capture r1 => nullable r1
  | Concat r1 r2 => nullable r1 && nullable r2
  | Alternate r1 r2 => nullable r1 || nullable r2
  | _ => false
  end.

(** The first [n] bytes of the text are there and none is ASCII. *)
Fixpoint insideEncoding (n : nat) (t : string) : bool :=
  match n, t with
  | O, _ => true
  | S n', String c t' => (128 <=? byte c) && insideEncoding n' t'
  | S _, EmptyString => false
  end.

(** The bytes. *)
Definition allAscii : list ascii := map ascii_of_nat (seq 0 256).

(** The first two bytes of an encoding, put together, are above the
    ASCII range. *)
Definition highBits (sz : nat) (s0 s1 : Z) : Z :=
  if (sz <=? 2)%nat then Z.lor (Z.shiftl (Z.land s0 mask2) 6) (Z.land s1 maskx)
  else if (sz <=? 3)%nat then Z.lor (Z.shiftl (Z.land s0 mask3) 12) (Z.shiftl (Z.land s1 maskx) 6)
  else Z.lor (Z.shiftl (Z.land s0 mask4) 18) (Z.shiftl (Z.land s1 maskx) 12).

Definition highCheck (c0 c1 : ascii) : bool :=
  match first (byte c0) with
  | Lead sz lo hi =>
      if (byte c1 <? lo) || (hi <? byte c1) then true
      else (128 <=? highBits sz (byte c0) (byte c1)) && (128 <=? lo) &&
           (2 <=? sz)%nat && (sz <=? 4)%nat
  | _ => true
  end.

(** ** Lemmas: bytes *)

Lemma In_allAscii c : In c allAscii.
Proof.
  rewrite <- (ascii_nat_embedding c). apply in_map, in_seq.
  pose proof (nat_ascii_bounded c). lia.
Qed.

Lemma highCheck_all c0 c1 : highCheck c0 c1 = true.
Proof.
  assert (H : forallb (fun a => forallb (highCheck a) allAscii) allAscii = true)
    by (vm_compute; reflexivity).
  rewrite forallb_forall in H. specialize (H c0 (In_allAscii c0)).
  rewrite forallb_forall in H. exact (H c1 (In_allAscii c1)).
Qed.

Lemma byte_nonneg c : 0 <= byte c.
Proof. unfold byte. lia. Qed.

Lemma byte_inj c c' : byte c = byte c' -> c = c'.
Proof.
  unfold byte. intros H%N2Z.inj.
  by rewrite <- (ascii_N_embedding c), H, ascii_N_embedding.
Qed.

Lemma byte_eqb c c' : (byte c =? byte c') = Ascii.eqb c c'.
Proof.
  destruct (Ascii.eqb_spec c c') as [->|Hne]; [apply Z.eqb_refl |].
  apply Z.eqb_neq. intros H. by apply Hne, byte_inj.
Qed.

Lemma lor_ge_128 a b : 0 <= a -> 0 <= b -> 128 <= a -> 128 <= Z.lor a b.
Proof.
  intros Ha Hb H. assert (Hl : 7 <= Z.log2 (Z.lor a b)).
  { rewrite Z.log2_lor by done. apply (Z.log2_le_pow2 a 7) in H; lia. }
  assert (0 <= Z.lor a b) by by apply Z.lor_nonneg.
  destruct (Z.eq_dec (Z.lor a b) 0) as [E|E]; [by rewrite E in Hl |].
  by apply (Z.log2_le_pow2 _ 7); [lia |].
Qed.

(** ** Lemmas: the decoder *)

Lemma first_Single b : b < 128 -> first b = Single.
Proof. intros H. unfold first. by rewrite (proj2 (Z.ltb_lt b 128) H). Qed.

Lemma first_not_Single b : 128 <= b -> first b <> Single.
Proof. intros H. unfold first. rewrite (proj2 (Z.ltb_ge b 128) H). by repeat case_match. Qed.

Lemma DecodeRuneInString_ascii c t :
  byte c < 128 -> DecodeRuneInString (String c t) = (byte c, 1%nat).
Proof. intros H. unfold DecodeRuneInString. by rewrite (first_Single _ H). Qed.

Lemma masked_nonneg a m k : 0 <= m -> 0 <= Z.shiftl (Z.land a m) k.
Proof. intros Hm. apply Z.shiftl_nonneg, Z.land_nonneg. by right. Qed.

(** What [decodeTail] returns for a first byte [c0] that starts an
    encoding: a rune above the ASCII range, and a width that covers bytes
    of the encoding only. *)
Lemma decodeTail_spec c0 sz lo hi t r w :
  first (byte c0) = Lead sz lo hi -> decodeTail (byte c0) sz lo hi t = (r, w) ->
  128 <= r /\ (1 <= w)%nat /\ insideEncoding (w - 1) t = true.
Proof.
  intros Ef. unfold decodeTail. destruct t as [|c1 t1]; [by intros [= <- <-] |].
  pose proof (highCheck_all c0 c1) as Hc. unfold highCheck in Hc. rewrite Ef in Hc.
  destruct ((byte c1 <? lo) || (hi <? byte c1)) eqn:E1; [by intros [= <- <-] |].
  apply orb_false_iff in E1 as [Hlo%Z.ltb_ge _].
  apply andb_true_iff in Hc as [[[Hh%Z.leb_le Hl%Z.leb_le]%andb_true_iff _]%andb_true_iff _].
  assert (H1 : (128 <=? byte c1) = true) by (apply Z.leb_le; lia).
  unfold highBits in Hh. destruct (sz <=? 2)%nat.
  { intros [= <- <-]. cbn [Nat.sub insideEncoding]. rewrite H1. split_and!; [done | lia | done]. }
  destruct t1 as [|c2 t2]; [by intros [= <- <-] |].
  destruct ((byte c2 <? locb) || (hicb <? byte c2)) eqn:E2; [by intros [= <- <-] |].
  apply orb_false_iff in E2 as [H2%Z.ltb_ge%Z.leb_le _]. unfold locb in H2.
  destruct (sz <=? 3)%nat.
  { intros [= <- <-]. cbn [Nat.sub insideEncoding]. rewrite H1, H2.
    split_and!; [| lia | done]. apply lor_ge_128; [| by apply Z.land_nonneg; right | done].
    apply Z.lor_nonneg. split; by apply masked_nonneg. }
  destruct t2 as [|c3 t3]; [by intros [= <- <-] |].
  destruct ((byte c3 <? locb) || (hicb <? byte c3)) eqn:E3; [by intros [= <- <-] |].
  apply orb_false_iff in E3 as [H3%Z.ltb_ge%Z.leb_le _]. unfold locb in H3.
  intros [= <- <-]. cbn [Nat.sub insideEncoding]. rewrite H1, H2, H3.
  split_and!; [| lia | done].
  apply lor_ge_128; [| by apply Z.land_nonneg; right |].
  - apply Z.lor_nonneg. split; [apply Z.lor_nonneg; split |]; by apply masked_nonneg.
  - apply lor_ge_128; [| by apply masked_nonneg | done].
    apply Z.lor_nonneg. split; by apply masked_nonneg.
Qed.

(** From a byte that is not ASCII the decoder yields a rune that is not
    ASCII, and the bytes it takes after the first are not ASCII. *)
Lemma DecodeRuneInString_high c t r w :
  128 <= byte c -> DecodeRuneInString (String c t) = (r, w) ->
  128 <= r /\ (1 <= w)%nat /\ insideEncoding (w - 1) t = true.
Proof.
  intros Hc. unfold DecodeRuneInString.
  destruct (first (byte c)) as [| |sz lo hi] eqn:Ef.
  - by destruct (first_not_Single _ Hc).
  - by intros [= <- <-].
  - destruct (String.length (String c t) <? sz)%nat; [by intros [= <- <-] |].
    by apply decodeTail_spec.
Qed.

Lemma DecodeRuneInString_width c t :
  (1 <= snd (DecodeRuneInString (String c t)))%nat.
Proof.
  destruct (Z.lt_ge_cases (byte c) 128) as [H|H].
  - by rewrite DecodeRuneInString_ascii.
  - destruct (DecodeRuneInString (String c t)) as [r w] eqn:E.
    by apply DecodeRuneInString_high in E as (_ & ? & _).
Qed.

(** ** Lemmas: the runes of a text *)

Lemma dropBytes_length w s :
  (String.length (dropBytes w s) <= String.length s)%nat.
Proof.
  revert s. induction w as [|w IH]; intros [|c s]; cbn [dropBytes String.length]; try lia.
  specialize (IH s). lia.
Qed.

Lemma runesFrom_enough f1 : forall f2 s,
  (String.length s <= f1)%nat -> (String.length s <= f2)%nat ->
  runesFrom f1 s = runesFrom f2 s.
Proof.
  induction f1 as [|f1 IH]; intros f2 [|c t] H1 H2; cbn [String.length] in *;
    try (by destruct f2); try lia.
  destruct f2 as [|f2]; [lia |]. cbn [runesFrom].
  pose proof (DecodeRuneInString_width c t) as Hw.
  destruct (DecodeRuneInString (String c t)) as [r [|w]]; [cbn in Hw; lia |].
  cbn [dropBytes]. pose proof (dropBytes_length w t). f_equal. apply IH; lia.
Qed.

Lemma runes_cons c t :
  runes (String c t) =
  fst (DecodeRuneInString (String c t)) ::
  runes (dropBytes (snd (DecodeRuneInString (String c t))) (String c t)).
Proof.
  unfold runes at 1. cbn [String.length runesFrom].
  pose proof (DecodeRuneInString_width c t) as Hw.
  destruct (DecodeRuneInString (String c t)) as [r [|w]]; [cbn in Hw; lia |].
  cbn [fst snd dropBytes]. f_equal. pose proof (dropBytes_length w t).
  apply runesFrom_enough; lia.
Qed.

Lemma runes_ascii c t : byte c < 128 -> runes (String c t) = byte c :: runes t.
Proof. intros H. by rewrite runes_cons, DecodeRuneInString_ascii. Qed.

Lemma runes_nil : runes "" = [].
Proof. reflexivity. Qed.

(** The first rune of a text that starts with a byte that is not ASCII
    is not ASCII. *)
Lemma runes_high c t :
  128 <= byte c -> exists r rs, runes (String c t) = r :: rs /\ 128 <= r.
Proof.
  intros H. rewrite runes_cons. destruct (DecodeRuneInString (String c t)) as [r w] eqn:E.
  apply DecodeRuneInString_high in E as (Hr & _); [| done]. eauto.
Qed.

(** After the rune the text goes on past bytes of its encoding only. *)
Lemma DecodeRuneInString_inside c t :
  exists w, snd (DecodeRuneInString (String c t)) = S w /\ insideEncoding w t = true.
Proof.
  destruct (Z.lt_ge_cases (byte c) 128) as [H|H].
  - rewrite DecodeRuneInString_ascii by done. by exists 0%nat.
  - destruct (DecodeRuneInString (String c t)) as [r w] eqn:E.
    apply DecodeRuneInString_high in E as (_ & Hw & Hi); [| done].
    destruct w as [|w]; [lia |]. exists w. by rewrite Nat.sub_succ, Nat.sub_0_r in Hi.
Qed.

(** ** Lemmas: the two matchers *)

Lemma run_nullable r : nullable r = true ->
  forall st inp k, k st inp = true -> run r st inp k = true.
Proof.
  induction r; cbn [nullable run]; try done; intros Hn st inp k Hk.
  - by rewrite Hk, orb_true_r.
  - apply andb_true_iff in Hn as [H1 H2]. apply IHr1; [done |]. by apply IHr2.
  - apply orb_true_iff in Hn as [H|H]; [rewrite IHr1 | rewrite IHr2]; by rewrite ?orb_true_r.
Qed.

Lemma runR_nullable r : nullable r = true ->
  forall st inp k, k st inp = true -> runR r st inp k = true.
Proof.
  induction r; cbn [nullable runR]; try done; intros Hn st inp k Hk.
  - by rewrite Hk, orb_true_r.
  - apply andb_true_iff in Hn as [H1 H2]. apply IHr1; [done |]. by apply IHr2.
  - apply orb_true_iff in Hn as [H|H]; [rewrite IHr1 | rewrite IHr2]; by rewrite ?orb_true_r.
Qed.

(** Inside the text, before a byte that is not ASCII, an expression with
    ASCII literals matches the empty text or nothing. *)
Lemma run_high r : asciiOnly r = true ->
  forall c t k, 128 <= byte c ->
    run r false (String c t) k = nullable r && k false (String c t).
Proof.
  induction r as [| | c' | | | r IH | r IH | r1 IH1 r2 IH2 | r1 IH1 r2 IH2];
    cbn [asciiOnly nullable run isEmpty]; intros Ha c t k Hc; try done.
  - apply Z.ltb_lt in Ha. rewrite <- byte_eqb.
    by rewrite (proj2 (Z.eqb_neq (byte c') (byte c))) by lia.
  - by apply IH.
  - rewrite (IH Ha c t k Hc). by destruct (nullable r), (k false (String c t)).
  - apply andb_true_iff in Ha as [H1 H2].
    rewrite (IH1 H1 c t _ Hc), (IH2 H2 c t k Hc). by rewrite andb_assoc.
  - apply andb_true_iff in Ha as [H1 H2].
    rewrite (IH1 H1 c t k Hc), (IH2 H2 c t k Hc). by rewrite andb_orb_distrib_l.
Qed.

(** At the start of a rune the two matchers agree. *)
Lemma run_runes r : asciiOnly r = true ->
  forall st inp k kR, (forall st' inp', k st' inp' = kR st' (runes inp')) ->
    run r st inp k = runR r st (runes inp) kR.
Proof.
  induction r as [| | c | | | r IH | r IH | r1 IH1 r2 IH2 | r1 IH1 r2 IH2];
    cbn [asciiOnly run runR]; intros Ha st inp k kR Hk; try done.
  - apply Z.ltb_lt in Ha. destruct inp as [|c' t]; [done |].
    destruct (Z.lt_ge_cases (byte c') 128) as [H|H].
    + by rewrite (runes_ascii _ _ H), byte_eqb, Hk.
    + destruct (runes_high c' t H) as (x & rs & -> & Hx).
      rewrite <- byte_eqb. by rewrite !(proj2 (Z.eqb_neq _ _)) by lia.
  - by rewrite Hk.
  - destruct inp as [|c t]; [by rewrite Hk | by rewrite runes_cons].
  - by apply IH.
  - by rewrite (IH Ha st inp k kR Hk), Hk.
  - apply andb_true_iff in Ha as [H1 H2]. apply IH1; [done |].
    intros st' inp'. by apply IH2.
  - apply andb_true_iff in Ha as [H1 H2].
    by rewrite (IH1 H1 st inp k kR Hk), (IH2 H2 st inp k kR Hk).
Qed.

(** The search finds nothing new inside an encoding. *)
Lemma search_inside r n : forall t,
  asciiOnly r = true -> nullable r = false -> insideEncoding n t = true ->
  search r false t = search r false (dropBytes n t).
Proof.
  induction n as [|n IH]; intros [|c t] Ha Hn; cbn [insideEncoding dropBytes]; try done.
  intros [Hc%Z.leb_le Hi]%andb_true_iff. cbn [search].
  by rewrite (run_high r Ha c t _ Hc), Hn, (IH t Ha Hn Hi).
Qed.

Lemma search_runes r : asciiOnly r = true -> nullable r = false ->
  forall n s st, (String.length s <= n)%nat -> search r st s = searchR r st (runes s).
Proof.
  intros Ha Hn. induction n as [|n IH]; intros [|c t] st Hl; cbn [String.length] in Hl;
    try lia; try (cbn [search]; rewrite runes_nil; cbn [searchR];
                  by rewrite (run_runes r Ha st "" accept acceptR)).
  cbn [search]. rewrite (run_runes r Ha st _ accept acceptR) by done.
  rewrite runes_cons. cbn [searchR]. f_equal.
  destruct (DecodeRuneInString_inside c t) as (w & -> & Hi). cbn [dropBytes].
  rewrite (search_inside r w t Ha Hn Hi). apply IH. pose proof (dropBytes_length w t). lia.
Qed.

(** ** Theorems *)

(** C34. Matching byte by byte is matching rune by rune: for an expression
    whose literals are ASCII the matcher of the model, which steps
    through the bytes of the text, returns what the matcher that steps
    through its runes returns, on every text, well-formed UTF-8 or not;
    and the literals of the four expressions of the source are ASCII. *)
Theorem MatchString_runes :
  (forall r s, asciiOnly r = true -> MatchString r s = MatchStringR r s) /\
  Forall (fun r => asciiOnly r = true)
    [isUsrLocalRegex; isVarEmptyRegex; isTempDirRegex; isCompatPackage].
Proof.
  split; [| by repeat constructor].
  intros r s Ha. unfold MatchString, MatchStringR. destruct (nullable r) eqn:Hn.
  - destruct s as [|c t]; cbn [search]; [rewrite runes_nil | rewrite runes_cons]; cbn [searchR];
      by rewrite (run_nullable r Hn), (runR_nullable r Hn).
  - by apply (search_runes r Ha Hn (String.length s)).
Qed.

(** The decoder on a two-byte, a three-byte and a four-byte encoding, on
    a byte that starts none, on an overlong encoding and on a surrogate. *)
Example runes_samples :
  let text := fold_right (fun n s => String (ascii_of_nat n) s) EmptyString in
  runes (text [195; 169]%nat) = [233] /\
  runes (text [226; 130; 172]%nat) = [8364] /\
  runes (text [240; 159; 152; 128]%nat) = [128512] /\
  runes (text [255; 97]%nat) = [RuneError; 97] /\
  runes (text [192; 128]%nat) = [RuneError; RuneError] /\
  runes (text [237; 160; 128]%nat) = [RuneError; RuneError; RuneError].
Proof. vm_compute. repeat split. Qed.
