(* ===== verification/Samples.v ===== *)
(** * Sample trees and contexts

    Concrete file systems and linter contexts on which the theorems of
    [Enforce] are applied and the definitions are run.  The configuration
    types are instantiated with [unit]: no linter reads them. *)

From S2P Require Import Prelude Errors FS Linter.

#[local] Open Scope Z_scope.

(** Permission bits [rwxr-xr-x] and [rw-r--r--]. *)
Definition perm755 : FileMode := 493.
Definition perm644 : FileMode := 420.

Definition mkInfo (name : string) (mode : FileMode) : FileInfo :=
  {| fiName := name; Size := 0; Mode := mode |}.

(** An entry as [ReadDir] yields it, whose [Info] succeeds. *)
Definition mkEntry (name : string) (mode : FileMode) : DirEntry :=
  FileInfoToDirEntry (mkInfo name mode).

(** A regular file with the given mode bits. *)
Definition file (name : string) (mode : FileMode) : fsnode :=
  FsNode (mkEntry name mode) [] None.

(** A readable directory. *)
Definition dir (name : string) (dirs : list fsnode) : fsnode :=
  FsNode (mkEntry name (Z.lor ModeDir perm755)) dirs None.

(** A file system whose root is a readable directory. *)
Definition mkFS (dirs : list fsnode) : FS :=
  {| statRoot := Ok (mkInfo "." (Z.lor ModeDir perm755));
     rootDirs := dirs;
     rootErr := None |}.

Definition sampleCtx (name : string) : LinterContext unit unit :=
  {| pkgname := name; cfg := None; chk := None |}.

(** The empty tree. *)
Definition emptyFS : FS := mkFS [].

(** The empty tree under a root with the setgid bit, as a directory
    created in a setgid parent has it. *)
Definition setgidRootFS : FS :=
  {| statRoot := Ok (mkInfo "." (Z.lor ModeDir (Z.lor ModeSetgid perm755)));
     rootDirs := [];
     rootErr := None |}.

(** A root that cannot be read. *)
Definition unreadableFS : FS :=
  {| statRoot := Err (errorString "stat .: permission denied");
     rootDirs := [];
     rootErr := None |}.

(** [usr/bin/tool] and [usr/local/bin/tool]. *)
Definition usrLocalFS : FS :=
  mkFS [dir "usr" [dir "bin" [file "tool" perm755];
                   dir "local" [dir "bin" [file "tool" perm755]]]].

(** Nothing but the empty directories [tmp], [usr/local] and
    [var/empty]. *)
Definition emptyDirsFS : FS :=
  mkFS [dir "tmp" []; dir "usr" [dir "local" []]; dir "var" [dir "empty" []]].

(** Two violations: [tmp/x] is visited before [var/empty/y]. *)
Definition twoViolationsFS : FS :=
  mkFS [dir "tmp" [file "x" perm644]; dir "var" [dir "empty" [file "y" perm644]]].

(** A setuid file [a/b] and a setuid file [a-b].  As strings,
    ["a-b"] comes before ["a/b"]; the walk visits [a/b] first. *)
Definition orderFS : FS :=
  mkFS [dir "a" [file "b" (Z.lor ModeSetuid perm755)];
        file "a-b" (Z.lor ModeSetuid perm755)].

(** A directory [etc] whose listing fails after the entry [passwd]. *)
Definition brokenDirFS : FS :=
  mkFS [FsNode (mkEntry "etc" (Z.lor ModeDir perm755))
          [file "passwd" perm644]
          (Some (errorString "readdir etc: input/output error"))].

(** A directory [tmp/cache] that cannot be listed. *)
Definition unlistableTmpFS : FS :=
  mkFS [dir "tmp" [FsNode (mkEntry "cache" (Z.lor ModeDir perm755)) []
                     (Some (errorString "readdir tmp/cache: permission denied"))]].

(** An entry whose [Info] fails: the file vanished after [ReadDir]. *)
Definition vanishedFS : FS :=
  mkFS [FsNode {| Name := "gone"; Type_ := 0;
                  Info := Err (errorString "lstat gone: no such file or directory") |}
          [] None].

Example events_usrLocalFS :
  map (fun c => fst (fst c)) (events usrLocalFS ".") =
  ["."; "usr"; "usr/bin"; "usr/bin/tool"; "usr/local"; "usr/local/bin";
   "usr/local/bin/tool"].
Proof. vm_compute. reflexivity. Qed.

Example events_brokenDirFS :
  map (fun c => (fst (fst c), snd c)) (events brokenDirFS ".") =
  [(".", None); ("etc", None);
   ("etc", Some (errorString "readdir etc: input/output error"));
   ("etc/passwd", None)].
Proof. vm_compute. reflexivity. Qed.

Example sorted_samples :
  forallb sortedFS [emptyFS; usrLocalFS; emptyDirsFS; twoViolationsFS; orderFS] = true.
Proof. vm_compute. reflexivity. Qed.
