(* ===== verification/Enforce.v ===== *)
(** * The tree enforcer: [lintPackageFs]

    [lintPackageFs] of [linter.go]: the closure [walkCb], its loop over the
    requested linters ([lintLoop]) and the call of [fs.WalkDir] on the
    root ["."].

    The theorems relate the result of [lintPackageFs] to the sequence of
    calls of the walk ([events]): the run ends at the first call that does
    not return [nil]; it passes exactly when every requested linter passes
    on every entry; it never panics; and an unknown linter name, a
    traversal error or a policy violation each end it with an error whose
    message is given in closed form.  The lemmas after them put the loop
    and the closure in the form of the first-failure fold [first_some],
    which [Checks] and [Machine] build on. *)

From stdpp Require Import gmap.
From S2P Require Import Prelude Errors Regexp FS Linter Samples.

Section Enforce.

Context {Configuration Checks : Type}.
Abbreviation LinterContext := (LinterContext Configuration Checks).
Abbreviation Linter := (Linter Configuration Checks).
Implicit Types (lctx : LinterContext) (path : string) (d : option DirEntry)
  (linters : list string) (fsys : FS).

(** ** The program *)

(** The [for] loop of [walkCb] over the linter names. *)
Fixpoint lintLoop lctx path d linters : ret (option error) :=
  match linters with
  | [] => Return None
  | linterName :: linters' =>
      match Linters !! linterName with
      | None => Return (Some (Errorf "Linter %s is unknown" [argS linterName]))
      | Some linter =>
          match LinterFunc_ linter lctx path d with
          | Panic => Panic
          | Return (Some err) =>
              Return (Some (Errorf
                ("Linter %s failed at path " +:+ dquote +:+ "%s" +:+ dquote
                   +:+ ": %w; suggest: %s")
                [argS linterName; argS path; argE err; argS (Explain linter)]))
          | Return None => lintLoop lctx path d linters'
          end
      end
  end.

Definition walkCb lctx linters : WalkDirFunc :=
  fun path d err =>
    match err with
    | Some err =>
        Return (Some (Errorf "Error traversing tree at %s: %w" [argS path; argE err]))
    | None => lintLoop lctx path d linters
    end.

Definition lintPackageFs lctx fsys linters : ret (option error) :=
  match WalkDir fsys "." (walkCb lctx linters) with
  | Panic => Panic
  | Return (Some err) => Return (Some err)
  | Return None => Return None
  end.

(** ** The errors of the enforcer, in closed form *)

Definition unknownError (linterName : string) : error :=
  errorString ("Linter " +:+ linterName +:+ " is unknown").

Definition failedError (linterName path : string) (cause : error) (explain : string) : error :=
  wrapError
    ("Linter " +:+ linterName +:+ " failed at path " +:+ dquote +:+ path +:+ dquote
       +:+ ": " +:+ Error cause +:+ "; suggest: " +:+ explain)
    cause.

Definition traverseError (path : string) (cause : error) : error :=
  wrapError ("Error traversing tree at " +:+ path +:+ ": " +:+ Error cause) cause.

(** Why [isSetUidOrGidLinter] fails on an entry, if it does: the error of
    [Info], or the first of the two bits that is set. *)
Definition setuidgidCause (e : DirEntry) : option error :=
  match Info e with
  | Err err => Some err
  | Ok info =>
      if hasMode (Mode info) ModeSetuid then Some (errorString "File is setuid")
      else if hasMode (Mode info) ModeSetgid then Some (errorString "File is setgid")
      else None
  end.

(** One turn of the loop: the linter [linterName] on the entry. *)
Definition lintOne lctx path d (linterName : string) : option stop :=
  match Linters !! linterName with
  | None => Some (Failed (unknownError linterName))
  | Some linter =>
      match LinterFunc_ linter lctx path d with
      | Panic => Some Panicked
      | Return (Some err) => Some (Failed (failedError linterName path err (Explain linter)))
      | Return None => None
      end
  end.

(** ** Lemmas: the messages *)

Lemma Errorf_unknown (linterName : string) :
  Errorf "Linter %s is unknown" [argS linterName] = unknownError linterName.
Proof. reflexivity. Qed.

Lemma Errorf_failed (linterName : string) path err (explain : string) :
  Errorf ("Linter %s failed at path " +:+ dquote +:+ "%s" +:+ dquote
            +:+ ": %w; suggest: %s")
    [argS linterName; argS path; argE err; argS explain] =
  failedError linterName path err explain.
Proof.
  unfold failedError. rewrite <- (string_app_nil_r explain) at 2. reflexivity.
Qed.

Lemma Errorf_traverse path err :
  Errorf "Error traversing tree at %s: %w" [argS path; argE err] = traverseError path err.
Proof.
  unfold traverseError. rewrite <- (string_app_nil_r (Error err)). reflexivity.
Qed.

(** ** Lemmas: what the loop never returns *)

Lemma lintLoop_not_skip lctx path d linters e :
  lintLoop lctx path d linters = Return (Some e) -> isSkip e = false.
Proof.
  induction linters as [|n linters IH]; simpl; [discriminate |].
  repeat case_match; intros; simplify_eq; eauto using isSkip_Errorf.
Qed.

Lemma lintLoop_no_panic lctx path (e : DirEntry) linters :
  lintLoop lctx path (Some e) linters <> Panic.
Proof.
  induction linters as [|n linters IH]; simpl; [discriminate |].
  destruct (Linters !! n) as [l|] eqn:E; [| try discriminate; try exact IH].
  pose proof (Linters_Returns n l E lctx path e).
  destruct (LinterFunc_ l lctx path (Some e)) as [[e'|]|]; congruence.
Qed.

#[export] Instance walkCb_NeverSkips lctx linters : NeverSkips (walkCb lctx linters).
Proof.
  intros path d err e. unfold walkCb.
  repeat case_match; intros; simplify_eq; eauto using isSkip_Errorf, lintLoop_not_skip.
Qed.

(** ** The contract of the enforcer *)

(** C1. [lintPackageFs] is the first failure over the calls of the walk:
    it returns [nil] exactly when [walkCb] returns [nil] on every call the
    walk of the tree makes, and it returns the error [e] exactly when some
    call returns [e] and every call before it returned [nil].  The calls
    are those of [fs.WalkDir] from ["."]: an entry before the entries under
    it, the listing of a directory in the order [ReadDir] gave it. *)
Theorem lintPackageFs_first_failure lctx fsys linters :
  (lintPackageFs lctx fsys linters = Return None <->
   Forall (fun c => apply (walkCb lctx linters) c = None) (events fsys ".")) /\
  (forall e, lintPackageFs lctx fsys linters = Return (Some e) <->
   exists before c after,
     events fsys "." = before ++ c :: after /\
     Forall (fun c' => apply (walkCb lctx linters) c' = None) before /\
     apply (walkCb lctx linters) c = Some (Failed e)).
Proof.
  unfold lintPackageFs. rewrite ret_eta, (WalkDir_first_some _). split; [| intros e].
  - rewrite retOf_None. apply first_some_None.
  - rewrite retOf_Some, first_some_Some. by setoid_rewrite first_some_None.
Qed.

(** The run ends as the first call of the walk that does not return [nil]. *)
Lemma lintPackageFs_events lctx fsys linters :
  lintPackageFs lctx fsys linters =
  retOf (first_some (apply (walkCb lctx linters)) (events fsys ".")).
Proof. unfold lintPackageFs. rewrite ret_eta. apply (WalkDir_first_some _). Qed.

(** C3. [lintPackageFs] never panics: the only method call on a directory
    entry, [d.Info()] in [isSetUidOrGidLinter], is reached only on calls
    where the walk passed an entry, because [walkCb] returns before its
    loop whenever the walk hands it an error, and [fs.WalkDir] passes a
    [nil] entry only together with an error. *)
Theorem lintPackageFs_no_panic lctx fsys linters :
  lintPackageFs lctx fsys linters <> Panic.
Proof.
  rewrite lintPackageFs_events, retOf_Panic.
  intros (c & (p & d & err & -> & Hd)%events_entry & Hp)%first_some_In.
  unfold apply, walkCb in Hp. apply stopOf_Panicked in Hp.
  destruct err as [err|]; [discriminate |].
  destruct d as [e|]; [| destruct (Hd eq_refl eq_refl)].
  exact (lintLoop_no_panic _ _ _ _ Hp).
Qed.

Lemma events_head fsys root :
  exists c rest, events fsys root = c :: rest /\
    ((exists err, c = (root, None, Some err)) \/ (exists e, c = (root, Some e, None))).
Proof.
  unfold events. destruct (statRoot fsys) as [info|err]; [| eauto 6].
  unfold rootNode. rewrite nodeEvents_unfold. eauto 6.
Qed.

(** C4. A linter name that is not in the registry always fails the run:
    whatever the tree and wherever the name stands in the list,
    [lintPackageFs] returns an error.  (The walk calls [walkCb] on the root
    at least, and that call either reports a traversal error or runs the
    loop, which fails at the unknown name unless a linter before it
    failed.) *)
Theorem lintPackageFs_unknown_linter lctx fsys linters n :
  In n linters -> ~ In n linterNames ->
  exists e, lintPackageFs lctx fsys linters = Return (Some e).
Proof.
  intros Hn Hu.
  assert (forall path e, lintLoop lctx path (Some e) linters <> Return None) as Hloop.
  { intros path e. induction linters as [|m ms IH]; [destruct Hn |]. simpl.
    destruct Hn as [->|Hn]; [rewrite Linters_lookup_None by exact Hu; discriminate |].
    destruct (Linters !! m); [| discriminate].
    destruct (LinterFunc_ _ lctx path (Some e)) as [[e'|]|]; try discriminate; auto. }
  rewrite lintPackageFs_events.
  destruct (events_head fsys ".") as (c & rest & -> & [[err ->]|[e ->]]); simpl.
  - eauto.
  - pose proof (Hloop "." e). pose proof (lintLoop_no_panic lctx "." e linters).
    destruct (lintLoop lctx "." (Some e) linters) as [[e'|]|]; simpl; [eauto | |]; congruence.
Qed.

(** C2. A pass is sound and complete: [lintPackageFs] returns [nil]
    exactly when the walk reported no error and, on every entry the walk
    visited, every requested linter name is in the registry and its
    function returned [nil].  No check is skipped, whatever the tree. *)
Theorem lintPackageFs_sound lctx fsys linters :
  lintPackageFs lctx fsys linters = Return None <->
  forall path d err, In (path, d, err) (events fsys ".") ->
    err = None /\
    forall n, In n linters ->
      exists l, Linters !! n = Some l /\ LinterFunc_ l lctx path d = Return None.
Proof.
  assert (forall path d, lintLoop lctx path d linters = Return None <->
            forall n, In n linters ->
              exists l, Linters !! n = Some l /\ LinterFunc_ l lctx path d = Return None)
    as Hloop.
  { intros path d. induction linters as [|m ms IH]; simpl; [by split; [intros _ n [] |] |].
    destruct (Linters !! m) as [l|] eqn:El.
    - destruct (LinterFunc_ l lctx path d) as [[e|]|] eqn:Ef;
        [| rewrite IH; split; [intros H n [<-|Hn]; eauto | intros H n Hn; by apply H; right] |];
        (split; [discriminate |]; intros H;
         destruct (H m (or_introl eq_refl)) as (l' & ? & ?); congruence).
    - split; [discriminate |]. intros H.
      destruct (H m (or_introl eq_refl)) as (l' & ? & ?); congruence. }
  rewrite lintPackageFs_events, retOf_None, first_some_None, List.Forall_forall. split.
  - intros H path d err Hin. specialize (H _ Hin). unfold apply, walkCb in H.
    destruct err as [err|]; [discriminate |]. split; [reflexivity |].
    apply Hloop. by destruct (lintLoop lctx path d linters) as [[e|]|].
  - intros H [[path d] err] Hin. destruct (H _ _ _ Hin) as [-> Hl].
    apply Hloop in Hl. unfold apply, walkCb. by rewrite Hl.
Qed.

(** ** The branches of the closure and of the loop *)

(** C9. The error of a failed linter carries what the caller needs: it
    wraps the cause, and its message holds the linter's name, the path,
    the message of the cause and the linter's hint. *)
Theorem lintLoop_failure_message lctx path d n (l : Linter) cause linters :
  Linters !! n = Some l ->
  LinterFunc_ l lctx path d = Return (Some cause) ->
  exists e, lintLoop lctx path d (n :: linters) = Return (Some e) /\
    Unwrap e = Some cause /\
    Contains (Error e) n /\ Contains (Error e) path /\
    Contains (Error e) (Error cause) /\ Contains (Error e) (Explain l).
Proof.
  intros Hl Hf. exists (failedError n path cause (Explain l)).
  simpl. rewrite Hl, Hf, Errorf_failed. unfold failedError. simpl.
  repeat split; auto 20 with lint.
Qed.

(** C10. A traversal error is surfaced first: when the walk hands [walkCb]
    an error, no linter runs and the result wraps that error in a message
    that names the path. *)
Theorem walkCb_traversal_error lctx linters path d err :
  walkCb lctx linters path d (Some err) =
  Return (Some (wrapError ("Error traversing tree at " +:+ path +:+ ": " +:+ Error err) err)).
Proof. unfold walkCb. rewrite Errorf_traverse. reflexivity. Qed.

(** [walkCb] never asks [fs.WalkDir] to skip: it returns neither
    [fs.SkipDir] nor [fs.SkipAll], even when the [Info] method of an entry
    returns one of the two and [isSetUidOrGidLinter] hands it on, because
    every error [walkCb] returns is built by [fmt.Errorf]. *)
Theorem walkCb_never_skips lctx linters path d err :
  walkCb lctx linters path d err <> Return (Some SkipDir) /\
  walkCb lctx linters path d err <> Return (Some SkipAll).
Proof.
  split; intros H; apply (never_skips (fn := walkCb lctx linters)) in H; discriminate.
Qed.

(** ** Lemmas: the loop and the closure as first failures *)

Lemma lintLoop_first_some lctx path d linters :
  lintLoop lctx path d linters = retOf (first_some (lintOne lctx path d) linters).
Proof.
  induction linters as [|n linters IH]; simpl; [reflexivity |]. unfold lintOne.
  destruct (Linters !! n) as [l|]; [| reflexivity].
  destruct (LinterFunc_ l lctx path d) as [[e|]|]; [| exact IH | reflexivity].
  rewrite Errorf_failed. reflexivity.
Qed.

Lemma lintOne_unknown lctx path d n :
  ~ In n linterNames -> lintOne lctx path d n = Some (Failed (unknownError n)).
Proof. intros H. unfold lintOne. rewrite Linters_lookup_None by exact H. reflexivity. Qed.

Lemma lintOne_None lctx path d n :
  lintOne lctx path d n = None <->
  exists l, Linters !! n = Some l /\ LinterFunc_ l lctx path d = Return None.
Proof.
  unfold lintOne. split.
  - destruct (Linters !! n) as [l|]; [| discriminate].
    destruct (LinterFunc_ l lctx path d) as [[e|]|] eqn:E; [discriminate | eauto | discriminate].
  - intros (l & -> & ->). reflexivity.
Qed.

Lemma apply_walkCb_error lctx linters path d err :
  apply (walkCb lctx linters) (path, d, Some err) = Some (Failed (traverseError path err)).
Proof. unfold apply, walkCb. rewrite Errorf_traverse. reflexivity. Qed.

Lemma apply_walkCb_entry lctx linters path d :
  apply (walkCb lctx linters) (path, d, None) = first_some (lintOne lctx path d) linters.
Proof. unfold apply, walkCb. rewrite lintLoop_first_some. apply stopOf_retOf. Qed.

Lemma apply_walkCb_None lctx linters path d err :
  apply (walkCb lctx linters) (path, d, err) = None <->
  err = None /\ forall n, In n linters -> lintOne lctx path d n = None.
Proof.
  destruct err as [err|].
  - rewrite apply_walkCb_error. split; [discriminate | intros [? _]; discriminate].
  - rewrite apply_walkCb_entry, first_some_None, List.Forall_forall. tauto.
Qed.

(** No call of the walk panics. *)
Lemma apply_walkCb_no_panic lctx linters fsys root c :
  In c (events fsys root) -> apply (walkCb lctx linters) c <> Some Panicked.
Proof.
  intros (p & d & [err|] & -> & Hd)%events_entry; [discriminate |].
  destruct d as [e|]; [| destruct (Hd eq_refl eq_refl)].
  intros Hp%stopOf_Panicked. exact (lintLoop_no_panic _ _ _ _ Hp).
Qed.

(** A run that does not pass returns an error. *)
Lemma lintPackageFs_not_None lctx fsys linters :
  lintPackageFs lctx fsys linters <> Return None ->
  exists err, lintPackageFs lctx fsys linters = Return (Some err).
Proof.
  rewrite lintPackageFs_events. intros Hn.
  destruct (first_some _ _) as [[err|]|] eqn:E; simpl in *; [eauto | | congruence].
  apply first_some_In in E as (c & Hc & Hp). destruct (apply_walkCb_no_panic _ _ _ _ _ Hc Hp).
Qed.

(** A run passes exactly when every call of the walk carries no error and
    every requested linter passes on it. *)
Lemma lintPackageFs_None lctx fsys linters :
  lintPackageFs lctx fsys linters = Return None <->
  forall path d err, In (path, d, err) (events fsys ".") ->
    err = None /\ forall n, In n linters -> lintOne lctx path d n = None.
Proof.
  rewrite lintPackageFs_events, retOf_None, first_some_None, List.Forall_forall. split.
  - intros H path d err Hin. apply apply_walkCb_None, H, Hin.
  - intros H [[path d] err] Hin. apply apply_walkCb_None, H, Hin.
Qed.

(** An entry on which a requested linter does not pass fails the run. *)
Lemma lintPackageFs_violation lctx fsys linters n path d :
  In n linters -> In (path, d, None) (events fsys ".") ->
  lintOne lctx path d n <> None ->
  exists err, lintPackageFs lctx fsys linters = Return (Some err).
Proof.
  intros Hn Hin Hv. apply lintPackageFs_not_None. rewrite lintPackageFs_None.
  intros H. apply Hv. by apply (H _ _ _ Hin).
Qed.

(** On a readable tree the run is the first failure over the visits. *)
Lemma lintPackageFs_readable lctx fsys linters :
  readableFS fsys = true ->
  lintPackageFs lctx fsys linters =
  retOf (first_some
           (fun v => first_some (lintOne lctx (fst v) (Some (snd v))) linters)
           (visits fsys ".")).
Proof.
  intros Hr. rewrite lintPackageFs_events, (readable_events _ _ Hr), first_some_map.
  f_equal. apply first_some_ext. intros v _. apply apply_walkCb_entry.
Qed.

Lemma lintPackageFs_single lctx fsys n :
  readableFS fsys = true ->
  lintPackageFs lctx fsys [n] =
  retOf (first_some (fun v => lintOne lctx (fst v) (Some (snd v)) n) (visits fsys ".")).
Proof.
  intros Hr. rewrite (lintPackageFs_readable _ _ _ Hr). f_equal.
  apply first_some_ext. intros v _. apply first_some_singleton.
Qed.

(** ** The order of the loop and of the walk *)

(** The loop runs the linters in the order of the list and stops at
    the first that does not return [nil]: the linters after it are not
    run, and the linters before it all returned [nil]. *)
Theorem lintLoop_order lctx path d l1 l2 :
  lintLoop lctx path d (l1 ++ l2) =
  match lintLoop lctx path d l1 with
  | Return None => lintLoop lctx path d l2
  | r => r
  end.
Proof.
  rewrite !lintLoop_first_some, first_some_app.
  destruct (first_some _ l1) as [[e|]|]; reflexivity.
Qed.

(** Fail-fast: when two calls of the walk fail, the run returns the
    error of the one the walk makes first, provided the calls before it
    return [nil]; the second failure is never produced. *)
Theorem lintPackageFs_fail_fast lctx fsys linters l1 c1 l2 c2 l3 e1 e2 :
  events fsys "." = l1 ++ c1 :: l2 ++ c2 :: l3 ->
  Forall (fun c => apply (walkCb lctx linters) c = None) l1 ->
  apply (walkCb lctx linters) c1 = Some (Failed e1) ->
  apply (walkCb lctx linters) c2 = Some (Failed e2) ->
  lintPackageFs lctx fsys linters = Return (Some e1).
Proof.
  intros Ev H1 Hc1 _. rewrite lintPackageFs_events, Ev, first_some_app.
  apply first_some_None in H1 as ->.
  rewrite (first_some_cons_Some _ _ _ _ Hc1). reflexivity.
Qed.

(** On a tree whose root can be read, a run whose first linter name is
    unknown returns the unknown-linter error for that name, and no linter
    runs. *)
Theorem lintPackageFs_unknown_first lctx fsys info n linters :
  statRoot fsys = Ok info -> ~ In n linterNames ->
  lintPackageFs lctx fsys (n :: linters) =
  Return (Some (errorString ("Linter " +:+ n +:+ " is unknown"))).
Proof.
  intros Hs Hu. rewrite lintPackageFs_events. unfold events, rootNode. rewrite Hs.
  rewrite nodeEvents_unfold, (first_some_cons_Some _ _ _ (Failed (unknownError n))).
  - reflexivity.
  - rewrite apply_walkCb_entry. apply first_some_cons_Some, lintOne_unknown, Hu.
Qed.

End Enforce.

(** ** The theorems at concrete trees *)

Lemma lintPackageFs_unknown_linter_witness :
  exists e, lintPackageFs (sampleCtx "hello") usrLocalFS ["tempdir"; "bogus"] = Return (Some e).
Proof.
  apply (lintPackageFs_unknown_linter (sampleCtx "hello") usrLocalFS ["tempdir"; "bogus"] "bogus").
  - right. left. reflexivity.
  - unfold linterNames. intros [H|[H|[H|[H|[]]]]]; discriminate H.
Defined.

Lemma lintLoop_failure_message_witness :
  exists e,
    lintLoop (sampleCtx "hello") "var/empty/y" (Some (mkEntry "y" perm644))
      ["varempty"; "tempdir"] = Return (Some e) /\
    Unwrap e = Some (errorString "Package writes to /var/empty") /\
    Contains (Error e) "varempty" /\ Contains (Error e) "var/empty/y" /\
    Contains (Error e) "Package writes to /var/empty" /\
    Contains (Error e) "Remove any offending files in /var/empty in the pipeline".
Proof.
  apply (lintLoop_failure_message (sampleCtx "hello") "var/empty/y"
           (Some (mkEntry "y" perm644)) "varempty"
           (Build_Linter varEmptyLinter
              "Remove any offending files in /var/empty in the pipeline")
           (errorString "Package writes to /var/empty") ["tempdir"]).
  - apply Linters_varempty.
  - vm_compute. reflexivity.
Defined.

Lemma lintPackageFs_fail_fast_witness :
  lintPackageFs (sampleCtx "hello") twoViolationsFS ["tempdir"; "varempty"] =
  Return (Some (failedError "tempdir" "tmp/x"
                  (errorString "Package writes to a temp dir")
                  "Remove any offending files in temporary dirs in the pipeline")).
Proof.
  apply (lintPackageFs_fail_fast (sampleCtx "hello") twoViolationsFS ["tempdir"; "varempty"]
           [(".", Some (mkEntry "." (Z.lor ModeDir perm755)), None);
            ("tmp", Some (mkEntry "tmp" (Z.lor ModeDir perm755)), None)]
           ("tmp/x", Some (mkEntry "x" perm644), None)
           [("var", Some (mkEntry "var" (Z.lor ModeDir perm755)), None);
            ("var/empty", Some (mkEntry "empty" (Z.lor ModeDir perm755)), None)]
           ("var/empty/y", Some (mkEntry "y" perm644), None)
           []
           _
           (failedError "varempty" "var/empty/y"
              (errorString "Package writes to /var/empty")
              "Remove any offending files in /var/empty in the pipeline")).
  - vm_compute. reflexivity.
  - repeat constructor.
  - vm_compute. reflexivity.
  - vm_compute. reflexivity.
Defined.

Lemma lintPackageFs_unknown_first_witness :
  lintPackageFs (sampleCtx "hello") usrLocalFS ["bogus"; "usrlocal"] =
  Return (Some (errorString "Linter bogus is unknown")).
Proof.
  apply (lintPackageFs_unknown_first (sampleCtx "hello") usrLocalFS
           (mkInfo "." (Z.lor ModeDir perm755)) "bogus" ["usrlocal"]).
  - reflexivity.
  - unfold linterNames. intros [H|[H|[H|[H|[]]]]]; discriminate H.
Defined.
