(* ===== verification/Taxonomy.v ===== *)
(** * Why a run fails: the three kinds of failure

    The specification names three kinds of failure of a run: an unknown
    check name, a failure of the traversal, and a failure of a check.
    [reason] is that taxonomy as a type and [errorOf] the error the program
    builds for each.  [diagnose] computes the reason of a run from the
    registry and the calls of the walk, without building any error.  The
    theorems: the result of [lintPackageFs] is the error of the diagnosis,
    so every error it returns is of one of the three kinds, and the
    diagnosis is justified by the tree, the names and the registry; and a
    traversal error at a directory is reported only after every requested
    linter passed on that directory. *)

From stdpp Require Import gmap.
From S2P Require Import Prelude Errors Regexp FS Linter Samples Enforce.

(** ** Reasons *)

Inductive reason : Type :=
  | UnknownLinter (linterName : string)
  | TraversalFailed (path : string) (cause : error)
  | LinterFailed (linterName path : string) (cause : error).

#[export] Instance reason_eq_dec : EqDecision reason.
Proof. solve_decision. Defined.

(** The hint of a linter of the registry, or the empty string. *)
Definition hint (n : string) : string :=
  match @Linters unit unit !! n with
  | Some l => Explain l
  | None => EmptyString
  end.

(** The error [walkCb] builds for a reason. *)
Definition errorOf (r : reason) : error :=
  match r with
  | UnknownLinter n => unknownError n
  | TraversalFailed path cause => traverseError path cause
  | LinterFailed n path cause => failedError n path cause (hint n)
  end.

(** The cause a reason wraps, if it wraps one. *)
Definition causeOf (r : reason) : option error :=
  match r with
  | UnknownLinter _ => None
  | TraversalFailed _ cause | LinterFailed _ _ cause => Some cause
  end.

Section Taxonomy.

Context {Configuration Checks : Type}.
Implicit Types (lctx : LinterContext Configuration Checks) (path : string)
  (d : option DirEntry) (linters : list string) (fsys : FS) (r : reason).

(** Why one turn of the loop fails, if it does. *)
Definition reasonOne lctx path d (linterName : string) : option reason :=
  match Linters !! linterName with
  | None => Some (UnknownLinter linterName)
  | Some linter =>
      match LinterFunc_ linter lctx path d with
      | Return (Some cause) => Some (LinterFailed linterName path cause)
      | _ => None
      end
  end.

(** Why a call of [walkCb] fails, if it does. *)
Definition reasonCall lctx linters (c : call) : option reason :=
  match c with
  | (path, _, Some err) => Some (TraversalFailed path err)
  | (path, d, None) => first_some (reasonOne lctx path d) linters
  end.

(** Why the run fails, if it does. *)
Definition diagnose lctx fsys linters : option reason :=
  first_some (reasonCall lctx linters) (events fsys ".").

(** The reason is one this run can have: the name is requested and
    missing from the registry, or the walk reported the error at the path,
    or the requested linter returned the cause on an entry of the walk. *)
Definition justified lctx fsys linters r : Prop :=
  match r with
  | UnknownLinter n => In n linters /\ Linters !! n = (None : option (Linter Configuration Checks))
  | TraversalFailed path cause => exists d, In (path, d, Some cause) (events fsys ".")
  | LinterFailed n path cause =>
      In n linters /\
      exists (e : DirEntry) (l : Linter Configuration Checks),
        In (path, Some e, None) (events fsys ".") /\
        Linters !! n = Some l /\ LinterFunc_ l lctx path (Some e) = Return (Some cause)
  end.

(** ** Lemmas *)

Lemma Explain_hint n (l : Linter Configuration Checks) :
  Linters !! n = Some l -> Explain l = hint n.
Proof.
  unfold hint. rewrite !Linters_lookup.
  repeat case_decide; intros [= <-]; reflexivity.
Qed.

Lemma lintOne_reasonOne lctx path (e : DirEntry) n :
  lintOne lctx path (Some e) n =
  option_map (fun r => Errors.Failed (errorOf r)) (reasonOne lctx path (Some e) n).
Proof.
  unfold lintOne, reasonOne. destruct (Linters !! n) as [l|] eqn:El; [| reflexivity].
  pose proof (Linters_no_panic n l lctx path e El).
  destruct (LinterFunc_ l lctx path (Some e)) as [[c|]|]; [| done..].
  cbn. by rewrite (Explain_hint n l El).
Qed.

Lemma apply_walkCb_reasonCall lctx fsys linters c :
  In c (events fsys ".") ->
  apply (walkCb lctx linters) c =
  option_map (fun r => Errors.Failed (errorOf r)) (reasonCall lctx linters c).
Proof.
  intros (path & d & [err|] & -> & Hd)%events_entry.
  - by rewrite apply_walkCb_error.
  - destruct d as [e|]; [| by destruct Hd].
    rewrite apply_walkCb_entry. cbn [reasonCall]. rewrite <- first_some_option_map.
    apply first_some_ext. intros n _. apply lintOne_reasonOne.
Qed.

Lemma reasonOne_justified lctx fsys linters path (e : DirEntry) n r :
  In n linters -> In (path, Some e, None) (events fsys ".") ->
  reasonOne lctx path (Some e) n = Some r -> justified lctx fsys linters r.
Proof.
  intros Hn Hin. unfold reasonOne.
  destruct (Linters !! n) as [l|] eqn:El; [| by intros [= <-]].
  destruct (LinterFunc_ l lctx path (Some e)) as [[c|]|] eqn:Ef; intros [= <-].
  cbn. eauto 8.
Qed.

Lemma reasonOne_LinterFailed lctx path d m n p cause :
  reasonOne lctx path d m = Some (LinterFailed n p cause) ->
  m = n /\ path = p /\
  exists l, Linters !! n = Some l /\ LinterFunc_ l lctx path d = Return (Some cause).
Proof.
  unfold reasonOne. destruct (Linters !! m) as [l|] eqn:El; [| done].
  destruct (LinterFunc_ l lctx path d) as [[c|]|] eqn:Ef; intros [= <- <- <-]. eauto.
Qed.

Lemma reasonOne_None lctx path (e : DirEntry) n :
  reasonOne lctx path (Some e) n = None <-> lintOne lctx path (Some e) n = None.
Proof. rewrite lintOne_reasonOne. by destruct (reasonOne lctx path (Some e) n). Qed.

Lemma reasonCall_None lctx fsys linters c :
  In c (events fsys ".") ->
  reasonCall lctx linters c = None <-> apply (walkCb lctx linters) c = None.
Proof.
  intros H. rewrite (apply_walkCb_reasonCall _ _ _ _ H). by destruct (reasonCall lctx linters c).
Qed.

(** A run diagnosed as a linter failure: the calls before the failing one
    passed, and on the failing entry the linters before the failing one. *)
Lemma diagnose_LinterFailed lctx fsys linters n path cause :
  diagnose lctx fsys linters = Some (LinterFailed n path cause) ->
  exists l1 e l2 k1 k2 l,
    events fsys "." = l1 ++ (path, Some e, None) :: l2 /\
    first_some (apply (walkCb lctx linters)) l1 = None /\
    linters = k1 ++ n :: k2 /\
    first_some (lintOne lctx path (Some e)) k1 = None /\
    Linters !! n = Some l /\ LinterFunc_ l lctx path (Some e) = Return (Some cause).
Proof.
  unfold diagnose. intros (l1 & c & l2 & Hev & H1 & Hc)%first_some_Some.
  assert (Hin : forall c', In c' (l1 ++ c :: l2) -> In c' (events fsys ".")) by by rewrite Hev.
  destruct (events_entry fsys "." c) as (p & d & [err|] & -> & Hd); [apply Hin, in_elt | done |].
  destruct d as [e|]; [| by destruct Hd]. cbn [reasonCall] in Hc.
  apply first_some_Some in Hc as (k1 & m & k2 & -> & Hk1 & Hm).
  apply reasonOne_LinterFailed in Hm as (-> & -> & l & El & Ef).
  exists l1, e, l2, k1, k2, l. split_and!; [done | | done | | done..].
  - apply first_some_None, List.Forall_forall. intros c' Hc'.
    apply (reasonCall_None lctx fsys); [apply Hin, in_or_app; by left |].
    by eapply first_some_None, List.Forall_forall in H1.
  - apply first_some_None, List.Forall_forall. intros n' Hn'. apply reasonOne_None.
    by eapply first_some_None, List.Forall_forall in Hk1.
Qed.

Lemma reasonCall_TraversalFailed lctx linters c path cause :
  reasonCall lctx linters c = Some (TraversalFailed path cause) ->
  exists d, c = (path, d, Some cause).
Proof.
  destruct c as [[p d] [err|]]; cbn [reasonCall]; [intros [= -> ->]; eauto |].
  intros (n & _ & H)%first_some_In. unfold reasonOne in H. by repeat case_match.
Qed.

(** The result of a run is the error of its diagnosis. *)
Lemma lintPackageFs_diagnose lctx fsys linters :
  lintPackageFs lctx fsys linters =
  Return (option_map errorOf (diagnose lctx fsys linters)).
Proof.
  rewrite lintPackageFs_events.
  rewrite (first_some_ext _ _ _ (apply_walkCb_reasonCall lctx fsys linters)).
  rewrite first_some_option_map. unfold diagnose. by destruct (first_some _ _).
Qed.

(** ** Theorems *)

(** C12. Every failure is of one of the three kinds. The result of
    [lintPackageFs] is [nil] when the diagnosis finds no reason and is
    otherwise the error built for the reason found: an unknown-linter
    error, a traversal error that wraps the error of the walk, or a
    linter failure that wraps the error of the linter and carries its
    hint.  The reason found is justified: the unknown name is requested
    and missing from the registry; the traversal error was reported by the
    walk at that path; the linter is requested and registered and returned
    that cause on an entry the walk visited. *)
Theorem lintPackageFs_taxonomy lctx fsys linters :
  lintPackageFs lctx fsys linters =
  Return (option_map errorOf (diagnose lctx fsys linters)) /\
  forall r, diagnose lctx fsys linters = Some r ->
    justified lctx fsys linters r /\ Unwrap (errorOf r) = causeOf r.
Proof.
  split; [apply lintPackageFs_diagnose |].
  - intros r (c & Hin & Hc)%first_some_In. split; [| by destruct r].
    destruct (events_entry _ _ _ Hin) as (path & d & [err|] & -> & Hd).
    + injection Hc as <-. cbn. eauto.
    + destruct d as [e|]; [| by destruct Hd].
      apply first_some_In in Hc as (n & Hn & Hr).
      by apply (reasonOne_justified _ _ _ _ _ _ _ Hn Hin Hr).
Qed.

(** C13. A traversal error is reported after the linters: when the run
    fails with a traversal error at [path], either [Stat] on the root
    failed, or [path] is a directory the walk visited, whose listing
    failed, and every requested linter passed on that directory before the
    error was reported.  So a failure of a linter on a directory that
    cannot be listed is reported instead of the traversal error. *)
Theorem traversal_error_after_linters lctx fsys linters path cause :
  diagnose lctx fsys linters = Some (TraversalFailed path cause) ->
  (statRoot fsys = Err cause /\ path = ".") \/
  exists e, In (path, Some e, None) (events fsys ".") /\
            In (path, Some e, Some cause) (events fsys ".") /\
            forall n, In n linters -> lintOne lctx path (Some e) n = None.
Proof.
  unfold diagnose. intros (k1 & c & k2 & Hev & Hk1 & Hc)%first_some_Some.
  apply reasonCall_TraversalFailed in Hc as [d ->].
  destruct (events_report _ _ _ _ _ _ _ Hev) as [(Hs & _ & -> & _)|(e & k0 & -> & ->)]; [by left |].
  right. exists e. rewrite Hev. split_and!.
  - rewrite <- app_assoc. apply in_elt.
  - apply in_elt.
  - rewrite first_some_app in Hk1. destruct (first_some (reasonCall lctx linters) k0); [done |].
    rewrite first_some_singleton in Hk1. cbn [reasonCall] in Hk1.
    intros n Hn. apply reasonOne_None. by eapply first_some_None, List.Forall_forall in Hk1.
Qed.

(** [errors.Is] sees through the wrap: what the cause of a failing run
    is, by [errors.Is], the error of the run is too. *)
Theorem failure_Is_cause lctx fsys linters err r cause target :
  lintPackageFs lctx fsys linters = Return (Some err) ->
  diagnose lctx fsys linters = Some r -> causeOf r = Some cause ->
  Is cause target = true -> Is err target = true.
Proof.
  rewrite lintPackageFs_diagnose. intros H Hd Hc. rewrite Hd in H. injection H as <-.
  apply Is_Unwrap. by destruct r; simplify_eq/=.
Qed.

End Taxonomy.

(** ** The theorem on a tree with a directory that cannot be listed *)

Lemma traversal_error_after_linters_witness :
  (statRoot brokenDirFS = Err (errorString "readdir etc: input/output error") /\ "etc" = ".") \/
  exists e, In ("etc", Some e, None) (events brokenDirFS ".") /\
            In ("etc", Some e, Some (errorString "readdir etc: input/output error"))
               (events brokenDirFS ".") /\
            forall n, In n linterNames -> lintOne (sampleCtx "hello") "etc" (Some e) n = None.
Proof.
  apply (traversal_error_after_linters (sampleCtx "hello") brokenDirFS linterNames).
  vm_compute. reflexivity.
Defined.
