(* ===== verification/Stateful.v ===== *)
(** * The walk with a state

    [fs.WalkDir] calls a function value; in Go that function may be a
    closure over variables it updates.  [walker S] is such a computation
    over a state of type [S]: it returns the new state and the result.
    [orElse] is the control flow of the walk, and of Go code in general:
    run a computation, stop with its error when there is one, go on
    otherwise.  [walkDirS] and [WalkDirS] are [walkDir] and [WalkDir]
    for a function with a state, written with it.

    The theorems: the state has no influence on the walk (forgetting it
    gives [walkDir] and [WalkDir]), and for a function that never returns
    [SkipDir] or [SkipAll] the walk runs the calls of [events] in order
    and stops after the first that does not return [nil]. *)

From S2P Require Import Prelude Errors FS.

Section Stateful.

Context {S : Type}.

(** A computation of the walk: the state after it and how it ends. *)
Definition walker : Type := S -> S * ret (option error).

(** The computation that does nothing and returns [nil]. *)
Definition pass : walker := fun s => (s, Return None).

(** [orElse m handle k]: run [m]; when it returns an error, return what
    [handle] makes of it; when it panics, panic; otherwise go on with [k]. *)
Definition orElse (m : walker) (handle : error -> option error) (k : walker) : walker :=
  fun s =>
    let '(s1, r) := m s in
    match r with
    | Panic => (s1, Panic)
    | Return (Some err) => (s1, Return (handle err))
    | Return None => k s1
    end.

(** [fs.WalkDirFunc] for a function with a state. *)
Definition WalkDirFuncS : Type := string -> option DirEntry -> option error -> walker.

Definition skipDir (err : error) : option error := if isSkipDir err then None else Some err.

Definition skipAny (err : error) : option error := if isSkip err then None else Some err.

Fixpoint walkDirS (name : string) (n : fsnode) (walkDirFn : WalkDirFuncS) : walker :=
  match n with
  | FsNode d dirs rderr =>
      orElse (walkDirFn name (Some d) None) (fun err => skipped err d)
        (if negb (IsDir d) then pass
         else
           orElse match rderr with
                  | Some err => walkDirFn name (Some d) (Some err)
                  | None => pass
                  end
                  (fun err => skipped err d)
             ((fix loop (l : list fsnode) : walker :=
                 match l with
                 | [] => pass
                 | d1 :: l' =>
                     orElse (walkDirS (Join name (nodeName d1)) d1 walkDirFn) skipDir (loop l')
                 end) dirs))
  end.

(** The loop of [walkDirS] over a listing, on its own. *)
Fixpoint walkDirsS (name : string) (l : list fsnode) (walkDirFn : WalkDirFuncS) : walker :=
  match l with
  | [] => pass
  | d1 :: l' =>
      orElse (walkDirS (Join name (nodeName d1)) d1 walkDirFn) skipDir
        (walkDirsS name l' walkDirFn)
  end.

Definition WalkDirS (fsys : FS) (root : string) (fn : WalkDirFuncS) : walker :=
  orElse match statRoot fsys with
         | Err err => fn root None (Some err)
         | Ok info => walkDirS root (rootNode fsys info) fn
         end
         skipAny pass.

(** The calls of a list in order, up to the first that does not return
    [nil]. *)
Fixpoint runCalls (fn : WalkDirFuncS) (l : list call) : walker :=
  match l with
  | [] => pass
  | (name, d, err) :: l' => orElse (fn name d err) Some (runCalls fn l')
  end.

(** The function never returns one of the sentinels of the walk. *)
Class NeverSkipsS (fn : WalkDirFuncS) : Prop :=
  never_skipsS : forall name d err s s' e,
    fn name d err s = (s', Return (Some e)) -> isSkip e = false.

(** The function never returns [SkipDir]; it may end the walk with
    [SkipAll]. *)
Class NeverSkipsDirS (fn : WalkDirFuncS) : Prop :=
  never_skips_dirS : forall name d err s s' e,
    fn name d err s = (s', Return (Some e)) -> isSkipDir e = false.

(** The function [fn] is [fnS] without its state. *)
Definition erases (fnS : WalkDirFuncS) (fn : WalkDirFunc) : Prop :=
  forall name d err s, snd (fnS name d err s) = fn name d err.

(** ** Lemmas: [orElse] *)

Lemma orElse_pass_l handle k s : orElse pass handle k s = k s.
Proof. reflexivity. Qed.

Lemma orElse_pass_r m s : orElse m Some pass s = m s.
Proof. unfold orElse, pass. by destruct (m s) as [s1 [[e|]|]]. Qed.

Lemma orElse_assoc m k1 k2 s :
  orElse (orElse m Some k1) Some k2 s = orElse m Some (orElse k1 Some k2) s.
Proof. unfold orElse. by destruct (m s) as [s1 [[e|]|]]. Qed.

(** [orElse] on computations, handlers and continuations that agree where
    they are used. *)
Lemma orElse_congr m1 m2 h1 h2 k1 k2 s :
  m1 s = m2 s ->
  (forall s' e, m2 s = (s', Return (Some e)) -> h1 e = h2 e) ->
  (forall s', k1 s' = k2 s') ->
  orElse m1 h1 k1 s = orElse m2 h2 k2 s.
Proof.
  unfold orElse. intros -> Hh Hk. destruct (m2 s) as [s1 [[e|]|]]; try done.
  by rewrite (Hh s1 e).
Qed.

Lemma orElse_ext m handle k1 k2 s :
  (forall s', k1 s' = k2 s') -> orElse m handle k1 s = orElse m handle k2 s.
Proof. intros H. by apply orElse_congr. Qed.

(** The result of [orElse] when the state is forgotten. *)
Lemma orElse_snd m handle k s r :
  snd (m s) = r ->
  snd (orElse m handle k s) =
  match r with
  | Panic => Panic
  | Return (Some err) => Return (handle err)
  | Return None => snd (k (fst (m s)))
  end.
Proof. unfold orElse. destruct (m s) as [s1 [[e|]|]]; by intros <-. Qed.

(** ** Lemmas: the walk *)

Lemma walkDirS_unfold name d dirs rderr fn s :
  walkDirS name (FsNode d dirs rderr) fn s =
  orElse (fn name (Some d) None) (fun err => skipped err d)
    (if negb (IsDir d) then pass
     else orElse match rderr with
                 | Some err => fn name (Some d) (Some err)
                 | None => pass
                 end
                 (fun err => skipped err d) (walkDirsS name dirs fn)) s.
Proof.
  cbn [walkDirS]. apply orElse_ext. intros s1. destruct (negb (IsDir d)); [done |].
  apply orElse_ext. clear. induction dirs as [|d1 l IH]; intros s2; [done |].
  cbn [walkDirsS]. by apply orElse_ext.
Qed.

Lemma runCalls_app fn l1 l2 s :
  runCalls fn (l1 ++ l2) s = orElse (runCalls fn l1) Some (runCalls fn l2) s.
Proof.
  revert s. induction l1 as [|[[name d] err] l1 IH]; intros s; [done |].
  cbn [app runCalls]. rewrite orElse_assoc. by apply orElse_ext.
Qed.

Lemma skipDir_not_skip e : isSkip e = false -> skipDir e = Some e.
Proof. intros H. unfold skipDir. by rewrite (isSkipDir_isSkip _ H). Qed.

Lemma skipAny_not_skip e : isSkip e = false -> skipAny e = Some e.
Proof. intros H. unfold skipAny. by rewrite H. Qed.

(** *** The state has no influence on the walk *)

Section Erase.

Context (fnS : WalkDirFuncS) (fn : WalkDirFunc) (Hfn : erases fnS fn).

Lemma walkDirsS_erase name l :
  Forall (fun n => forall name s, snd (walkDirS name n fnS s) = walkDir name n fn) l ->
  forall s, snd (walkDirsS name l fnS s) = walkDirs name l fn.
Proof.
  induction 1 as [|d1 l H1 _ IH]; intros s; [done |]. cbn [walkDirsS walkDirs].
  rewrite (orElse_snd _ _ _ _ _ (H1 _ s)). by destruct (walkDir _ d1 fn) as [[e|]|].
Qed.

Lemma walkDirS_erase n : forall name s, snd (walkDirS name n fnS s) = walkDir name n fn.
Proof.
  induction n as [d dirs rderr IH] using fsnode_forall_ind; intros name s.
  rewrite walkDirS_unfold, walkDir_unfold, (orElse_snd _ _ _ _ _ (Hfn name (Some d) None s)).
  destruct (fn name (Some d) None) as [[e|]|]; try done.
  destruct (negb (IsDir d)); [done |]. destruct rderr as [err|].
  - rewrite (orElse_snd _ _ _ _ _ (Hfn name (Some d) (Some err) _)).
    destruct (fn name (Some d) (Some err)) as [[e|]|]; try done. by apply walkDirsS_erase.
  - rewrite orElse_pass_l. by apply walkDirsS_erase.
Qed.

Lemma WalkDirS_erase fsys root s : snd (WalkDirS fsys root fnS s) = WalkDir fsys root fn.
Proof.
  unfold WalkDirS, WalkDir. destruct (statRoot fsys) as [info|err].
  - rewrite (orElse_snd _ _ _ _ _ (walkDirS_erase _ root s)).
    by destruct (walkDir root _ fn) as [[e|]|].
  - rewrite (orElse_snd _ _ _ _ _ (Hfn root None (Some err) s)).
    by destruct (fn root None (Some err)) as [[e|]|].
Qed.

End Erase.

(** *** The walk of a function that never returns [SkipDir] *)

#[export] Instance NeverSkipsS_NeverSkipsDirS fn `{!NeverSkipsS fn} : NeverSkipsDirS fn.
Proof. intros name d err s s' e H. apply isSkipDir_isSkip, (never_skipsS _ _ _ _ _ _ H). Qed.

Lemma skipDir_not_skipDir e : isSkipDir e = false -> skipDir e = Some e.
Proof. intros H. unfold skipDir. by rewrite H. Qed.

Section Full.

Context (fn : WalkDirFuncS) `{!NeverSkipsDirS fn}.

Lemma runCalls_not_skipDir l : forall s s' e,
  runCalls fn l s = (s', Return (Some e)) -> isSkipDir e = false.
Proof.
  induction l as [|[[name d] err] l IH]; intros s s' e; [done |]. cbn [runCalls]. unfold orElse.
  destruct (fn name d err s) as [s1 [[e1|]|]] eqn:E; [| by apply IH | done].
  intros [= <- <-]. by apply (never_skips_dirS _ _ _ _ _ _ E).
Qed.

Lemma walkDirsS_runCalls name l :
  Forall (fun n => forall name s, walkDirS name n fn s = runCalls fn (nodeEvents name n) s) l ->
  forall s, walkDirsS name l fn s = runCalls fn (dirsEvents name l) s.
Proof.
  induction 1 as [|d1 l H1 _ IH]; intros s; [done |]. cbn [walkDirsS dirsEvents].
  rewrite runCalls_app. apply orElse_congr; [apply H1 | | apply IH].
  intros s' e He%runCalls_not_skipDir. by apply skipDir_not_skipDir.
Qed.

Lemma walkDirS_runCalls n : forall name s,
  walkDirS name n fn s = runCalls fn (nodeEvents name n) s.
Proof.
  induction n as [d dirs rderr IH] using fsnode_forall_ind; intros name s.
  rewrite walkDirS_unfold, nodeEvents_unfold. cbn [runCalls].
  apply orElse_congr; [done | |].
  { intros s' e He. by apply skipped_not_skipDir, (never_skips_dirS _ _ _ _ _ _ He). }
  intros s1. destruct (IsDir d); [| done]. cbn [negb]. rewrite runCalls_app.
  destruct rderr as [err|].
  - cbn [runCalls]. apply orElse_congr; [by rewrite orElse_pass_r | | by apply walkDirsS_runCalls].
    intros s' e He. rewrite orElse_pass_r in He.
    by apply skipped_not_skipDir, (never_skips_dirS _ _ _ _ _ _ He).
  - by apply walkDirsS_runCalls.
Qed.

(** [WalkDirS] runs the calls of the walk in order and stops after the
    first that does not return [nil]; [SkipAll] from that call ends the
    walk without error. *)
Lemma WalkDirS_first_stop fsys root s :
  WalkDirS fsys root fn s = orElse (runCalls fn (events fsys root)) skipAny pass s.
Proof.
  unfold WalkDirS, events. destruct (statRoot fsys) as [info|err].
  - apply orElse_congr; [apply walkDirS_runCalls | done..].
  - cbn [runCalls]. apply orElse_congr; [by rewrite orElse_pass_r | done..].
Qed.

End Full.

(** *** The walk of a function that never skips *)

Section Plain.

Context (fn : WalkDirFuncS) `{!NeverSkipsS fn}.

Lemma runCalls_not_skip l : forall s s' e,
  runCalls fn l s = (s', Return (Some e)) -> isSkip e = false.
Proof.
  induction l as [|[[name d] err] l IH]; intros s s' e; [done |]. cbn [runCalls]. unfold orElse.
  destruct (fn name d err s) as [s1 [[e1|]|]] eqn:E; [| by apply IH | done].
  intros [= <- <-]. by apply (never_skipsS _ _ _ _ _ _ E).
Qed.

(** [WalkDirS] runs the calls of the walk in order and stops after the
    first that does not return [nil]. *)
Theorem WalkDirS_runCalls fsys root s :
  WalkDirS fsys root fn s = runCalls fn (events fsys root) s.
Proof.
  rewrite (WalkDirS_first_stop fn), <- (orElse_pass_r (runCalls _ _)).
  apply orElse_congr; [done | | done].
  intros s' e He%runCalls_not_skip. by apply skipAny_not_skip.
Qed.

End Plain.

End Stateful.
