(* ===== verification/Order.v ===== *)
(** * The order of the walk, and which violation a run reports

    [fs.WalkDir] visits a directory before what is under it and the
    entries of a listing in the order [ReadDir] gave them, which is the
    order of their names.  An entry is told apart by its key, the names on
    the way from the root; the path the walk hands to [walkCb] is the key
    joined by slashes.  On a tree with sorted listings the keys of the
    visited entries are strictly increasing in the order [keyLt]: a key
    comes before its extensions, and two keys that part ways are ordered
    by the names at which they part.  So no key is visited twice
    ([keyed_NoDup]), and the violation a failing run reports is the one
    with the least key.  Sorting a listing with [sortByName] gives a
    listing of that kind when its names are distinct. *)

From stdpp Require Import gmap sorting.
From S2P Require Import Prelude Errors Regexp FS Linter Samples Enforce.

(** ** Keys *)

(** The names from the root to an entry; the root has the empty key. *)
Definition key : Type := list string.

(** The path of a key, as the walk builds it with [path.Join] from the
    root ["."]. *)
Definition joinKey (k : key) : string := fold_left Join k ".".

(** The order of the walk on keys. *)
Inductive keyLt : key -> key -> Prop :=
  | keyLt_nil x l : keyLt [] (x :: l)
  | keyLt_lt x y l1 l2 : String.ltb x y = true -> keyLt (x :: l1) (y :: l2)
  | keyLt_eq x l1 l2 : keyLt l1 l2 -> keyLt (x :: l1) (x :: l2).

Fixpoint keyLtb (k1 k2 : key) : bool :=
  match k1, k2 with
  | [], _ :: _ => true
  | x :: l1, y :: l2 => String.ltb x y || (String.eqb x y && keyLtb l1 l2)
  | _, [] => false
  end.

(** The entries an uninterrupted walk visits under a node, with their
    keys, in the order of the walk. *)
Fixpoint nodeKeyed (k : key) (n : fsnode) : list (key * DirEntry) :=
  match n with
  | FsNode d dirs _ =>
      (k, d) ::
      (if IsDir d then flat_map (fun c => nodeKeyed (k ++ [nodeName c]) c) dirs else [])
  end.

Definition keyed (fsys : FS) : list (key * DirEntry) :=
  match statRoot fsys with
  | Ok info => nodeKeyed [] (rootNode fsys info)
  | Err _ => []
  end.

(** The names of a listing are strictly increasing. *)
Definition sortedNames (dirs : list fsnode) : Prop :=
  Sorted (fun x y => String.ltb (nodeName x) (nodeName y) = true) dirs.

(** ** Lemmas: the order on keys *)

#[export] Instance keyLt_strict : StrictOrder keyLt.
Proof.
  split.
  - intros k H. induction k as [|x k IH]; inv H; [by rewrite ltb_irrefl in * | auto].
  - intros k1 k2 k3 H12. revert k3.
    induction H12 as [x l|x y l1 l2 Hxy|x l1 l2 _ IH]; intros k3 H23; inv H23;
      eauto using keyLt, ltb_trans.
Qed.

Lemma keyLtb_spec k1 k2 : keyLtb k1 k2 = true <-> keyLt k1 k2.
Proof.
  revert k2. induction k1 as [|x l1 IH]; intros [|y l2]; simpl.
  - split; [discriminate | inversion 1].
  - split; [constructor | reflexivity].
  - split; [discriminate | inversion 1].
  - rewrite orb_true_iff, andb_true_iff, String.eqb_eq, IH. split.
    + intros [H|[-> H]]; eauto using keyLt.
    + inversion 1; subst; auto.
Qed.

Lemma keyLt_app_cons k x l : keyLt k (k ++ x :: l).
Proof. induction k; simpl; eauto using keyLt. Qed.

Lemma keyLt_app_lt k x y l1 l2 :
  String.ltb x y = true -> keyLt (k ++ x :: l1) (k ++ y :: l2).
Proof. intros H. induction k; simpl; eauto using keyLt. Qed.

(** ** Lemmas: the keys of a walk *)

Lemma nodeKeyed_unfold k d dirs rderr :
  nodeKeyed k (FsNode d dirs rderr) =
  (k, d) :: (if IsDir d then flat_map (fun c => nodeKeyed (k ++ [nodeName c]) c) dirs else []).
Proof. reflexivity. Qed.

Lemma nodeKeyed_prefix n : forall k q e,
  In (q, e) (nodeKeyed k n) -> exists s, q = k ++ s.
Proof.
  induction n as [d dirs rderr IH] using fsnode_forall_ind; intros k q e.
  rewrite nodeKeyed_unfold. intros [[= <- _]|Hin]; [exists []; by rewrite app_nil_r |].
  destruct (IsDir d); [| destruct Hin].
  apply in_flat_map in Hin as (c & Hc & Hq).
  rewrite List.Forall_forall in IH.
  destruct (IH c Hc _ _ _ Hq) as [s ->]. exists (nodeName c :: s). by rewrite <- app_assoc.
Qed.

Lemma sortedNode_unfold d dirs rderr :
  sortedNode (FsNode d dirs rderr) = true <->
  sortedNames dirs /\ Forall (fun c => sortedNode c = true) dirs.
Proof.
  cbn [sortedNode]. rewrite andb_true_iff. unfold sortedNames.
  match goal with
  | |- ?A /\ ?B <-> ?C /\ ?D => cut ((A <-> C) /\ (B <-> D)); [tauto | split]
  end.
  - induction dirs as [|x [|y l] IH]; simpl.
    + split; intros; [constructor | reflexivity].
    + split; intros; [repeat constructor | reflexivity].
    + rewrite andb_true_iff, IH. split.
      * intros [H1 H2]. constructor; [assumption | by constructor].
      * intros H. inv H. match goal with H : HdRel _ _ _ |- _ => inv H end. auto.
  - induction dirs as [|x l IH]; simpl; [split; intros; [constructor | reflexivity] |].
    rewrite andb_true_iff, IH, Forall_cons. reflexivity.
Qed.

Lemma flat_map_sorted (k : key) (dirs : list fsnode) :
  sortedNames dirs ->
  Forall (fun c => forall k', StronglySorted keyLt (map fst (nodeKeyed k' c))) dirs ->
  StronglySorted keyLt
    (map fst (flat_map (fun c => nodeKeyed (k ++ [nodeName c]) c) dirs)).
Proof.
  intros Hs%Sorted_StronglySorted; [| intros x y z; apply ltb_trans].
  induction Hs as [|c l _ IHl Hc]; intros Hk; [constructor |].
  apply Forall_cons in Hk as [Hkc Hkl]. cbn [flat_map]. rewrite map_app.
  apply StronglySorted_app. split_and!; [| apply Hkc | by apply IHl].
  intros q1 q2 ((q & e1) & -> & (s1 & ->)%list_elem_of_In%nodeKeyed_prefix)%list_elem_of_fmap.
  intros ((q & e2) & -> & (c2 & Hc2 & (s2 & ->)%nodeKeyed_prefix)%list_elem_of_In%in_flat_map)%list_elem_of_fmap.
  rewrite List.Forall_forall in Hc. cbn [fst]. rewrite <- !app_assoc.
  apply keyLt_app_lt, Hc, Hc2.
Qed.

Lemma nodeKeyed_sorted n : forall k,
  sortedNode n = true -> StronglySorted keyLt (map fst (nodeKeyed k n)).
Proof.
  induction n as [d dirs rderr IH] using fsnode_forall_ind; intros k.
  rewrite sortedNode_unfold, nodeKeyed_unfold. intros [Hn Hs]. cbn [map fst].
  destruct (IsDir d); [| repeat constructor]. constructor.
  - apply flat_map_sorted; [exact Hn |].
    rewrite List.Forall_forall in *. intros c Hc k'. by apply IH, Hs.
  - apply List.Forall_forall. intros q ((q' & e) & <- & Hin)%in_map_iff.
    apply in_flat_map in Hin as (c & _ & (s & ->)%nodeKeyed_prefix).
    cbn [fst]. rewrite <- app_assoc. apply keyLt_app_cons.
Qed.

Lemma keyed_sorted fsys :
  sortedFS fsys = true -> StronglySorted keyLt (map fst (keyed fsys)).
Proof.
  unfold sortedFS, keyed. destruct (statRoot fsys); [apply nodeKeyed_sorted | constructor].
Qed.

Lemma keyed_NoDup fsys : sortedFS fsys = true -> NoDup (map fst (keyed fsys)).
Proof.
  intros Hs%keyed_sorted. induction Hs as [|k l _ IH Hk]; constructor; [| exact IH].
  intros Hin%list_elem_of_In. rewrite List.Forall_forall in Hk.
  destruct (irreflexivity keyLt k (Hk _ Hin)).
Qed.

Lemma joinKey_snoc k name : joinKey (k ++ [name]) = Join (joinKey k) name.
Proof. unfold joinKey. by rewrite fold_left_app. Qed.

Lemma omap_visitOf_entry name d (l : list call) :
  omap visitOf ((name, Some d, None) :: l) = (name, d) :: omap visitOf l.
Proof. reflexivity. Qed.

Lemma omap_visitOf_report name d err (l : list call) :
  omap visitOf ((name, d, Some err) :: l) = omap visitOf l.
Proof. by destruct d. Qed.

(** The visits of a walk are its keyed entries, each key joined into a
    path. *)
Lemma nodeEvents_keyed n : forall k,
  omap visitOf (nodeEvents (joinKey k) n) =
  map (fun kd => (joinKey (fst kd), snd kd)) (nodeKeyed k n).
Proof.
  induction n as [d dirs rderr IH] using fsnode_forall_ind; intros k.
  rewrite nodeEvents_unfold, nodeKeyed_unfold, omap_visitOf_entry. cbn [map fst snd].
  f_equal. destruct (IsDir d); [| reflexivity].
  destruct rderr; cbn [app]; rewrite ?omap_visitOf_report;
    (induction IH as [|c l Hc _ IHl]; [reflexivity |];
     cbn [dirsEvents flat_map]; rewrite omap_app, map_app, <- joinKey_snoc, Hc; by f_equal).
Qed.

Lemma visits_keyed fsys :
  visits fsys "." = map (fun kd => (joinKey (fst kd), snd kd)) (keyed fsys).
Proof.
  unfold visits, events, keyed. destruct (statRoot fsys); [| reflexivity].
  apply (nodeEvents_keyed _ []).
Qed.

(** ** Lemmas: sorting a listing by name *)

Lemma leb_ltb s t : String.leb s t = true -> s <> t -> String.ltb s t = true.
Proof.
  unfold String.leb, String.ltb. destruct (String.compare s t) eqn:E; try done.
  by apply String.compare_eq_iff in E.
Qed.

Lemma leb_false_leb s t : String.leb s t = false -> String.leb t s = true.
Proof. destruct (String.leb_total s t); congruence. Qed.

Lemma insertByName_perm n l : insertByName n l ≡ₚ n :: l.
Proof.
  induction l as [|m l IH]; simpl; [reflexivity |].
  destruct (String.leb _ _); [reflexivity |]. by rewrite IH, Permutation_swap.
Qed.

Lemma sortByName_perm l : sortByName l ≡ₚ l.
Proof.
  induction l as [|n l IH]; simpl; [reflexivity |]. by rewrite insertByName_perm, IH.
Qed.

Lemma insertByName_sorted n l :
  Sorted (fun x y => String.leb (nodeName x) (nodeName y) = true) l ->
  Sorted (fun x y => String.leb (nodeName x) (nodeName y) = true) (insertByName n l).
Proof.
  induction 1 as [|m l Hl IH Hm]; simpl; [by repeat constructor |].
  destruct (String.leb (nodeName n) (nodeName m)) eqn:E; [by repeat constructor |].
  constructor; [exact IH |]. apply leb_false_leb in E.
  destruct Hm as [|b l' Hb]; simpl; [by constructor |].
  destruct (String.leb (nodeName n) (nodeName b)); by constructor.
Qed.

Lemma sortByName_sorted l :
  Sorted (fun x y => String.leb (nodeName x) (nodeName y) = true) (sortByName l).
Proof. induction l; simpl; [constructor | by apply insertByName_sorted]. Qed.

(** Sorting a listing whose names are distinct, as the names of a
    directory are, gives a listing as [sortedFS] wants it. *)
Lemma sortByName_sortedNames l :
  NoDup (map nodeName l) -> sortedNames (sortByName l).
Proof.
  intros Hn. rewrite <- (sortByName_perm l) in Hn.
  pose proof (sortByName_sorted l) as Hs. unfold sortedNames.
  induction Hs as [|x l' Hl IH Hx]; [constructor |].
  apply NoDup_cons in Hn as [Hx' Hn]. constructor; [by apply IH |].
  destruct Hx as [|y l'' Hxy]; constructor. apply leb_ltb; [exact Hxy |].
  intros E. apply Hx'. rewrite E. simpl. left.
Qed.

(** ** Lemmas: the first failure over a sorted list is the least one *)

Section Least.

Context {A B K : Type} (R : relation K) `{!StrictOrder R}.
Context (f : A -> option B) (ky : A -> K).

Lemma sorted_split l1 x l2 :
  StronglySorted R (map ky (l1 ++ x :: l2)) ->
  Forall (fun y => R (ky y) (ky x)) l1 /\ Forall (fun y => R (ky x) (ky y)) l2.
Proof.
  rewrite map_app, StronglySorted_app. cbn [map]. intros (H12 & _ & [H2 _]%StronglySorted_cons).
  split; apply List.Forall_forall; intros y Hy.
  - apply H12; [apply list_elem_of_fmap; exists y; by rewrite list_elem_of_In | left].
  - rewrite List.Forall_forall in H2. apply H2, in_map, Hy.
Qed.

Lemma first_some_least l b :
  StronglySorted R (map ky l) ->
  first_some f l = Some b <->
  exists x, In x l /\ f x = Some b /\ forall y, In y l -> R (ky y) (ky x) -> f y = None.
Proof.
  intros Hs. rewrite first_some_Some. split.
  - intros (l1 & x & l2 & -> & H1 & Hx). exists x.
    apply sorted_split in Hs as [_ H2]. rewrite List.Forall_forall in H2.
    apply first_some_None in H1. rewrite List.Forall_forall in H1.
    split_and!; [apply in_elt | exact Hx |].
    intros y [Hy|[->|Hy]]%in_app_or Hlt; [by apply H1 | |].
    + destruct (irreflexivity R _ Hlt).
    + destruct (irreflexivity R (ky x)). by etrans; [apply H2 |].
  - intros (x & (l1 & l2 & ->)%in_split & Hx & Hl). exists l1, x, l2.
    apply sorted_split in Hs as [H1 _]. rewrite List.Forall_forall in H1.
    split_and!; [reflexivity | | exact Hx].
    apply first_some_None, List.Forall_forall. intros y Hy.
    apply Hl; [apply in_or_app; by left | by apply H1].
Qed.

End Least.

(** ** The violation a run reports *)

Section Reported.

Context {Configuration Checks : Type}.
Implicit Types (lctx : LinterContext Configuration Checks) (linters : list string)
  (fsys : FS).

(** On a tree that can be read the run is the first failure over the
    keyed entries. *)
Lemma lintPackageFs_keyed lctx fsys linters :
  readableFS fsys = true ->
  lintPackageFs lctx fsys linters =
  retOf (first_some (fun kd => stopOf (walkCb lctx linters (joinKey (fst kd)) (Some (snd kd)) None))
           (keyed fsys)).
Proof.
  intros Hr. rewrite lintPackageFs_events, (readable_events _ _ Hr), visits_keyed.
  by rewrite !first_some_map.
Qed.

(** Which violation a run reports: on a tree that can be read and
    whose listings are sorted by name, as [ReadDir] returns them,
    [lintPackageFs] returns the error [e] exactly when [walkCb] returns
    [e] on some entry and returns [nil] on every entry with a smaller key.
    The order is that of the names on the way from the root, compared one
    by one, a directory before what is under it; it is not the order of
    the paths as strings. *)
Theorem lintPackageFs_reports_least lctx fsys linters e :
  sortedFS fsys = true -> readableFS fsys = true ->
  lintPackageFs lctx fsys linters = Return (Some e) <->
  exists k d,
    In (k, d) (keyed fsys) /\
    walkCb lctx linters (joinKey k) (Some d) None = Return (Some e) /\
    forall k' d', In (k', d') (keyed fsys) -> keyLt k' k ->
      walkCb lctx linters (joinKey k') (Some d') None = Return None.
Proof.
  intros Hs Hr. rewrite (lintPackageFs_keyed _ _ _ Hr), retOf_Some.
  rewrite (first_some_least keyLt _ fst) by by apply keyed_sorted. split.
  - intros ([k d] & Hin & Hx%stopOf_Failed & Hl). exists k, d. split_and!; [done.. |].
    intros k' d' Hin' Hlt. by apply stopOf_None, (Hl (k', d')).
  - intros (k & d & Hin & Hx & Hl). exists (k, d). split_and!; [done | by apply stopOf_Failed |].
    intros [k' d'] Hin' Hlt. apply stopOf_None. by apply Hl.
Qed.

End Reported.

(** ** The theorems at concrete trees *)

Lemma lintPackageFs_reports_least_witness :
  lintPackageFs (sampleCtx "hello") orderFS ["setuidgid"] =
  Return (Some (failedError "setuidgid" "a/b" (errorString "File is setuid")
                  "Unset the setuid/setgid bit on the relevant files, or remove this linter")) <->
  exists k d,
    In (k, d) (keyed orderFS) /\
    walkCb (sampleCtx "hello") ["setuidgid"] (joinKey k) (Some d) None =
    Return (Some (failedError "setuidgid" "a/b" (errorString "File is setuid")
                    "Unset the setuid/setgid bit on the relevant files, or remove this linter")) /\
    forall k' d', In (k', d') (keyed orderFS) -> keyLt k' k ->
      walkCb (sampleCtx "hello") ["setuidgid"] (joinKey k') (Some d') None = Return None.
Proof.
  apply (lintPackageFs_reports_least (sampleCtx "hello") orderFS ["setuidgid"]); reflexivity.
Defined.
