(* ===== verification/Paths.v ===== *)
(** * Paths and keys: what the path linters test

    The walk hands a linter the path of an entry, a string; the entry
    itself is at a key, the names from the root.  For names as a directory
    holds them (not empty, neither [.] nor [..], without a slash)
    [path.Join] has nothing to clean and the path is the key joined by
    slashes, and a path starts with a directory path and a slash
    exactly when the key lies strictly under the key of that directory.
    So each path linter fails exactly on the entries strictly inside the
    directories it guards, and never on those directories themselves.
    The key is read back from the path ([keyOf], the names between the
    slashes), so on a tree of file names with sorted listings two entries
    never have the same path. *)

From S2P Require Import Prelude Errors Regexp FS Linter Samples Enforce Order.

(** ** Names, keys and paths *)

Fixpoint noSlash (s : string) : bool :=
  match s with
  | EmptyString => true
  | String c s' => negb (Ascii.eqb c "/") && noSlash s'
  end.

(** A file name as [ReadDir] yields it: not empty, neither of the names
    [.] and [..] that a directory does not list, and without a slash. *)
Definition validName (s : string) : bool :=
  negb (String.eqb s "") && negb (String.eqb s ".") && negb (String.eqb s "..")
    && noSlash s.

Definition validKey (k : key) : bool := forallb validName k.

(** The names of a list, each after a slash. *)
Fixpoint slashed (l : list string) : string :=
  match l with
  | [] => ""
  | x :: l' => "/" +:+ x +:+ slashed l'
  end.

(** The path of a key in closed form. *)
Definition joinPath (k : key) : string :=
  match k with
  | [] => "."
  | x :: l => x +:+ slashed l
  end.

(** The key of a path; the root ["."] has no name. *)
Definition keyOf (path : string) : key :=
  if String.eqb path "." then [] else segments path.

(** The key [k] lies strictly under the key [dir]. *)
Definition under (dir k : key) : Prop := exists x rest, k = dir ++ x :: rest.

(** Every entry of the tree has a key made of file names. *)
Definition validFS (fsys : FS) : bool :=
  forallb (fun kd : key * DirEntry => validKey (fst kd)) (keyed fsys).

(** ** Lemmas: strings without a slash *)

Lemma validName_spec s :
  validName s = true <-> s <> "" /\ s <> "." /\ s <> ".." /\ noSlash s = true.
Proof.
  unfold validName. rewrite !andb_true_iff, !negb_true_iff, !String.eqb_neq. tauto.
Qed.

(** Two strings that agree up to their first slash agree before it and
    after it. *)
Lemma first_slash a : forall p s t,
  noSlash a = true -> noSlash p = true ->
  a +:+ "/" +:+ s = p +:+ "/" +:+ t -> a = p /\ s = t.
Proof.
  induction a as [|c a IH]; intros [|c' p] s t; cbn [noSlash];
    rewrite ?string_app_cons, ?string_app_nil_l, ?andb_true_iff, ?negb_true_iff.
  - intros _ _ [= ->]. done.
  - intros _ [Hc _] [= <- _]. by rewrite Ascii.eqb_refl in Hc.
  - intros [Hc _] _ [= -> _]. by rewrite Ascii.eqb_refl in Hc.
  - intros [_ Ha] [_ Hp] [= -> H]. destruct (IH _ _ _ Ha Hp H) as [-> ->]. done.
Qed.

Lemma noSlash_app_slash a s : noSlash (a +:+ "/" +:+ s) = false.
Proof.
  induction a as [|c a IH]; [reflexivity |].
  rewrite string_app_cons. cbn [noSlash]. rewrite IH. apply andb_false_r.
Qed.

(** ** Lemmas: the path of a key *)

Lemma slashed_app l1 l2 : slashed (l1 ++ l2) = slashed l1 +:+ slashed l2.
Proof.
  induction l1 as [|x l1 IH]; simpl; [reflexivity |].
  by rewrite IH, !string_app_assoc.
Qed.

Lemma slashed_slash l t : exists r, slashed l +:+ "/" +:+ t = "/" +:+ r.
Proof. destruct l as [|x l]; simpl; [by eexists |]. rewrite string_app_cons. by eexists. Qed.

Lemma joinPath_cons_not_dot x l :
  validName x = true -> joinPath (x :: l) <> "" /\ joinPath (x :: l) <> ".".
Proof.
  intros (Hx & Hd & _ & Hs)%validName_spec. cbn [joinPath].
  destruct x as [|c x]; [done |]. rewrite string_app_cons. split; [done |].
  intros [= -> [-> Hl]%string_app_eq_nil]. done.
Qed.

(** ** Lemmas: the elements of a path *)

Lemma segments_noSlash x : noSlash x = true -> segments x = [x].
Proof.
  induction x as [|c x IH]; [done |]. cbn [noSlash segments].
  rewrite andb_true_iff, negb_true_iff. intros [-> Hx]. by rewrite (IH Hx).
Qed.

Lemma segments_app_slash x t :
  noSlash x = true -> segments (x +:+ "/" +:+ t) = x :: segments t.
Proof.
  induction x as [|c x IH]; [done |]. cbn [noSlash]. rewrite string_app_cons.
  rewrite andb_true_iff, negb_true_iff. intros [Hc Hx]. cbn [segments]. by rewrite Hc, (IH Hx).
Qed.

Lemma segments_slashed l : forall x,
  noSlash x = true -> forallb noSlash l = true -> segments (x +:+ slashed l) = x :: l.
Proof.
  induction l as [|y l IH]; intros x Hx; cbn [slashed forallb].
  - intros _. rewrite string_app_nil_r. by apply segments_noSlash.
  - rewrite andb_true_iff. intros [Hy Hl]. by rewrite (segments_app_slash _ _ Hx), (IH _ Hy Hl).
Qed.

Lemma validKey_noSlash k : validKey k = true -> forallb noSlash k = true.
Proof.
  unfold validKey. rewrite !forallb_forall. intros H x Hx.
  by apply H, validName_spec in Hx as (_ & _ & _ & ?).
Qed.

(** ** Lemmas: the path the walk builds *)

Lemma concat_slashed l : forall x, String.concat "/" (x :: l) = x +:+ slashed l.
Proof.
  induction l as [|y l IH]; intros x; [by rewrite string_app_nil_r |].
  change (x +:+ "/" +:+ String.concat "/" (y :: l) = x +:+ slashed (y :: l)).
  by rewrite IH.
Qed.

Lemma slashed_snoc l x : slashed (l ++ [x]) = slashed l +:+ "/" +:+ x.
Proof. rewrite slashed_app. cbn [slashed]. by rewrite string_app_nil_r. Qed.

Lemma validKey_snoc k x : validKey (k ++ [x]) = validKey k && validName x.
Proof. unfold validKey. rewrite forallb_app. cbn [forallb]. by rewrite andb_true_r. Qed.

(** A fold whose turns all write their element writes the list. *)
Lemma fold_left_written {A} (f : list A -> A -> list A) (l : list A) : forall out,
  (forall out x, In x l -> f out x = x :: out) -> fold_left f l out = rev l ++ out.
Proof.
  induction l as [|x l IH]; intros out Hf; [done |]. cbn [fold_left rev].
  rewrite (Hf out x), IH, <- app_assoc; [done | | by left].
  intros out' y Hy. apply Hf. by right.
Qed.

(** No path with a key for its elements, after [.] or not, is rooted. *)
Lemma segments_not_rooted c path k :
  validKey k = true ->
  segments (String c path) = k \/ segments (String c path) = "." :: k ->
  Ascii.eqb c "/" = false.
Proof.
  intros Hk. cbn [segments]. destruct (Ascii.eqb c "/"); [| done].
  by intros [<-|[=]].
Qed.

(** A path whose elements are file names, after [.] or not, is clean but
    for the [.]. *)
Lemma Clean_segments path k :
  validKey k = true -> segments path = k \/ segments path = "." :: k ->
  Clean path = joinPath k.
Proof.
  intros Hk Hp. unfold Clean.
  replace (match path with String c _ => Ascii.eqb c "/" | EmptyString => false end)
    with false by (destruct path; [done | symmetry; by eapply segments_not_rooted]).
  set (turn := fun (out : list string) (elem : string) => _).
  assert (forall out x, In x k -> turn out x = x :: out) as Hturn.
  { intros out x Hx. unfold validKey in Hk. rewrite forallb_forall in Hk.
    apply Hk, validName_spec in Hx
      as (H1%String.eqb_neq & H2%String.eqb_neq & H3%String.eqb_neq & _).
    unfold turn. by rewrite H1, H2, H3. }
  assert (fold_left turn (segments path) [] = rev k) as ->.
  { destruct Hp as [-> | ->]; cbn [fold_left];
      by rewrite fold_left_written, app_nil_r. }
  rewrite rev_involutive. destruct k as [|x l]; [done |].
  by rewrite concat_slashed, string_app_nil_l.
Qed.

(** [Join] of the path of a key and a file name is the path of the key
    with the name. *)
Lemma Join_joinPath k x :
  validKey k = true -> validName x = true -> Join (joinPath k) x = joinPath (k ++ [x]).
Proof.
  intros Hk Hx. pose proof (validKey_noSlash _ Hk) as Hs.
  pose proof (proj1 (validName_spec x) Hx) as (_ & _ & _ & Hsx).
  assert (validKey (k ++ [x]) = true) as Hkx by (by rewrite validKey_snoc, Hk, Hx).
  unfold Join. destruct k as [|y l]; cbn [joinPath String.eqb Ascii.eqb Bool.eqb].
  - apply Clean_segments; [done | right]. by rewrite (segments_app_slash "."), segments_noSlash.
  - cbn [validKey forallb] in Hk, Hs. apply andb_true_iff in Hk as [Hy _], Hs as [Hsy Hsl].
    destruct (joinPath_cons_not_dot y l Hy) as [H%String.eqb_neq _].
    cbn [joinPath] in H. rewrite H.
    apply Clean_segments; [done | left]. cbn [joinPath app].
    rewrite string_app_assoc, <- slashed_snoc. apply segments_slashed; [done |].
    by rewrite forallb_app, Hsl; cbn; rewrite Hsx.
Qed.

Lemma joinKey_joinPath k : validKey k = true -> joinKey k = joinPath k.
Proof.
  induction k as [|x k IH] using rev_ind; [reflexivity |].
  rewrite validKey_snoc, andb_true_iff. intros [Hk Hx].
  by rewrite joinKey_snoc, (IH Hk), Join_joinPath.
Qed.

Lemma under_cons d dir x k : under (d :: dir) (x :: k) <-> x = d /\ under dir k.
Proof.
  unfold under. split.
  - intros (y & rest & [= -> ->]). eauto.
  - intros [-> (y & rest & ->)]. eauto.
Qed.

(** A key joined by slashes starts with the names of [dir] and a slash
    exactly when it lies strictly under [dir]. *)
Lemma slashed_under dir : forall k,
  validKey k = true -> forallb noSlash dir = true ->
  (exists t, slashed k = slashed dir +:+ "/" +:+ t) <-> under dir k.
Proof.
  induction dir as [|d dir IH]; intros [|x k] Hk Hd.
  - split; [by intros [t [=]] | by intros (y & rest & [=])].
  - split; [intros _; by exists x, k |]. intros _. exists (x +:+ slashed k). reflexivity.
  - split; [by intros [t [=]] | by intros (y & rest & [=])].
  - cbn [validKey forallb] in Hk, Hd. apply andb_true_iff in Hk as [Hx Hk], Hd as [Hd Hdir].
    apply validName_spec in Hx as (_ & _ & _ & Hx).
    rewrite under_cons, <- (IH k Hk Hdir). cbn [slashed].
    rewrite !string_app_cons, !string_app_nil_l. split.
    + intros [t [= H]]. rewrite !string_app_assoc in H.
      destruct (slashed_slash dir t) as [r Hr].
      destruct k as [|y k]; cbn [slashed] in H.
      * rewrite string_app_nil_r in H. subst x. by rewrite Hr, noSlash_app_slash in Hx.
      * rewrite Hr in H. destruct (first_slash _ _ _ _ Hx Hd H) as [-> Hl].
        split; [reflexivity |]. exists t. cbn [slashed]. by rewrite Hl, <- Hr.
    + intros [-> [t ->]]. exists t.
      by rewrite (string_app_cons "/" (d +:+ slashed dir)), !string_app_assoc.
Qed.

(** The same for paths: the test a path linter makes. *)
Lemma HasPrefix_under dir k :
  validKey k = true -> validKey dir = true -> dir <> [] ->
  HasPrefix (joinKey k) (joinPath dir +:+ "/") = true <-> under dir k.
Proof.
  intros Hk Hd Hne. rewrite (joinKey_joinPath k Hk), HasPrefix_spec.
  assert (forallb noSlash dir = true) as Hs.
  { apply forallb_forall. intros x Hx. eapply forallb_forall in Hd; [| exact Hx].
    by apply validName_spec in Hd as (_ & _ & _ & ?). }
  rewrite <- (slashed_under dir k Hk Hs).
  destruct dir as [|d dir]; [done |]. destruct k as [|x k]; cbn [joinPath slashed].
  - split; intros [t H].
    + cbn [validKey forallb] in Hd. apply andb_true_iff in Hd as [Hd _].
      destruct (joinPath_cons_not_dot d dir Hd) as [H1 _]. cbn [joinPath] in H1.
      destruct (d +:+ slashed dir) as [|c s]; [done |].
      rewrite (string_app_cons c s) in H. injection H as _ H.
      symmetry in H. apply string_app_eq_nil in H as [[_ H]%string_app_eq_nil _].
      discriminate H.
    + symmetry in H. apply string_app_eq_nil in H as [H _].
      rewrite string_app_cons in H. discriminate H.
  - split; intros [t H]; exists t.
    + by rewrite H, !string_app_assoc.
    + rewrite !string_app_assoc, !(string_app_cons "/" ""), !string_app_nil_l in H.
      injection H as H. by rewrite H, !string_app_assoc.
Qed.

(** ** Lemmas: from the path back to the key *)

(** The key is read back from the path. *)
Lemma keyOf_joinPath k : validKey k = true -> keyOf (joinPath k) = k.
Proof.
  destruct k as [|x l]; [done |]. intros Hk. pose proof (validKey_noSlash _ Hk) as Hs.
  cbn [validKey forallb] in Hk, Hs. apply andb_true_iff in Hk as [Hx _], Hs as [Hsx Hsl].
  destruct (joinPath_cons_not_dot x l Hx) as [_ Hdot%String.eqb_neq].
  unfold keyOf. rewrite Hdot. by apply segments_slashed.
Qed.

Lemma keyOf_joinKey k : validKey k = true -> keyOf (joinKey k) = k.
Proof. intros Hk. by rewrite joinKey_joinPath, keyOf_joinPath. Qed.

Lemma joinKey_inj k1 k2 :
  validKey k1 = true -> validKey k2 = true -> joinKey k1 = joinKey k2 -> k1 = k2.
Proof. intros H1 H2 H. by rewrite <- (keyOf_joinKey k1 H1), H, keyOf_joinKey. Qed.

(** On a tree of file names with sorted listings no two entries of the
    walk have the same path. *)
Lemma visits_paths_NoDup fsys :
  sortedFS fsys = true -> validFS fsys = true -> NoDup (map fst (visits fsys ".")).
Proof.
  intros Hs Hv. rewrite visits_keyed, map_map. cbn [fst].
  rewrite <- (map_map fst joinKey). apply (NoDup_fmap_2_strong joinKey); [| by apply keyed_NoDup].
  intros k1 k2 (kd1 & -> & H1)%list_elem_of_fmap (kd2 & -> & H2)%list_elem_of_fmap.
  unfold validFS in Hv. rewrite forallb_forall in Hv.
  apply joinKey_inj; by apply Hv, list_elem_of_In.
Qed.

(** On such a tree the walk makes no call twice. *)
Lemma events_NoDup_valid fsys :
  sortedFS fsys = true -> validFS fsys = true -> NoDup (events fsys ".").
Proof.
  intros Hs Hv. apply events_NoDup, (NoDup_fmap_1 fst). by apply visits_paths_NoDup.
Qed.

(** The path of a key made of file names is clean. *)
Lemma Clean_joinPath k : validKey k = true -> Clean (joinPath k) = joinPath k.
Proof.
  intros Hk. apply Clean_segments; [done |]. destruct k as [|x l]; [by right | left].
  pose proof (validKey_noSlash _ Hk) as Hs. cbn [forallb] in Hs.
  apply andb_true_iff in Hs as [Hx Hl]. by apply segments_slashed.
Qed.

(** On a tree of file names every path the walk passes is clean, and is
    the key of its entry joined by slashes. *)
Lemma visits_clean fsys path e :
  validFS fsys = true -> In (path, e) (visits fsys ".") ->
  Clean path = path /\ In (keyOf path, e) (keyed fsys).
Proof.
  unfold validFS. rewrite forallb_forall, visits_keyed, in_map_iff.
  intros Hv ([k e'] & [= <- <-] & Hin). pose proof (Hv _ Hin) as Hk. cbn [fst snd] in *.
  by rewrite keyOf_joinKey, joinKey_joinPath, Clean_joinPath.
Qed.

(** ** What the path linters test *)

Section Meaning.

Context {Configuration Checks : Type}.
Implicit Types (lctx : LinterContext Configuration Checks) (d : option DirEntry).

(** What the three path linters mean on the tree: at an entry whose
    key is made of file names, [usrLocalLinter] fails exactly when the
    package is not a compat package and the entry lies strictly under
    [usr/local]; [varEmptyLinter] exactly when it lies strictly under
    [var/empty]; [tempDirLinter] exactly when it lies strictly under
    [tmp], [run], [var/tmp] or [var/run].  The directories themselves
    pass. *)
Theorem path_linters_meaning lctx k d :
  validKey k = true ->
  (usrLocalLinter lctx (joinKey k) d <> Return None <->
   HasSuffix (pkgname lctx) "-compat" = false /\ under ["usr"; "local"] k) /\
  (varEmptyLinter lctx (joinKey k) d <> Return None <-> under ["var"; "empty"] k) /\
  (tempDirLinter lctx (joinKey k) d <> Return None <->
   under ["tmp"] k \/ under ["run"] k \/ under ["var"; "tmp"] k \/ under ["var"; "run"] k).
Proof.
  intros Hk. unfold usrLocalLinter, varEmptyLinter, tempDirLinter.
  autorewrite with lint.
  rewrite <- (HasPrefix_under ["usr"; "local"] k Hk), <- (HasPrefix_under ["var"; "empty"] k Hk),
    <- (HasPrefix_under ["tmp"] k Hk), <- (HasPrefix_under ["run"] k Hk),
    <- (HasPrefix_under ["var"; "tmp"] k Hk), <- (HasPrefix_under ["var"; "run"] k Hk) by done.
  change (joinPath ["usr"; "local"] +:+ "/") with "usr/local/".
  change (joinPath ["var"; "empty"] +:+ "/") with "var/empty/".
  change (joinPath ["tmp"] +:+ "/") with "tmp/".
  change (joinPath ["run"] +:+ "/") with "run/".
  change (joinPath ["var"; "tmp"] +:+ "/") with "var/tmp/".
  change (joinPath ["var"; "run"] +:+ "/") with "var/run/".
  rewrite <- !orb_true_iff.
  destruct (HasSuffix (pkgname lctx) "-compat"), (HasPrefix (joinKey k) "usr/local/"),
    (HasPrefix (joinKey k) "var/empty/"), (HasPrefix (joinKey k) "tmp/"),
    (HasPrefix (joinKey k) "run/"), (HasPrefix (joinKey k) "var/tmp/"),
    (HasPrefix (joinKey k) "var/run/"); cbn; intuition congruence.
Qed.

End Meaning.

(** ** The theorem at a concrete key *)

Lemma path_linters_meaning_witness :
  (usrLocalLinter (sampleCtx "hello") (joinKey ["usr"; "local"; "bin"]) None <> Return None <->
   HasSuffix "hello" "-compat" = false /\ under ["usr"; "local"] ["usr"; "local"; "bin"]) /\
  (varEmptyLinter (sampleCtx "hello") (joinKey ["usr"; "local"; "bin"]) None <> Return None <->
   under ["var"; "empty"] ["usr"; "local"; "bin"]) /\
  (tempDirLinter (sampleCtx "hello") (joinKey ["usr"; "local"; "bin"]) None <> Return None <->
   under ["tmp"] ["usr"; "local"; "bin"] \/ under ["run"] ["usr"; "local"; "bin"] \/
   under ["var"; "tmp"] ["usr"; "local"; "bin"] \/ under ["var"; "run"] ["usr"; "local"; "bin"]).
Proof.
  apply (path_linters_meaning (sampleCtx "hello") ["usr"; "local"; "bin"] None). reflexivity.
Defined.

(** ** The model of [path.Clean] and [path.Join] on the cases of their
    documentation *)

Example Clean_samples :
  map Clean ["abc"; "abc/def"; "."; ".."; "../../abc"; "/abc"; "/"; ""; "abc/"; "./";
             "../../"; "abc//def//ghi"; "//abc//"; "abc/./def"; "/./abc/def"; "abc/.";
             "abc/def/ghi/../jkl"; "abc/def/../ghi/../jkl"; "abc/def/../..";
             "/abc/def/../.."; "abc/def/../../.."; "/abc/def/../../..";
             "abc/def/../../../ghi/jkl/../../../mno"; "abc/../../././../def"] =
  ["abc"; "abc/def"; "."; ".."; "../../abc"; "/abc"; "/"; "."; "abc"; ".";
   "../.."; "abc/def/ghi"; "/abc"; "abc/def"; "/abc/def"; "abc";
   "abc/def/jkl"; "abc/jkl"; "."; "/"; ".."; "/"; "../../mno"; "../../def"].
Proof. reflexivity. Qed.

Example Join_samples :
  map (fun p => Join p.1 p.2)
    [("a", "b"); ("a", ""); ("", "b"); ("/", "a"); ("/", ""); ("a/", "b"); ("a/", "");
     ("", ""); (".", "usr"); ("usr", "local"); ("usr", ".."); ("usr", "a/b")] =
  ["a/b"; "a"; "b"; "/a"; "/"; "a/b"; "a"; ""; "usr"; "usr/local"; "."; "usr/a/b"].
Proof. reflexivity. Qed.
