(* ===== verification/Trace.v ===== *)
(** * The calls of the linters, in order

    The run of [lintPackageFs] is a sequence of calls of linter functions.
    Here the program is written once more with a log: [lintLoopS],
    [walkCbS] and [lintPackageFsS] are [lintLoop], [walkCb] and
    [lintPackageFs] where every call of a linter function appends the name
    of the linter and the path to the log.  The walk is [WalkDirS], the
    walk of a function with a state.

    The theorems: the log does not change the result; the linters are
    called entry by entry in the order of the walk and, on an entry, in the
    order of the list, without a gap; a passing run has called every
    requested linter on every entry; a failing linter is the last one
    called; no linter is called twice on a path. *)

From stdpp Require Import gmap.
From S2P Require Import Prelude Errors Regexp FS Linter Samples Enforce Taxonomy Order Paths Stateful.

(** A call of a linter function: the name of the linter and the path. *)
Abbreviation invocation := (string * string)%type.

Abbreviation Log := (list invocation).

(** The computation that appends [i] to the log and ends as [r]. *)
Definition logged (i : invocation) (r : ret (option error)) : @walker Log :=
  fun log => (log ++ [i], r).

(** The computation that returns the error [e]. *)
Definition failWith (e : error) : @walker Log := fun log => (log, Return (Some e)).

(** The linter calls of a passing callback on the call [c]. *)
Definition plannedCall (linters : list string) (c : call) : Log :=
  match c with
  | (path, _, None) => map (fun n => (n, path)) linters
  | (_, _, Some _) => []
  end.

(** The linter calls of a passing walk over the calls [l]. *)
Definition planned (linters : list string) (l : list call) : Log :=
  flat_map (plannedCall linters) l.

(** The same, over the entries of the walk. *)
Definition plan (linters : list string) (vs : list (string * DirEntry)) : Log :=
  flat_map (fun v => map (fun n => (n, fst v)) linters) vs.

Section Traced.

Context {Configuration Checks : Type}.
Implicit Types (lctx : LinterContext Configuration Checks) (path : string)
  (d : option DirEntry) (linters : list string) (fsys : FS) (log : Log).

(** The [for] loop of [walkCb], with the log. *)
Fixpoint lintLoopS lctx path d linters : @walker Log :=
  match linters with
  | [] => pass
  | linterName :: linters' =>
      match Linters !! linterName with
      | None => failWith (Errorf "Linter %s is unknown" [argS linterName])
      | Some linter =>
          orElse (logged (linterName, path) (LinterFunc_ linter lctx path d))
            (fun err => Some (Errorf
               ("Linter %s failed at path " +:+ dquote +:+ "%s" +:+ dquote
                  +:+ ": %w; suggest: %s")
               [argS linterName; argS path; argE err; argS (Explain linter)]))
            (lintLoopS lctx path d linters')
      end
  end.

Definition walkCbS lctx linters : @WalkDirFuncS Log :=
  fun path d err =>
    match err with
    | Some err => failWith (Errorf "Error traversing tree at %s: %w" [argS path; argE err])
    | None => lintLoopS lctx path d linters
    end.

(** [lintPackageFs] with the log, started on the empty log. *)
Definition lintPackageFsS lctx fsys linters : Log * ret (option error) :=
  orElse (WalkDirS fsys "." (walkCbS lctx linters)) Some pass [].

(** The linter calls of a run. *)
Definition invocations lctx fsys linters : Log := fst (lintPackageFsS lctx fsys linters).

(** ** Lemmas: the loop *)

Lemma lintLoopS_erase lctx path d linters log :
  snd (lintLoopS lctx path d linters log) = lintLoop lctx path d linters.
Proof.
  revert log. induction linters as [|n linters IH]; intros log; [done |].
  cbn [lintLoopS lintLoop]. destruct (Linters !! n) as [l|]; [| done].
  rewrite (orElse_snd (logged _ (LinterFunc_ l lctx path d)) _ _ log _ eq_refl).
  destruct (LinterFunc_ l lctx path d) as [[e|]|]; try done. apply IH.
Qed.

Lemma walkCbS_erases lctx linters : erases (walkCbS lctx linters) (walkCb lctx linters).
Proof. intros path d [err|] log; [done |]. apply lintLoopS_erase. Qed.

#[export] Instance walkCbS_NeverSkips lctx linters : NeverSkipsS (walkCbS lctx linters).
Proof.
  intros path d err log log' e H. apply (never_skips (fn := walkCb lctx linters) path d err).
  by rewrite <- (walkCbS_erases lctx linters path d err log), H.
Qed.

(** The linters that pass are called in order. *)
Lemma lintLoopS_pass lctx path d l1 l2 log :
  first_some (lintOne lctx path d) l1 = None ->
  lintLoopS lctx path d (l1 ++ l2) log =
  lintLoopS lctx path d l2 (log ++ map (fun n => (n, path)) l1).
Proof.
  revert log. induction l1 as [|n l1 IH]; intros log; cbn [app map first_some].
  - by rewrite app_nil_r.
  - destruct (lintOne lctx path d n) eqn:E; [done |]. intros H.
    apply lintOne_None in E as (l & El & Ef). cbn [lintLoopS]. rewrite El.
    unfold orElse, logged. rewrite Ef, (IH _ H). by rewrite <- app_assoc.
Qed.

(** A linter that fails is called, and is the last. *)
Lemma lintLoopS_fail lctx path d n l linters log cause :
  Linters !! n = Some l -> LinterFunc_ l lctx path d = Return (Some cause) ->
  lintLoopS lctx path d (n :: linters) log =
  (log ++ [(n, path)], Return (Some (failedError n path cause (Explain l)))).
Proof.
  intros El Ef. cbn [lintLoopS]. rewrite El. unfold orElse, logged.
  by rewrite Ef, Errorf_failed.
Qed.

(** An unknown name ends the loop without a call. *)
Lemma lintLoopS_unknown lctx path d n linters log :
  @Linters Configuration Checks !! n = None ->
  lintLoopS lctx path d (n :: linters) log = (log, Return (Some (unknownError n))).
Proof. intros El. cbn [lintLoopS]. rewrite El. unfold failWith. by rewrite Errorf_unknown. Qed.

(** The calls of the loop are the first linters of the list, in order. *)
Lemma lintLoopS_prefix lctx path d linters log :
  exists ext, fst (lintLoopS lctx path d linters log) = log ++ ext /\
              ext `prefix_of` map (fun n => (n, path)) linters.
Proof.
  revert log. induction linters as [|n linters IH]; intros log.
  - exists []. by rewrite app_nil_r.
  - cbn [lintLoopS map]. destruct (Linters !! n) as [l|].
    + unfold orElse, logged. destruct (LinterFunc_ l lctx path d) as [[e|]|]; cbv beta iota.
      * exists [(n, path)]. split; [done |]. apply prefix_cons, prefix_nil.
      * destruct (IH (log ++ [(n, path)])) as (ext & Hext & Hp).
        exists ((n, path) :: ext). split; [by rewrite <- app_assoc in Hext | by apply prefix_cons].
      * exists [(n, path)]. split; [done |]. apply prefix_cons, prefix_nil.
    + exists []. split; [by rewrite app_nil_r | apply prefix_nil].
Qed.

Lemma lintLoopS_None lctx path d linters log :
  first_some (lintOne lctx path d) linters = None ->
  lintLoopS lctx path d linters log = (log ++ map (fun n => (n, path)) linters, Return None).
Proof. intros H. by rewrite <- (app_nil_r linters) at 1; rewrite lintLoopS_pass. Qed.

(** ** Lemmas: the run *)

Lemma walkCbS_pass lctx linters path d err log :
  apply (walkCb lctx linters) (path, d, err) = None ->
  walkCbS lctx linters path d err log = (log ++ plannedCall linters (path, d, err), Return None).
Proof.
  intros [-> H]%apply_walkCb_None. apply lintLoopS_None, first_some_None, List.Forall_forall, H.
Qed.

(** The calls that pass are run in order, each with all its linters. *)
Lemma runCalls_pass lctx linters l1 l2 log :
  first_some (apply (walkCb lctx linters)) l1 = None ->
  runCalls (walkCbS lctx linters) (l1 ++ l2) log =
  runCalls (walkCbS lctx linters) l2 (log ++ planned linters l1).
Proof.
  revert log. induction l1 as [|[[path d] err] l1 IH]; intros log; cbn [app first_some].
  - by rewrite app_nil_r.
  - destruct (apply _ (path, d, err)) eqn:E; [done |]. intros H.
    cbn [runCalls planned flat_map]. unfold orElse. rewrite (walkCbS_pass _ _ _ _ _ _ E).
    rewrite (IH _ H). by rewrite <- app_assoc.
Qed.

Lemma walkCbS_prefix lctx linters path d err log :
  exists ext, fst (walkCbS lctx linters path d err log) = log ++ ext /\
              ext `prefix_of` plannedCall linters (path, d, err).
Proof.
  destruct err as [err|]; [| apply lintLoopS_prefix].
  exists []. by rewrite app_nil_r.
Qed.

(** The linter calls of a run are the first of the planned ones. *)
Lemma runCalls_prefix lctx linters l : forall log,
  exists ext, fst (runCalls (walkCbS lctx linters) l log) = log ++ ext /\
              ext `prefix_of` planned linters l.
Proof.
  induction l as [|[[path d] err] l IH]; intros log.
  - exists []. by rewrite app_nil_r.
  - cbn [runCalls planned flat_map]. unfold orElse.
    destruct (apply (walkCb lctx linters) (path, d, err)) as [x|] eqn:E.
    + destruct (walkCbS_prefix lctx linters path d err log) as (ext & Hext & Hp).
      pose proof (walkCbS_erases lctx linters path d err log) as Hr.
      destruct (walkCbS lctx linters path d err log) as [log1 r]. cbn [fst snd] in Hext, Hr.
      exists ext. unfold apply in E. rewrite <- Hr in E.
      destruct r as [[e|]|]; [| done |]; (split; [done | by apply prefix_app_r]).
    + rewrite (walkCbS_pass _ _ _ _ _ _ E). destruct (IH (log ++ plannedCall linters (path, d, err)))
        as (ext & Hext & Hp).
      exists (plannedCall linters (path, d, err) ++ ext).
      split; [by rewrite <- app_assoc in Hext | by apply prefix_app].
Qed.

Lemma lintPackageFsS_runCalls lctx fsys linters :
  lintPackageFsS lctx fsys linters = runCalls (walkCbS lctx linters) (events fsys ".") [].
Proof. unfold lintPackageFsS. rewrite orElse_pass_r. apply (WalkDirS_runCalls _). Qed.

(** The planned calls, entry by entry. *)
Lemma planned_visits linters fsys root :
  planned linters (events fsys root) = plan linters (visits fsys root).
Proof.
  unfold visits. pose proof (events_entry fsys root) as H.
  induction (events fsys root) as [|[[path d] err] l IH]; [done |].
  cbn [planned flat_map]. fold (planned linters l). rewrite IH by (intros c Hc; apply H; by right).
  destruct (H (path, d, err)) as (p' & d' & err' & [= <- <- <-] & Hd); [by left |].
  destruct err as [err|]; [by destruct d |]. destruct d as [e|]; [done |]. by destruct Hd.
Qed.

Lemma plan_length linters vs : length (plan linters vs) = (length vs * length linters)%nat.
Proof.
  induction vs as [|v vs IH]; [done |]. cbn [plan flat_map]. fold (plan linters vs).
  rewrite length_app, length_map, IH. cbn [length]. lia.
Qed.

Lemma plan_In linters vs n p :
  In (n, p) (plan linters vs) <-> In n linters /\ In p (map fst vs).
Proof.
  unfold plan. rewrite in_flat_map, in_map_iff. setoid_rewrite in_map_iff. split.
  - intros (v & Hv & n' & [= -> <-] & Hn). eauto.
  - intros [Hn (v & <- & Hv)]. eauto.
Qed.

Lemma NoDup_plan linters vs :
  NoDup linters -> NoDup (map fst vs) -> NoDup (plan linters vs).
Proof.
  intros Hl. induction vs as [|v vs IH]; cbn [plan flat_map map]; [constructor |].
  fold (plan linters vs). rewrite NoDup_cons. intros [Hv Hvs]. apply NoDup_app. split_and!.
  - by apply (NoDup_fmap_2 (fun n => (n, v.1))).
  - intros [n p] (n' & [= -> ->] & _)%list_elem_of_fmap [_ Hin]%list_elem_of_In%plan_In.
    by apply Hv, list_elem_of_In.
  - by apply IH.
Qed.

Lemma NoDup_prefix {A} (l1 l2 : list A) : l1 `prefix_of` l2 -> NoDup l2 -> NoDup l1.
Proof. intros [k ->]. by intros [? _]%NoDup_app. Qed.

Lemma invocations_prefix lctx fsys linters :
  invocations lctx fsys linters `prefix_of` plan linters (visits fsys ".").
Proof.
  unfold invocations. rewrite lintPackageFsS_runCalls, <- planned_visits.
  by destruct (runCalls_prefix lctx linters (events fsys ".") []) as (ext & -> & Hp).
Qed.

(** ** Theorems *)

(** The log does not change the program: the result of the run with the
    log is the result of [lintPackageFs]. *)
Lemma lintPackageFsS_result lctx fsys linters :
  snd (lintPackageFsS lctx fsys linters) = lintPackageFs lctx fsys linters.
Proof.
  unfold lintPackageFsS, lintPackageFs.
  rewrite (orElse_snd _ _ _ _ _ (WalkDirS_erase _ _ (walkCbS_erases lctx linters) fsys "." [])).
  by destruct (WalkDir fsys "." (walkCb lctx linters)) as [[e|]|].
Qed.

(** C28. The order of the linter calls.  The calls of a run are the first
    calls of the plan: the entries in the order of the walk and, for each
    entry, the requested linters in the order of the list; so a linter is
    called on an entry only after every linter before it in the list
    passed on that entry and every linter passed on the entries before.
    A run that passes has made every call of the plan, and no run makes
    more calls than entries times linters. *)
Theorem invocations_in_order lctx fsys linters :
  invocations lctx fsys linters `prefix_of` plan linters (visits fsys ".") /\
  (lintPackageFs lctx fsys linters = Return None ->
   invocations lctx fsys linters = plan linters (visits fsys ".")) /\
  (length (invocations lctx fsys linters) <= length (visits fsys ".") * length linters)%nat.
Proof.
  pose proof (invocations_prefix lctx fsys linters) as Hp. split_and!; [done | |].
  - rewrite lintPackageFs_events, retOf_None. intros H.
    unfold invocations. rewrite lintPackageFsS_runCalls, <- planned_visits.
    rewrite <- (app_nil_r (events fsys ".")) at 1. by rewrite (runCalls_pass _ _ _ _ _ H).
  - rewrite <- plan_length. by apply prefix_length.
Qed.

(** C29. Fail-fast, linter by linter: when the run fails because the linter
    [n] failed at [path], the call of [n] on [path] is the last call of a
    linter the run made. *)
Theorem invocations_fail_fast lctx fsys linters n path cause :
  diagnose lctx fsys linters = Some (LinterFailed n path cause) ->
  last (invocations lctx fsys linters) = Some (n, path).
Proof.
  intros (l1 & e & l2 & k1 & k2 & l & Hev & Hl1 & -> & Hk1 & El & Ef)%diagnose_LinterFailed.
  unfold invocations. rewrite lintPackageFsS_runCalls, Hev, (runCalls_pass _ _ _ _ _ Hl1).
  cbn [runCalls walkCbS]. unfold orElse.
  rewrite (lintLoopS_pass _ _ _ _ _ _ Hk1), (lintLoopS_fail _ _ _ _ _ _ _ _ El Ef).
  apply last_snoc.
Qed.

(** C30. No linter is called twice on a path: on a tree of file names with
    sorted listings and for a list of names without repetition, the calls
    of a run are pairwise distinct. *)
Theorem invocations_once lctx fsys linters :
  NoDup linters -> sortedFS fsys = true -> validFS fsys = true ->
  NoDup (invocations lctx fsys linters).
Proof.
  intros Hl Hs Hv. apply (NoDup_prefix _ _ (invocations_prefix lctx fsys linters)).
  by apply NoDup_plan, visits_paths_NoDup.
Qed.

End Traced.

(** ** The theorems on concrete runs *)

Lemma invocations_fail_fast_witness :
  last (invocations (sampleCtx "hello") twoViolationsFS ["setuidgid"; "tempdir"]) =
  Some ("tempdir", "tmp/x").
Proof.
  apply (invocations_fail_fast (sampleCtx "hello") twoViolationsFS ["setuidgid"; "tempdir"]
           "tempdir" "tmp/x" (errorString "Package writes to a temp dir")).
  vm_compute. reflexivity.
Defined.

Lemma invocations_once_witness :
  NoDup (invocations (sampleCtx "hello") orderFS ["setuidgid"; "tempdir"]).
Proof.
  apply (invocations_once (sampleCtx "hello") orderFS ["setuidgid"; "tempdir"]);
    [| reflexivity | reflexivity].
  apply NoDup_cons. split; [by intros [=]%list_elem_of_singleton |]. apply NoDup_singleton.
Defined.
