(* ===== verification/Checks.v ===== *)
(** * The four checks, end to end

    What a run of [lintPackageFs] with each linter of the registry does on
    a tree: the turn of the loop for each linter in closed form
    ([lintOne_usrlocal] and the like), that an entry which violates a
    requested check fails the run whatever else the tree holds, the exact
    error of a run of a single check on a tree that can be read, and what
    a pass of a path check says of the tree: the directories the check
    guards hold nothing. *)

From stdpp Require Import gmap.
From S2P Require Import Prelude Errors Regexp FS Linter Samples Enforce Order Paths.

Section Checks.

Context {Configuration Checks : Type}.
Abbreviation LinterContext := (LinterContext Configuration Checks).
Implicit Types (lctx : LinterContext) (path : string) (d : option DirEntry)
  (linters : list string) (fsys : FS).

(** ** Lemmas: one turn of the loop, linter by linter *)

Lemma lintOne_usrlocal lctx path d :
  lintOne lctx path d "usrlocal" =
  if HasSuffix (pkgname lctx) "-compat" then None
  else if HasPrefix path "usr/local/"
       then Some (Failed (failedError "usrlocal" path
                            (errorString "/usr/local path found in non-compat package")
                            "This package should be a -compat package"))
       else None.
Proof.
  unfold lintOne. rewrite Linters_usrlocal. cbn. unfold usrLocalLinter.
  autorewrite with lint. repeat case_if; reflexivity.
Qed.

Lemma lintOne_varempty lctx path d :
  lintOne lctx path d "varempty" =
  if HasPrefix path "var/empty/"
  then Some (Failed (failedError "varempty" path
                       (errorString "Package writes to /var/empty")
                       "Remove any offending files in /var/empty in the pipeline"))
  else None.
Proof.
  unfold lintOne. rewrite Linters_varempty. cbn. unfold varEmptyLinter.
  autorewrite with lint. repeat case_if; reflexivity.
Qed.

Lemma lintOne_tempdir lctx path d :
  lintOne lctx path d "tempdir" =
  if HasPrefix path "tmp/" || HasPrefix path "run/" ||
     HasPrefix path "var/tmp/" || HasPrefix path "var/run/"
  then Some (Failed (failedError "tempdir" path
                       (errorString "Package writes to a temp dir")
                       "Remove any offending files in temporary dirs in the pipeline"))
  else None.
Proof.
  unfold lintOne. rewrite Linters_tempdir. cbn. unfold tempDirLinter.
  autorewrite with lint. repeat case_if; reflexivity.
Qed.

Lemma lintOne_setuidgid lctx path (e : DirEntry) :
  lintOne lctx path (Some e) "setuidgid" =
  option_map
    (fun cause => Failed (failedError "setuidgid" path cause
       "Unset the setuid/setgid bit on the relevant files, or remove this linter"))
    (setuidgidCause e).
Proof.
  unfold lintOne, setuidgidCause. rewrite Linters_setuidgid.
  cbn [LinterFunc_ Explain isSetUidOrGidLinter].
  destruct (Info e) as [info|err]; [| reflexivity].
  destruct (hasMode (Mode info) ModeSetuid); [reflexivity |].
  destruct (hasMode (Mode info) ModeSetgid); reflexivity.
Qed.

(** ** A violation fails the run *)

(** Any entry of the tree whose path starts with [usr/local/] fails a
    run that includes [usrlocal], unless the package name ends in
    [-compat]. *)
Theorem usrlocal_violation_fails lctx fsys linters path d :
  In "usrlocal" linters -> HasSuffix (pkgname lctx) "-compat" = false ->
  In (path, d, None) (events fsys ".") -> HasPrefix path "usr/local/" = true ->
  exists err, lintPackageFs lctx fsys linters = Return (Some err).
Proof.
  intros Hn Hc Hin Hp. apply (lintPackageFs_violation _ _ _ _ _ _ Hn Hin).
  rewrite lintOne_usrlocal, Hc, Hp. discriminate.
Qed.

(** Any entry of the tree under [tmp/], [run/], [var/tmp/] or
    [var/run/] fails a run that includes [tempdir]. *)
Theorem tempdir_violation_fails lctx fsys linters path d :
  In "tempdir" linters -> In (path, d, None) (events fsys ".") ->
  HasPrefix path "tmp/" = true \/ HasPrefix path "run/" = true \/
  HasPrefix path "var/tmp/" = true \/ HasPrefix path "var/run/" = true ->
  exists err, lintPackageFs lctx fsys linters = Return (Some err).
Proof.
  intros Hn Hin Hp. apply (lintPackageFs_violation _ _ _ _ _ _ Hn Hin).
  rewrite lintOne_tempdir.
  destruct Hp as [H|[H|[H|H]]]; rewrite H, ?orb_true_r; discriminate.
Qed.

(** Any entry of the tree under [var/empty/] fails a run that
    includes [varempty]. *)
Theorem varempty_violation_fails lctx fsys linters path d :
  In "varempty" linters -> In (path, d, None) (events fsys ".") ->
  HasPrefix path "var/empty/" = true ->
  exists err, lintPackageFs lctx fsys linters = Return (Some err).
Proof.
  intros Hn Hin Hp. apply (lintPackageFs_violation _ _ _ _ _ _ Hn Hin).
  rewrite lintOne_varempty, Hp. discriminate.
Qed.

(** Any entry of the tree whose mode has the setuid or the setgid bit
    fails a run that includes [setuidgid]. *)
Theorem setuidgid_violation_fails lctx fsys linters path e info :
  In "setuidgid" linters -> In (path, Some e, None) (events fsys ".") ->
  Info e = Ok info ->
  hasMode (Mode info) ModeSetuid = true \/ hasMode (Mode info) ModeSetgid = true ->
  exists err, lintPackageFs lctx fsys linters = Return (Some err).
Proof.
  intros Hn Hin Hi Hm. apply (lintPackageFs_violation _ _ _ _ _ _ Hn Hin).
  rewrite lintOne_setuidgid. unfold setuidgidCause. rewrite Hi.
  destruct (hasMode (Mode info) ModeSetuid); [discriminate |].
  destruct Hm as [Hm|Hm]; [discriminate | rewrite Hm; discriminate].
Qed.

(** ** A single check on a tree that can be read *)

(** The [usrlocal] check on a tree that can be read: a package whose
    name ends in [-compat] passes whatever it holds; any other package
    fails at the first entry, in the order of the walk, whose path starts
    with [usr/local/], and passes when there is none. *)
Theorem usrlocal_enforced lctx fsys :
  readableFS fsys = true ->
  lintPackageFs lctx fsys ["usrlocal"] =
  if HasSuffix (pkgname lctx) "-compat" then Return None
  else retOf (first_some
         (fun v => if HasPrefix (fst v) "usr/local/"
                   then Some (Failed (failedError "usrlocal" (fst v)
                           (errorString "/usr/local path found in non-compat package")
                           "This package should be a -compat package"))
                   else None)
         (visits fsys ".")).
Proof.
  intros Hr. rewrite (lintPackageFs_single _ _ _ Hr).
  destruct (HasSuffix (pkgname lctx) "-compat") eqn:E.
  - rewrite (first_some_ext _ (fun _ => None)); [by rewrite first_some_const_None |].
    intros v _. rewrite lintOne_usrlocal, E. reflexivity.
  - f_equal. apply first_some_ext. intros v _. rewrite lintOne_usrlocal, E. reflexivity.
Qed.

(** The [tempdir] check on a tree that can be read fails at the first
    entry, in the order of the walk, whose path starts with [tmp/], [run/],
    [var/tmp/] or [var/run/], and passes when there is none. *)
Theorem tempdir_enforced lctx fsys :
  readableFS fsys = true ->
  lintPackageFs lctx fsys ["tempdir"] =
  retOf (first_some
    (fun v => if HasPrefix (fst v) "tmp/" || HasPrefix (fst v) "run/" ||
                 HasPrefix (fst v) "var/tmp/" || HasPrefix (fst v) "var/run/"
              then Some (Failed (failedError "tempdir" (fst v)
                      (errorString "Package writes to a temp dir")
                      "Remove any offending files in temporary dirs in the pipeline"))
              else None)
    (visits fsys ".")).
Proof.
  intros Hr. rewrite (lintPackageFs_single _ _ _ Hr). f_equal.
  apply first_some_ext. intros v _. apply lintOne_tempdir.
Qed.

(** The [varempty] check on a tree that can be read fails at the first
    entry, in the order of the walk, whose path starts with [var/empty/],
    and passes when there is none. *)
Theorem varempty_enforced lctx fsys :
  readableFS fsys = true ->
  lintPackageFs lctx fsys ["varempty"] =
  retOf (first_some
    (fun v => if HasPrefix (fst v) "var/empty/"
              then Some (Failed (failedError "varempty" (fst v)
                      (errorString "Package writes to /var/empty")
                      "Remove any offending files in /var/empty in the pipeline"))
              else None)
    (visits fsys ".")).
Proof.
  intros Hr. rewrite (lintPackageFs_single _ _ _ Hr). f_equal.
  apply first_some_ext. intros v _. apply lintOne_varempty.
Qed.

(** The [setuidgid] check on a tree that can be read fails at the first
    entry, in the order of the walk, whose metadata cannot be fetched or
    whose mode has the setuid or the setgid bit, with that cause; it
    passes when every entry has metadata with both bits clear. *)
Theorem setuidgid_enforced lctx fsys :
  readableFS fsys = true ->
  lintPackageFs lctx fsys ["setuidgid"] =
  retOf (first_some
    (fun v => option_map
       (fun cause => Failed (failedError "setuidgid" (fst v) cause
          "Unset the setuid/setgid bit on the relevant files, or remove this linter"))
       (setuidgidCause (snd v)))
    (visits fsys ".")).
Proof.
  intros Hr. rewrite (lintPackageFs_single _ _ _ Hr). f_equal.
  apply first_some_ext. intros v _. apply lintOne_setuidgid.
Qed.

(** The four checks of the registry pass on an empty tree whose root
    has neither the setuid nor the setgid bit: the only entry is the root,
    and its path ["."] matches none of the patterns. *)
Theorem default_checks_empty_tree lctx info :
  hasMode (Mode info) ModeSetuid = false -> hasMode (Mode info) ModeSetgid = false ->
  lintPackageFs lctx {| statRoot := Ok info; rootDirs := []; rootErr := None |}
    linterNames = Return None.
Proof.
  intros H23 H22. rewrite lintPackageFs_events.
  change (events _ ".") with (nodeEvents "." (FsNode (FileInfoToDirEntry info) [] None)).
  rewrite nodeEvents_unfold.
  assert (apply (walkCb lctx linterNames) (".", Some (FileInfoToDirEntry info), None) = None)
    as Hroot.
  { rewrite apply_walkCb_entry. unfold linterNames. cbn [first_some].
    rewrite lintOne_setuidgid, lintOne_tempdir, lintOne_usrlocal, lintOne_varempty.
    unfold setuidgidCause. cbn [Info FileInfoToDirEntry]. rewrite H23, H22.
    destruct (HasSuffix (pkgname lctx) "-compat"); reflexivity. }
  destruct (IsDir _); cbn [app first_some]; rewrite Hroot; reflexivity.
Qed.

(** ** The path linters on an entry, by its key *)

Lemma lintOne_usrlocal_under lctx k d :
  validKey k = true ->
  lintOne lctx (joinKey k) d "usrlocal" = None <->
  HasSuffix (pkgname lctx) "-compat" = true \/ ~ under ["usr"; "local"] k.
Proof.
  intros Hk. rewrite lintOne_usrlocal, <- (HasPrefix_under ["usr"; "local"] k Hk) by done.
  change (joinPath ["usr"; "local"] +:+ "/") with "usr/local/".
  destruct (HasSuffix (pkgname lctx) "-compat"), (HasPrefix (joinKey k) "usr/local/");
    intuition congruence.
Qed.

Lemma lintOne_varempty_under lctx k d :
  validKey k = true ->
  lintOne lctx (joinKey k) d "varempty" = None <-> ~ under ["var"; "empty"] k.
Proof.
  intros Hk. rewrite lintOne_varempty, <- (HasPrefix_under ["var"; "empty"] k Hk) by done.
  change (joinPath ["var"; "empty"] +:+ "/") with "var/empty/".
  destruct (HasPrefix (joinKey k) "var/empty/"); intuition congruence.
Qed.

Lemma lintOne_tempdir_under lctx k d :
  validKey k = true ->
  lintOne lctx (joinKey k) d "tempdir" = None <->
  ~ (under ["tmp"] k \/ under ["run"] k \/ under ["var"; "tmp"] k \/ under ["var"; "run"] k).
Proof.
  intros Hk.
  rewrite lintOne_tempdir, <- (HasPrefix_under ["tmp"] k Hk), <- (HasPrefix_under ["run"] k Hk),
    <- (HasPrefix_under ["var"; "tmp"] k Hk), <- (HasPrefix_under ["var"; "run"] k Hk) by done.
  change (joinPath ["tmp"] +:+ "/") with "tmp/". change (joinPath ["run"] +:+ "/") with "run/".
  change (joinPath ["var"; "tmp"] +:+ "/") with "var/tmp/".
  change (joinPath ["var"; "run"] +:+ "/") with "var/run/".
  destruct (HasPrefix (joinKey k) "tmp/"), (HasPrefix (joinKey k) "run/"),
    (HasPrefix (joinKey k) "var/tmp/"), (HasPrefix (joinKey k) "var/run/");
    cbn; intuition congruence.
Qed.

Lemma lintOne_setuidgid_None lctx path (e : DirEntry) :
  lintOne lctx path (Some e) "setuidgid" = None <-> setuidgidCause e = None.
Proof. rewrite lintOne_setuidgid. by destruct (setuidgidCause e). Qed.

(** ** What a pass of a path check says of the tree *)

Lemma lintPackageFs_single_keyed lctx fsys n :
  readableFS fsys = true ->
  lintPackageFs lctx fsys [n] = Return None <->
  forall k e, In (k, e) (keyed fsys) -> lintOne lctx (joinKey k) (Some e) n = None.
Proof.
  intros Hr. rewrite (lintPackageFs_single _ _ _ Hr), retOf_None, visits_keyed.
  rewrite first_some_map, first_some_None, List.Forall_forall. split.
  - intros H k e Hin. apply (H (k, e) Hin).
  - intros H [k e] Hin. by apply H.
Qed.

(** On a tree whose names are file names, a property of every entry may
    be replaced by one that agrees with it on keys made of file names. *)
Lemma keyed_iff fsys (P Q : key -> DirEntry -> Prop) :
  validFS fsys = true ->
  (forall k e, validKey k = true -> (P k e <-> Q k e)) ->
  (forall k e, In (k, e) (keyed fsys) -> P k e) <->
  (forall k e, In (k, e) (keyed fsys) -> Q k e).
Proof.
  unfold validFS. rewrite forallb_forall. intros Hv H.
  split; intros HP k e Hin; apply (H k e (Hv _ Hin)), HP, Hin.
Qed.

(** C35. What a pass of a path check says of a tree that can be read and
    whose names are file names: [varempty] passes exactly when nothing
    lies under [var/empty], [tempdir] exactly when nothing lies under
    [tmp], [run], [var/tmp] and [var/run], and [usrlocal] exactly when
    the package is a compat package or nothing lies under [usr/local].
    An empty guarded directory passes. *)
Theorem path_checks_pass_iff lctx fsys :
  readableFS fsys = true -> validFS fsys = true ->
  (lintPackageFs lctx fsys ["usrlocal"] = Return None <->
   HasSuffix (pkgname lctx) "-compat" = true \/
   forall k e, In (k, e) (keyed fsys) -> ~ under ["usr"; "local"] k) /\
  (lintPackageFs lctx fsys ["varempty"] = Return None <->
   forall k e, In (k, e) (keyed fsys) -> ~ under ["var"; "empty"] k) /\
  (lintPackageFs lctx fsys ["tempdir"] = Return None <->
   forall k e, In (k, e) (keyed fsys) ->
     ~ (under ["tmp"] k \/ under ["run"] k \/ under ["var"; "tmp"] k \/ under ["var"; "run"] k)).
Proof.
  intros Hr Hv. rewrite !(lintPackageFs_single_keyed _ _ _ Hr). split_and!.
  - rewrite (keyed_iff _ _ _ Hv (fun k e Hk => lintOne_usrlocal_under lctx k (Some e) Hk)).
    destruct (HasSuffix (pkgname lctx) "-compat"); [by split; auto |].
    split; [intros H; right; intros k e Hin; by destruct (H k e Hin) | intros [[=]|H]; eauto].
  - apply (keyed_iff _ _ _ Hv). intros k e Hk. by apply lintOne_varempty_under.
  - apply (keyed_iff _ _ _ Hv). intros k e Hk. by apply lintOne_tempdir_under.
Qed.

End Checks.

(** ** The theorems at concrete trees *)

Lemma usrlocal_violation_fails_witness :
  exists err,
    lintPackageFs (sampleCtx "hello") usrLocalFS ["tempdir"; "usrlocal"] = Return (Some err).
Proof.
  apply (usrlocal_violation_fails (sampleCtx "hello") usrLocalFS ["tempdir"; "usrlocal"]
           "usr/local/bin/tool" (Some (mkEntry "tool" perm755))).
  - right. left. reflexivity.
  - reflexivity.
  - vm_compute. auto 10.
  - reflexivity.
Defined.

Lemma tempdir_violation_fails_witness :
  exists err,
    lintPackageFs (sampleCtx "hello") twoViolationsFS ["usrlocal"; "tempdir"] =
    Return (Some err).
Proof.
  apply (tempdir_violation_fails (sampleCtx "hello") twoViolationsFS ["usrlocal"; "tempdir"]
           "tmp/x" (Some (mkEntry "x" perm644))).
  - right. left. reflexivity.
  - vm_compute. auto 10.
  - left. reflexivity.
Defined.

Lemma varempty_violation_fails_witness :
  exists err,
    lintPackageFs (sampleCtx "hello") twoViolationsFS ["varempty"] = Return (Some err).
Proof.
  apply (varempty_violation_fails (sampleCtx "hello") twoViolationsFS ["varempty"]
           "var/empty/y" (Some (mkEntry "y" perm644))).
  - left. reflexivity.
  - vm_compute. auto 10.
  - reflexivity.
Defined.

Lemma setuidgid_violation_fails_witness :
  exists err,
    lintPackageFs (sampleCtx "hello") orderFS ["varempty"; "setuidgid"] = Return (Some err).
Proof.
  apply (setuidgid_violation_fails (sampleCtx "hello") orderFS ["varempty"; "setuidgid"]
           "a-b" (mkEntry "a-b" (Z.lor ModeSetuid perm755))
           (mkInfo "a-b" (Z.lor ModeSetuid perm755))).
  - right. left. reflexivity.
  - vm_compute. auto 10.
  - reflexivity.
  - left. reflexivity.
Defined.

Lemma usrlocal_enforced_witness :
  lintPackageFs (sampleCtx "hello") usrLocalFS ["usrlocal"] =
  Return (Some (failedError "usrlocal" "usr/local/bin"
                  (errorString "/usr/local path found in non-compat package")
                  "This package should be a -compat package")) /\
  lintPackageFs (sampleCtx "hello-compat") usrLocalFS ["usrlocal"] = Return None.
Proof.
  split.
  - rewrite (usrlocal_enforced (sampleCtx "hello") usrLocalFS) by reflexivity.
    vm_compute. reflexivity.
  - rewrite (usrlocal_enforced (sampleCtx "hello-compat") usrLocalFS) by reflexivity.
    vm_compute. reflexivity.
Defined.

Lemma tempdir_enforced_witness :
  lintPackageFs (sampleCtx "hello") twoViolationsFS ["tempdir"] =
  Return (Some (failedError "tempdir" "tmp/x"
                  (errorString "Package writes to a temp dir")
                  "Remove any offending files in temporary dirs in the pipeline")).
Proof.
  rewrite (tempdir_enforced (sampleCtx "hello") twoViolationsFS) by reflexivity.
  vm_compute. reflexivity.
Defined.

Lemma varempty_enforced_witness :
  lintPackageFs (sampleCtx "hello") twoViolationsFS ["varempty"] =
  Return (Some (failedError "varempty" "var/empty/y"
                  (errorString "Package writes to /var/empty")
                  "Remove any offending files in /var/empty in the pipeline")).
Proof.
  rewrite (varempty_enforced (sampleCtx "hello") twoViolationsFS) by reflexivity.
  vm_compute. reflexivity.
Defined.

Lemma setuidgid_enforced_witness :
  lintPackageFs (sampleCtx "hello") orderFS ["setuidgid"] =
  Return (Some (failedError "setuidgid" "a/b"
                  (errorString "File is setuid")
                  "Unset the setuid/setgid bit on the relevant files, or remove this linter")).
Proof.
  rewrite (setuidgid_enforced (sampleCtx "hello") orderFS) by reflexivity.
  vm_compute. reflexivity.
Defined.

Lemma default_checks_empty_tree_witness :
  lintPackageFs (sampleCtx "hello") emptyFS linterNames = Return None.
Proof.
  apply (default_checks_empty_tree (sampleCtx "hello") (mkInfo "." (Z.lor ModeDir perm755)));
    reflexivity.
Defined.

Lemma path_checks_pass_iff_witness :
  (lintPackageFs (sampleCtx "hello") emptyDirsFS ["usrlocal"] = Return None <->
   HasSuffix "hello" "-compat" = true \/
   forall k e, In (k, e) (keyed emptyDirsFS) -> ~ under ["usr"; "local"] k) /\
  (lintPackageFs (sampleCtx "hello") emptyDirsFS ["varempty"] = Return None <->
   forall k e, In (k, e) (keyed emptyDirsFS) -> ~ under ["var"; "empty"] k) /\
  (lintPackageFs (sampleCtx "hello") emptyDirsFS ["tempdir"] = Return None <->
   forall k e, In (k, e) (keyed emptyDirsFS) ->
     ~ (under ["tmp"] k \/ under ["run"] k \/ under ["var"; "tmp"] k \/ under ["var"; "run"] k)).
Proof. apply (path_checks_pass_iff (sampleCtx "hello") emptyDirsFS); reflexivity. Defined.
