(* ===== verification/Policy.v ===== *)
(** * The packaging policy, and what the default checks decide

    The four checks of the registry together enforce a policy on the
    staged tree: no entry whose mode cannot be read or has the setuid or
    the setgid bit, nothing under the directories for temporary files,
    nothing under [usr/local] unless the package is a compat package,
    nothing under [var/empty].  [compliant] states the policy on the tree,
    entry by entry, without a walk, a pattern or an error.  The theorem:
    on a tree that can be read and whose names are file names, the run of
    the default checks passes exactly when the tree is compliant. *)

From stdpp Require Import gmap.
From S2P Require Import Prelude Errors Regexp FS Linter Samples Enforce Order Paths Checks.

(** ** The policy *)

(** [under], computed. *)
Fixpoint underb (dir k : key) : bool :=
  match dir, k with
  | [], _ :: _ => true
  | d :: dir', x :: k' => String.eqb x d && underb dir' k'
  | _, _ => false
  end.

(** The directories for temporary files. *)
Definition tempDirs : list key := [["tmp"]; ["run"]; ["var"; "tmp"]; ["var"; "run"]].

(** The mode of the entry can be read and has neither the setuid nor the
    setgid bit. *)
Definition plainMode (e : DirEntry) : bool :=
  match Info e with
  | Ok info => negb (hasMode (Mode info) ModeSetuid) && negb (hasMode (Mode info) ModeSetgid)
  | Err _ => false
  end.

(** The policy on the entry [e] at the key [k], for the package [pkg]. *)
Definition entryCompliant (pkg : string) (k : key) (e : DirEntry) : bool :=
  plainMode e &&
  negb (existsb (fun dir => underb dir k) tempDirs) &&
  (HasSuffix pkg "-compat" || negb (underb ["usr"; "local"] k)) &&
  negb (underb ["var"; "empty"] k).

(** The policy on the tree. *)
Definition compliant (pkg : string) (fsys : FS) : bool :=
  forallb (fun kd => entryCompliant pkg (fst kd) (snd kd)) (keyed fsys).

(** ** Lemmas *)

Lemma underb_spec dir : forall k, underb dir k = true <-> under dir k.
Proof.
  induction dir as [|d dir IH]; intros [|x k]; cbn [underb].
  - split; [done | by intros (y & rest & [=])].
  - split; [intros _; by exists x, k | done].
  - split; [done | by intros (y & rest & [=])].
  - by rewrite under_cons, andb_true_iff, String.eqb_eq, IH.
Qed.

Lemma underb_false dir k : underb dir k = false <-> ~ under dir k.
Proof. rewrite <- underb_spec. by destruct (underb dir k). Qed.

Lemma plainMode_spec e : plainMode e = true <-> setuidgidCause e = None.
Proof.
  unfold plainMode, setuidgidCause. destruct (Info e) as [info|err]; [| done].
  by destruct (hasMode (Mode info) ModeSetuid), (hasMode (Mode info) ModeSetgid).
Qed.

Section Policy.

Context {Configuration Checks : Type}.
Implicit Types (lctx : LinterContext Configuration Checks) (fsys : FS).

(** On a tree that can be read, a run passes exactly when every
    requested linter passes on every entry. *)
Lemma lintPackageFs_pass_keyed lctx fsys linters :
  readableFS fsys = true ->
  lintPackageFs lctx fsys linters = Return None <->
  forall k e, In (k, e) (keyed fsys) ->
    forall n, In n linters -> lintOne lctx (joinKey k) (Some e) n = None.
Proof.
  intros Hr. rewrite (lintPackageFs_keyed _ _ _ Hr), retOf_None, first_some_None.
  rewrite List.Forall_forall. split.
  - intros H k e Hin. specialize (H (k, e) Hin). cbn [fst snd] in H.
    change (apply (walkCb lctx linters) (joinKey k, Some e, None) = None) in H.
    by apply apply_walkCb_None in H as [_ H].
  - intros H [k e] Hin. cbn [fst snd].
    change (apply (walkCb lctx linters) (joinKey k, Some e, None) = None).
    apply apply_walkCb_None. split; [done |]. by apply H.
Qed.

(** The four linters pass on an entry exactly when the entry is
    compliant. *)
Lemma entryCompliant_spec lctx k e :
  validKey k = true ->
  entryCompliant (pkgname lctx) k e = true <->
  forall n, In n linterNames -> lintOne lctx (joinKey k) (Some e) n = None.
Proof.
  intros Hk. unfold entryCompliant, tempDirs. cbn [existsb].
  rewrite !andb_true_iff, orb_true_iff, !negb_true_iff, !orb_false_iff, !underb_false.
  rewrite plainMode_spec, <- (lintOne_setuidgid_None lctx (joinKey k) e).
  rewrite <- (lintOne_usrlocal_under lctx k (Some e) Hk),
    <- (lintOne_varempty_under lctx k (Some e) Hk).
  pose proof (lintOne_tempdir_under lctx k (Some e) Hk) as Ht. split.
  - intros (((Hs & Htmp) & Hu) & Hv) n [<-|[<-|[<-|[<-|[]]]]]; try done.
    apply Ht. tauto.
  - intros H. assert (Htmp := H "tempdir" ltac:(cbn; tauto)). apply Ht in Htmp.
    split_and!; try (apply H; cbn; tauto); tauto.
Qed.

(** ** Theorems *)

(** C11. What the default checks decide: on a tree that can be read and
    whose names are file names, the run of the four registered checks
    passes exactly when the tree is compliant, that is when every entry
    has a mode that can be read, with neither the setuid nor the setgid
    bit, and lies neither under [tmp], [run], [var/tmp] or [var/run], nor
    under [var/empty], nor, unless the package is a compat package, under
    [usr/local]. *)
Theorem default_checks_iff lctx fsys :
  readableFS fsys = true -> validFS fsys = true ->
  lintPackageFs lctx fsys linterNames = Return None <-> compliant (pkgname lctx) fsys = true.
Proof.
  intros Hr Hv. rewrite (lintPackageFs_pass_keyed _ _ _ Hr). unfold compliant, validFS in *.
  rewrite forallb_forall in *. split.
  - intros H [k e] Hin. apply entryCompliant_spec; [by apply (Hv (k, e)) | by apply H].
  - intros H k e Hin. apply entryCompliant_spec; [by apply (Hv (k, e)) | by apply (H (k, e))].
Qed.

End Policy.

(** ** The theorem on concrete trees *)

Lemma default_checks_iff_witness :
  lintPackageFs (sampleCtx "hello") emptyDirsFS linterNames = Return None <->
  compliant "hello" emptyDirsFS = true.
Proof.
  apply (default_checks_iff (sampleCtx "hello") emptyDirsFS); reflexivity.
Defined.

(** The policy on the sample trees: the tree with [usr/local/bin/tool] is
    compliant for a compat package only; the trees with a setuid file or
    with files under [tmp] and [var/empty] are not. *)
Example compliant_samples :
  compliant "hello" emptyDirsFS = true /\
  compliant "hello" usrLocalFS = false /\
  compliant "hello-compat" usrLocalFS = true /\
  compliant "hello" orderFS = false /\
  compliant "hello" twoViolationsFS = false /\
  compliant "hello" vanishedFS = false.
Proof. vm_compute. repeat split. Qed.
