(* ===== verification/Laws.v ===== *)
(** * Laws of the enforcer

    What a run of [lintPackageFs] depends on and how runs compose: the
    context is read through the package name only, a pass does not depend
    on the order or the grouping of the linter names, and [usrlocal] is a
    no-op for a compat package.  The first two are also given as [Proper]
    instances, so that contexts with the same name and permuted lists of
    names can be rewritten under [lintPackageFs] and [passes]. *)

From stdpp Require Import gmap.
From S2P Require Import Prelude Errors Regexp FS Linter Samples Enforce.

(** The linter names but [name]. *)
Definition without (name : string) (linters : list string) : list string :=
  List.filter (fun n => negb (String.eqb n name)) linters.

(** Two contexts with the same package name. *)
Definition sameName {Configuration Checks : Type} :
    relation (LinterContext Configuration Checks) :=
  fun lctx lctx' => pkgname lctx = pkgname lctx'.

(** The run passes. *)
Definition passes {Configuration Checks : Type} (lctx : LinterContext Configuration Checks)
    (fsys : FS) (linters : list string) : Prop :=
  lintPackageFs lctx fsys linters = Return None.

(** ** Lemmas: the context is read through the package name *)

Section Frame.

Context {Configuration Checks Configuration' Checks' : Type}.
Context (lctx : LinterContext Configuration Checks)
        (lctx' : LinterContext Configuration' Checks').
Hypothesis same_name : pkgname lctx = pkgname lctx'.

Lemma lintOne_pkgname path d n : lintOne lctx path d n = lintOne lctx' path d n.
Proof.
  unfold lintOne. rewrite !Linters_lookup.
  repeat case_decide; cbn; unfold usrLocalLinter; rewrite ?same_name; reflexivity.
Qed.

Lemma apply_walkCb_pkgname linters c :
  apply (walkCb lctx linters) c = apply (walkCb lctx' linters) c.
Proof.
  destruct c as [[path d] [err|]].
  - by rewrite !apply_walkCb_error.
  - rewrite !apply_walkCb_entry. apply first_some_ext. intros n _. apply lintOne_pkgname.
Qed.

Lemma lintPackageFs_frame fsys linters :
  lintPackageFs lctx fsys linters = lintPackageFs lctx' fsys linters.
Proof.
  rewrite !lintPackageFs_events. f_equal.
  apply first_some_ext. intros c _. apply apply_walkCb_pkgname.
Qed.

End Frame.

Section Laws.

Context {Configuration Checks : Type}.
Abbreviation LinterContext := (LinterContext Configuration Checks).
Implicit Types (lctx : LinterContext) (path : string) (d : option DirEntry)
  (linters : list string) (fsys : FS).

(** ** Lemmas *)

Lemma lintOne_usrlocal_compat lctx path d :
  HasSuffix (pkgname lctx) "-compat" = true -> lintOne lctx path d "usrlocal" = None.
Proof.
  intros H. unfold lintOne. rewrite Linters_usrlocal. cbn. unfold usrLocalLinter.
  by rewrite MatchString_isCompatPackage, H.
Qed.

(** A name whose turn of the loop passes on every call can be left out. *)
Lemma lintPackageFs_without lctx fsys linters name :
  (forall path d, In (path, d, None) (events fsys ".") -> lintOne lctx path d name = None) ->
  lintPackageFs lctx fsys linters = lintPackageFs lctx fsys (without name linters).
Proof.
  intros Hp. rewrite !lintPackageFs_events. f_equal.
  apply first_some_ext. intros [[path d] [err|]] Hin.
  - by rewrite !apply_walkCb_error.
  - rewrite !apply_walkCb_entry. symmetry. apply first_some_filter.
    intros n _ ->%negb_false_iff%String.eqb_eq. by apply Hp.
Qed.

(** Lists with the same names pass on the same trees. *)
Lemma passes_same_names lctx fsys l1 l2 :
  (forall n, In n l1 <-> In n l2) -> passes lctx fsys l1 <-> passes lctx fsys l2.
Proof.
  intros Hl. unfold passes. rewrite !lintPackageFs_None.
  split; intros H path d err Hin; destruct (H _ _ _ Hin) as [He Hn];
    (split; [exact He | intros n Hi; apply Hn, Hl, Hi]).
Qed.

#[export] Instance sameName_equivalence : Equivalence (@sameName Configuration Checks).
Proof. unfold sameName. split; [by intros ? | by intros ?? | intros ???; congruence]. Qed.

#[export] Instance lintPackageFs_proper :
  Proper (sameName ==> eq ==> eq ==> eq) (@lintPackageFs Configuration Checks).
Proof. intros lctx lctx' H fsys ? <- linters ? <-. by apply lintPackageFs_frame. Qed.

#[export] Instance passes_proper :
  Proper (sameName ==> eq ==> Permutation ==> iff) (@passes Configuration Checks).
Proof.
  intros lctx lctx' H fsys ? <- l1 l2 Hl. unfold passes at 1. rewrite H.
  apply passes_same_names. intros n. by rewrite <- !list_elem_of_In, Hl.
Qed.

(** The order of two groups of names does not change whether a run passes. *)
Lemma passes_app_comm lctx fsys l1 l2 :
  passes lctx fsys (l1 ++ l2) <-> passes lctx fsys (l2 ++ l1).
Proof. by rewrite (Permutation_app_comm l1 l2). Qed.

(** ** Theorems *)

(** A run reads the context through the package name only: two
    contexts with the same package name give the same result on every tree
    and list of linters, whatever their configurations are, and of
    whatever types. *)
Theorem lintPackageFs_pkgname_only {Configuration' Checks' : Type} lctx
    (lctx' : Linter.LinterContext Configuration' Checks') fsys linters :
  pkgname lctx = pkgname lctx' ->
  lintPackageFs lctx fsys linters = lintPackageFs lctx' fsys linters.
Proof.
  intros H. by apply lintPackageFs_frame.
Qed.

(** A pass does not depend on how the linter names are grouped: a run
    with the names [l1 ++ l2] passes exactly when the run with [l1] and
    the run with [l2] both pass. *)
Theorem lintPackageFs_pass_app lctx fsys l1 l2 :
  lintPackageFs lctx fsys (l1 ++ l2) = Return None <->
  lintPackageFs lctx fsys l1 = Return None /\ lintPackageFs lctx fsys l2 = Return None.
Proof.
  rewrite !lintPackageFs_None. setoid_rewrite in_app_iff. split.
  - intros H. split; intros path d err Hin; destruct (H _ _ _ Hin); auto.
  - intros [H1 H2] path d err Hin. destruct (H1 _ _ _ Hin), (H2 _ _ _ Hin).
    split; [assumption |]. intros n [?|?]; auto.
Qed.

(** A pass does not depend on the order of the linter names, nor on
    repetitions: two lists with the same names pass on the same trees.
    (Which error a failing run returns does depend on the order.) *)
Theorem lintPackageFs_pass_same_names lctx fsys l1 l2 :
  (forall n, In n l1 <-> In n l2) ->
  (lintPackageFs lctx fsys l1 = Return None <-> lintPackageFs lctx fsys l2 = Return None).
Proof.
  apply passes_same_names.
Qed.

(** With no linter requested, a run on a tree that can be read
    passes: the walk alone finds nothing to report. *)
Theorem lintPackageFs_no_linters lctx fsys :
  readableFS fsys = true -> lintPackageFs lctx fsys [] = Return None.
Proof.
  intros Hr. rewrite (lintPackageFs_readable _ _ _ Hr).
  rewrite (first_some_ext _ (fun _ => None)) by reflexivity.
  by rewrite first_some_const_None.
Qed.

(** C22. For a package whose name ends in [-compat], [usrlocal] is a no-op:
    on every tree and for every list of names the run returns what the
    run without that name returns.  So the tree that fails [usrlocal] for
    another package passes it, when it can be read, for the compat
    package. *)
Theorem usrlocal_noop_for_compat lctx fsys linters :
  HasSuffix (pkgname lctx) "-compat" = true ->
  lintPackageFs lctx fsys linters = lintPackageFs lctx fsys (without "usrlocal" linters) /\
  (readableFS fsys = true -> lintPackageFs lctx fsys ["usrlocal"] = Return None).
Proof.
  intros Hc.
  assert (forall l, lintPackageFs lctx fsys l = lintPackageFs lctx fsys (without "usrlocal" l))
    as Hw.
  { intros l. apply lintPackageFs_without. intros path d _. by apply lintOne_usrlocal_compat. }
  split; [apply Hw |]. intros Hr. rewrite Hw. by apply lintPackageFs_no_linters.
Qed.

End Laws.

(** ** The theorems at concrete trees *)

Lemma lintPackageFs_pkgname_only_witness :
  lintPackageFs (sampleCtx "hello") usrLocalFS linterNames =
  lintPackageFs {| pkgname := "hello"; cfg := Some 7%nat; chk := Some true |}
    usrLocalFS linterNames.
Proof.
  apply (lintPackageFs_pkgname_only (sampleCtx "hello")
           {| pkgname := "hello"; cfg := Some 7%nat; chk := Some true |}).
  reflexivity.
Defined.

Lemma lintPackageFs_pass_same_names_witness :
  lintPackageFs (sampleCtx "hello") emptyDirsFS ["tempdir"; "varempty"] = Return None <->
  lintPackageFs (sampleCtx "hello") emptyDirsFS ["varempty"; "tempdir"; "varempty"] =
  Return None.
Proof.
  apply (lintPackageFs_pass_same_names (sampleCtx "hello") emptyDirsFS).
  intros n. simpl. tauto.
Defined.

Lemma usrlocal_noop_for_compat_witness :
  lintPackageFs (sampleCtx "hello-compat") usrLocalFS ["usrlocal"; "setuidgid"] =
  lintPackageFs (sampleCtx "hello-compat") usrLocalFS
    (without "usrlocal" ["usrlocal"; "setuidgid"]) /\
  (readableFS usrLocalFS = true ->
   lintPackageFs (sampleCtx "hello-compat") usrLocalFS ["usrlocal"] = Return None).
Proof.
  apply (usrlocal_noop_for_compat (sampleCtx "hello-compat") usrLocalFS
           ["usrlocal"; "setuidgid"]).
  reflexivity.
Defined.

Lemma lintPackageFs_no_linters_witness :
  lintPackageFs (sampleCtx "hello") twoViolationsFS [] = Return None.
Proof. apply (lintPackageFs_no_linters (sampleCtx "hello") twoViolationsFS). reflexivity. Defined.
