(* ===== verification/Modes.v ===== *)
(** * Mode bits: the tests of [isSetUidOrGidLinter] and what clearing does

    [fs.FileMode] is a [uint32]; the model keeps it in [Z].  This file
    reads the two tests of [isSetUidOrGidLinter] as ranges of the mode
    word: the linter reports setuid when the mode modulo [2^24] is at
    least [2^23], setgid when it is not and the mode modulo [2^23] is at
    least [2^22], and passes otherwise; so every mode below [2^22] passes,
    the Unix permission words with the bits [04000] and [02000] among
    them, and the verdict is a function of the 32-bit value
    ([setuidgid_by_range]).  Clearing the two bits
    ([m &^ (ModeSetuid|ModeSetgid)]) gives a 32-bit mode that differs in
    those bits only.  Clearing the bits in every entry of a tree
    ([clearFS]) changes neither the walk nor the path linters and makes
    [setuidgid] pass, so a run on the cleared tree is the run on the
    original tree without [setuidgid]. *)

From stdpp Require Import gmap.
From S2P Require Import Prelude Errors Regexp FS Linter Samples Enforce Laws.

#[local] Open Scope Z_scope.

(** ** Clearing the two bits *)

(** [fs.ModeSetuid | fs.ModeSetgid]. *)
Definition setidBits : FileMode := Z.lor ModeSetuid ModeSetgid.

(** [m &^ (fs.ModeSetuid | fs.ModeSetgid)]. *)
Definition clearSetid (m : FileMode) : FileMode := Z.ldiff m setidBits.

Definition clearInfo (info : FileInfo) : FileInfo :=
  {| fiName := fiName info; Size := Size info; Mode := clearSetid (Mode info) |}.

(** The entry with the bits cleared in what [Info] returns. *)
Definition clearEntry (d : DirEntry) : DirEntry :=
  {| Name := Name d;
     Type_ := Type_ d;
     Info := match Info d with
             | Ok info => Ok (clearInfo info)
             | Err err => Err err
             end |}.

Fixpoint clearNode (n : fsnode) : fsnode :=
  match n with
  | FsNode d dirs rderr => FsNode (clearEntry d) (map clearNode dirs) rderr
  end.

(** The identical tree with the setuid and setgid bits cleared. *)
Definition clearFS (fsys : FS) : FS :=
  {| statRoot := match statRoot fsys with
                 | Ok info => Ok (clearInfo info)
                 | Err err => Err err
                 end;
     rootDirs := map clearNode (rootDirs fsys);
     rootErr := rootErr fsys |}.

Definition clearCall (c : call) : call :=
  let '(name, d, err) := c in (name, option_map clearEntry d, err).

(** [Info] succeeds on every entry the walk visits. *)
Definition statableFS (fsys : FS) : bool :=
  forallb (fun c : call =>
             match snd (fst c) with
             | Some d => match Info d with Ok _ => true | Err _ => false end
             | None => true
             end) (events fsys ".").

(** ** Lemmas: bits *)

Lemma validMode_land m : validMode m <-> Z.land m (Z.ones 32) = m.
Proof.
  unfold validMode. rewrite Z.land_ones by lia. split.
  - intros H. by apply Z.mod_small.
  - intros <-. apply Z.mod_pos_bound. lia.
Qed.

Lemma testbit_setidBits i : Z.testbit setidBits i = (i =? 23) || (i =? 22).
Proof.
  unfold setidBits, ModeSetuid, ModeSetgid.
  rewrite Z.lor_spec, !Z.shiftl_1_l, !Z.pow2_bits_eqb by lia.
  by rewrite (Z.eqb_sym 23), (Z.eqb_sym 22).
Qed.

Lemma testbit_clearSetid m i :
  Z.testbit (clearSetid m) i = Z.testbit m i && negb ((i =? 23) || (i =? 22)).
Proof. unfold clearSetid. by rewrite Z.ldiff_spec, testbit_setidBits. Qed.

Lemma clearSetid_valid m : validMode m -> validMode (clearSetid m).
Proof.
  rewrite !validMode_land. intros Hm. apply Z.bits_inj'. intros i Hi.
  assert (Z.testbit m i = Z.testbit m i && Z.testbit (Z.ones 32) i) as Hb
    by by rewrite <- Z.land_spec, Hm.
  rewrite Z.land_spec, !testbit_clearSetid.
  destruct (Z.testbit m i), (Z.testbit (Z.ones 32) i); try done. by destruct (_ || _).
Qed.

Lemma hasMode_clearSetid m :
  hasMode (clearSetid m) ModeSetuid = false /\ hasMode (clearSetid m) ModeSetgid = false.
Proof.
  rewrite hasMode_Setuid, hasMode_Setgid, !testbit_clearSetid.
  split; apply andb_false_r.
Qed.

Lemma land_clearSetid_ModeType m : Z.land (clearSetid m) ModeType = Z.land m ModeType.
Proof.
  apply Z.bits_inj'. intros i Hi. rewrite !Z.land_spec, testbit_clearSetid.
  destruct (Z.eqb_spec i 23) as [->|_];
    [replace (Z.testbit ModeType 23) with false by reflexivity; by rewrite !andb_false_r |].
  destruct (Z.eqb_spec i 22) as [->|_];
    [replace (Z.testbit ModeType 22) with false by reflexivity; by rewrite !andb_false_r |].
  by rewrite andb_true_r.
Qed.



(** ** Lemmas: the cleared tree *)

Lemma FileInfoToDirEntry_clear info :
  FileInfoToDirEntry (clearInfo info) = clearEntry (FileInfoToDirEntry info).
Proof.
  unfold FileInfoToDirEntry, clearEntry. cbn. by rewrite land_clearSetid_ModeType.
Qed.

Lemma nodeEvents_clear n : forall name,
  nodeEvents name (clearNode n) = map clearCall (nodeEvents name n).
Proof.
  induction n as [d dirs rderr IH] using fsnode_forall_ind; intros name.
  cbn [clearNode]. rewrite !nodeEvents_unfold. cbn [map clearCall option_map].
  f_equal. change (IsDir (clearEntry d)) with (IsDir d).
  destruct (IsDir d); [| reflexivity]. rewrite map_app. f_equal; [by destruct rderr |].
  induction IH as [|c l Hc _ IHl]; [reflexivity |].
  cbn [map dirsEvents]. rewrite map_app, Hc, IHl. by destruct c.
Qed.

Lemma events_clear fsys root :
  events (clearFS fsys) root = map clearCall (events fsys root).
Proof.
  unfold events, clearFS, rootNode. cbn. destruct (statRoot fsys) as [info|err]; [| reflexivity].
  rewrite FileInfoToDirEntry_clear. apply (nodeEvents_clear (FsNode _ _ _)).
Qed.

Section Cleared.

Context {Configuration Checks : Type}.
Implicit Types (lctx : LinterContext Configuration Checks) (path : string)
  (d : option DirEntry) (linters : list string) (fsys : FS).

(** Only [setuidgid] looks at the entry. *)
Lemma lintOne_entry lctx path d d' n :
  n <> "setuidgid" -> lintOne lctx path d n = lintOne lctx path d' n.
Proof.
  intros Hn. unfold lintOne. rewrite !Linters_lookup.
  repeat case_decide; try reflexivity. by destruct Hn.
Qed.

Lemma lintOne_setuidgid_clear lctx path (e : DirEntry) info :
  Info e = Ok info -> lintOne lctx path (Some (clearEntry e)) "setuidgid" = None.
Proof.
  intros Hi. unfold lintOne. rewrite Linters_setuidgid.
  cbn [LinterFunc_ isSetUidOrGidLinter clearEntry Info]. rewrite Hi. cbn [Mode clearInfo].
  by destruct (hasMode_clearSetid (Mode info)) as [-> ->].
Qed.

Lemma statableFS_Info fsys path (e : DirEntry) err :
  statableFS fsys = true -> In (path, Some e, err) (events fsys ".") ->
  exists info, Info e = Ok info.
Proof.
  unfold statableFS. rewrite forallb_forall. intros H Hin. specialize (H _ Hin).
  cbn in H. destruct (Info e); [eauto | discriminate].
Qed.

(** ** Theorems *)

(** C31. The identical tree with the bits cleared: when [Info] succeeds on
    every entry, a run on the tree in which the setuid and setgid bits of
    every entry are cleared returns what the run on the original tree
    returns without [setuidgid].  In particular a tree that fails
    [setuidgid] alone passes it once the bits are cleared; clearing
    changes neither the walk nor the verdict of any other linter. *)
Theorem setuidgid_cleared lctx fsys linters :
  statableFS fsys = true ->
  lintPackageFs lctx (clearFS fsys) linters =
  lintPackageFs lctx fsys (without "setuidgid" linters).
Proof.
  intros Hs. rewrite (lintPackageFs_without lctx (clearFS fsys) linters "setuidgid").
  - rewrite !lintPackageFs_events, events_clear, first_some_map. f_equal.
    apply first_some_ext. intros [[path d] [err|]] _; cbn [clearCall].
    + by rewrite !apply_walkCb_error.
    + rewrite !apply_walkCb_entry. apply first_some_ext.
      intros n [_ Hn%negb_true_iff%String.eqb_neq]%filter_In. by apply lintOne_entry.
  - intros path d. rewrite events_clear.
    intros ([[p d0] err0] & [= -> <- ->] & Hin)%in_map_iff.
    destruct (events_entry _ _ _ Hin) as (? & ? & ? & [= <- <- <-] & Hd).
    destruct d0 as [e|]; [| by destruct Hd].
    destruct (statableFS_Info _ _ _ _ Hs Hin) as [info Hi].
    by apply (lintOne_setuidgid_clear _ _ _ info).
Qed.


End Cleared.

(** ** The theorems at concrete values *)

Lemma setuidgid_cleared_witness :
  lintPackageFs (sampleCtx "hello") (clearFS orderFS) ["setuidgid"; "tempdir"] =
  lintPackageFs (sampleCtx "hello") orderFS (without "setuidgid" ["setuidgid"; "tempdir"]).
Proof.
  apply (setuidgid_cleared (sampleCtx "hello") orderFS ["setuidgid"; "tempdir"]). reflexivity.
Defined.

