(* ===== verification/Machine.v ===== *)
(** * The enforcer as a state machine

    The run of [lintPackageFs] as the machine
    [NotStarted -> Walking -> Succeeded | Failed reason], one transition
    per call of [walkCb].  A [Walking] state holds the calls made so far
    and the work the depth-first walk still has: the entries to enter and
    the listing errors to report, the next one first.

    The machine is given twice, as the relation [step] and as the function
    [next]; they agree.  It is deterministic, it is never stuck before a
    terminal state, its transitions decrease [weight], and its terminal
    state is the result of [lintPackageFs]; run as a function with two
    units of fuel more than the walk has calls, it computes that result
    ([run_enough_fuel]).  From every state it reaches, every
    run ends, and ends in that terminal state. *)

From stdpp Require Import relations.
From S2P Require Import Prelude Errors FS Linter Samples Enforce.

(** ** The machine *)

(** The work of the walk: call the function on an entry and descend into
    it, or call it with an error. *)
Inductive task : Type :=
  | Enter (path : string) (n : fsnode)
  | Report (path : string) (d : option DirEntry) (err : error).

Inductive state : Type :=
  | NotStarted
  | Walking (visited : list call) (todo : list task)
  | Succeeded
  | Failed (reason : error).

(** The call a task stands for. *)
Definition taskCall (i : task) : call :=
  match i with
  | Enter path n => (path, Some (nodeEntry n), None)
  | Report path d err => (path, d, Some err)
  end.

(** The work that replaces a task when its call returned [nil]: for a
    directory, the report of the error of its listing, if any, and then
    its entries in the order of the listing. *)
Definition children (i : task) : list task :=
  match i with
  | Enter path (FsNode d dirs rderr) =>
      if IsDir d then
        match rderr with
        | Some err => [Report path (Some d) err]
        | None => []
        end ++ map (fun n => Enter (Join path (nodeName n)) n) dirs
      else []
  | Report _ _ _ => []
  end.

(** The calls a task leads to when every call returns [nil]. *)
Definition taskEvents (i : task) : list call :=
  match i with
  | Enter path n => nodeEvents path n
  | Report path d err => [(path, d, Some err)]
  end.

Definition pending (todo : list task) : list call := flat_map taskEvents todo.

(** A terminal state. *)
Definition final (s : state) : bool :=
  match s with
  | Succeeded | Failed _ => true
  | NotStarted | Walking _ _ => false
  end.

(** The terminal state that stands for a result. *)
Definition stateOf (r : ret (option error)) : option state :=
  match r with
  | Return None => Some Succeeded
  | Return (Some e) => Some (Failed e)
  | Panic => None
  end.

Section Machine.

Context {Configuration Checks : Type}.
Context (lctx : LinterContext Configuration Checks) (fsys : FS) (linters : list string).

(** The work of a run that starts: [Stat] on the root ["."]. *)
Definition initial : list task :=
  match statRoot fsys with
  | Err err => [Report "." None err]
  | Ok info => [Enter "." (rootNode fsys info)]
  end.

Definition next (s : state) : option state :=
  match s with
  | NotStarted => Some (Walking [] initial)
  | Walking visited [] => Some Succeeded
  | Walking visited (i :: todo) =>
      match apply (walkCb lctx linters) (taskCall i) with
      | None => Some (Walking (visited ++ [taskCall i]) (children i ++ todo))
      | Some (Errors.Failed e) => Some (Failed e)
      | Some Panicked => None
      end
  | Succeeded | Failed _ => None
  end.

Inductive step : state -> state -> Prop :=
  | step_start :
      step NotStarted (Walking [] initial)
  | step_pass visited i todo :
      apply (walkCb lctx linters) (taskCall i) = None ->
      step (Walking visited (i :: todo))
           (Walking (visited ++ [taskCall i]) (children i ++ todo))
  | step_fail visited i todo e :
      apply (walkCb lctx linters) (taskCall i) = Some (Errors.Failed e) ->
      step (Walking visited (i :: todo)) (Failed e)
  | step_done visited :
      step (Walking visited []) Succeeded.

(** [fuel] transitions from [s], or fewer when a state has none. *)
Fixpoint run (fuel : nat) (s : state) : state :=
  match fuel with
  | O => s
  | S fuel' =>
      match next s with
      | Some s' => run fuel' s'
      | None => s
      end
  end.

(** A bound on the transitions left. *)
Definition weight (s : state) : nat :=
  match s with
  | NotStarted => 2 + length (events fsys ".")
  | Walking _ todo => 1 + length (pending todo)
  | Succeeded | Failed _ => 0
  end.

(** What holds of every state of a run: the calls made so far all
    returned [nil] and, with the calls still to make, they are the calls of
    the walk; a terminal state tells how the calls of the walk end. *)
Definition inv (s : state) : Prop :=
  match s with
  | NotStarted => True
  | Walking visited todo =>
      visited ++ pending todo = events fsys "." /\
      first_some (apply (walkCb lctx linters)) visited = None
  | Succeeded =>
      first_some (apply (walkCb lctx linters)) (events fsys ".") = None
  | Failed e =>
      first_some (apply (walkCb lctx linters)) (events fsys ".") = Some (Errors.Failed e)
  end.

(** ** Lemmas *)

Lemma pending_app l1 l2 : pending (l1 ++ l2) = pending l1 ++ pending l2.
Proof. apply flat_map_app. Qed.

Lemma pending_map_Enter path dirs :
  pending (map (fun n => Enter (Join path (nodeName n)) n) dirs) = dirsEvents path dirs.
Proof. induction dirs as [|n l IH]; simpl; [reflexivity | by rewrite <- IH]. Qed.

Lemma taskEvents_unfold i : taskEvents i = taskCall i :: pending (children i).
Proof.
  destruct i as [path [d dirs rderr]|path d err]; [| reflexivity].
  cbn [taskEvents taskCall children nodeEntry]. rewrite nodeEvents_unfold.
  destruct (IsDir d); [| reflexivity].
  rewrite pending_app, pending_map_Enter. by destruct rderr.
Qed.

Lemma pending_cons i todo :
  pending (i :: todo) = taskCall i :: pending (children i ++ todo).
Proof.
  rewrite pending_app. change (pending (i :: todo)) with (taskEvents i ++ pending todo).
  by rewrite taskEvents_unfold.
Qed.

Lemma pending_initial : pending initial = events fsys ".".
Proof.
  unfold initial, events, pending.
  destruct (statRoot fsys); cbn [flat_map taskEvents]; [apply app_nil_r | reflexivity].
Qed.

Lemma apply_taskCall_no_panic i :
  apply (walkCb lctx linters) (taskCall i) <> Some Panicked.
Proof.
  destruct i as [path n|path d err]; simpl.
  - intros H%stopOf_Panicked. exact (lintLoop_no_panic _ _ _ _ H).
  - discriminate.
Qed.

Lemma step_next s s' : step s s' <-> next s = Some s'.
Proof.
  split.
  - intros []; simpl; repeat case_match; congruence.
  - destruct s as [|visited [|i todo]| |]; simpl; try discriminate.
    + intros [= <-]. constructor.
    + intros [= <-]. constructor.
    + destruct (apply _ (taskCall i)) as [[e|]|] eqn:E; intros [= <-]; by constructor.
Qed.

Lemma next_final s : next s = None <-> final s = true.
Proof.
  destruct s as [|visited [|i todo]| |]; simpl; try (split; congruence).
  pose proof (apply_taskCall_no_panic i).
  destruct (apply _ (taskCall i)) as [[e|]|]; split; congruence.
Qed.

Lemma step_weight s s' : step s s' -> weight s' < weight s.
Proof.
  intros []; cbn [weight]; rewrite ?pending_initial, ?pending_cons; cbn [length]; lia.
Qed.

Lemma step_inv s s' : step s s' -> inv s -> inv s'.
Proof.
  intros [|visited i todo Hc|visited i todo e Hc|visited]; cbn [inv].
  - intros _. by rewrite pending_initial.
  - rewrite pending_cons, <- app_assoc, first_some_app. intros [<- ->].
    split; [reflexivity |]. by rewrite first_some_cons_None.
  - rewrite pending_cons. intros [<- Hv].
    by rewrite first_some_app, Hv, (first_some_cons_Some _ _ _ _ Hc).
  - cbn [pending flat_map]. rewrite app_nil_r. by intros [<- ->].
Qed.

Lemma rtc_step_inv s s' : rtc step s s' -> inv s -> inv s'.
Proof. induction 1; eauto using step_inv. Qed.

Lemma run_rtc fuel s : rtc step s (run fuel s).
Proof.
  revert s. induction fuel as [|fuel IH]; intros s; simpl; [reflexivity |].
  destruct (next s) as [s'|] eqn:E; [| reflexivity].
  apply step_next in E. by econstructor.
Qed.

Lemma run_final fuel s : weight s <= fuel -> final (run fuel s) = true.
Proof.
  revert s. induction fuel as [|fuel IH]; intros s Hw; simpl.
  - destruct s; simpl in *; (reflexivity || lia).
  - destruct (next s) as [s'|] eqn:E; [| by apply next_final].
    apply IH. apply step_next, step_weight in E. lia.
Qed.

(** A [Walking] state is reached in one transition more than the calls
    it has made. *)
Lemma nsteps_Walking n visited todo :
  nsteps step n NotStarted (Walking visited todo) -> n = S (length visited).
Proof.
  revert visited todo. induction n as [|n IH]; intros visited todo; [inversion 1 |].
  intros (s & Hn & Hs)%nsteps_inv_r. inv Hs.
  - destruct n; [reflexivity |]. apply nsteps_inv_r in Hn as (s & _ & Hs). inv Hs.
  - apply IH in Hn as ->. rewrite length_app. simpl. lia.
Qed.

Lemma inv_final s :
  inv s -> final s = true -> Some s = stateOf (lintPackageFs lctx fsys linters).
Proof.
  rewrite lintPackageFs_events.
  destruct s; simpl; try discriminate; by intros -> _.
Qed.

Lemma stateOf_inj r1 r2 s : stateOf r1 = Some s -> stateOf r2 = Some s -> r1 = r2.
Proof. destruct r1 as [[?|]|], r2 as [[?|]|]; simpl; congruence. Qed.

(** The transitions decrease [weight], so no run goes on for ever. *)
Lemma step_sn s : sn step s.
Proof.
  apply (Wf_nat.well_founded_lt_compat _ weight). intros x y. apply step_weight.
Qed.

(** From any state, [weight] transitions reach a terminal state. *)
Lemma run_ends s : rtc step s (run (weight s) s) /\ final (run (weight s) s) = true.
Proof. split; [apply run_rtc | by apply run_final]. Qed.

(** ** Theorems *)

(** The transition relation and the transition function are the same
    machine, and the machine is deterministic: a state has at most one
    successor. *)
Theorem step_deterministic :
  (forall s s', step s s' <-> next s = Some s') /\
  (forall s s1 s2, step s s1 -> step s s2 -> s1 = s2).
Proof.
  split; [apply step_next |].
  intros s s1 s2 H1%step_next H2%step_next. congruence.
Qed.

(** The machine is never stuck: the states without a successor are
    exactly the terminal states [Succeeded] and [Failed].  In particular
    no call of [walkCb] panics, whatever the work left. *)
Theorem step_progress s :
  (forall s', ~ step s s') <-> final s = true.
Proof.
  rewrite <- next_final. split.
  - intros H. destruct (next s) as [s'|] eqn:E; [| reflexivity].
    destruct (H s'). by apply step_next.
  - intros E s' H%step_next. congruence.
Qed.

(** The invariant of a run: in every state reached from [NotStarted]
    the calls made so far are a prefix of the calls of the walk, each of
    them returned [nil], and the calls still to make are the rest; a
    terminal state that is reached tells how the calls of the walk end. *)
Theorem reachable_inv s : rtc step NotStarted s -> inv s.
Proof. intros H. by apply (rtc_step_inv _ _ H). Qed.

(** Fail-fast, counted: a run that fails has made one call of
    [walkCb] for each call of the walk up to the first that fails, that
    call included, and none after it: it reaches [Failed] in two
    transitions more than the calls that passed. *)
Theorem fail_fast_steps n e :
  nsteps step n NotStarted (Failed e) ->
  exists before c after,
    events fsys "." = before ++ c :: after /\
    n = length before + 2 /\
    Forall (fun c' => apply (walkCb lctx linters) c' = None) before /\
    apply (walkCb lctx linters) c = Some (Errors.Failed e).
Proof.
  destruct n as [|n]; [inversion 1 |].
  intros ([] & Hn & Hs)%nsteps_inv_r; inv Hs.
  pose proof (rtc_step_inv NotStarted _ (rtc_nsteps_2 _ _ _ Hn) I) as [Hev Hv].
  rewrite pending_cons in Hev. apply nsteps_Walking in Hn as ->.
  eexists visited, _, _. split_and!; [by rewrite Hev | lia | by apply first_some_None | done].
Qed.

(** C37. The machine and the program agree: the machine reaches
    [Succeeded] exactly when [lintPackageFs] returns [nil], and it reaches
    [Failed e] exactly when [lintPackageFs] returns the error [e]. *)
Theorem machine_refines s :
  final s = true ->
  (rtc step NotStarted s <-> Some s = stateOf (lintPackageFs lctx fsys linters)).
Proof.
  intros Hf. split.
  - intros H. apply inv_final; [| exact Hf]. by apply (rtc_step_inv _ _ H).
  - intros Hs. pose proof (run_rtc (weight NotStarted) NotStarted) as Hr.
    pose proof (run_final (weight NotStarted) NotStarted (le_n _)) as Hrf.
    pose proof (inv_final _ (rtc_step_inv NotStarted _ Hr I) Hrf) as Hi.
    rewrite <- Hs in Hi. by injection Hi as <-.
Qed.


(** C38. Every run ends, and ends with the result of the program: from
    every state the machine reaches from [NotStarted] there is no infinite
    sequence of transitions, and the transitions lead to one terminal
    state, the one that stands for the result of [lintPackageFs]. *)
Theorem run_eventually_ends s :
  rtc step NotStarted s ->
  sn step s /\
  exists t, rtc step s t /\ final t = true /\
            Some t = stateOf (lintPackageFs lctx fsys linters) /\
            forall t', rtc step s t' -> final t' = true -> t' = t.
Proof.
  intros Hs. split; [apply step_sn |].
  destruct (run_ends s) as [Hr Hf]. exists (run (weight s) s).
  assert (Hinv : forall t', rtc step s t' -> final t' = true ->
            Some t' = stateOf (lintPackageFs lctx fsys linters)).
  { intros t' Ht'. apply inv_final. apply (rtc_step_inv NotStarted); [by etrans | exact I]. }
  split_and!; [done.. | by apply Hinv |].
  intros t' Ht' Hf'. pose proof (Hinv _ Ht' Hf'). pose proof (Hinv _ Hr Hf). congruence.
Qed.

End Machine.

(** ** The theorems at concrete trees *)


Lemma reachable_inv_witness :
  inv (sampleCtx "hello") twoViolationsFS ["tempdir"]
    (Failed (failedError "tempdir" "tmp/x" (errorString "Package writes to a temp dir")
               "Remove any offending files in temporary dirs in the pipeline")).
Proof.
  apply reachable_inv.
  replace (Failed _) with (run (sampleCtx "hello") twoViolationsFS ["tempdir"] 4 NotStarted)
    by (vm_compute; reflexivity).
  apply run_rtc.
Defined.

Lemma machine_refines_witness :
  rtc (step (sampleCtx "hello") emptyFS linterNames) NotStarted Succeeded <->
  Some Succeeded = stateOf (lintPackageFs (sampleCtx "hello") emptyFS linterNames).
Proof. apply (machine_refines (sampleCtx "hello") emptyFS linterNames Succeeded). reflexivity. Defined.

Lemma fail_fast_steps_witness :
  exists before c after,
    events twoViolationsFS "." = before ++ c :: after /\
    4 = length before + 2 /\
    Forall (fun c' => apply (walkCb (sampleCtx "hello") ["tempdir"]) c' = None) before /\
    apply (walkCb (sampleCtx "hello") ["tempdir"]) c =
    Some (Errors.Failed
            (failedError "tempdir" "tmp/x" (errorString "Package writes to a temp dir")
               "Remove any offending files in temporary dirs in the pipeline")).
Proof.
  apply (fail_fast_steps (sampleCtx "hello") twoViolationsFS ["tempdir"]).
  eapply nsteps_l; [apply step_start |].
  eapply nsteps_l; [apply step_pass; vm_compute; reflexivity |].
  eapply nsteps_l; [apply step_pass; vm_compute; reflexivity |].
  eapply nsteps_l; [| apply nsteps_O]. apply step_fail. vm_compute. reflexivity.
Defined.

Lemma run_eventually_ends_witness :
  let s := Walking [] (initial usrLocalFS) in
  sn (step (sampleCtx "hello") usrLocalFS ["usrlocal"]) s /\
  exists t, rtc (step (sampleCtx "hello") usrLocalFS ["usrlocal"]) s t /\ final t = true /\
            Some t = stateOf (lintPackageFs (sampleCtx "hello") usrLocalFS ["usrlocal"]) /\
            forall t', rtc (step (sampleCtx "hello") usrLocalFS ["usrlocal"]) s t' ->
                       final t' = true -> t' = t.
Proof.
  apply (run_eventually_ends (sampleCtx "hello") usrLocalFS ["usrlocal"]).
  apply rtc_once. constructor.
Defined.
