(* ===== verification/Scenarios.v ===== *)
(** * Runs of the enforcer on the sample trees

    [lintPackageFs] evaluated on the trees of [Samples]: the cases the
    specification lists as testable, and the cases in which the program
    and the specification part ways (the root entry, the error that wins
    when several apply). *)

From S2P Require Import Prelude Errors FS Linter Samples Enforce Taxonomy Order.

#[local] Open Scope Z_scope.

(** The root of the tree is an entry like any other: an empty tree
    whose root directory has the setgid bit fails the default checks, at
    the path ["."]. *)
Example setgid_root_fails_default_checks :
  rootDirs setgidRootFS = [] /\
  lintPackageFs (sampleCtx "hello") setgidRootFS linterNames =
  Return (Some (failedError "setuidgid" "." (errorString "File is setgid")
                  (hint "setuidgid"))).
Proof. vm_compute. split; reflexivity. Qed.

(** An unknown linter name is reported only on a root that can be
    read and after the linters named before it passed on the root: on an
    unreadable root the run fails with the traversal error, and on a
    setgid root [setuidgid] fails before [bogus] is looked up. *)
Example unknown_linter_masked :
  lintPackageFs (sampleCtx "hello") unreadableFS ["bogus"] =
  Return (Some (traverseError "." (errorString "stat .: permission denied"))) /\
  lintPackageFs (sampleCtx "hello") setgidRootFS ["setuidgid"; "bogus"] =
  Return (Some (failedError "setuidgid" "." (errorString "File is setgid")
                  (hint "setuidgid"))) /\
  lintPackageFs (sampleCtx "hello") setgidRootFS ["bogus"; "setuidgid"] =
  Return (Some (unknownError "bogus")).
Proof. vm_compute. repeat split. Qed.

(** A violation on a directory that cannot be listed wins over the
    traversal error: the directory [tmp/cache] cannot be read; with no
    linter the run reports the traversal error at [tmp/cache], with
    [tempdir] it reports the violation at [tmp/cache] and the traversal
    error is never surfaced. *)
Example traversal_error_masked :
  lintPackageFs (sampleCtx "hello") unlistableTmpFS [] =
  Return (Some (traverseError "tmp/cache" (errorString "readdir tmp/cache: permission denied"))) /\
  lintPackageFs (sampleCtx "hello") unlistableTmpFS ["tempdir"] =
  Return (Some (failedError "tempdir" "tmp/cache" (errorString "Package writes to a temp dir")
                  (hint "tempdir"))).
Proof. vm_compute. split; reflexivity. Qed.

(** The patterns need the slash after the directory: the empty
    directories [tmp], [usr/local] and [var/empty] pass the default
    checks, as do files under [usr/tmp/] and [var/empty2/]. *)
Example directories_themselves_pass :
  lintPackageFs (sampleCtx "hello") emptyDirsFS linterNames = Return None /\
  lintPackageFs (sampleCtx "hello")
    (mkFS [dir "usr" [dir "tmp" [file "x" perm644]];
           dir "var" [dir "empty2" [file "y" perm644]]])
    linterNames = Return None.
Proof. vm_compute. split; reflexivity. Qed.

(** A failure of [Info] is reported as a failure of [setuidgid], with
    the cause wrapped; a failure of [ReadDir] is reported as a traversal
    error at the directory, after the linters passed on the directory
    itself. *)
Example operational_failures :
  lintPackageFs (sampleCtx "hello") vanishedFS ["setuidgid"] =
  Return (Some (failedError "setuidgid" "gone"
                  (errorString "lstat gone: no such file or directory")
                  (hint "setuidgid"))) /\
  lintPackageFs (sampleCtx "hello") brokenDirFS linterNames =
  Return (Some (traverseError "etc" (errorString "readdir etc: input/output error"))).
Proof. vm_compute. split; reflexivity. Qed.
