(* ===== verification/Subtree.v ===== *)
(** * Removing entries, and the enforcer subtree by subtree

    Two laws of [lintPackageFs] over the shape of the tree.

    - [within n' n]: the tree [n'] is [n] with entries removed (whole
      subtrees, anywhere).  [keepOnly keep] removes the entries a
      predicate on path and entry rejects; it is the executable form.
      The calls of the walk of the smaller tree are a sublist of those of
      the larger ([withinFS_events]), hence a tree that passes still
      passes with entries removed, every failure of the smaller tree is a
      failure of a call on the larger, and the error of a failing tree
      stays the same as long as the call that failed is kept
      ([lintPackageFs_within], [lintPackageFs_culprit_kept]).
    - [lintNode] is the enforcer on one subtree.  The run on a tree ends as
      the first failure among the root and the runs on the subtrees of
      the root, each on its own ([lintPackageFs_by_subtrees]): the
      subtrees can be checked independently and the verdicts combined in
      the order of the listing. *)

From S2P Require Import Prelude Errors Regexp FS Linter Samples Enforce Order Paths.

(** ** Trees with entries removed *)

Inductive within : fsnode -> fsnode -> Prop :=
| within_node d dirs' dirs rderr :
    withins dirs' dirs -> within (FsNode d dirs' rderr) (FsNode d dirs rderr)
with withins : list fsnode -> list fsnode -> Prop :=
| withins_nil : withins [] []
| withins_keep n' n l' l : within n' n -> withins l' l -> withins (n' :: l') (n :: l)
| withins_drop n l' l : withins l' l -> withins l' (n :: l).

Scheme within_mut := Minimality for within Sort Prop
  with withins_mut := Minimality for withins Sort Prop.

(** The same root, with entries removed under it. *)
Definition withinFS (fsys' fsys : FS) : Prop :=
  statRoot fsys' = statRoot fsys /\ rootErr fsys' = rootErr fsys /\
  withins (rootDirs fsys') (rootDirs fsys).

(** The tree without the entries that [keep] rejects, and without what is
    under them. *)
Fixpoint keepOnlyNode (keep : string -> DirEntry -> bool) (name : string) (n : fsnode) :
    fsnode :=
  match n with
  | FsNode d dirs rderr =>
      FsNode d
        ((fix each (l : list fsnode) : list fsnode :=
            match l with
            | [] => []
            | d1 :: l' =>
                if keep (Join name (nodeName d1)) (nodeEntry d1)
                then keepOnlyNode keep (Join name (nodeName d1)) d1 :: each l'
                else each l'
            end) dirs)
        rderr
  end.

Fixpoint keepOnlyDirs (keep : string -> DirEntry -> bool) (name : string)
    (l : list fsnode) : list fsnode :=
  match l with
  | [] => []
  | d1 :: l' =>
      if keep (Join name (nodeName d1)) (nodeEntry d1)
      then keepOnlyNode keep (Join name (nodeName d1)) d1 :: keepOnlyDirs keep name l'
      else keepOnlyDirs keep name l'
  end.

Definition keepOnly (keep : string -> DirEntry -> bool) (fsys : FS) : FS :=
  {| statRoot := statRoot fsys;
     rootDirs := keepOnlyDirs keep "." (rootDirs fsys);
     rootErr := rootErr fsys |}.

(** [var] and what is under it, removed. *)
Definition withoutVar (path : string) (_ : DirEntry) : bool := negb (String.eqb path "var").

(** ** The enforcer on a subtree *)

Section Subtree.

Context {Configuration Checks : Type}.
Implicit Types (lctx : LinterContext Configuration Checks) (linters : list string)
  (fsys : FS) (n : fsnode).

(** The walk of the subtree [n], which stands at [name], with the closure
    of [lintPackageFs]. *)
Definition lintNode lctx linters (name : string) n : ret (option error) :=
  walkDir name n (walkCb lctx linters).

(** The outcomes of the parts of a run, in order: the linters on the root,
    the report of a failed listing of the root, the runs on the subtrees
    of the root. *)
Definition verdicts lctx fsys linters (info : FileInfo) : list (ret (option error)) :=
  lintLoop lctx "." (Some (FileInfoToDirEntry info)) linters ::
  (if hasMode (Mode info) ModeDir then
     match rootErr fsys with
     | Some err => [walkCb lctx linters "." (Some (FileInfoToDirEntry info)) (Some err)]
     | None => []
     end ++ map (fun n => lintNode lctx linters (Join "." (nodeName n)) n) (rootDirs fsys)
   else []).

(** The call at which the run stops, if it does. *)
Definition culprit lctx fsys linters : option call :=
  first_some (fun c => match apply (walkCb lctx linters) c with
                       | Some _ => Some c
                       | None => None
                       end)
    (events fsys ".").

(** ** Lemmas: removal *)

Lemma within_refl n : within n n.
Proof.
  induction n as [d dirs rderr IH] using fsnode_forall_ind. constructor.
  induction IH; by constructor.
Qed.

Lemma within_nodeName n' n : within n' n -> nodeName n' = nodeName n.
Proof. by destruct 1. Qed.

(** The walk of the smaller tree makes some of the calls of the walk of
    the larger, in the same order. *)
Lemma within_nodeEvents n' n :
  within n' n -> forall name, sublist (nodeEvents name n') (nodeEvents name n).
Proof.
  revert n' n.
  apply (within_mut
           (fun n' n => forall name, sublist (nodeEvents name n') (nodeEvents name n))
           (fun l' l => forall name, sublist (dirsEvents name l') (dirsEvents name l))).
  - intros d dirs' dirs rderr _ IH name. rewrite !nodeEvents_unfold.
    constructor. destruct (IsDir d); [| done]. by apply sublist_app.
  - done.
  - intros n' n l' l Hn IHn _ IHl name. cbn [dirsEvents].
    rewrite (within_nodeName _ _ Hn). by apply sublist_app.
  - intros n l' l _ IH name. cbn [dirsEvents]. by apply sublist_inserts_l.
Qed.

Lemma withinFS_events fsys' fsys root :
  withinFS fsys' fsys -> sublist (events fsys' root) (events fsys root).
Proof.
  intros (Hs & He & Hd). unfold events. rewrite Hs.
  destruct (statRoot fsys) as [info|err]; [| done].
  apply within_nodeEvents. unfold rootNode. rewrite He. by constructor.
Qed.

Lemma keepOnlyNode_unfold keep name d dirs rderr :
  keepOnlyNode keep name (FsNode d dirs rderr) =
  FsNode d (keepOnlyDirs keep name dirs) rderr.
Proof.
  cbn [keepOnlyNode]. f_equal.
  induction dirs as [|d1 l IH]; cbn [keepOnlyDirs]; [done |]. by rewrite IH.
Qed.

Lemma keepOnlyNode_within keep n : forall name, within (keepOnlyNode keep name n) n.
Proof.
  induction n as [d dirs rderr IH] using fsnode_forall_ind; intros name.
  rewrite keepOnlyNode_unfold. constructor.
  induction IH as [|d1 l H1 _ IHl]; cbn [keepOnlyDirs]; [constructor |].
  case_match; by constructor.
Qed.

Lemma keepOnly_within keep fsys : withinFS (keepOnly keep fsys) fsys.
Proof.
  split_and!; [done.. |]. cbn [keepOnly rootDirs].
  induction (rootDirs fsys) as [|d1 l IH]; cbn [keepOnlyDirs]; [constructor |].
  case_match; constructor; auto using keepOnlyNode_within.
Qed.

(** ** Lemmas: subtrees *)

(** The calls under a listing end as the first walk of a subtree that
    does not return [nil]. *)
Lemma dirsEvents_by_subtrees (fn : WalkDirFunc) `{!NeverSkips fn} name l :
  first_some (apply fn) (dirsEvents name l) =
  first_some stopOf (map (fun n => walkDir (Join name (nodeName n)) n fn) l).
Proof.
  induction l as [|d1 l IH]; cbn [dirsEvents map first_some]; [done |].
  by rewrite first_some_app, IH, (walkDir_first_some fn), stopOf_retOf.
Qed.

(** The one fold stops where the other does. *)
Lemma culprit_before lctx linters (l : list call) :
  first_some (fun c => match apply (walkCb lctx linters) c with
                       | Some _ => Some c
                       | None => None
                       end) l = None <->
  first_some (apply (walkCb lctx linters)) l = None.
Proof.
  rewrite !first_some_None. apply Forall_iff. intros c.
  by destruct (apply _ c).
Qed.

(** The run stops at the culprit, with what [walkCb] returned on it. *)
Lemma culprit_spec lctx fsys linters c :
  culprit lctx fsys linters = Some c <->
  exists before after,
    events fsys "." = before ++ c :: after /\
    first_some (apply (walkCb lctx linters)) before = None /\
    apply (walkCb lctx linters) c <> None.
Proof.
  unfold culprit. rewrite first_some_Some. split.
  - intros (l1 & x & l2 & -> & H1%culprit_before & Hx). exists l1, l2.
    destruct (apply _ x) eqn:E; simplify_eq. split_and!; [done.. | congruence].
  - intros (l1 & l2 & -> & H1%culprit_before & Hx). exists l1, c, l2.
    split_and!; [done.. |]. by destruct (apply _ c).
Qed.

Lemma lintPackageFs_culprit lctx fsys linters c :
  culprit lctx fsys linters = Some c ->
  lintPackageFs lctx fsys linters = retOf (apply (walkCb lctx linters) c).
Proof.
  intros (l1 & l2 & E & H1 & Hc)%culprit_spec.
  rewrite lintPackageFs_events, E, first_some_app, H1. cbn [first_some].
  by destruct (apply _ c).
Qed.

(** ** Theorems *)

(** C14. Removing entries from a tree that passes gives a tree that
    passes, whatever is removed and whatever the linters; and a failure
    of the smaller tree is what [walkCb] returns on a call the walk of the
    larger tree makes too: removal never creates a violation. *)
Theorem lintPackageFs_within lctx fsys' fsys linters :
  withinFS fsys' fsys ->
  (lintPackageFs lctx fsys linters = Return None ->
   lintPackageFs lctx fsys' linters = Return None) /\
  (forall e, lintPackageFs lctx fsys' linters = Return (Some e) ->
     exists c, In c (events fsys ".") /\
               apply (walkCb lctx linters) c = Some (Failed e)).
Proof.
  intros Hs%(withinFS_events _ _ "."). rewrite !lintPackageFs_events. split.
  - rewrite !retOf_None. by apply first_some_sublist_None.
  - intros e (c & Hc & He)%retOf_Some%first_some_In. exists c. split; [| done].
    apply list_elem_of_In. eapply elem_of_sublist; [| done]. by apply list_elem_of_In.
Qed.

(** C15. The error of a failing run does not depend on the entries other
    than the one it stopped at: on a tree with sorted listings and valid
    names, when entries are removed and the call the run stopped at is
    still made, the run on the smaller tree stops at the same call and
    returns the same error. *)
Theorem lintPackageFs_culprit_kept lctx fsys' fsys linters c :
  sortedFS fsys = true -> validFS fsys = true -> withinFS fsys' fsys ->
  culprit lctx fsys linters = Some c -> In c (events fsys' ".") ->
  culprit lctx fsys' linters = Some c /\
  lintPackageFs lctx fsys' linters = lintPackageFs lctx fsys linters.
Proof.
  intros Hs Hv Hw Hc Hin.
  assert (culprit lctx fsys' linters = Some c) as Hc'.
  { apply culprit_spec in Hc as (l1 & l2 & E & H1 & Hx).
    pose proof (events_NoDup_valid _ Hs Hv) as Hn.
    pose proof (withinFS_events _ _ "." Hw) as Hsub. rewrite E in Hn, Hsub.
    apply (first_some_sublist_Some _ _ l1 l2 c);
      [done.. | by apply list_elem_of_In | by apply culprit_before
      | by destruct (apply _ c)]. }
  split; [done |].
  by rewrite (lintPackageFs_culprit _ _ _ _ Hc'), (lintPackageFs_culprit _ _ _ _ Hc).
Qed.

(** C17. The run on a tree is the runs on its parts, combined: it ends as
    the first of the outcomes of [verdicts] that is not [nil], which are
    the linters on the root, the report of a failed listing of the root,
    and the run on each subtree of the root taken on its own, in the
    order of the listing.  The subtrees can be checked independently. *)
Theorem lintPackageFs_by_subtrees lctx fsys linters info :
  statRoot fsys = Ok info ->
  lintPackageFs lctx fsys linters =
  retOf (first_some stopOf (verdicts lctx fsys linters info)).
Proof.
  intros Hs. rewrite lintPackageFs_events. f_equal. unfold events, verdicts, rootNode.
  rewrite Hs, nodeEvents_unfold, IsDir_FileInfoToDirEntry. cbn [first_some apply walkCb].
  destruct (stopOf (lintLoop _ _ _ _)); [done |].
  destruct (hasMode _ _); [| done].
  rewrite !first_some_app, (dirsEvents_by_subtrees _). by destruct (rootErr fsys).
Qed.

End Subtree.

Lemma lintPackageFs_within_witness :
  (lintPackageFs (sampleCtx "hello") emptyDirsFS linterNames = Return None ->
   lintPackageFs (sampleCtx "hello") (keepOnly withoutVar emptyDirsFS) linterNames =
   Return None) /\
  (forall e,
     lintPackageFs (sampleCtx "hello") (keepOnly withoutVar emptyDirsFS) linterNames =
     Return (Some e) ->
     exists c, In c (events emptyDirsFS ".") /\
               apply (walkCb (sampleCtx "hello") linterNames) c = Some (Failed e)).
Proof. apply lintPackageFs_within, keepOnly_within. Defined.

Lemma lintPackageFs_culprit_kept_witness :
  culprit (sampleCtx "hello") (keepOnly withoutVar twoViolationsFS) linterNames =
  Some ("tmp/x", Some (mkEntry "x" perm644), None) /\
  lintPackageFs (sampleCtx "hello") (keepOnly withoutVar twoViolationsFS) linterNames =
  lintPackageFs (sampleCtx "hello") twoViolationsFS linterNames.
Proof.
  apply lintPackageFs_culprit_kept;
    [reflexivity | reflexivity | apply keepOnly_within | reflexivity
    | vm_compute; tauto].
Defined.

Lemma lintPackageFs_by_subtrees_witness :
  lintPackageFs (sampleCtx "hello") twoViolationsFS linterNames =
  retOf (first_some stopOf
           (verdicts (sampleCtx "hello") twoViolationsFS linterNames
              (mkInfo "." (Z.lor ModeDir perm755)))).
Proof. apply lintPackageFs_by_subtrees. reflexivity. Defined.
