(* ===== verification/Messages.v ===== *)
(** * Reading a failure back from its message

    The caller of [lintPackageFs] gets one error and shows its text.  The
    text of a failure of the loop of [walkCb] is built by the two
    [fmt.Errorf] calls of the loop from the name of the linter, the path,
    the message of the cause and the hint of the registry.  This file
    shows that the text is enough: when the metadata of the entries could
    be read, two failures of the loop with the same text are the same
    failure, with the same kind, linter, path and cause
    ([message_determines_failure]).  The proof rests on the names and the
    hints of the registry and on the messages of the four linters
    ([violations]).  The examples after it show where the text alone does
    not tell the parts apart: the path of a traversal error is not
    quoted, and the cause of a failed [Info] is any text. *)

From stdpp Require Import gmap.
From S2P Require Import Prelude Errors Regexp FS Linter Samples Enforce Taxonomy Modes.

(** The violations the linters of the registry report: the name of the
    linter with the message of the error it returns. *)
Definition violations : list (string * string) :=
  [("setuidgid", "File is setuid");
   ("setuidgid", "File is setgid");
   ("tempdir", "Package writes to a temp dir");
   ("usrlocal", "/usr/local path found in non-compat package");
   ("varempty", "Package writes to /var/empty")].

(** The text of an unknown-linter error and of a failed-linter error. *)
Definition unknownText (n : string) : string := "Linter " +:+ n +:+ " is unknown".

Definition failedText (n path cause : string) : string :=
  "Linter " +:+ n +:+ " failed at path " +:+ dquote +:+ path +:+ dquote
    +:+ ": " +:+ cause +:+ "; suggest: " +:+ hint n.

(** The file [tmp/x] alone. *)
Definition tmpFileFS : FS := mkFS [dir "tmp" [file "x" perm644]].

(** A directory [name] whose listing fails with the message [msg]. *)
Definition unlistableFS (name msg : string) : FS :=
  mkFS [FsNode (mkEntry name (Z.lor ModeDir perm755)) [] (Some (errorString msg))].

Section Messages.

Context {Configuration Checks : Type}.
Implicit Types (lctx : LinterContext Configuration Checks) (path n : string)
  (e : DirEntry) (r : reason).

(** ** Lemmas *)

(** A turn of the loop on an entry whose metadata can be read fails for an
    unknown name or with one of the violations. *)
Lemma reasonOne_cases lctx path e info n r :
  Info e = Ok info -> reasonOne lctx path (Some e) n = Some r ->
  r = UnknownLinter n \/
  exists c, r = LinterFailed n path (errorString c) /\ In (n, c) violations.
Proof.
  intros Hi. unfold reasonOne. rewrite Linters_lookup.
  repeat case_decide; subst;
    cbn [LinterFunc_];
    unfold isSetUidOrGidLinter, tempDirLinter, usrLocalLinter, varEmptyLinter;
    rewrite ?Hi; repeat case_match; intros; simplify_eq; auto; right;
    eexists; (split; [reflexivity |]); cbn; tauto.
Qed.

Lemma Error_unknown n : Error (errorOf (UnknownLinter n)) = unknownText n.
Proof. reflexivity. Qed.

Lemma Error_failed n path c :
  Error (errorOf (LinterFailed n path (errorString c))) = failedText n path c.
Proof. reflexivity. Qed.

Lemma unknownText_inj n1 n2 : unknownText n1 = unknownText n2 -> n1 = n2.
Proof.
  unfold unknownText. intros H%string_app_inv_head.
  by apply string_app_inj_tail in H as [-> _].
Qed.

(** No hint of the registry ends the way an unknown-linter error does. *)
Lemma hint_not_unknown n c :
  In (n, c) violations ->
  HasSuffix (hint n) " is unknown" = false /\
  (String.length " is unknown" <= String.length (hint n))%nat.
Proof.
  unfold violations. intros Hin.
  repeat (destruct Hin as [[= <- <-]|Hin]; [split; [by vm_compute | vm_compute; lia] |]).
  destruct Hin.
Qed.

Lemma unknownText_failedText n1 n2 path c :
  In (n2, c) violations -> unknownText n1 <> failedText n2 path c.
Proof.
  intros [Hs Hl]%hint_not_unknown H. unfold unknownText, failedText in H.
  rewrite <- !string_app_assoc in H.
  symmetry in H. apply string_app_eq_suffix in H as (u & _ & Hu); [| exact Hl].
  assert (HasSuffix (hint n2) " is unknown" = true) by (apply HasSuffix_spec; eauto).
  congruence.
Qed.

Lemma failedText_inj n1 n2 p1 p2 c1 c2 :
  In (n1, c1) violations -> In (n2, c2) violations ->
  failedText n1 p1 c1 = failedText n2 p2 c2 -> n1 = n2 /\ p1 = p2 /\ c1 = c2.
Proof.
  unfold violations, failedText. cbn [In]. intros H1 H2 H.
  destruct_or! H1; destruct_or! H2; simplify_eq; try done;
    repeat (apply string_app_inv_head in H);
    first [ by rewrite !string_app_cons in H
          | apply string_app_inj_tail in H as [-> H]; [| by vm_compute];
            first [done | by vm_compute in H] ].
Qed.

(** Two failures of a turn of the loop with the same text are the same. *)
Lemma reasonOne_message_inj lctx1 lctx2 p1 p2 e1 e2 i1 i2 n1 n2 r1 r2 :
  Info e1 = Ok i1 -> Info e2 = Ok i2 ->
  reasonOne lctx1 p1 (Some e1) n1 = Some r1 ->
  reasonOne lctx2 p2 (Some e2) n2 = Some r2 ->
  Error (errorOf r1) = Error (errorOf r2) -> r1 = r2.
Proof.
  intros Hi1 Hi2 H1 H2.
  destruct (reasonOne_cases _ _ _ _ _ _ Hi1 H1) as [->|(c1 & -> & Hc1)],
    (reasonOne_cases _ _ _ _ _ _ Hi2 H2) as [->|(c2 & -> & Hc2)];
    rewrite ?Error_unknown, ?Error_failed.
  - by intros ->%unknownText_inj.
  - by intros ?%unknownText_failedText.
  - intros H. symmetry in H. by apply unknownText_failedText in H.
  - by intros (-> & -> & ->)%failedText_inj.
Qed.

(** On a tree that is read without error, a diagnosis is the failure of a
    turn of the loop on an entry whose metadata was read. *)
Lemma diagnose_reasonOne lctx fsys linters r :
  readableFS fsys = true -> statableFS fsys = true ->
  diagnose lctx fsys linters = Some r ->
  exists path e info n,
    Info e = Ok info /\ reasonOne lctx path (Some e) n = Some r.
Proof.
  intros Hr Hs (c & Hin & Hc)%first_some_In.
  pose proof Hin as Hin'. rewrite (readable_events _ _ Hr) in Hin'.
  apply in_map_iff in Hin' as ([path e] & <- & _).
  destruct (statableFS_Info _ _ _ _ Hs Hin) as [info Hi].
  apply first_some_In in Hc as (n & _ & Hn). by exists path, e, info, n.
Qed.

(** ** Theorems *)

(** C16. The text of the error tells the failure.  When two runs, on trees
    that were read without error, fail with errors of the same text, the
    two runs failed for the same reason: both met the same unknown name,
    or the same linter failed in both at the same path with the same
    cause; and the two errors are equal. *)
Theorem message_determines_failure lctx1 lctx2 fsys1 fsys2 linters1 linters2 err1 err2 :
  readableFS fsys1 = true -> statableFS fsys1 = true ->
  readableFS fsys2 = true -> statableFS fsys2 = true ->
  lintPackageFs lctx1 fsys1 linters1 = Return (Some err1) ->
  lintPackageFs lctx2 fsys2 linters2 = Return (Some err2) ->
  Error err1 = Error err2 ->
  diagnose lctx1 fsys1 linters1 = diagnose lctx2 fsys2 linters2 /\ err1 = err2.
Proof.
  intros Hr1 Hs1 Hr2 Hs2. rewrite !lintPackageFs_diagnose.
  destruct (diagnose lctx1 fsys1 linters1) as [r1|] eqn:E1; [| done].
  destruct (diagnose lctx2 fsys2 linters2) as [r2|] eqn:E2; [| done].
  intros [= <-] [= <-] H.
  destruct (diagnose_reasonOne _ _ _ _ Hr1 Hs1 E1) as (p1 & e1 & i1 & n1 & Hi1 & H1).
  destruct (diagnose_reasonOne _ _ _ _ Hr2 Hs2 E2) as (p2 & e2 & i2 & n2 & Hi2 & H2).
  by rewrite (reasonOne_message_inj _ _ _ _ _ _ _ _ _ _ _ _ Hi1 Hi2 H1 H2 H).
Qed.

End Messages.

Lemma message_determines_failure_witness :
  diagnose (sampleCtx "hello") twoViolationsFS linterNames =
  diagnose (sampleCtx "other") tmpFileFS ["tempdir"] /\
  failedError "tempdir" "tmp/x" (errorString "Package writes to a temp dir")
    "Remove any offending files in temporary dirs in the pipeline" =
  failedError "tempdir" "tmp/x" (errorString "Package writes to a temp dir")
    "Remove any offending files in temporary dirs in the pipeline".
Proof.
  apply (message_determines_failure (sampleCtx "hello") (sampleCtx "other")
           twoViolationsFS tmpFileFS linterNames ["tempdir"]);
    by vm_compute.
Defined.

(** The text of a traversal error does not always tell the path from the
    cause: a directory [a] whose listing fails with [b: c] and a
    directory [a: b] whose listing fails with [c] give the same text. *)
Example traversal_text_ambiguous :
  exists e1 e2,
    lintPackageFs (sampleCtx "hello") (unlistableFS "a" "b: c") [] = Return (Some e1) /\
    lintPackageFs (sampleCtx "hello") (unlistableFS "a: b" "c") [] = Return (Some e2) /\
    Error e1 = Error e2 /\
    diagnose (sampleCtx "hello") (unlistableFS "a" "b: c") [] <>
    diagnose (sampleCtx "hello") (unlistableFS "a: b" "c") [].
Proof. do 2 eexists. split_and!; [by vm_compute.. | by vm_compute]. Qed.

(** Nor does the text of a linter failure when the cause is the error of
    a failed [Info], which can be any text. *)
Example info_text_ambiguous :
  Error (errorOf (LinterFailed "setuidgid" "a" (errorString ("b" +:+ dquote +:+ ": c")))) =
  Error (errorOf (LinterFailed "setuidgid" ("a" +:+ dquote +:+ ": b") (errorString "c"))).
Proof. reflexivity. Qed.
