(* ===== verification/Skips.v ===== *)
(** * Walks that skip: [SkipDir] and [SkipAll] in full

    [FS] gives the walk of a function that never returns [fs.SkipDir] as
    the first failure over the calls [events].  This file gives the walk
    of any function.  A function that returns [SkipDir] prunes the tree:
    on a directory, what is under it is left out; on the report of a
    failed listing, likewise; on a file, the rest of the listing it stands
    in is left out.  [prune fn root fsys] is the tree with those parts
    removed and [heeded fn] is [fn] with the answer [SkipDir] turned into
    [nil].  The walk of [fn] on the tree ends as the walk of [heeded fn]
    on the pruned tree ([WalkDir_prune]), which is the first call over
    the calls of the pruned tree that does not return [nil], with
    [SkipAll] ending the walk without error ([WalkDir_skipping]); the
    calls of the pruned tree are calls of the tree, in the same order
    ([prune_events]).  The same holds of the walk of a function with a
    state whose answers do not depend on the state ([WalkDirS_skipping]);
    with the list of the calls as the state, the calls the walk makes
    are those of the pruned tree up to the first that stops it
    ([callsOf_prune]).  The closure of [lintPackageFs] prunes nothing
    ([walkCb_prunes_nothing]). *)

From S2P Require Import Prelude Errors Regexp FS Linter Samples Enforce Stateful.

(** ** Pruning *)

(** The call returns [SkipDir] itself. *)
Definition asksSkipDir (fn : WalkDirFunc) (name : string) (d : option DirEntry)
    (err : option error) : bool :=
  match fn name d err with
  | Return (Some e) => isSkipDir e
  | _ => false
  end.

(** [fn], with the answer [SkipDir] turned into [nil]. *)
Definition heeded (fn : WalkDirFunc) : WalkDirFunc :=
  fun name d err => if asksSkipDir fn name d err then Return None else fn name d err.

(** A file on which [fn] returns [SkipDir] ends the listing it stands in. *)
Definition endsListing (fn : WalkDirFunc) (name : string) (n : fsnode) : bool :=
  negb (IsDir (nodeEntry n)) && asksSkipDir fn name (Some (nodeEntry n)) None.

(** The listing of a directory is left out when [fn] returns [SkipDir] on
    the report of its failure. *)
Definition skipsReport (fn : WalkDirFunc) (name : string) (d : DirEntry)
    (rderr : option error) : bool :=
  match rderr with
  | Some err => asksSkipDir fn name (Some d) (Some err)
  | None => false
  end.

Fixpoint pruneNode (fn : WalkDirFunc) (name : string) (n : fsnode) : fsnode :=
  match n with
  | FsNode d dirs rderr =>
      if negb (IsDir d) then n
      else if asksSkipDir fn name (Some d) None then FsNode d [] None
      else if skipsReport fn name d rderr then FsNode d [] rderr
      else
        FsNode d
          ((fix each (l : list fsnode) : list fsnode :=
              match l with
              | [] => []
              | d1 :: l' =>
                  pruneNode fn (Join name (nodeName d1)) d1 ::
                  (if endsListing fn (Join name (nodeName d1)) d1 then [] else each l')
              end) dirs)
          rderr
  end.

Fixpoint pruneDirs (fn : WalkDirFunc) (name : string) (l : list fsnode) : list fsnode :=
  match l with
  | [] => []
  | d1 :: l' =>
      pruneNode fn (Join name (nodeName d1)) d1 ::
      (if endsListing fn (Join name (nodeName d1)) d1 then [] else pruneDirs fn name l')
  end.

Definition nodeErr (n : fsnode) : option error := let 'FsNode _ _ r := n in r.

Definition prune (fn : WalkDirFunc) (root : string) (fsys : FS) : FS :=
  match statRoot fsys with
  | Err _ => fsys
  | Ok info =>
      {| statRoot := statRoot fsys;
         rootDirs := nodeDirs (pruneNode fn root (rootNode fsys info));
         rootErr := nodeErr (pruneNode fn root (rootNode fsys info)) |}
  end.

(** A result of [walkDir], with [SkipDir] on a file turned into [nil]. *)
Definition unskip (r : ret (option error)) : ret (option error) :=
  match r with
  | Return (Some e) => if isSkipDir e then Return None else r
  | _ => r
  end.

(** A function with a state, with the answer [SkipDir] turned into
    [nil]. *)
Definition heededS {S : Type} (fnS : @WalkDirFuncS S) : @WalkDirFuncS S :=
  fun name d err s => let '(s1, r) := fnS name d err s in (s1, unskip r).

(** [fn] with the list of the calls made to it as its state. *)
Definition logging (fn : WalkDirFunc) : @WalkDirFuncS (list call) :=
  fun name d err log => (log ++ [(name, d, err)], fn name d err).

(** The calls the walk makes to [fn]. *)
Definition callsOf (fn : WalkDirFunc) (fsys : FS) (root : string) : list call :=
  fst (WalkDirS fsys root (logging fn) []).

(** The calls of a list up to the first on which [fn] returns an error
    or panics, that call included. *)
Fixpoint upTo (fn : WalkDirFunc) (l : list call) : list call :=
  match l with
  | [] => []
  | c :: l' => c :: match apply fn c with
                    | None => upTo fn l'
                    | Some _ => []
                    end
  end.

(** A walk function that returns [SkipDir] at the paths [dirs] and
    [SkipAll] at the path [stop], for the examples. *)
Definition skipping (dirs : list string) (stop : string) : WalkDirFunc :=
  fun name _ _ =>
    if bool_decide (name = stop) then Return (Some SkipAll)
    else if bool_decide (name ∈ dirs) then Return (Some SkipDir)
    else Return None.

(** ** Lemmas *)

Section Skips.

Context (fn : WalkDirFunc).

#[export] Instance heeded_NeverSkipsDir : NeverSkipsDir (heeded fn).
Proof.
  intros name d err e. unfold heeded, asksSkipDir.
  destruct (fn name d err) as [[e'|]|]; [| done..].
  destruct (isSkipDir e') eqn:E; [done |]. by intros [= <-].
Qed.

Lemma pruneNode_unfold name d dirs rderr :
  pruneNode fn name (FsNode d dirs rderr) =
  if negb (IsDir d) then FsNode d dirs rderr
  else if asksSkipDir fn name (Some d) None then FsNode d [] None
  else if skipsReport fn name d rderr then FsNode d [] rderr
  else FsNode d (pruneDirs fn name dirs) rderr.
Proof.
  cbn [pruneNode]. repeat case_match; try done. f_equal.
  induction dirs as [|d1 l IH]; cbn [pruneDirs]; [done |]. by rewrite IH.
Qed.

Lemma pruneNode_entry name n : nodeEntry (pruneNode fn name n) = nodeEntry n.
Proof. destruct n as [d dirs rderr]. rewrite pruneNode_unfold. by repeat case_match. Qed.

Lemma pruneNode_name name n : nodeName (pruneNode fn name n) = nodeName n.
Proof. unfold nodeName. by rewrite pruneNode_entry. Qed.

(** The loop over a listing never returns [SkipDir]. *)
Lemma walkDirs_not_SkipDir (g : WalkDirFunc) name l e :
  walkDirs name l g = Return (Some e) -> isSkipDir e = false.
Proof.
  induction l as [|d1 l IH]; cbn [walkDirs]; [done |].
  destruct (walkDir _ d1 g) as [[e'|]|]; [| done..].
  destruct (isSkipDir e') eqn:E; [done |]. by intros [= <-].
Qed.

(** [walkDir] returns [SkipDir] exactly on a file on which the function
    returns it. *)
Lemma endsListing_spec name n :
  endsListing fn name n =
  match walkDir name n fn with
  | Return (Some e) => isSkipDir e
  | _ => false
  end.
Proof.
  destruct n as [d dirs rderr]. rewrite walkDir_unfold.
  unfold endsListing, asksSkipDir, skipped. cbn [nodeEntry].
  destruct (fn name (Some d) None) as [[e|]|];
    [by destruct (isSkipDir e) eqn:E, (IsDir d); cbn; rewrite ?E | | by rewrite andb_false_r].
  rewrite andb_false_r. destruct (IsDir d); [cbn [negb] | done].
  destruct rderr as [err|]; [destruct (fn name (Some d) (Some err)) as [[e|]|] |]; try done.
  - by destruct (isSkipDir e) eqn:E; cbn; rewrite ?E.
  - destruct (walkDirs name dirs fn) as [[e|]|] eqn:E; [| done..].
    symmetry. by apply (walkDirs_not_SkipDir _ _ _ _ E).
  - destruct (walkDirs name dirs fn) as [[e|]|] eqn:E; [| done..].
    symmetry. by apply (walkDirs_not_SkipDir _ _ _ _ E).
Qed.

Lemma unskip_walkDirs (g : WalkDirFunc) name l : unskip (walkDirs name l g) = walkDirs name l g.
Proof.
  destruct (walkDirs name l g) as [[e|]|] eqn:E; [| done..].
  cbn. by rewrite (walkDirs_not_SkipDir _ _ _ _ E).
Qed.

Lemma heeded_unskip name d err : heeded fn name d err = unskip (fn name d err).
Proof. unfold heeded, asksSkipDir, unskip. by destruct (fn name d err) as [[e|]|]. Qed.

Lemma walkDirs_pruneDirs name l :
  Forall (fun n => forall name,
            walkDir name (pruneNode fn name n) (heeded fn) = unskip (walkDir name n fn)) l ->
  walkDirs name (pruneDirs fn name l) (heeded fn) = walkDirs name l fn.
Proof.
  induction 1 as [|d1 l H1 _ IH]; cbn [pruneDirs walkDirs]; [done |].
  rewrite pruneNode_name, H1, endsListing_spec.
  destruct (walkDir (Join name (nodeName d1)) d1 fn) as [[e|]|]; cbn [unskip]; [| done..].
  destruct (isSkipDir e) eqn:E; [done | by rewrite E].
Qed.

(** The walk of the pruned node with [heeded fn] ends as the walk of the
    node with [fn].  The proof follows the branches of [walkDir]: whether
    the entry is a directory, what [fn] returns on the entry and whether
    it is [SkipDir], and the same for the report of a failed listing. *)
Lemma walkDir_pruneNode n : forall name,
  walkDir name (pruneNode fn name n) (heeded fn) = unskip (walkDir name n fn).
Proof.
  induction n as [d dirs rderr IH] using fsnode_forall_ind; intros name.
  rewrite pruneNode_unfold, (walkDir_unfold name d dirs rderr fn).
  unfold asksSkipDir, skipsReport.
  destruct (IsDir d) eqn:Ed; cbn [negb];
    (destruct (fn name (Some d) None) as [[e|]|] eqn:E0; [destruct (isSkipDir e) eqn:E | ..]);
    try (destruct rderr as [err|];
         [unfold asksSkipDir;
          destruct (fn name (Some d) (Some err)) as [[e1|]|] eqn:E1;
          [destruct (isSkipDir e1) eqn:E' | ..] |]);
    rewrite walkDir_unfold, !heeded_unskip, ?E0, ?E1; cbn [unskip]; unfold skipped;
    rewrite ?E, ?E', ?Ed; cbn; rewrite ?E, ?E', ?unskip_walkDirs, ?(walkDirs_pruneDirs _ _ IH);
    done.
Qed.

(** *** The pruned tree *)

Lemma statRoot_prune root fsys : statRoot (prune fn root fsys) = statRoot fsys.
Proof. unfold prune. by destruct (statRoot fsys) eqn:E. Qed.

Lemma rootNode_prune root fsys info :
  statRoot fsys = Ok info ->
  rootNode (prune fn root fsys) info = pruneNode fn root (rootNode fsys info).
Proof.
  intros Hs. unfold prune, rootNode. rewrite Hs. cbn [rootDirs rootErr].
  rewrite pruneNode_unfold. by repeat case_match.
Qed.

Lemma pruneDirs_events name l :
  Forall (fun n => forall name,
            sublist (nodeEvents name (pruneNode fn name n)) (nodeEvents name n)) l ->
  sublist (dirsEvents name (pruneDirs fn name l)) (dirsEvents name l).
Proof.
  induction 1 as [|d1 l H1 _ IH]; cbn [pruneDirs dirsEvents]; [done |].
  rewrite pruneNode_name. apply sublist_app; [apply H1 |].
  case_match; [apply sublist_nil_l | exact IH].
Qed.

Lemma pruneNode_events n : forall name,
  sublist (nodeEvents name (pruneNode fn name n)) (nodeEvents name n).
Proof.
  induction n as [d dirs rderr IH] using fsnode_forall_ind; intros name.
  rewrite pruneNode_unfold. repeat case_match; rewrite ?nodeEvents_unfold; [done | ..];
    constructor; (case_match; [| done]).
  - apply sublist_nil_l.
  - apply sublist_app; [done | apply sublist_nil_l].
  - apply sublist_app; [done | by apply pruneDirs_events].
Qed.

(** *** A function that never returns [SkipDir] prunes nothing *)

Lemma pruneNode_full `{!NeverSkipsDir fn} n : forall name, pruneNode fn name n = n.
Proof.
  assert (forall name d err, asksSkipDir fn name d err = false) as Ha.
  { intros name d err. unfold asksSkipDir.
    destruct (fn name d err) as [[e|]|] eqn:E; [| done..]. exact (never_skips_dir _ _ _ _ E). }
  induction n as [d dirs rderr IH] using fsnode_forall_ind; intros name.
  rewrite pruneNode_unfold. unfold skipsReport. rewrite Ha.
  destruct (negb (IsDir d)); [done |].
  replace (pruneDirs fn name dirs) with dirs; [by destruct rderr; rewrite ?Ha |].
  induction IH as [|d1 l H1 _ IHl]; cbn [pruneDirs]; [done |].
  unfold endsListing. by rewrite H1, Ha, andb_false_r, <- IHl.
Qed.

Lemma prune_full `{!NeverSkipsDir fn} root fsys : prune fn root fsys = fsys.
Proof.
  unfold prune. destruct fsys as [[info|err] dirs rderr]; cbn [statRoot]; [| done].
  by rewrite pruneNode_full.
Qed.

(** ** Theorems *)

(** The walk of [fn] ends as the walk of [heeded fn] on the pruned tree. *)
Theorem WalkDir_prune fsys root :
  WalkDir (prune fn root fsys) root (heeded fn) = WalkDir fsys root fn.
Proof.
  unfold WalkDir. rewrite statRoot_prune. destruct (statRoot fsys) as [info|err] eqn:Hs.
  - rewrite (rootNode_prune _ _ _ Hs), walkDir_pruneNode.
    destruct (walkDir root (rootNode fsys info) fn) as [[e|]|]; [| done..]. by destruct e.
  - rewrite heeded_unskip. destruct (fn root None (Some err)) as [[e|]|]; [| done..].
    by destruct e.
Qed.

(** The walk of any function: it ends at the first call, over the calls
    of the pruned tree, on which the function returns neither [nil] nor
    [SkipDir]; it returns the error of that call, and [nil] when the
    error is [SkipAll] or there is no such call. *)
Theorem WalkDir_skipping fsys root :
  WalkDir fsys root fn =
  match retOf (first_some (apply (heeded fn)) (events (prune fn root fsys) root)) with
  | Return (Some e) => Return (if isSkip e then None else Some e)
  | r => r
  end.
Proof. rewrite <- WalkDir_prune. apply (WalkDir_first_stop (heeded fn)). Qed.

(** The calls of the walk of the pruned tree are calls of the walk of the
    tree, in the same order. *)
Theorem prune_events fsys root :
  sublist (events (prune fn root fsys) root) (events fsys root).
Proof.
  unfold events. rewrite statRoot_prune. destruct (statRoot fsys) as [info|err] eqn:Hs; [| done].
  rewrite (rootNode_prune _ _ _ Hs). apply pruneNode_events.
Qed.

End Skips.

(** ** The calls of a walk that skips *)

Section SkipsS.

Context {S : Type} (fnS : @WalkDirFuncS S) (fn : WalkDirFunc) (Hfn : erases fnS fn).

#[export] Instance heededS_NeverSkipsDirS : NeverSkipsDirS (heededS fnS).
Proof.
  intros name d err s s' e. unfold heededS.
  destruct (fnS name d err s) as [s1 [[e'|]|]]; cbn [unskip]; [| done..].
  destruct (isSkipDir e') eqn:E; [done |]. by intros [= <- <-].
Qed.

(** The result of a call of [fnS] is that of [fn]. *)
Lemma erases_eq name d err s : fnS name d err s = ((fnS name d err s).1, fn name d err).
Proof. rewrite <- (Hfn name d err s). by destruct (fnS name d err s). Qed.

Lemma heededS_eq name d err s :
  heededS fnS name d err s = ((fnS name d err s).1, unskip (fn name d err)).
Proof. unfold heededS. rewrite <- (Hfn name d err s). by destruct (fnS name d err s). Qed.

Lemma walkDirsS_pruneDirs name l :
  Forall (fun n => forall name s,
            walkDirS name (pruneNode fn name n) (heededS fnS) s =
            ((walkDirS name n fnS s).1, unskip (walkDir name n fn))) l ->
  forall s, walkDirsS name (pruneDirs fn name l) (heededS fnS) s = walkDirsS name l fnS s.
Proof.
  induction 1 as [|d1 l H1 _ IH]; intros s; cbn [pruneDirs walkDirsS]; [done |].
  unfold orElse. rewrite pruneNode_name, H1, endsListing_spec.
  pose proof (walkDirS_erase _ _ Hfn d1 (Join name (nodeName d1)) s) as He.
  destruct (walkDirS _ d1 fnS s) as [s1 r]. cbn [fst snd] in He |- *. subst r.
  destruct (walkDir _ d1 fn) as [[e|]|]; cbn [unskip]; [| apply IH | done].
  unfold skipDir. destruct (isSkipDir e) eqn:E; [done | by rewrite E].
Qed.

Lemma walkDirsS_eq name l s :
  walkDirsS name l fnS s = ((walkDirsS name l fnS s).1, unskip (walkDirs name l fn)).
Proof.
  rewrite unskip_walkDirs, <- (walkDirsS_erase fnS fn name l) with (s := s);
    [by destruct (walkDirsS name l fnS s) |].
  apply Forall_forall. intros n _ name' s'. by apply walkDirS_erase.
Qed.

(** The walk of the pruned node with [heededS fnS] leaves the state the
    walk of the node with [fnS] leaves, by the same case analysis as
    [walkDir_pruneNode], with the state [s1] after the call on the entry. *)
Lemma walkDirS_pruneNode n : forall name s,
  walkDirS name (pruneNode fn name n) (heededS fnS) s =
  ((walkDirS name n fnS s).1, unskip (walkDir name n fn)).
Proof.
  induction n as [d dirs rderr IH] using fsnode_forall_ind; intros name s.
  rewrite pruneNode_unfold, (walkDirS_unfold name d dirs rderr fnS),
    (walkDir_unfold name d dirs rderr fn).
  unfold asksSkipDir, skipsReport, orElse.
  rewrite (erases_eq name (Some d) None s). set (s1 := (fnS name (Some d) None s).1).
  destruct (IsDir d) eqn:Ed; cbn [negb];
    (destruct (fn name (Some d) None) as [[e|]|] eqn:E0; [destruct (isSkipDir e) eqn:E | ..]);
    try (destruct rderr as [err|];
         [unfold asksSkipDir; try rewrite (erases_eq name (Some d) (Some err) s1);
          destruct (fn name (Some d) (Some err)) as [[e1|]|] eqn:E1;
          [destruct (isSkipDir e1) eqn:E' | ..] |]);
    rewrite walkDirS_unfold; unfold orElse, pass;
    rewrite (heededS_eq name (Some d) None s), E0; fold s1; cbn [unskip fst snd negb];
    rewrite ?E, ?Ed; cbn [negb];
    try (rewrite (heededS_eq name (Some d) (Some _) s1), E1; cbn [unskip fst snd]);
    unfold skipped; rewrite ?E, ?E', ?Ed; cbn [andb unskip]; rewrite ?E, ?E';
    try done; rewrite (walkDirsS_pruneDirs _ _ IH); apply walkDirsS_eq.
Qed.

(** The walk of [fnS] leaves the state, and returns the result, of the
    walk of [heededS fnS] on the tree pruned by [fn]. *)
Theorem WalkDirS_prune fsys root s :
  WalkDirS (prune fn root fsys) root (heededS fnS) s = WalkDirS fsys root fnS s.
Proof.
  unfold WalkDirS, orElse. rewrite statRoot_prune.
  destruct (statRoot fsys) as [info|err] eqn:Hs.
  - rewrite (rootNode_prune _ _ _ _ Hs), walkDirS_pruneNode.
    pose proof (walkDirS_erase _ _ Hfn (rootNode fsys info) root s) as He.
    destruct (walkDirS root (rootNode fsys info) fnS s) as [s1 r].
    cbn [fst snd] in He |- *. subst r.
    destruct (walkDir root (rootNode fsys info) fn) as [[e|]|]; [| done..]. by destruct e.
  - unfold heededS. pose proof (Hfn root None (Some err) s) as He.
    destruct (fnS root None (Some err) s) as [s1 r]. cbn [snd] in He. subst r.
    destruct (fn root None (Some err)) as [[e|]|]; [| done..]. by destruct e.
Qed.

(** The walk of any function with a state whose answers do not depend on
    the state: it runs the calls of the pruned tree in order and stops
    after the first that returns an error or panics. *)
Theorem WalkDirS_skipping fsys root s :
  WalkDirS fsys root fnS s =
  orElse (runCalls (heededS fnS) (events (prune fn root fsys) root)) skipAny pass s.
Proof. rewrite <- WalkDirS_prune. apply (WalkDirS_first_stop (heededS fnS)). Qed.

End SkipsS.

(** *** The list of the calls *)

Lemma logging_erases fn : erases (logging fn) fn.
Proof. done. Qed.

Lemma runCalls_logging fn l : forall log,
  runCalls (heededS (logging fn)) l log =
  (log ++ upTo (heeded fn) l, retOf (first_some (apply (heeded fn)) l)).
Proof.
  induction l as [|[[name d] err] l IH]; intros log; [by rewrite app_nil_r |].
  cbn [runCalls upTo first_some apply]. unfold orElse.
  rewrite (heededS_eq _ _ (logging_erases fn)), <- heeded_unskip. cbn [logging fst].
  destruct (heeded fn name d err) as [[e|]|]; cbn [stopOf retOf]; [done | | done].
  by rewrite IH, <- app_assoc.
Qed.

(** The calls the walk makes to [fn] are the calls of the pruned tree up
    to the first on which [fn] returns an error other than [SkipDir], or
    panics. *)
Theorem callsOf_prune fn fsys root :
  callsOf fn fsys root = upTo (heeded fn) (events (prune fn root fsys) root).
Proof.
  unfold callsOf. rewrite (WalkDirS_skipping _ _ (logging_erases fn)). unfold orElse.
  rewrite runCalls_logging. by destruct (first_some _ _) as [[e|]|].
Qed.

(** A function that never returns [SkipDir] is called on the calls of
    the walk up to the first on which it returns an error or panics. *)
Lemma callsOf_full fn `{!NeverSkipsDir fn} fsys root :
  callsOf fn fsys root = upTo fn (events fsys root).
Proof.
  rewrite callsOf_prune, (prune_full fn). induction (events fsys root) as [|c l IH]; [done |].
  cbn [upTo]. rewrite IH. destruct c as [[name d] err]. cbn [apply].
  rewrite heeded_unskip. destruct (fn name d err) as [[e|]|] eqn:E; [| done..].
  cbn [unskip]. by rewrite (never_skips_dir _ _ _ _ E).
Qed.

(** ** The enforcer skips nothing *)

Section Enforcer.

Context {Configuration Checks : Type}.
Implicit Types (lctx : LinterContext Configuration Checks) (linters : list string).

(** C18. Whatever the linters return, the closure of [lintPackageFs] never
    makes the walk leave anything out.  Every error it returns is built by
    [fmt.Errorf], so it is never [SkipDir] or [SkipAll] itself: the tree
    pruned by the closure is the whole tree, and [fs.WalkDir] calls the
    closure on every call of the walk, in order, up to the first on which
    it returns an error.  (An error of [Info] that a linter returns as it
    is, were it [SkipDir], reaches [fs.WalkDir] wrapped.) *)
Theorem walkCb_prunes_nothing lctx linters fsys root :
  prune (walkCb lctx linters) root fsys = fsys /\
  callsOf (walkCb lctx linters) fsys root =
  upTo (walkCb lctx linters) (events fsys root).
Proof. split; [apply (prune_full _) | apply (callsOf_full _)]. Qed.

(** The closure does not return [nil] on the root when a requested name
    is not in the registry. *)
Lemma apply_walkCb_unknown lctx linters path d err n :
  In n linters -> ~ In n linterNames ->
  apply (walkCb lctx linters) (path, d, err) <> None.
Proof.
  intros Hn Hu [_ H]%apply_walkCb_None. specialize (H n Hn).
  by rewrite lintOne_unknown in H.
Qed.

(** C19. A run with a name that is not in the registry goes no further
    than the root: [fs.WalkDir] calls the closure once, on the path
    [.], and on no entry under it, wherever the name stands in the list
    and whatever the tree holds.  The traversal is no more than what it
    takes to find the name missing. *)
Theorem unknown_linter_one_call lctx linters fsys n :
  In n linters -> ~ In n linterNames ->
  exists d err, callsOf (walkCb lctx linters) fsys "." = [(".", d, err)].
Proof.
  intros Hn Hu. rewrite (callsOf_full _).
  destruct (events_head fsys ".") as (c & rest & -> & Hc). cbn [upTo].
  assert (exists d err, c = (".", d, err)) as (d & err & ->)
    by (destruct Hc as [[err ->]|[e ->]]; eauto).
  pose proof (apply_walkCb_unknown lctx linters "." d err n Hn Hu).
  destruct (apply _ _); [eauto | done].
Qed.

End Enforcer.

Lemma unknown_linter_one_call_witness :
  exists d err,
    callsOf (walkCb (sampleCtx "hello") ["tempdir"; "bogus"]) usrLocalFS "." = [(".", d, err)].
Proof.
  apply (unknown_linter_one_call (sampleCtx "hello") ["tempdir"; "bogus"] usrLocalFS "bogus").
  - cbn. tauto.
  - intros H. cbn in H. by destruct_or! H.
Defined.

(** ** Examples *)

(** [SkipDir] on the directory [usr/local] leaves out what is under it;
    the walk goes on and ends without error. *)
Example skip_directory :
  map (fun c : call => c.1.1)
    (events (prune (skipping ["usr/local"] "") "." usrLocalFS) ".") =
  ["."; "usr"; "usr/bin"; "usr/bin/tool"; "usr/local"] /\
  WalkDir usrLocalFS "." (skipping ["usr/local"] "") = Return None.
Proof. by vm_compute. Qed.

(** [SkipDir] on the file [usr/bin/tool] leaves out the rest of [usr/bin],
    here nothing, and [SkipDir] on the directory [usr/bin] leaves out the
    file and not [usr/local]. *)
Example skip_file_and_directory :
  map (fun c : call => c.1.1)
    (events (prune (skipping ["usr/bin/tool"] "") "." usrLocalFS) ".") =
  ["."; "usr"; "usr/bin"; "usr/bin/tool"; "usr/local"; "usr/local/bin";
   "usr/local/bin/tool"] /\
  map (fun c : call => c.1.1)
    (events (prune (skipping ["usr/bin"] "") "." usrLocalFS) ".") =
  ["."; "usr"; "usr/bin"; "usr/local"; "usr/local/bin"; "usr/local/bin/tool"].
Proof. by vm_compute. Qed.

(** [SkipDir] on the file [tmp/x] of a listing with a second file [tmp/y]
    leaves [tmp/y] out; [SkipAll] at [var] ends the walk without error. *)
Example skip_rest_of_listing :
  map (fun c : call => c.1.1)
    (events (prune (skipping ["tmp/x"] "")
               "." (mkFS [dir "tmp" [file "x" perm644; file "y" perm644]; dir "var" []]))
       ".") =
  ["."; "tmp"; "tmp/x"; "var"] /\
  WalkDir twoViolationsFS "." (skipping [] "var") = Return None.
Proof. by vm_compute. Qed.

(** The calls of a walk that skips [usr/bin] and ends at [usr/local/bin]. *)
Example calls_of_skipping_walk :
  map (fun c : call => c.1.1) (callsOf (skipping ["usr/bin"] "usr/local/bin") usrLocalFS ".") =
  ["."; "usr"; "usr/bin"; "usr/local"; "usr/local/bin"].
Proof. by vm_compute. Qed.
