(* ===== verification/Utf8.v ===== *)
(** * The decoder against the encoder

    [Runes] models [utf8.DecodeRuneInString], on which the rune matcher
    steps through a path.  This file checks that model against the other
    half of [unicode/utf8]: [EncodeRune], modelled with the truncations to
    a byte and to [uint32] of the library.  The theorems: every rune the
    decoder yields is a Unicode scalar value, so it fits the 32-bit [rune]
    and is no surrogate ([DecodeRuneInString_valid]); the decoder reads
    back what the encoder writes, for every scalar value and whatever
    follows ([Decode_Encode]); and the decoder accepts the encodings of the
    encoder only: the bytes of a rune it decodes are the bytes the encoder
    writes for that rune ([Encode_Decode]).  So the runes of a well-formed
    path are its characters, and the bytes of an ill-formed one are
    [RuneError]s of width one. *)

From S2P Require Import Prelude Regexp Linter Runes.

#[local] Open Scope Z_scope.

(** ** [unicode/utf8]: the encoder *)

Definition MaxRune : rune := 1114111.
Definition surrogateMin : rune := 55296.
Definition surrogateMax : rune := 57343.

(** [utf8.ValidRune]. *)
Definition ValidRune (r : rune) : bool :=
  ((0 <=? r) && (r <? surrogateMin)) || ((surrogateMax <? r) && (r <=? MaxRune)).

(** The conversion [byte(x)]: the low eight bits. *)
Definition chr (x : Z) : ascii := ascii_of_N (Z.to_N (x mod 256)).

Definition tx : Z := 128.
Definition t2 : Z := 192.
Definition t3 : Z := 224.
Definition t4 : Z := 240.

(** The bytes after the first: [tx | byte(x)&maskx]. *)
Definition cont (x : Z) : ascii := chr (Z.lor tx (Z.land (x mod 256) maskx)).

(** The three bytes of a rune up to [0xFFFF]. *)
Definition encode3 (r : rune) : string :=
  String (chr (Z.lor t3 (Z.shiftr r 12 mod 256)))
    (String (cont (Z.shiftr r 6)) (String (cont r) "")).

(** [utf8.EncodeRune], as the bytes written.  The [switch] is on
    [uint32(r)]; a rune that is out of range or a surrogate is written as
    [RuneError]. *)
Definition EncodeRune (r : rune) : string :=
  let i := r mod 2 ^ 32 in
  if i <=? 127 then String (chr r) ""
  else if i <=? 2047 then
    String (chr (Z.lor t2 (Z.shiftr r 6 mod 256))) (String (cont r) "")
  else if (MaxRune <? i) || ((surrogateMin <=? i) && (i <=? surrogateMax)) then
    encode3 RuneError
  else if i <=? 65535 then encode3 r
  else
    String (chr (Z.lor t4 (Z.shiftr r 18 mod 256)))
      (String (cont (Z.shiftr r 12)) (String (cont (Z.shiftr r 6)) (String (cont r) ""))).

(** ** Well-formed byte sequences *)

(** The first two bytes of an encoding of three bytes, and of four: the
    second byte is a continuation byte, in a narrower range after the
    first bytes [0xE0], [0xED], [0xF0] and [0xF4]. *)
Definition lead3 (b0 b1 : Z) : Prop :=
  224 <= b0 <= 239 /\ 128 <= b1 <= 191 /\ (b0 = 224 -> 160 <= b1) /\ (b0 = 237 -> b1 <= 159).

Definition lead4 (b0 b1 : Z) : Prop :=
  240 <= b0 <= 244 /\ 128 <= b1 <= 191 /\ (b0 = 240 -> 144 <= b1) /\ (b0 = 244 -> b1 <= 143).

(** [encoding p r]: the bytes [p] are the well-formed UTF-8 byte sequence
    of the scalar value [r] (the table of well-formed sequences of the
    Unicode standard). *)
Inductive encoding : string -> rune -> Prop :=
| encoding1 c : byte c < 128 -> encoding (String c "") (byte c)
| encoding2 c0 c1 :
    194 <= byte c0 <= 223 -> 128 <= byte c1 <= 191 ->
    encoding (String c0 (String c1 "")) (byte c0 mod 32 * 64 + byte c1 mod 64)
| encoding3 c0 c1 c2 :
    lead3 (byte c0) (byte c1) -> 128 <= byte c2 <= 191 ->
    encoding (String c0 (String c1 (String c2 "")))
      ((byte c0 mod 16 * 64 + byte c1 mod 64) * 64 + byte c2 mod 64)
| encoding4 c0 c1 c2 c3 :
    lead4 (byte c0) (byte c1) -> 128 <= byte c2 <= 191 -> 128 <= byte c3 <= 191 ->
    encoding (String c0 (String c1 (String c2 (String c3 ""))))
      (((byte c0 mod 8 * 64 + byte c1 mod 64) * 64 + byte c2 mod 64) * 64 + byte c3 mod 64).

(** ** Lemmas: bits as arithmetic *)

(** Division and remainder by constants, then linear arithmetic. *)
Ltac bytes := Z.div_mod_to_equations; lia.

Lemma byte_range c : 0 <= byte c < 256.
Proof.
  unfold byte. pose proof (N_ascii_bounded c) as H. lia.
Qed.

Lemma byte_chr x : byte (chr x) = x mod 256.
Proof.
  unfold byte, chr. rewrite N_ascii_embedding; [bytes |].
  change 256%N with (Z.to_N 256). apply Z2N.inj_lt; bytes.
Qed.

(** A value below [2^k] fills the low [k] bits. *)
Lemma lor_high_low h k y :
  0 <= k -> 0 <= y < 2 ^ k -> Z.lor (h * 2 ^ k) y = h * 2 ^ k + y.
Proof.
  intros Hk Hy.
  assert (Z.land (h * 2 ^ k) y = 0) as Hl.
  { destruct (Z.eq_dec y 0) as [->|Hy0]; [apply Z.land_0_r |].
    apply Z.bits_inj'. intros n Hn. rewrite Z.land_spec, Z.bits_0.
    destruct (Z.lt_ge_cases n k); [by rewrite Z.mul_pow2_bits_low |].
    rewrite (Z.bits_above_log2 y n), andb_false_r; [done | lia |].
    apply Z.lt_le_trans with k; [apply Z.log2_lt_pow2; lia | done]. }
  by rewrite <- Z.lxor_lor, <- Z.add_nocarry_lxor.
Qed.

Lemma land_maskx x : Z.land x maskx = x mod 64.
Proof. exact (Z.land_ones x 6 ltac:(lia)). Qed.

Lemma land_mask2 x : Z.land x mask2 = x mod 32.
Proof. exact (Z.land_ones x 5 ltac:(lia)). Qed.

Lemma land_mask3 x : Z.land x mask3 = x mod 16.
Proof. exact (Z.land_ones x 4 ltac:(lia)). Qed.

Lemma land_mask4 x : Z.land x mask4 = x mod 8.
Proof. exact (Z.land_ones x 3 ltac:(lia)). Qed.

(** The three ways the decoder puts bytes together. *)
Lemma pack2 a b :
  Z.lor (Z.shiftl (Z.land a mask2) 6) (Z.land b maskx) = a mod 32 * 64 + b mod 64.
Proof.
  rewrite land_maskx, land_mask2, Z.shiftl_mul_pow2 by lia.
  apply (lor_high_low _ 6); bytes.
Qed.

Lemma pack3 a b c :
  Z.lor (Z.lor (Z.shiftl (Z.land a mask3) 12) (Z.shiftl (Z.land b maskx) 6))
    (Z.land c maskx) =
  (a mod 16 * 64 + b mod 64) * 64 + c mod 64.
Proof.
  rewrite !land_maskx, land_mask3, !Z.shiftl_mul_pow2 by lia.
  rewrite (lor_high_low _ 12) by bytes.
  replace (a mod 16 * 2 ^ 12 + b mod 64 * 2 ^ 6)
    with ((a mod 16 * 64 + b mod 64) * 2 ^ 6) by lia.
  apply (lor_high_low _ 6); bytes.
Qed.

Lemma pack4 a b c d :
  Z.lor (Z.lor (Z.lor (Z.shiftl (Z.land a mask4) 18) (Z.shiftl (Z.land b maskx) 12))
           (Z.shiftl (Z.land c maskx) 6))
    (Z.land d maskx) =
  ((a mod 8 * 64 + b mod 64) * 64 + c mod 64) * 64 + d mod 64.
Proof.
  rewrite !land_maskx, land_mask4, !Z.shiftl_mul_pow2 by lia.
  rewrite (lor_high_low _ 18) by bytes.
  replace (a mod 8 * 2 ^ 18 + b mod 64 * 2 ^ 12)
    with ((a mod 8 * 64 + b mod 64) * 2 ^ 12) by lia.
  rewrite (lor_high_low _ 12) by bytes.
  replace ((a mod 8 * 64 + b mod 64) * 2 ^ 12 + c mod 64 * 2 ^ 6)
    with (((a mod 8 * 64 + b mod 64) * 64 + c mod 64) * 2 ^ 6) by lia.
  apply (lor_high_low _ 6); bytes.
Qed.

(** The bytes of the encoder. *)
Lemma lor_t2 x : 0 <= x < 64 -> Z.lor t2 x = 192 + x.
Proof. exact (lor_high_low 3 6 x ltac:(lia)). Qed.

Lemma lor_t3 x : 0 <= x < 16 -> Z.lor t3 x = 224 + x.
Proof. exact (lor_high_low 14 4 x ltac:(lia)). Qed.

Lemma lor_t4 x : 0 <= x < 8 -> Z.lor t4 x = 240 + x.
Proof. exact (lor_high_low 30 3 x ltac:(lia)). Qed.

Lemma byte_cont x : byte (cont x) = 128 + x mod 64.
Proof.
  unfold cont. rewrite byte_chr, land_maskx.
  rewrite (lor_high_low 2 6) by bytes. bytes.
Qed.

Lemma chr_eq c x : x mod 256 = byte c -> chr x = c.
Proof. intros H. apply byte_inj. by rewrite byte_chr. Qed.

Lemma cont_eq c x : 128 + x mod 64 = byte c -> cont x = c.
Proof. intros H. apply byte_inj. by rewrite byte_cont. Qed.

(** ** Lemmas: the first byte *)

Lemma first_Lead b sz lo hi :
  first b = Lead sz lo hi ->
  (sz = 2%nat /\ 194 <= b <= 223 /\ lo = 128 /\ hi = 191) \/
  (sz = 3%nat /\ 224 <= b <= 239 /\ (lo = if b =? 224 then 160 else 128) /\
   (hi = if b =? 237 then 159 else 191)) \/
  (sz = 4%nat /\ 240 <= b <= 244 /\ (lo = if b =? 240 then 144 else 128) /\
   (hi = if b =? 244 then 143 else 191)).
Proof.
  unfold first, locb, hicb. repeat case_match; intros [= <- <- <-]; lia.
Qed.

Lemma first_lead2 b : 194 <= b <= 223 -> first b = Lead 2 128 191.
Proof. intros H. unfold first, locb, hicb. repeat case_match; (done || lia). Qed.

Lemma first_lead3 b :
  224 <= b <= 239 ->
  first b = Lead 3 (if b =? 224 then 160 else 128) (if b =? 237 then 159 else 191).
Proof. intros H. unfold first, locb, hicb. repeat case_match; (done || lia). Qed.

Lemma first_lead4 b :
  240 <= b <= 244 ->
  first b = Lead 4 (if b =? 240 then 144 else 128) (if b =? 244 then 143 else 191).
Proof. intros H. unfold first, locb, hicb. repeat case_match; (done || lia). Qed.

Lemma first_Single_inv b : first b = Single -> b < 128.
Proof. unfold first. repeat case_match; intros; simplify_eq; lia. Qed.

(** ** Lemmas: the decoder yields well-formed sequences only *)

(** The decoder gives up: [RuneError], of width one at most. *)
Ltac no_rune := intros [= <- <-]; left; split; [reflexivity | lia].

Lemma decodeTail_encoding c0 sz lo hi t r w :
  first (byte c0) = Lead sz lo hi -> decodeTail (byte c0) sz lo hi t = (r, w) ->
  (r = RuneError /\ (w <= 1)%nat) \/
  exists p t', String c0 t = p +:+ t' /\ encoding p r /\ String.length p = w.
Proof.
  intros Ef. unfold decodeTail, locb, hicb.
  destruct t as [|c1 t1]; [no_rune |].
  destruct ((byte c1 <? lo) || (hi <? byte c1)) eqn:E1; [no_rune |].
  apply first_Lead in Ef as [(-> & Hb & -> & ->)|[(-> & Hb & -> & ->)|(-> & Hb & -> & ->)]];
    cbn [Nat.leb].
  - intros [= <- <-]. right. exists (String c0 (String c1 "")), t1. rewrite pack2.
    split_and!; [done | constructor; lia | done].
  - destruct t1 as [|c2 t2]; [no_rune |].
    destruct ((byte c2 <? 128) || (191 <? byte c2)) eqn:E2; [no_rune |].
    intros [= <- <-]. right. exists (String c0 (String c1 (String c2 ""))), t2. rewrite pack3.
    split_and!; [done | constructor; [unfold lead3 |]; repeat case_match; lia | done].
  - destruct t1 as [|c2 t2]; [no_rune |].
    destruct ((byte c2 <? 128) || (191 <? byte c2)) eqn:E2; [no_rune |].
    destruct t2 as [|c3 t3]; [no_rune |].
    destruct ((byte c3 <? 128) || (191 <? byte c3)) eqn:E3; [no_rune |].
    intros [= <- <-]. right. exists (String c0 (String c1 (String c2 (String c3 "")))), t3.
    rewrite pack4.
    split_and!; [done | constructor; [unfold lead4 | |]; repeat case_match; lia | done].
Qed.

Lemma Decode_encoding s r w :
  DecodeRuneInString s = (r, w) ->
  (r = RuneError /\ (w <= 1)%nat) \/
  exists p t, s = p +:+ t /\ encoding p r /\ String.length p = w.
Proof.
  unfold DecodeRuneInString. destruct s as [|c0 t0]; [no_rune |].
  destruct (first (byte c0)) as [| |sz lo hi] eqn:Ef; [| no_rune |].
  - intros [= <- <-]. right. exists (String c0 ""), t0.
    split_and!; [done | constructor; by apply first_Single_inv | done].
  - case_match; [no_rune | by apply decodeTail_encoding].
Qed.

(** ** Lemmas: well-formed sequences, the decoder and the encoder *)

Lemma encoding_valid p r : encoding p r -> ValidRune r = true.
Proof.
  unfold ValidRune, surrogateMin, surrogateMax, MaxRune, lead3, lead4.
  destruct 1 as [c H|c0 c1 H0 H1|c0 c1 c2 (H0 & H1 & Hlo & Hhi) H2
                 |c0 c1 c2 c3 (H0 & H1 & Hlo & Hhi) H2 H3].
  - pose proof (byte_range c). lia.
  - bytes.
  - bytes.
  - bytes.
Qed.

(** The decoder reads a well-formed sequence as its scalar value. *)
Lemma encoding_Decode p r t :
  encoding p r -> DecodeRuneInString (p +:+ t) = (r, String.length p).
Proof.
  destruct 1 as [c H|c0 c1 H0 H1|c0 c1 c2 (H0 & H1 & Hlo & Hhi) H2
                 |c0 c1 c2 c3 (H0 & H1 & Hlo & Hhi) H2 H3];
    rewrite !string_app_cons, string_app_nil_l; unfold DecodeRuneInString.
  - by rewrite first_Single.
  - rewrite first_lead2 by done. cbn [String.length Nat.ltb Nat.leb decodeTail].
    rewrite pack2. repeat case_match; (done || lia).
  - rewrite first_lead3 by done. cbn [String.length Nat.ltb Nat.leb decodeTail].
    unfold locb, hicb. rewrite pack3. repeat case_match; (done || lia).
  - rewrite first_lead4 by done. cbn [String.length Nat.ltb Nat.leb decodeTail].
    unfold locb, hicb. rewrite pack4. repeat case_match; (done || lia).
Qed.

Lemma String_eq a b s t : a = b -> s = t -> String a s = String b t.
Proof. by intros -> ->. Qed.

(** The encoder writes the well-formed sequence of a scalar value. *)
Lemma encoding_Encode p r : encoding p r -> EncodeRune r = p.
Proof.
  unfold EncodeRune, encode3, surrogateMin, surrogateMax, MaxRune, lead3, lead4.
  destruct 1 as [c H|c0 c1 H0 H1|c0 c1 c2 (H0 & H1 & Hlo & Hhi) H2
                 |c0 c1 c2 c3 (H0 & H1 & Hlo & Hhi) H2 H3];
    [pose proof (byte_range c) |..];
    repeat (case_match; try (exfalso; bytes));
    rewrite ?Z.shiftr_div_pow2 by lia;
    repeat (apply String_eq; [first [apply cont_eq | apply chr_eq] |]); try done;
    rewrite ?lor_t2, ?lor_t3, ?lor_t4 by bytes; bytes.
Qed.

Lemma encoding_eq p r r' : encoding p r' -> r' = r -> encoding p r.
Proof. by intros H <-. Qed.

(** Every scalar value has a well-formed sequence. *)
Lemma encoding_exists r : ValidRune r = true -> exists p, encoding p r.
Proof.
  unfold ValidRune, surrogateMin, surrogateMax, MaxRune. intros Hv.
  destruct (Z.le_gt_cases r 127); [| destruct (Z.le_gt_cases r 2047);
    [| destruct (Z.le_gt_cases r 65535)]]; eexists; eapply encoding_eq.
  - apply (encoding1 (chr r)). rewrite byte_chr. bytes.
  - rewrite byte_chr. bytes.
  - apply (encoding2 (chr (192 + r / 64)) (chr (128 + r mod 64))); rewrite byte_chr; bytes.
  - rewrite !byte_chr. bytes.
  - apply (encoding3 (chr (224 + r / 4096)) (chr (128 + r / 64 mod 64)) (chr (128 + r mod 64)));
      unfold lead3; rewrite !byte_chr; bytes.
  - rewrite !byte_chr. bytes.
  - apply (encoding4 (chr (240 + r / 262144)) (chr (128 + r / 4096 mod 64))
             (chr (128 + r / 64 mod 64)) (chr (128 + r mod 64)));
      unfold lead4; rewrite !byte_chr; bytes.
  - rewrite !byte_chr. bytes.
Qed.

(** ** Theorems *)

(** Every rune the decoder yields is a Unicode scalar value: it lies in
    [0, 0x10FFFF], so within the 32 bits of [rune], and is no surrogate. *)
Theorem DecodeRuneInString_valid s : ValidRune (DecodeRuneInString s).1 = true.
Proof.
  destruct (DecodeRuneInString s) as [r w] eqn:E.
  destruct (Decode_encoding _ _ _ E) as [[-> _]|(p & t & _ & Hp & _)]; [done |].
  by apply (encoding_valid p).
Qed.

(** The decoder reads back what the encoder writes, whatever follows. *)
Theorem Decode_Encode r t :
  ValidRune r = true ->
  DecodeRuneInString (EncodeRune r +:+ t) = (r, String.length (EncodeRune r)).
Proof.
  intros (p & Hp)%encoding_exists. rewrite (encoding_Encode _ _ Hp). by apply encoding_Decode.
Qed.

(** The decoder accepts the sequences of the encoder only: the bytes of a
    rune it decodes are those the encoder writes for that rune. *)
Theorem Encode_Decode s r w :
  DecodeRuneInString s = (r, w) -> r <> RuneError ->
  exists t, s = EncodeRune r +:+ t /\ String.length (EncodeRune r) = w.
Proof.
  intros [[-> _]|(p & t & -> & Hp & <-)]%Decode_encoding Hr; [done |].
  exists t. by rewrite (encoding_Encode _ _ Hp).
Qed.

(** A value that is no scalar value is written as [RuneError]. *)
Theorem EncodeRune_invalid r :
  - 2 ^ 31 <= r < 2 ^ 31 -> ValidRune r = false -> EncodeRune r = EncodeRune RuneError.
Proof.
  unfold ValidRune, EncodeRune, RuneError, surrogateMin, surrogateMax, MaxRune. intros Hr Hv.
  repeat (case_match; try (exfalso; bytes)); reflexivity.
Qed.

(** The runes a matcher steps through are scalar values. *)
Theorem runes_valid s : Forall (fun r => ValidRune r = true) (runes s).
Proof.
  unfold runes. generalize (String.length s) at 1. intros fuel. revert s.
  induction fuel as [|fuel IH]; intros [|c t]; cbn [runesFrom]; try constructor.
  pose proof (DecodeRuneInString_valid (String c t)) as Hv.
  destruct (DecodeRuneInString (String c t)) as [r w]. constructor; [exact Hv | apply IH].
Qed.

Example utf8_samples :
  EncodeRune 233 = String (chr 195) (String (chr 169) "") /\
  EncodeRune 8364 = String (chr 226) (String (chr 130) (String (chr 172) "")) /\
  EncodeRune 128512 =
    String (chr 240) (String (chr 159) (String (chr 152) (String (chr 128) ""))) /\
  EncodeRune 55296 = EncodeRune RuneError /\
  DecodeRuneInString (String (chr 192) (String (chr 175) "")) = (RuneError, 1%nat) /\
  DecodeRuneInString (String (chr 237) (String (chr 160) (String (chr 128) ""))) =
    (RuneError, 1%nat).
Proof. by vm_compute. Qed.
