(* ===== verification/PathClean.v ===== *)
(** * The paths [path.Clean] returns

    [fs.WalkDir] builds the path of an entry with [path.Join], which ends
    in [path.Clean].  This file states what [Clean] returns on any path,
    not only on the paths of a tree of file names ([Paths]): the elements
    it writes are [..] some times, never in a rooted path, and then
    names that are neither empty nor [.] nor [..] ([cleanForm]); a path
    written from such elements is read back as the same elements, so
    [Clean] does nothing to a path it returned ([Clean_idempotent]).
    Every path the walk from the root builds is such a path, on any tree,
    so the linters are only ever called on clean paths that do not start
    with a slash ([invocations_clean_paths]): the paths the anchored
    patterns of the source are written for. *)

From S2P Require Import Prelude Errors Regexp FS Linter Samples Enforce Stateful Order Paths Trace.

(** ** The parts of [Clean], named *)

(** Whether the path starts with a slash. *)
Definition rooted (path : string) : bool :=
  match path with String c _ => Ascii.eqb c "/" | EmptyString => false end.

(** One turn of the loop, on the elements written so far, last first. *)
Definition turn (r : bool) (out : list string) (elem : string) : list string :=
  if String.eqb elem "" || String.eqb elem "." then out
  else if String.eqb elem ".." then
    match out with
    | x :: out' => if String.eqb x ".." then elem :: out else out'
    | [] => if r then [] else [elem]
    end
  else elem :: out.

(** The elements [Clean] writes for a path, in order. *)
Definition elements (path : string) : list string :=
  rev (fold_left (turn (rooted path)) (segments path) []).

(** The path written from the elements. *)
Definition written (r : bool) (out : list string) : string :=
  match out with
  | [] => if r then "/" else "."
  | x :: l => (if r then "/" else "") +:+ String.concat "/" (x :: l)
  end.

(** The lists of elements of a clean path: [..] some times, not at all
    in a rooted path, then file names. *)
Definition cleanForm (r : bool) (out : list string) : Prop :=
  exists n names,
    out = repeat ".." n ++ names /\ (r = true -> n = 0%nat) /\ validKey names = true.

(** The same for the elements written so far, last first. *)
Definition stackForm (r : bool) (out : list string) : Prop :=
  exists n names,
    out = names ++ repeat ".." n /\ (r = true -> n = 0%nat) /\ validKey names = true.

(** ** Lemmas: the loop *)

Lemma Clean_unfold path : Clean path = written (rooted path) (elements path).
Proof. reflexivity. Qed.

Lemma segments_all_noSlash s : forallb noSlash (segments s) = true.
Proof.
  induction s as [|c s IH]; [done |]. cbn [segments].
  destruct (Ascii.eqb c "/") eqn:E; [done |].
  destruct (segments s) as [|x l]; cbn [forallb noSlash] in *; by rewrite E, ?IH.
Qed.

Lemma validKey_rev k : validKey (rev k) = validKey k.
Proof.
  unfold validKey. apply eq_true_iff_eq. rewrite !forallb_forall.
  split; intros H x Hx; apply H; by apply in_rev in Hx || apply in_rev.
Qed.

Lemma turn_drop r out elem : elem = "" \/ elem = "." -> turn r out elem = out.
Proof. by intros [-> | ->]. Qed.

Lemma turn_name r out elem : validName elem = true -> turn r out elem = elem :: out.
Proof.
  intros (H1%String.eqb_neq & H2%String.eqb_neq & H3%String.eqb_neq & _)%validName_spec.
  unfold turn. by rewrite H1, H2, H3.
Qed.

Lemma turn_dotdot r out :
  turn r out ".." =
  match out with
  | x :: out' => if String.eqb x ".." then ".." :: out else out'
  | [] => if r then [] else [".."]
  end.
Proof. reflexivity. Qed.

(** An element without a slash is dropped, is [..], or is a file name. *)
Lemma elem_cases elem :
  noSlash elem = true ->
  elem = "" \/ elem = "." \/ elem = ".." \/ validName elem = true.
Proof.
  intros Hs. unfold validName. rewrite Hs.
  destruct (String.eqb_spec elem ""), (String.eqb_spec elem "."),
    (String.eqb_spec elem ".."); auto.
Qed.

(** A turn keeps the form of what is written. *)
Lemma turn_stackForm r out elem :
  noSlash elem = true -> stackForm r out -> stackForm r (turn r out elem).
Proof.
  intros [-> | [-> | [-> | He]]]%elem_cases (n & names & -> & Hr & Hk);
    rewrite ?turn_drop, ?(turn_name _ _ _ He) by auto.
  1, 2: by exists n, names.
  - rewrite turn_dotdot. destruct names as [|x names]; cbn [app].
    + destruct n as [|n]; cbn [repeat].
      * destruct r; [by exists 0%nat, [] | by exists 1%nat, []].
      * exists (S (S n)), []. split; [done | split; [| done]]. intros H. by apply Hr in H.
    + cbn [validKey forallb] in Hk. apply andb_true_iff in Hk as [Hx Hk].
      apply validName_spec in Hx as (_ & _ & ->%String.eqb_neq & _).
      by exists n, names.
  - exists n, (elem :: names). cbn [validKey forallb]. by rewrite He.
Qed.

Lemma fold_stackForm r l : forall out,
  forallb noSlash l = true -> stackForm r out -> stackForm r (fold_left (turn r) l out).
Proof.
  induction l as [|x l IH]; intros out; cbn [forallb fold_left]; [done |].
  rewrite andb_true_iff. intros [Hx Hl] Ho. by apply IH, turn_stackForm.
Qed.

Lemma stackForm_rev r out : stackForm r out -> cleanForm r (rev out).
Proof.
  intros (n & names & -> & Hr & Hk). exists n, (rev names).
  by rewrite rev_app_distr, rev_repeat, validKey_rev.
Qed.

(** What [Clean] writes has the form of a clean path. *)
Lemma elements_cleanForm path : cleanForm (rooted path) (elements path).
Proof.
  apply stackForm_rev, fold_stackForm; [apply segments_all_noSlash |]. by exists 0%nat, [].
Qed.

(** ** Lemmas: reading a clean path back *)

Lemma cleanForm_noSlash r out : cleanForm r out -> forallb noSlash out = true.
Proof.
  intros (n & names & -> & _ & Hk). rewrite forallb_app, (validKey_noSlash _ Hk), andb_true_r.
  apply forallb_forall. by intros x ->%repeat_spec.
Qed.

(** The first element of a clean path is not empty and has no slash. *)
Lemma cleanForm_first r x l : cleanForm r (x :: l) -> x <> "" /\ noSlash x = true.
Proof.
  intros (n & names & H & _ & Hk).
  destruct n as [|n]; cbn [repeat app] in H; [| by injection H as -> _].
  destruct names as [|y names]; [done |]. injection H as -> _.
  cbn [validKey forallb] in Hk. apply andb_true_iff in Hk as [Hy _].
  by apply validName_spec in Hy as (? & _ & _ & ?).
Qed.

Lemma cleanForm_head r x l : cleanForm r (x :: l) -> rooted (x +:+ slashed l) = false.
Proof.
  intros [Hx Hs]%cleanForm_first.
  destruct x as [|c x]; [done |]. rewrite string_app_cons. cbn [rooted noSlash] in *.
  apply andb_true_iff in Hs as [Hc _]. by apply negb_true_iff in Hc.
Qed.

Lemma rooted_written r out : cleanForm r out -> rooted (written r out) = r.
Proof.
  intros Hc. destruct out as [|x l]; [by destruct r |]. unfold written.
  rewrite concat_slashed. destruct r; [done |].
  rewrite string_app_nil_l. by eapply cleanForm_head.
Qed.

(** The elements of a written path: the elements written, after an empty
    one when the path is rooted, or the one element of [/] and of [.]. *)
Lemma segments_written r out :
  cleanForm r out ->
  segments (written r out) =
  (if r then [""] else []) ++ match out with [] => [if r then "" else "."] | _ => out end.
Proof.
  intros Hs%cleanForm_noSlash. destruct out as [|x l]; [by destruct r |].
  unfold written. rewrite concat_slashed. cbn [forallb] in Hs.
  apply andb_true_iff in Hs as [Hx Hl].
  destruct r; rewrite ?string_app_cons, ?string_app_nil_l;
    cbn [segments Ascii.eqb Bool.eqb]; by rewrite segments_slashed.
Qed.

(** The loop on the elements of a clean path writes them again. *)
Lemma fold_repeat n : forall m,
  fold_left (turn false) (repeat ".." n) (repeat ".." m) = repeat ".." (n + m).
Proof.
  induction n as [|n IH]; intros m; [done |]. cbn [repeat fold_left].
  replace (turn false (repeat ".." m) "..") with (repeat ".." (S m)) by (by destruct m).
  by rewrite IH, Nat.add_succ_r.
Qed.

Lemma fold_cleanForm r out :
  cleanForm r out -> fold_left (turn r) out [] = rev out.
Proof.
  intros (n & names & -> & Hr & Hk). rewrite fold_left_app, rev_app_distr, rev_repeat.
  assert (fold_left (turn r) (repeat ".." n) [] = repeat ".." n) as ->.
  { destruct r; [by rewrite Hr |]. by rewrite (fold_repeat n 0 : fold_left _ _ [] = _), Nat.add_0_r. }
  apply fold_left_written. intros o x Hx. apply turn_name.
  unfold validKey in Hk. rewrite forallb_forall in Hk. by apply Hk.
Qed.

Lemma elements_written r out : cleanForm r out -> elements (written r out) = out.
Proof.
  intros Hc. unfold elements.
  rewrite (rooted_written _ _ Hc), (segments_written _ _ Hc).
  assert (forall l, fold_left (turn r) ((if r then [""] else []) ++ l) [] =
                    fold_left (turn r) l []) as -> by (by destruct r).
  destruct out as [|x l]; [by destruct r |].
  by rewrite (fold_cleanForm _ _ Hc), rev_involutive.
Qed.

(** ** Theorems *)

(** [Clean] returns a path in clean form: [/], [.], or the elements of a
    clean form joined by slashes. *)
Theorem Clean_cleanForm path :
  exists out, cleanForm (rooted path) out /\ Clean path = written (rooted path) out.
Proof. exists (elements path). split; [apply elements_cleanForm | apply Clean_unfold]. Qed.

(** [Clean] does nothing to a path it returned. *)
Theorem Clean_idempotent path : Clean (Clean path) = Clean path.
Proof.
  pose proof (elements_cleanForm path) as Hc.
  rewrite (Clean_unfold path), Clean_unfold.
  by rewrite (rooted_written _ _ Hc), (elements_written _ _ Hc).
Qed.

(** [Clean] never returns the empty path. *)
Theorem Clean_not_empty path : Clean path <> "".
Proof.
  rewrite Clean_unfold. pose proof (elements_cleanForm path) as Hc. unfold written.
  destruct (elements path) as [|x l]; [by destruct (rooted path) |].
  apply cleanForm_first in Hc as [Hx _]. rewrite concat_slashed.
  destruct (rooted path), x; done.
Qed.

(** [Join] returns a clean path, but for two empty elements. *)
Theorem Join_Clean dir elem :
  dir <> "" \/ elem <> "" -> Clean (Join dir elem) = Join dir elem.
Proof.
  unfold Join. destruct (String.eqb_spec dir ""), (String.eqb_spec elem "");
    intros []; try done; apply Clean_idempotent.
Qed.

(** The path of a key, built by [Join] from the root, is clean, whatever
    the names of the key. *)
Theorem joinKey_Clean k : Clean (joinKey k) = joinKey k.
Proof.
  induction k as [|x k IH] using rev_ind; [done |].
  rewrite joinKey_snoc. apply Join_Clean. left. rewrite <- IH. apply Clean_not_empty.
Qed.

(** Every path the walk from the root hands to its function is clean, on
    any tree. *)
Theorem visits_Clean fsys path e : In (path, e) (visits fsys ".") -> Clean path = path.
Proof.
  rewrite visits_keyed, in_map_iff. intros ([k e'] & [= <- <-] & _). apply joinKey_Clean.
Qed.

(** [Clean] keeps a path rooted or not. *)
Lemma rooted_Clean path : rooted (Clean path) = rooted path.
Proof. rewrite Clean_unfold. apply rooted_written, elements_cleanForm. Qed.

(** No path of a key is rooted. *)
Lemma joinKey_not_rooted k : rooted (joinKey k) = false.
Proof.
  induction k as [|x k IH] using rev_ind; [done |].
  rewrite joinKey_snoc. unfold Join.
  pose proof (Clean_not_empty (joinKey k)) as Hne. rewrite joinKey_Clean in Hne.
  destruct (joinKey k) as [|c p] eqn:E; [done |]. cbn [String.eqb].
  by rewrite rooted_Clean, string_app_cons.
Qed.

Section Calls.

Context {Configuration Checks : Type}.
Implicit Types (lctx : LinterContext Configuration Checks).

(** C36. The linters are called on clean relative paths only.  On any
    tree, whatever its names, the path of every call of a linter function
    a run makes is a path [Clean] leaves as it is and does not start with
    a slash: it is [.] or is written from elements that are [..] some
    times and then names that are neither empty nor [.] nor [..], with
    one slash between two elements and none at the end. *)
Theorem invocations_clean_paths lctx fsys linters n path :
  In (n, path) (invocations lctx fsys linters) ->
  Clean path = path /\ rooted path = false /\
  exists out, cleanForm false out /\ path = written false out.
Proof.
  intros Hin. destruct (invocations_prefix lctx fsys linters) as [ext Hp].
  assert (In (n, path) (plan linters (visits fsys "."))) as [_ Hv]%plan_In
    by (rewrite Hp; apply in_or_app; by left).
  rewrite visits_keyed, map_map, in_map_iff in Hv. destruct Hv as ([k e] & <- & _).
  cbn [fst]. split_and!; [apply joinKey_Clean | apply joinKey_not_rooted |].
  destruct (Clean_cleanForm (joinKey k)) as (out & Hc & Hw).
  rewrite joinKey_Clean, joinKey_not_rooted in *. by exists out.
Qed.

End Calls.

Lemma invocations_clean_paths_witness :
  Clean "tmp/x" = "tmp/x" /\ rooted "tmp/x" = false /\
  exists out, cleanForm false out /\ "tmp/x" = written false out.
Proof.
  apply (invocations_clean_paths (sampleCtx "hello") (mkFS [dir "tmp" [file "x" perm644]])
           ["varempty"] "varempty" "tmp/x").
  vm_compute. tauto.
Defined.

(** A tree with the names [..] and [a/b] in a listing, which no directory
    yields: the walk joins them as [path.Join] does. *)
Example Join_odd_names :
  map fst (visits (mkFS [dir "usr" [file ".." perm644; file "a/b" perm644]]) ".") =
  ["."; "usr"; "."; "usr/a/b"].
Proof. reflexivity. Qed.
