(* ===== verification/Registry.v ===== *)
(** * The registry as a package variable

    [Linters] of [linter.go] is a package variable of map type: the
    closure of [lintPackageFs] reads it at every turn of its loop, and Go
    lets any code of the program assign to an entry or delete one.  This
    file writes the enforcer over the registry it reads, [lintLoopIn],
    [walkCbIn] and [lintPackageFsIn], which are [lintLoop], [walkCb] and
    [lintPackageFs] at the registry of the source
    ([lintPackageFsIn_Linters]), and states what a run does over any
    registry.

    What the enforcer needs of a registry is the class [Behaved]: every
    function of it returns when it is handed an entry.  Against it the
    run never panics; without it the theorems that do not mention a panic
    still hold: the walk is never pruned, whatever the functions return,
    a run reads the registry at the requested names only
    ([lintPackageFsIn_agree]), and a requested name that was deleted
    fails every run. *)

From stdpp Require Import gmap.
From S2P Require Import Prelude Errors Regexp FS Linter Samples Enforce.

Section Registry.

Context {Configuration Checks : Type}.
Abbreviation registry := (gmap string (Linter Configuration Checks)).
Implicit Types (reg : registry) (lctx : LinterContext Configuration Checks)
  (path : string) (d : option DirEntry) (linters : list string) (fsys : FS)
  (l : Linter Configuration Checks).

(** ** The program over a registry *)

(** The [for] loop of [walkCb], reading the registry [reg]. *)
Fixpoint lintLoopIn reg lctx path d linters : ret (option error) :=
  match linters with
  | [] => Return None
  | linterName :: linters' =>
      match reg !! linterName with
      | None => Return (Some (Errorf "Linter %s is unknown" [argS linterName]))
      | Some linter =>
          match LinterFunc_ linter lctx path d with
          | Panic => Panic
          | Return (Some err) =>
              Return (Some (Errorf
                ("Linter %s failed at path " +:+ dquote +:+ "%s" +:+ dquote
                   +:+ ": %w; suggest: %s")
                [argS linterName; argS path; argE err; argS (Explain linter)]))
          | Return None => lintLoopIn reg lctx path d linters'
          end
      end
  end.

Definition walkCbIn reg lctx linters : WalkDirFunc :=
  fun path d err =>
    match err with
    | Some err =>
        Return (Some (Errorf "Error traversing tree at %s: %w" [argS path; argE err]))
    | None => lintLoopIn reg lctx path d linters
    end.

Definition lintPackageFsIn reg lctx fsys linters : ret (option error) :=
  match WalkDir fsys "." (walkCbIn reg lctx linters) with
  | Panic => Panic
  | Return (Some err) => Return (Some err)
  | Return None => Return None
  end.

(** One turn of the loop over [reg]. *)
Definition lintOneIn reg lctx path d (linterName : string) : option stop :=
  match reg !! linterName with
  | None => Some (Failed (unknownError linterName))
  | Some linter =>
      match LinterFunc_ linter lctx path d with
      | Panic => Some Panicked
      | Return (Some err) => Some (Failed (failedError linterName path err (Explain linter)))
      | Return None => None
      end
  end.

(** ** What the enforcer asks of a registry *)

(** Every function of the registry returns when it is handed an entry. *)
Class Behaved reg : Prop :=
  behaved : forall n l, reg !! n = Some l -> Returns (LinterFunc_ l).

(** Two registries hold the same entries at the names of a list. *)
Definition agreeOn linters reg1 reg2 : Prop :=
  forall n, In n linters -> reg1 !! n = reg2 !! n.

(** The linter [l'] passes wherever [l] does. *)
Definition laxer l' l : Prop :=
  forall lctx path d,
    LinterFunc_ l lctx path d = Return None -> LinterFunc_ l' lctx path d = Return None.

(** ** Lemmas: the loop *)

Lemma lintLoopIn_Linters lctx path d linters :
  lintLoopIn Linters lctx path d linters = lintLoop lctx path d linters.
Proof. induction linters as [|n linters IH]; simpl; [done |]. by rewrite IH. Qed.

Lemma lintLoopIn_first_some reg lctx path d linters :
  lintLoopIn reg lctx path d linters = retOf (first_some (lintOneIn reg lctx path d) linters).
Proof.
  induction linters as [|n linters IH]; simpl; [reflexivity |]. unfold lintOneIn.
  destruct (reg !! n) as [l|]; [| reflexivity].
  destruct (LinterFunc_ l lctx path d) as [[e|]|]; [| exact IH | reflexivity].
  by rewrite Errorf_failed.
Qed.

Lemma lintOneIn_None reg lctx path d n :
  lintOneIn reg lctx path d n = None <->
  exists l, reg !! n = Some l /\ LinterFunc_ l lctx path d = Return None.
Proof.
  unfold lintOneIn. split.
  - destruct (reg !! n) as [l|]; [| discriminate].
    destruct (LinterFunc_ l lctx path d) as [[e|]|] eqn:E; [discriminate | eauto | discriminate].
  - by intros (l & -> & ->).
Qed.

(** A turn fails with an error that [fmt.Errorf] built, whatever the
    function of the registry returned. *)
Lemma lintOneIn_not_skip reg lctx path d n e :
  lintOneIn reg lctx path d n = Some (Failed e) -> isSkip e = false.
Proof.
  unfold lintOneIn. repeat case_match; intros; simplify_eq; [| done].
  by rewrite <- Errorf_failed, isSkip_Errorf.
Qed.

Lemma lintLoopIn_not_skip reg lctx path d linters e :
  lintLoopIn reg lctx path d linters = Return (Some e) -> isSkip e = false.
Proof.
  rewrite lintLoopIn_first_some, retOf_Some.
  intros (n & _ & Hn)%first_some_In. by eapply lintOneIn_not_skip.
Qed.

#[export] Instance walkCbIn_NeverSkips reg lctx linters :
  NeverSkips (walkCbIn reg lctx linters).
Proof.
  intros path d [err|] e; unfold walkCbIn.
  - intros [= <-]. apply isSkip_Errorf.
  - apply lintLoopIn_not_skip.
Qed.

Lemma apply_walkCbIn_error reg lctx linters path d err :
  apply (walkCbIn reg lctx linters) (path, d, Some err) =
  Some (Failed (traverseError path err)).
Proof. unfold apply, walkCbIn. by rewrite Errorf_traverse. Qed.

Lemma apply_walkCbIn_entry reg lctx linters path d :
  apply (walkCbIn reg lctx linters) (path, d, None) =
  first_some (lintOneIn reg lctx path d) linters.
Proof. unfold apply, walkCbIn. rewrite lintLoopIn_first_some. apply stopOf_retOf. Qed.

Lemma apply_walkCbIn_None reg lctx linters path d err :
  apply (walkCbIn reg lctx linters) (path, d, err) = None <->
  err = None /\ forall n, In n linters -> lintOneIn reg lctx path d n = None.
Proof.
  destruct err as [err|].
  - rewrite apply_walkCbIn_error. split; [discriminate | intros [? _]; discriminate].
  - rewrite apply_walkCbIn_entry, first_some_None, List.Forall_forall. tauto.
Qed.

(** The run over any registry ends as the first call of the walk that
    does not return [nil]. *)
Lemma lintPackageFsIn_events reg lctx fsys linters :
  lintPackageFsIn reg lctx fsys linters =
  retOf (first_some (apply (walkCbIn reg lctx linters)) (events fsys ".")).
Proof. unfold lintPackageFsIn. rewrite ret_eta. apply (WalkDir_first_some _). Qed.

(** ** Lemmas: registries that agree *)

#[export] Instance agreeOn_Equivalence linters : Equivalence (agreeOn linters).
Proof.
  split; [by intros reg n | by intros reg1 reg2 H n Hn; rewrite H |].
  intros reg1 reg2 reg3 H1 H2 n Hn. by rewrite H1, H2.
Qed.

Lemma agreeOn_insert linters reg n l : ~ In n linters -> agreeOn linters (<[n := l]> reg) reg.
Proof. intros Hn m Hm. apply lookup_insert_ne. by intros ->. Qed.

Lemma agreeOn_delete linters reg n : ~ In n linters -> agreeOn linters (delete n reg) reg.
Proof. intros Hn m Hm. apply lookup_delete_ne. by intros ->. Qed.

Lemma lintOneIn_agree linters reg1 reg2 lctx path d n :
  agreeOn linters reg1 reg2 -> In n linters ->
  lintOneIn reg1 lctx path d n = lintOneIn reg2 lctx path d n.
Proof. intros H Hn. unfold lintOneIn. by rewrite (H n Hn). Qed.

Lemma apply_walkCbIn_agree linters reg1 reg2 lctx c :
  agreeOn linters reg1 reg2 ->
  apply (walkCbIn reg1 lctx linters) c = apply (walkCbIn reg2 lctx linters) c.
Proof.
  intros H. destruct c as [[path d] [err|]];
    rewrite ?apply_walkCbIn_error, ?apply_walkCbIn_entry; [done |].
  apply first_some_ext. intros n Hn. by apply (lintOneIn_agree linters).
Qed.

(** ** Lemmas: registries that behave *)

#[export] Instance Linters_Behaved : Behaved Linters.
Proof. intros n l. apply Linters_Returns. Qed.

#[export] Instance empty_Behaved : Behaved ∅.
Proof. intros n l. by rewrite lookup_empty. Qed.

#[export] Instance insert_Behaved reg n l :
  Behaved reg -> Returns (LinterFunc_ l) -> Behaved (<[n := l]> reg).
Proof.
  intros Hreg Hl m l'. destruct (decide (n = m)) as [->|Hne].
  - rewrite lookup_insert_eq. by intros [= <-].
  - rewrite lookup_insert_ne by done. apply Hreg.
Qed.

#[export] Instance delete_Behaved reg n : Behaved reg -> Behaved (delete n reg).
Proof. intros Hreg m l Hm%lookup_delete_Some. by apply (Hreg m), Hm. Qed.

Section Behaved.

Context reg `{!Behaved reg}.

Lemma lintOneIn_no_panic lctx path (e : DirEntry) n :
  lintOneIn reg lctx path (Some e) n <> Some Panicked.
Proof.
  unfold lintOneIn. destruct (reg !! n) as [l|] eqn:E; [| done].
  pose proof (behaved n l E lctx path e).
  by destruct (LinterFunc_ l lctx path (Some e)) as [[e'|]|].
Qed.

Lemma apply_walkCbIn_no_panic lctx linters fsys root c :
  In c (events fsys root) -> apply (walkCbIn reg lctx linters) c <> Some Panicked.
Proof.
  intros (p & d & [err|] & -> & Hd)%events_entry; [by rewrite apply_walkCbIn_error |].
  destruct d as [e|]; [| destruct (Hd eq_refl eq_refl)].
  rewrite apply_walkCbIn_entry. intros (n & _ & Hn)%first_some_In.
  by apply lintOneIn_no_panic in Hn.
Qed.

Lemma lintPackageFsIn_not_Panic lctx fsys linters :
  lintPackageFsIn reg lctx fsys linters <> Panic.
Proof.
  rewrite lintPackageFsIn_events, retOf_Panic.
  intros (c & Hc & Hp)%first_some_In. exact (apply_walkCbIn_no_panic _ _ _ _ _ Hc Hp).
Qed.

End Behaved.

(** A run passes exactly when every call of the walk carries no error and
    every requested linter passes on it. *)
Lemma lintPackageFsIn_None reg lctx fsys linters :
  lintPackageFsIn reg lctx fsys linters = Return None <->
  forall path d err, In (path, d, err) (events fsys ".") ->
    err = None /\ forall n, In n linters -> lintOneIn reg lctx path d n = None.
Proof.
  rewrite lintPackageFsIn_events, retOf_None, first_some_None, List.Forall_forall. split.
  - intros H path d err Hin. apply apply_walkCbIn_None, H, Hin.
  - intros H [[path d] err] Hin. apply apply_walkCbIn_None, H, Hin.
Qed.

(** A requested name that the registry does not hold lets no run pass. *)
Lemma lintPackageFsIn_missing reg lctx fsys linters n :
  In n linters -> reg !! n = None -> lintPackageFsIn reg lctx fsys linters <> Return None.
Proof.
  intros Hn Hreg. rewrite lintPackageFsIn_None. intros H.
  destruct (events_head fsys ".") as (c & rest & Hev & [[err ->]|[e ->]]);
    destruct (H _ _ _ ltac:(rewrite Hev; by left)) as [? Hl]; [done |].
  apply Hl, lintOneIn_None in Hn as (l & Hl' & _). congruence.
Qed.

(** The program is the run over the registry of the source: the
    definitions of this file, at the map [Linters], are [lintPackageFs]
    and [walkCb]. *)
Lemma lintPackageFsIn_Linters lctx fsys linters :
  lintPackageFsIn Linters lctx fsys linters = lintPackageFs lctx fsys linters /\
  forall path d err,
    walkCbIn Linters lctx linters path d err = walkCb lctx linters path d err.
Proof.
  assert (forall path d err,
    walkCbIn Linters lctx linters path d err = walkCb lctx linters path d err) as Hcb.
  { intros path d [err|]; [done |]. apply lintLoopIn_Linters. }
  split; [| exact Hcb]. rewrite lintPackageFsIn_events, lintPackageFs_events.
  f_equal. apply first_some_ext. intros [[path d] err] _. unfold apply. by rewrite Hcb.
Qed.

(** Two registries over which the closure returns the same on every call
    of the walk give the same run. *)
Lemma lintPackageFsIn_ext reg1 reg2 lctx fsys linters :
  (forall c, In c (events fsys ".") ->
     apply (walkCbIn reg1 lctx linters) c = apply (walkCbIn reg2 lctx linters) c) ->
  lintPackageFsIn reg1 lctx fsys linters = lintPackageFsIn reg2 lctx fsys linters.
Proof. intros H. rewrite !lintPackageFsIn_events. f_equal. by apply first_some_ext. Qed.

(** ** Theorems *)

(** C23. A run reads the registry at the requested names only: over two
    registries that hold the same entries at the names of the list, the
    runs return the same, on every tree.  So an assignment to, or the
    deletion of, a name that is not requested changes no run. *)
Theorem lintPackageFsIn_agree reg1 reg2 lctx fsys linters :
  agreeOn linters reg1 reg2 ->
  lintPackageFsIn reg1 lctx fsys linters = lintPackageFsIn reg2 lctx fsys linters.
Proof.
  intros H. apply lintPackageFsIn_ext. intros c _. by apply apply_walkCbIn_agree.
Qed.

(** C24. Over a registry whose functions return, the run returns: it
    never panics, on any tree and for any list of names, and it returns
    an error as soon as a requested name is not in the registry, wherever
    the name stands in the list. *)
Theorem lintPackageFsIn_returns reg `{!Behaved reg} lctx fsys linters :
  lintPackageFsIn reg lctx fsys linters <> Panic /\
  forall n, In n linters -> reg !! n = None ->
    exists e, lintPackageFsIn reg lctx fsys linters = Return (Some e).
Proof.
  split; [by apply lintPackageFsIn_not_Panic |]. intros n Hn Hreg.
  pose proof (lintPackageFsIn_not_Panic reg lctx fsys linters).
  pose proof (lintPackageFsIn_missing reg lctx fsys linters n Hn Hreg).
  destruct (lintPackageFsIn reg lctx fsys linters) as [[e|]|]; [eauto | done..].
Qed.

(** A pass over any registry is sound and complete: the run returns [nil]
    exactly when the walk reported no error and, on every entry, every
    requested name is in the registry and its function returned [nil]. *)
Theorem lintPackageFsIn_sound reg lctx fsys linters :
  lintPackageFsIn reg lctx fsys linters = Return None <->
  forall path d err, In (path, d, err) (events fsys ".") ->
    err = None /\
    forall n, In n linters ->
      exists l, reg !! n = Some l /\ LinterFunc_ l lctx path d = Return None.
Proof.
  rewrite lintPackageFsIn_None. by setoid_rewrite lintOneIn_None.
Qed.

(** Replacing the entry of a name by a linter that passes wherever the
    old one did keeps every pass. *)
Theorem lintPackageFsIn_laxer reg n l l' lctx fsys linters :
  reg !! n = Some l -> laxer l' l ->
  lintPackageFsIn reg lctx fsys linters = Return None ->
  lintPackageFsIn (<[n := l']> reg) lctx fsys linters = Return None.
Proof.
  intros Hreg Hlax. rewrite !lintPackageFsIn_sound. intros H path d err Hin.
  destruct (H _ _ _ Hin) as [-> Hl]. split; [done |]. intros m Hm.
  destruct (Hl m Hm) as (lm & Hlm & Hf). destruct (decide (n = m)) as [->|Hne].
  - exists l'. rewrite lookup_insert_eq. split; [done |]. apply Hlax. congruence.
  - exists lm. by rewrite lookup_insert_ne.
Qed.

(** An assignment to a name that is not requested changes no run, and
    neither does its deletion. *)
Corollary lintPackageFsIn_insert_fresh reg n l lctx fsys linters :
  ~ In n linters ->
  lintPackageFsIn (<[n := l]> reg) lctx fsys linters = lintPackageFsIn reg lctx fsys linters.
Proof.
  intros Hn. apply lintPackageFsIn_ext. intros c _.
  by apply apply_walkCbIn_agree, agreeOn_insert.
Qed.

Corollary lintPackageFsIn_delete_fresh reg n lctx fsys linters :
  ~ In n linters ->
  lintPackageFsIn (delete n reg) lctx fsys linters = lintPackageFsIn reg lctx fsys linters.
Proof.
  intros Hn. apply lintPackageFsIn_ext. intros c _.
  by apply apply_walkCbIn_agree, agreeOn_delete.
Qed.

(** Deleting a requested name lets no run pass. *)
Corollary lintPackageFsIn_delete reg n lctx fsys linters :
  In n linters -> lintPackageFsIn (delete n reg) lctx fsys linters <> Return None.
Proof. intros Hn. by apply (lintPackageFsIn_missing _ _ _ _ n), lookup_delete_eq. Qed.

#[export] Instance lintPackageFsIn_Proper lctx fsys linters :
  Proper (agreeOn linters ==> eq) (fun reg => lintPackageFsIn reg lctx fsys linters).
Proof.
  intros reg1 reg2 H. apply lintPackageFsIn_ext. intros c _. by apply apply_walkCbIn_agree.
Qed.

End Registry.

(** ** The theorems at concrete registries *)

(** A linter that asks the walk to skip, one that panics, and one that
    passes everywhere. *)
Definition skipper : Linter unit unit :=
  {| LinterFunc_ := fun _ _ _ => Return (Some SkipDir); Explain := "none" |}.

Definition panicker : Linter unit unit :=
  {| LinterFunc_ := fun _ _ _ => Panic; Explain := "none" |}.

Definition passer : Linter unit unit :=
  {| LinterFunc_ := fun _ _ _ => Return None; Explain := "none" |}.

Lemma lintPackageFsIn_agree_witness :
  lintPackageFsIn (<["extra" := skipper]> Linters) (sampleCtx "hello") usrLocalFS linterNames =
  lintPackageFsIn Linters (sampleCtx "hello") usrLocalFS linterNames.
Proof.
  apply (lintPackageFsIn_agree (<["extra" := skipper]> Linters) Linters).
  apply agreeOn_insert. intros H. cbn in H. by destruct_or! H.
Defined.

Lemma lintPackageFsIn_returns_witness :
  lintPackageFsIn (delete "tempdir" Linters) (sampleCtx "hello") usrLocalFS linterNames
    <> Panic /\
  forall n, In n linterNames ->
    delete "tempdir" (Linters (Configuration := unit) (Checks := unit)) !! n = None ->
    exists e, lintPackageFsIn (delete "tempdir" Linters) (sampleCtx "hello") usrLocalFS
                linterNames = Return (Some e).
Proof.
  apply (lintPackageFsIn_returns (delete "tempdir" Linters)
           (Behaved0 := delete_Behaved _ _ Linters_Behaved)).
Defined.

(** A registered function that returns [fs.SkipDir] does not prune the
    walk: the loop wraps what it returns, and the run fails at the root. *)
Example skipper_fails :
  lintPackageFsIn {["skip" := skipper]} (sampleCtx "hello") usrLocalFS ["skip"] =
  Return (Some (failedError "skip" "." SkipDir "none")).
Proof. by vm_compute. Qed.

(** A registered function that panics makes the run panic: [Behaved] is
    what the run needs to return. *)
Example panicker_panics :
  lintPackageFsIn {["boom" := panicker]} (sampleCtx "hello") usrLocalFS ["boom"] = Panic.
Proof. by vm_compute. Qed.

(** After [delete(Linters, "usrlocal")] the tree that failed [usrlocal]
    fails with the unknown-linter error; after the entry is assigned a
    linter that passes everywhere, the tree passes. *)
Example usrlocal_deleted :
  lintPackageFsIn (delete "usrlocal" Linters) (sampleCtx "hello") usrLocalFS ["usrlocal"] =
  Return (Some (unknownError "usrlocal")).
Proof. by vm_compute. Qed.

Example usrlocal_replaced :
  lintPackageFsIn (<["usrlocal" := passer]> Linters) (sampleCtx "hello") usrLocalFS
    linterNames = Return None.
Proof. by vm_compute. Qed.
