(* ===== verification/Listing.v ===== *)
(** * Listings in directory order

    [fs.ReadDir] returns the entries of a directory sorted by file name:
    a file system that does not sort them itself has its listing sorted
    by the [io/fs] package before [fs.WalkDir] sees it.  The trees of
    [FS] hold a listing as [ReadDir] returns it; this file starts from a
    tree that holds each listing in the order the directory gave it and
    sorts it ([sortNode], [sortFS], with the sort [sortByName] of [FS]).

    When the names of each directory are distinct the sorted tree is a
    tree with sorted listings ([sortFS_sorted]), and a tree that is
    sorted already is left as it is ([sortFS_id]).  The calls of the walk
    of the sorted tree are the calls of the walk of the tree in another
    order ([events_sortFS]); so whether a run passes does not depend on
    the order in which a directory gives its entries, and the error of a
    failing run is that of the entry with the least key, whatever that
    order was ([lintPackageFs_sortFS]). *)

From stdpp Require Import gmap sorting.
From S2P Require Import Prelude Errors Regexp FS Linter Samples Enforce Order.

(** ** Sorting a tree *)

(** [fs.ReadDir] on every directory under a node: the listing, sorted by
    file name. *)
Fixpoint sortNode (n : fsnode) : fsnode :=
  match n with
  | FsNode d dirs rderr => FsNode d (sortByName (map sortNode dirs)) rderr
  end.

Definition sortFS (fsys : FS) : FS :=
  {| statRoot := statRoot fsys;
     rootDirs := sortByName (map sortNode (rootDirs fsys));
     rootErr := rootErr fsys |}.

(** No directory under the node holds a name twice. *)
Fixpoint distinctNode (n : fsnode) : bool :=
  match n with
  | FsNode _ dirs _ =>
      bool_decide (NoDup (map nodeName dirs)) &&
      (fix all (l : list fsnode) : bool :=
         match l with
         | [] => true
         | x :: l' => distinctNode x && all l'
         end) dirs
  end.

Definition distinctFS (fsys : FS) : bool :=
  match statRoot fsys with
  | Ok info => distinctNode (rootNode fsys info)
  | Err _ => true
  end.

(** A tree with its listings out of order: [b] before [a], and under [a]
    the file [z] before the setuid file [c]. *)
Definition rawFS : FS :=
  mkFS [dir "b" [file "x" (Z.lor perm755 ModeSetgid)];
        dir "a" [file "z" perm644; file "c" (Z.lor perm755 ModeSetuid)]].

(** ** Lemmas: the sorted tree *)

Lemma distinctNode_unfold d dirs rderr :
  distinctNode (FsNode d dirs rderr) = true <->
  NoDup (map nodeName dirs) /\ Forall (fun c => distinctNode c = true) dirs.
Proof.
  cbn [distinctNode]. rewrite andb_true_iff, bool_decide_eq_true.
  apply and_iff_compat_l. induction dirs as [|x l IH]; [by split; [constructor |] |].
  by rewrite andb_true_iff, IH, Forall_cons.
Qed.

Lemma readableNode_unfold d dirs rderr :
  readableNode (FsNode d dirs rderr) = true <->
  rderr = None /\ Forall (fun c => readableNode c = true) dirs.
Proof.
  cbn [readableNode]. destruct rderr as [err|]; [by split; [| intros []] |].
  induction dirs as [|x l IH]; [by split; [split; [| constructor] |] |].
  rewrite andb_true_iff, Forall_cons, IH. tauto.
Qed.

Lemma nodeName_sortNode n : nodeName (sortNode n) = nodeName n.
Proof. by destruct n. Qed.

Lemma map_nodeName_sortNode l : map nodeName (map sortNode l) = map nodeName l.
Proof. rewrite map_map. apply map_ext, nodeName_sortNode. Qed.

(** Sorting a listing keeps what holds of each of its nodes. *)
Lemma Forall_sortByName (P : fsnode -> Prop) l : Forall P (sortByName l) <-> Forall P l.
Proof. by rewrite (sortByName_perm l). Qed.

Lemma Forall_sorted_map (P : fsnode -> Prop) l :
  Forall (fun c => P (sortNode c)) l -> Forall P (sortByName (map sortNode l)).
Proof. intros H. by apply Forall_sortByName, Forall_fmap. Qed.

Lemma ltb_leb s t : String.ltb s t = true -> String.leb s t = true.
Proof. unfold String.ltb, String.leb. by destruct (String.compare s t). Qed.

(** A listing in increasing order of name is sorted already. *)
Lemma sortByName_id l : sortedNames l -> sortByName l = l.
Proof.
  induction 1 as [|x l Hl IH Hx]; [done |]. cbn [sortByName foldr].
  change (foldr insertByName [] l) with (sortByName l). rewrite IH.
  destruct Hx as [|y l' Hxy]; cbn [insertByName]; [done |]. by rewrite (ltb_leb _ _ Hxy).
Qed.

Lemma sortedNames_NoDup l : sortedNames l -> NoDup (map nodeName l).
Proof.
  intros Hs%Sorted_StronglySorted; [| intros x y z; apply ltb_trans].
  induction Hs as [|x l Hl IH Hx]; cbn [map]; constructor; [| done].
  intros (y & Hxy & Hy)%list_elem_of_fmap. rewrite Forall_forall in Hx.
  specialize (Hx y Hy). by rewrite <- Hxy, ltb_irrefl in Hx.
Qed.

(** Two listings in increasing order of name that hold the same nodes are
    the same listing. *)
Lemma sortedNames_unique l1 l2 : sortedNames l1 -> sortedNames l2 -> l1 ≡ₚ l2 -> l1 = l2.
Proof.
  apply Sorted_unique_strong; [intros x y z; apply ltb_trans |].
  intros x1 x2 _ _ H12 H21. pose proof (ltb_trans _ _ _ H12 H21) as H.
  by rewrite ltb_irrefl in H.
Qed.

Lemma sortNode_sorted n : distinctNode n = true -> sortedNode (sortNode n) = true.
Proof.
  induction n as [d dirs rderr IH] using fsnode_forall_ind. cbn [sortNode].
  rewrite distinctNode_unfold, sortedNode_unfold. intros [Hn Hd]. split.
  - apply sortByName_sortedNames. by rewrite map_nodeName_sortNode.
  - apply Forall_sorted_map. rewrite List.Forall_forall in *. eauto.
Qed.

Lemma sortNode_id n : sortedNode n = true -> sortNode n = n.
Proof.
  induction n as [d dirs rderr IH] using fsnode_forall_ind. cbn [sortNode].
  rewrite sortedNode_unfold. intros [Hn Hs].
  assert (map sortNode dirs = dirs) as ->; [| by rewrite sortByName_id].
  rewrite <- (map_id dirs) at 2. apply map_ext_in. rewrite List.Forall_forall in *. eauto.
Qed.

Lemma sortNode_readable n : readableNode (sortNode n) = readableNode n.
Proof.
  apply eq_true_iff_eq. induction n as [d dirs rderr IH] using fsnode_forall_ind.
  cbn [sortNode]. rewrite !readableNode_unfold, Forall_sortByName, Forall_fmap.
  apply and_iff_compat_l. rewrite !List.Forall_forall in *.
  split; intros H c Hc; apply (IH c Hc), H, Hc.
Qed.

(** ** Lemmas: the calls of the walk of the sorted tree *)

(** What is gathered from a sorted listing is what is gathered from the
    listing, in another order. *)
Lemma flat_map_sorted_perm {B} (f g : fsnode -> list B) l :
  Forall (fun c => f (sortNode c) ≡ₚ g c) l ->
  flat_map f (sortByName (map sortNode l)) ≡ₚ flat_map g l.
Proof.
  intros H. rewrite (Permutation_flat_map f (sortByName_perm _)).
  induction H as [|c l Hc _ IH]; [done |]. cbn [map flat_map]. by rewrite Hc, IH.
Qed.

Lemma dirsEvents_flat_map name l :
  dirsEvents name l = flat_map (fun d1 => nodeEvents (Join name (nodeName d1)) d1) l.
Proof. induction l as [|d1 l IH]; cbn [dirsEvents flat_map]; by rewrite ?IH. Qed.

Lemma nodeEvents_sortNode n : forall name, nodeEvents name (sortNode n) ≡ₚ nodeEvents name n.
Proof.
  induction n as [d dirs rderr IH] using fsnode_forall_ind. intros name.
  cbn [sortNode]. rewrite !nodeEvents_unfold, !dirsEvents_flat_map.
  destruct (IsDir d); [| done]. do 2 f_equiv. apply flat_map_sorted_perm.
  eapply Forall_impl; [exact IH |]. intros c Hc. by rewrite nodeName_sortNode.
Qed.

Lemma nodeKeyed_sortNode n : forall k, nodeKeyed k (sortNode n) ≡ₚ nodeKeyed k n.
Proof.
  induction n as [d dirs rderr IH] using fsnode_forall_ind. intros k.
  cbn [sortNode]. rewrite !nodeKeyed_unfold.
  destruct (IsDir d); [| done]. f_equiv. apply flat_map_sorted_perm.
  eapply Forall_impl; [exact IH |]. intros c Hc. by rewrite nodeName_sortNode.
Qed.

Lemma sortFS_readable fsys : readableFS (sortFS fsys) = readableFS fsys.
Proof.
  unfold readableFS. cbn [statRoot sortFS]. destruct (statRoot fsys) as [info|err]; [| done].
  apply (sortNode_readable (rootNode fsys info)).
Qed.

Lemma rootNode_sortFS fsys info : rootNode (sortFS fsys) info = sortNode (rootNode fsys info).
Proof. reflexivity. Qed.

(** The calls of the walk of the sorted tree are those of the tree. *)
Lemma events_sortFS fsys root : events (sortFS fsys) root ≡ₚ events fsys root.
Proof.
  unfold events. cbn [statRoot sortFS]. destruct (statRoot fsys) as [info|err]; [| done].
  rewrite rootNode_sortFS. apply nodeEvents_sortNode.
Qed.

Lemma keyed_sortFS fsys : keyed (sortFS fsys) ≡ₚ keyed fsys.
Proof.
  unfold keyed. cbn [statRoot sortFS]. destruct (statRoot fsys) as [info|err]; [| done].
  rewrite rootNode_sortFS. apply nodeKeyed_sortNode.
Qed.

(** ** Theorems: the sort *)

(** Sorting the listings of a tree in which no directory holds a name
    twice gives a tree with sorted listings. *)
Theorem sortFS_sorted fsys : distinctFS fsys = true -> sortedFS (sortFS fsys) = true.
Proof.
  unfold distinctFS, sortedFS. cbn [statRoot sortFS].
  destruct (statRoot fsys) as [info|err]; [| done]. rewrite rootNode_sortFS.
  apply sortNode_sorted.
Qed.

(** The sort is any sort: a listing in increasing order of name that
    holds the nodes of [l] is [sortByName l], whatever algorithm put it
    in order.  ([fs.ReadDir] sorts with the sort of [slices]; the model
    sorts by insertion.) *)
Theorem sortByName_unique l l' : l' ≡ₚ l -> sortedNames l' -> l' = sortByName l.
Proof.
  intros Hp Hs. apply sortedNames_unique; [done | | by rewrite sortByName_perm].
  apply sortByName_sortedNames. rewrite <- Hp. by apply sortedNames_NoDup.
Qed.

(** A tree with sorted listings whose root can be read is left as it
    is; when the root cannot be read its listing is never asked for. *)
Theorem sortFS_id fsys info :
  statRoot fsys = Ok info -> sortedFS fsys = true -> sortFS fsys = fsys.
Proof.
  unfold sortedFS. destruct fsys as [st dirs rderr]. cbn [statRoot]. intros ->.
  intros H%sortNode_id. unfold sortFS. cbn in *. by injection H as ->.
Qed.

Theorem events_sortFS_id fsys root :
  sortedFS fsys = true -> events (sortFS fsys) root = events fsys root.
Proof.
  destruct (statRoot fsys) as [info|err] eqn:E; [by intros ->%(sortFS_id _ info) |].
  intros _. unfold events. cbn [statRoot sortFS]. by rewrite E.
Qed.

(** ** Theorems: the run on the sorted tree *)

Section Runs.

Context {Configuration Checks : Type}.
Implicit Types (lctx : LinterContext Configuration Checks) (linters : list string)
  (fsys : FS).

(** C27. Whether a run passes does not depend on the order in which the
    directories give their entries: the run on the tree with its listings
    sorted returns [nil] exactly when the run on the tree as it is does,
    and when one fails so does the other, with an error that [walkCb]
    returns on a call of both walks.  Only which error is returned
    depends on the order. *)
Theorem lintPackageFs_sortFS_pass lctx fsys linters :
  (lintPackageFs lctx (sortFS fsys) linters = Return None <->
   lintPackageFs lctx fsys linters = Return None) /\
  forall e, lintPackageFs lctx (sortFS fsys) linters = Return (Some e) ->
    (exists e', lintPackageFs lctx fsys linters = Return (Some e')) /\
    exists c, In c (events fsys ".") /\ apply (walkCb lctx linters) c = Some (Failed e).
Proof.
  assert (lintPackageFs lctx (sortFS fsys) linters = Return None <->
          lintPackageFs lctx fsys linters = Return None) as Hpass.
  { rewrite !lintPackageFs_events, !retOf_None, !first_some_None. by rewrite events_sortFS. }
  split; [exact Hpass |]. intros e He. split.
  - apply lintPackageFs_not_None. rewrite <- Hpass, He. discriminate.
  - rewrite lintPackageFs_events, retOf_Some in He.
    apply first_some_In in He as (c & Hc & Hf). exists c. split; [| done].
    apply list_elem_of_In. rewrite <- (events_sortFS fsys "."). by apply list_elem_of_In.
Qed.

(** C25. Which violation a run reports, whatever the order in which the
    directories give their entries: on a tree that can be read and in
    which no directory holds a name twice, [fs.ReadDir] sorts each
    listing, and [lintPackageFs] returns the error [e] exactly when
    [walkCb] returns [e] on some entry of the tree and returns [nil] on
    every entry with a smaller key.  The order of the keys is that of the
    names on the way from the root, compared one by one, a directory
    before what is under it. *)
Theorem lintPackageFs_sortFS lctx fsys linters e :
  distinctFS fsys = true -> readableFS fsys = true ->
  lintPackageFs lctx (sortFS fsys) linters = Return (Some e) <->
  exists k d,
    In (k, d) (keyed fsys) /\
    walkCb lctx linters (joinKey k) (Some d) None = Return (Some e) /\
    forall k' d', In (k', d') (keyed fsys) -> keyLt k' k ->
      walkCb lctx linters (joinKey k') (Some d') None = Return None.
Proof.
  intros Hd Hr.
  assert (forall kd, In kd (keyed (sortFS fsys)) <-> In kd (keyed fsys)) as Hin.
  { intros kd. rewrite <- !list_elem_of_In. by rewrite keyed_sortFS. }
  rewrite lintPackageFs_reports_least;
    [| by apply sortFS_sorted | by rewrite sortFS_readable].
  by repeat setoid_rewrite Hin.
Qed.

(** On a tree with sorted listings the sort changes no run. *)
Theorem lintPackageFs_sortFS_id lctx fsys linters :
  sortedFS fsys = true ->
  lintPackageFs lctx (sortFS fsys) linters = lintPackageFs lctx fsys linters.
Proof. intros Hs. by rewrite !lintPackageFs_events, events_sortFS_id. Qed.

End Runs.

(** ** The theorems at a concrete tree *)

Lemma lintPackageFs_sortFS_witness :
  lintPackageFs (sampleCtx "hello") (sortFS rawFS) ["setuidgid"] =
  Return (Some (failedError "setuidgid" "a/c" (errorString "File is setuid")
                  "Unset the setuid/setgid bit on the relevant files, or remove this linter")) <->
  exists k d,
    In (k, d) (keyed rawFS) /\
    walkCb (sampleCtx "hello") ["setuidgid"] (joinKey k) (Some d) None =
    Return (Some (failedError "setuidgid" "a/c" (errorString "File is setuid")
                    "Unset the setuid/setgid bit on the relevant files, or remove this linter")) /\
    forall k' d', In (k', d') (keyed rawFS) -> keyLt k' k ->
      walkCb (sampleCtx "hello") ["setuidgid"] (joinKey k') (Some d') None = Return None.
Proof.
  apply (lintPackageFs_sortFS (sampleCtx "hello") rawFS ["setuidgid"]); reflexivity.
Defined.

Lemma lintPackageFs_sortFS_pass_witness :
  (lintPackageFs (sampleCtx "hello") (sortFS rawFS) ["tempdir"] = Return None <->
   lintPackageFs (sampleCtx "hello") rawFS ["tempdir"] = Return None) /\
  forall e, lintPackageFs (sampleCtx "hello") (sortFS rawFS) ["tempdir"] = Return (Some e) ->
    (exists e', lintPackageFs (sampleCtx "hello") rawFS ["tempdir"] = Return (Some e')) /\
    exists c, In c (events rawFS ".") /\
      apply (walkCb (sampleCtx "hello") ["tempdir"]) c = Some (Failed e).
Proof. apply (lintPackageFs_sortFS_pass (sampleCtx "hello") rawFS ["tempdir"]). Defined.

(** The walk of the tree as the directories give it reports the setgid
    file under [b]; with the listings sorted, as [fs.ReadDir] returns
    them, the run reports the setuid file under [a]. *)
Example sort_changes_the_report :
  lintPackageFs (sampleCtx "hello") rawFS ["setuidgid"] =
  Return (Some (failedError "setuidgid" "b/x" (errorString "File is setgid")
                  "Unset the setuid/setgid bit on the relevant files, or remove this linter")) /\
  lintPackageFs (sampleCtx "hello") (sortFS rawFS) ["setuidgid"] =
  Return (Some (failedError "setuidgid" "a/c" (errorString "File is setuid")
                  "Unset the setuid/setgid bit on the relevant files, or remove this linter")).
Proof. split; by vm_compute. Qed.
