(* ===== verification/Root.v ===== *)
(** * The run on the root

    [fs.WalkDir] calls the closure of [lintPackageFs] on the root first,
    at the path [.]: with the error of [Stat] when the root cannot be
    read, and else with the entry of the root, which the linters see
    like any other entry.  This file gives the result of the run in the
    cases this first call decides: an unreadable root, a failure of a
    linter on the root, a list with a name that is not in the registry
    ([lintPackageFs_unknown_exact]), and the tree that holds nothing but
    its root ([default_checks_root_only]). *)

From stdpp Require Import gmap.
From S2P Require Import Prelude Errors Regexp FS Linter Samples Enforce Taxonomy Order Paths Checks.

(** The tree that holds nothing but its root. *)
Definition emptyTree (info : FileInfo) : FS :=
  {| statRoot := Ok info; rootDirs := []; rootErr := None |}.

Section Root.

Context {Configuration Checks : Type}.
Implicit Types (lctx : LinterContext Configuration Checks) (linters : list string)
  (fsys : FS) (info : FileInfo).

(** ** Lemmas *)

(** The first call of the walk. *)
Lemma events_root fsys info :
  statRoot fsys = Ok info ->
  exists rest, events fsys "." = (".", Some (FileInfoToDirEntry info), None) :: rest.
Proof. intros Hs. unfold events, rootNode. rewrite Hs, nodeEvents_unfold. eauto. Qed.

Lemma events_emptyTree info :
  events (emptyTree info) "." = [(".", Some (FileInfoToDirEntry info), None)].
Proof. unfold events, rootNode. cbn. by destruct (IsDir _). Qed.

(** The run ends on the root when the loop does not return [nil] on it. *)
Lemma lintPackageFs_root lctx fsys info linters :
  statRoot fsys = Ok info ->
  lintLoop lctx "." (Some (FileInfoToDirEntry info)) linters <> Return None ->
  lintPackageFs lctx fsys linters =
  lintLoop lctx "." (Some (FileInfoToDirEntry info)) linters.
Proof.
  intros [rest Hev]%events_root Hl. rewrite lintPackageFs_events, Hev.
  cbn [first_some apply walkCb].
  destruct (lintLoop _ _ _ _) as [[e|]|]; done.
Qed.

(** The loop on a list with a name that is not in the registry. *)
Lemma lintLoop_unknown lctx path d l1 n l2 :
  ~ In n linterNames ->
  lintLoop lctx path d (l1 ++ n :: l2) =
  match lintLoop lctx path d l1 with
  | Return None => Return (Some (unknownError n))
  | r => r
  end.
Proof.
  intros Hu. rewrite lintLoop_order. cbn [lintLoop].
  by rewrite (Linters_lookup_None n Hu), Errorf_unknown.
Qed.

(** No path linter fails on the path of the root. *)
Lemma lintOne_root_paths lctx d :
  lintOne lctx "." d "tempdir" = None /\ lintOne lctx "." d "usrlocal" = None /\
  lintOne lctx "." d "varempty" = None.
Proof.
  rewrite lintOne_tempdir, lintOne_usrlocal, lintOne_varempty.
  by destruct (HasSuffix (pkgname lctx) "-compat").
Qed.

(** ** Theorems *)

(** When [Stat] fails on the root the run returns the traversal error at
    [.], whatever the list of names: no name is looked up. *)
Theorem lintPackageFs_unreadable_root lctx fsys linters err :
  statRoot fsys = Err err ->
  lintPackageFs lctx fsys linters = Return (Some (traverseError "." err)).
Proof.
  intros Hs. rewrite lintPackageFs_events. unfold events. rewrite Hs.
  cbn [first_some]. by rewrite apply_walkCb_error.
Qed.

(** C20. The result of a run with a name that is not in the registry,
    on every tree.  When the root cannot be read it is the traversal
    error at [.]; else it is what the linters named before the unknown
    name return on the root, when one of them fails or panics there, and
    the unknown-linter error for the name when they all pass.  So the
    run always fails, on the root, but with the unknown-linter error only
    in the last case. *)
Theorem lintPackageFs_unknown_exact lctx fsys l1 n l2 :
  ~ In n linterNames ->
  lintPackageFs lctx fsys (l1 ++ n :: l2) =
  match statRoot fsys with
  | Err err => Return (Some (traverseError "." err))
  | Ok info =>
      match lintLoop lctx "." (Some (FileInfoToDirEntry info)) l1 with
      | Return None => Return (Some (unknownError n))
      | r => r
      end
  end.
Proof.
  intros Hu. destruct (statRoot fsys) as [info|err] eqn:Hs;
    [| by apply lintPackageFs_unreadable_root].
  rewrite (lintPackageFs_root _ _ info _ Hs); rewrite (lintLoop_unknown _ _ _ _ _ _ Hu);
    by destruct (lintLoop lctx "." _ l1) as [[e|]|].
Qed.

(** The run on the tree that holds nothing but its root is the loop on
    the root. *)
Theorem lintPackageFs_emptyTree lctx info linters :
  lintPackageFs lctx (emptyTree info) linters =
  lintLoop lctx "." (Some (FileInfoToDirEntry info)) linters.
Proof.
  rewrite lintPackageFs_events, events_emptyTree. cbn [first_some apply walkCb].
  by destruct (lintLoop _ _ _ _) as [[e|]|].
Qed.

(** C21. The default checks on an empty tree.  The root is an entry: the
    run of the four registered checks on the tree that holds nothing but
    its root passes exactly when the mode of the root has neither the
    setuid nor the setgid bit; when it has one, the run fails with the
    [setuidgid] violation at the path [.]. *)
Theorem default_checks_root_only lctx info :
  (lintPackageFs lctx (emptyTree info) linterNames = Return None <->
   hasMode (Mode info) ModeSetuid = false /\ hasMode (Mode info) ModeSetgid = false) /\
  forall cause, setuidgidCause (FileInfoToDirEntry info) = Some cause ->
    lintPackageFs lctx (emptyTree info) linterNames =
    Return (Some (failedError "setuidgid" "." cause (hint "setuidgid"))).
Proof.
  rewrite lintPackageFs_emptyTree, lintLoop_first_some. unfold linterNames.
  destruct (lintOne_root_paths lctx (Some (FileInfoToDirEntry info))) as (Ht & Hu & Hv).
  cbn [first_some]. rewrite Ht, Hu, Hv, lintOne_setuidgid. unfold setuidgidCause.
  cbn [Info FileInfoToDirEntry].
  destruct (hasMode (Mode info) ModeSetuid), (hasMode (Mode info) ModeSetgid); cbn;
    (split; [split; [try done; by intros [] | try done; by intros [] ] |]);
    intros cause [= <-]; reflexivity.
Qed.

End Root.

(** ** The theorems at concrete trees *)

Lemma lintPackageFs_unknown_exact_witness :
  lintPackageFs (sampleCtx "hello") setgidRootFS (["setuidgid"] ++ "bogus" :: []) =
  match statRoot setgidRootFS with
  | Err err => Return (Some (traverseError "." err))
  | Ok info =>
      match lintLoop (sampleCtx "hello") "." (Some (FileInfoToDirEntry info)) ["setuidgid"] with
      | Return None => Return (Some (unknownError "bogus"))
      | r => r
      end
  end.
Proof.
  apply (lintPackageFs_unknown_exact (sampleCtx "hello") setgidRootFS ["setuidgid"] "bogus" []).
  intros H. cbn in H. by destruct_or! H.
Defined.

Lemma default_checks_root_only_witness :
  (lintPackageFs (sampleCtx "hello") (emptyTree (mkInfo "." (Z.lor ModeDir perm755)))
     linterNames = Return None <->
   hasMode (Mode (mkInfo "." (Z.lor ModeDir perm755))) ModeSetuid = false /\
   hasMode (Mode (mkInfo "." (Z.lor ModeDir perm755))) ModeSetgid = false) /\
  forall cause,
    setuidgidCause (FileInfoToDirEntry (mkInfo "." (Z.lor ModeDir perm755))) = Some cause ->
    lintPackageFs (sampleCtx "hello") (emptyTree (mkInfo "." (Z.lor ModeDir perm755)))
      linterNames =
    Return (Some (failedError "setuidgid" "." cause (hint "setuidgid"))).
Proof.
  apply (default_checks_root_only (sampleCtx "hello") (mkInfo "." (Z.lor ModeDir perm755))).
Defined.

(** The empty tree of the samples passes the default checks; under a
    root with the setgid bit it fails them. *)
Example empty_tree_samples :
  lintPackageFs (sampleCtx "hello") emptyFS linterNames = Return None /\
  lintPackageFs (sampleCtx "hello") setgidRootFS linterNames =
  Return (Some (failedError "setuidgid" "." (errorString "File is setgid")
                  (hint "setuidgid"))).
Proof. split; by vm_compute. Qed.
