(* ===== verification/Lexico.v ===== *)
(** * The order of the walk against the order of the paths

    The walk visits the entries in the order of their keys ([Order]): a
    directory before what is under it, the names of a listing in
    increasing order.  The order of the paths as strings is another
    order, in which the slash that [path.Join] puts between two names
    takes part in the comparison.  This file shows when the two agree:
    when every byte of every name is above the slash, the key [k1] is
    before [k2] exactly when the path of [k1] is the smaller string
    ([keyLt_paths]).  On such a tree the entries are visited in
    increasing order of path and a failing run reports the violation
    with the least path ([lintPackageFs_reports_least_path]).  A name
    with a byte below the slash, such as a hyphen or a dot, breaks the
    agreement, whatever the names are: beside a directory [x] that holds
    [y], an entry [x-z] is visited after [x/y] though its path is the
    smaller string ([walk_parts_from_path_order], and the sample
    [hyphen_before_slash]). *)

From stdpp Require Import gmap sorting.
From S2P Require Import Prelude Errors Regexp FS Linter Samples Enforce Order Paths Checks.

(** ** Names above the slash *)

(** Every byte of the string is above the slash. *)
Fixpoint aboveSlash (s : string) : bool :=
  match s with
  | EmptyString => true
  | String c s' => Ascii.ltb "/" c && aboveSlash s'
  end.

Definition plainName (s : string) : bool := negb (String.eqb s "") && aboveSlash s.

Definition plainKey (k : key) : bool := forallb plainName k.

(** Every name of the tree is made of bytes above the slash. *)
Definition plainFS (fsys : FS) : bool :=
  forallb (fun kd : key * DirEntry => plainKey (fst kd)) (keyed fsys).

(** What follows a name in a path: nothing, or a slash and more. *)
Definition tail (s : string) : Prop := s = "" \/ exists s', s = String "/" s'.

(** The files [a/b] and [ab], both setuid: the walk reports [a/b], the
    smaller path. *)
Definition plainOrderFS : FS :=
  mkFS [dir "a" [file "b" (Z.lor perm755 ModeSetuid)]; file "ab" (Z.lor perm755 ModeSetuid)].

(** A setuid file [y] in the directory [x], and beside the directory a
    setuid file whose name is [x], a byte [c] and [z]. *)
Definition partedFS (x y z : string) (c : ascii) : FS :=
  mkFS [dir x [file y (Z.lor perm755 ModeSetuid)];
        file (x +:+ String c z) (Z.lor perm755 ModeSetuid)].

(** ** Lemmas: comparing strings *)

Lemma compare_app_same p s t : String.compare (p +:+ s) (p +:+ t) = String.compare s t.
Proof.
  induction p as [|c p IH]; [done |]. rewrite !string_app_cons. cbn [String.compare].
  by rewrite ascii_compare_refl.
Qed.

Lemma compare_cons c s t :
  String.compare (String c s) (String c t) = String.compare s t.
Proof. cbn [String.compare]. by rewrite ascii_compare_refl. Qed.

Lemma above_Gt c : Ascii.ltb "/" c = true -> Ascii.compare c "/" = Gt.
Proof.
  unfold Ascii.ltb. rewrite (Ascii.compare_antisym c "/").
  by destruct (Ascii.compare "/" c).
Qed.

Lemma above_Lt c : Ascii.ltb "/" c = true -> Ascii.compare "/" c = Lt.
Proof. unfold Ascii.ltb. by destruct (Ascii.compare "/" c). Qed.

Lemma above_dot c : Ascii.ltb "/" c = true -> Ascii.compare "." c = Lt.
Proof. intros H%above_Lt. by apply (ascii_compare_Lt_trans "." "/" c). Qed.

Lemma tail_slashed l : tail (slashed l).
Proof. destruct l as [|x l]; [by left | right]. cbn [slashed]. rewrite string_app_cons. eauto. Qed.

(** Two names that differ compare the same when more of a path follows
    each: the slash that follows the shorter one is below the next byte
    of the longer one. *)
Lemma compare_names x : forall y s t,
  aboveSlash x = true -> aboveSlash y = true -> tail s -> tail t -> x <> y ->
  String.compare (x +:+ s) (y +:+ t) = String.compare x y.
Proof.
  induction x as [|c x IH]; intros [|c' y] s t Hx Hy Hs Ht Hne; [done | | |];
    cbn [aboveSlash] in *; rewrite ?string_app_cons, ?string_app_nil_l;
    repeat match goal with H : _ && _ = true |- _ => apply andb_true_iff in H as [? ?] end.
  - destruct Hs as [->|[s' ->]]; cbn [String.compare]; [done |]. by rewrite above_Lt.
  - destruct Ht as [->|[t' ->]]; cbn [String.compare]; [done |]. by rewrite above_Gt.
  - cbn [String.compare]. destruct (Ascii.compare c c') eqn:E; [| done..].
    apply Ascii.compare_eq_iff in E as ->. apply IH; [done.. |]. congruence.
Qed.

(** ** Lemmas: keys and paths *)

Lemma plainName_spec x :
  plainName x = true <-> x <> "" /\ aboveSlash x = true.
Proof. unfold plainName. by rewrite andb_true_iff, negb_true_iff, String.eqb_neq. Qed.

Lemma aboveSlash_noSlash x : aboveSlash x = true -> noSlash x = true.
Proof.
  induction x as [|c x IH]; [done |]. cbn [aboveSlash noSlash].
  rewrite !andb_true_iff, negb_true_iff. intros [Hc Hx]. split; [| by apply IH].
  destruct (Ascii.eqb_spec c "/") as [->|]; [| done]. by vm_compute in Hc.
Qed.

(** A name above the slash is a file name. *)
Lemma plainName_valid x : plainName x = true -> validName x = true.
Proof.
  intros [Hne Ha]%plainName_spec. apply validName_spec.
  split_and!; [done | | | by apply aboveSlash_noSlash]; intros ->; by vm_compute in Ha.
Qed.

Lemma plainKey_valid k : plainKey k = true -> validKey k = true.
Proof.
  unfold plainKey, validKey. rewrite !forallb_forall. intros H x Hx.
  by apply plainName_valid, H.
Qed.

Lemma keyLt_cons_iff x y l1 l2 :
  keyLt (x :: l1) (y :: l2) <-> String.ltb x y = true \/ (x = y /\ keyLt l1 l2).
Proof.
  split; [intros H; inv H; auto | intros [H|[-> H]]; by constructor].
Qed.

Lemma ltb_compare s t : String.ltb s t = true <-> String.compare s t = Lt.
Proof. unfold String.ltb. by destruct (String.compare s t). Qed.

(** The step of the comparison at a name. *)
Lemma keyLt_step x y l1 l2 :
  plainName x = true -> plainName y = true ->
  (keyLt l1 l2 <-> String.compare (slashed l1) (slashed l2) = Lt) ->
  keyLt (x :: l1) (y :: l2) <->
  String.compare (x +:+ slashed l1) (y +:+ slashed l2) = Lt.
Proof.
  intros [_ Hx]%plainName_spec [_ Hy]%plainName_spec IH. rewrite keyLt_cons_iff.
  destruct (decide (x = y)) as [->|Hne].
  - rewrite compare_app_same, <- IH, ltb_irrefl. intuition congruence.
  - rewrite (compare_names x y) by auto using tail_slashed. rewrite ltb_compare. tauto.
Qed.

Lemma keyLt_slashed l1 : forall l2,
  plainKey l1 = true -> plainKey l2 = true ->
  keyLt l1 l2 <-> String.compare (slashed l1) (slashed l2) = Lt.
Proof.
  induction l1 as [|x l1 IH]; intros [|y l2]; cbn [plainKey forallb slashed];
    rewrite ?andb_true_iff; intros H1 H2.
  - split; [intros H; inv H | done].
  - rewrite string_app_cons. split; [done | constructor].
  - rewrite string_app_cons. split; [intros H; inv H | done].
  - destruct H1 as [Hx H1], H2 as [Hy H2].
    rewrite !(string_app_cons "/" ""), !string_app_nil_l, compare_cons.
    apply keyLt_step; [done.. |]. by apply IH.
Qed.

Lemma plainName_head x s :
  plainName x = true -> exists c r, x +:+ s = String c r /\ Ascii.ltb "/" c = true.
Proof.
  intros [Hne Ha]%plainName_spec. destruct x as [|c x]; [done |].
  cbn [aboveSlash] in Ha. apply andb_true_iff in Ha as [Hc _].
  exists c, (x +:+ s). by rewrite string_app_cons.
Qed.

(** The order of the keys is the order of the paths, for names above the
    slash. *)
Lemma keyLt_joinPath k1 k2 :
  plainKey k1 = true -> plainKey k2 = true ->
  keyLt k1 k2 <-> String.ltb (joinPath k1) (joinPath k2) = true.
Proof.
  rewrite ltb_compare. destruct k1 as [|x l1], k2 as [|y l2]; cbn [plainKey forallb joinPath];
    rewrite ?andb_true_iff; intros H1 H2.
  - split; [intros H; inv H | done].
  - destruct H2 as [(c & r & -> & Hc)%(plainName_head y (slashed l2)) _].
    cbn [String.compare]. rewrite (above_dot c Hc). split; [done | constructor].
  - destruct H1 as [(c & r & -> & Hc)%(plainName_head x (slashed l1)) _].
    cbn [String.compare]. rewrite (Ascii.compare_antisym c "."), (above_dot c Hc).
    split; [intros H; inv H | done].
  - destruct H1 as [Hx H1], H2 as [Hy H2]. apply keyLt_step; [done.. |].
    by apply keyLt_slashed.
Qed.

(** ** Lemmas: the tree [partedFS] *)

Lemma IsDir_mkEntry name m : IsDir (mkEntry name m) = hasMode m ModeDir.
Proof. apply IsDir_FileInfoToDirEntry. Qed.

(** A string is below what extends it. *)
Lemma ltb_extended x c z : String.ltb x (x +:+ String c z) = true.
Proof.
  apply ltb_compare. rewrite <- (string_app_nil_r x) at 1. by rewrite compare_app_same.
Qed.

(** A byte below the slash puts the name before the path into the
    directory. *)
Lemma ltb_below_slash x y z c :
  Ascii.ltb c "/" = true -> String.ltb (x +:+ String c z) (x +:+ "/" +:+ y) = true.
Proof.
  intros Hc. apply ltb_compare. rewrite compare_app_same, string_app_cons.
  cbn [String.compare]. unfold Ascii.ltb in Hc. by destruct (Ascii.compare c "/").
Qed.

Lemma keyed_partedFS x y z c :
  keyed (partedFS x y z c) =
  [([], mkEntry "." (Z.lor ModeDir perm755)); ([x], mkEntry x (Z.lor ModeDir perm755));
   ([x; y], mkEntry y (Z.lor perm755 ModeSetuid));
   ([x +:+ String c z], mkEntry (x +:+ String c z) (Z.lor perm755 ModeSetuid))].
Proof.
  unfold keyed, partedFS, mkFS, rootNode, dir, file. cbn [statRoot rootDirs rootErr].
  change (FileInfoToDirEntry (mkInfo ?n ?m)) with (mkEntry n m).
  cbn [nodeKeyed flat_map]. rewrite !IsDir_mkEntry.
  by replace (hasMode (Z.lor ModeDir perm755) ModeDir) with true by reflexivity.
Qed.

(** The paths the walk builds on [partedFS]. *)
Lemma visits_partedFS x y z c :
  validName x = true -> validName y = true -> validName (x +:+ String c z) = true ->
  visits (partedFS x y z c) "." =
  [(".", mkEntry "." (Z.lor ModeDir perm755)); (x, mkEntry x (Z.lor ModeDir perm755));
   (x +:+ "/" +:+ y, mkEntry y (Z.lor perm755 ModeSetuid));
   (x +:+ String c z, mkEntry (x +:+ String c z) (Z.lor perm755 ModeSetuid))].
Proof.
  intros Hx Hy Hz. rewrite visits_keyed, keyed_partedFS. cbn [map fst snd].
  rewrite !joinKey_joinPath by (cbn [validKey forallb]; by rewrite ?Hx, ?Hy, ?Hz).
  cbn [joinPath slashed]. by rewrite !string_app_nil_r.
Qed.

(** ** Theorems *)

(** The order of the walk is the order of the paths when every byte of
    every name is above the slash: the key [k1] is before the key [k2]
    exactly when the path the walk builds for [k1] is the smaller
    string. *)
Theorem keyLt_paths k1 k2 :
  plainKey k1 = true -> plainKey k2 = true ->
  keyLt k1 k2 <-> String.ltb (joinKey k1) (joinKey k2) = true.
Proof.
  intros H1 H2. rewrite !joinKey_joinPath by by apply plainKey_valid.
  by apply keyLt_joinPath.
Qed.

Section Reported.

Context {Configuration Checks : Type}.
Implicit Types (lctx : LinterContext Configuration Checks) (linters : list string)
  (fsys : FS).

(** C26. Where the walk is in the order of the paths.  On a tree that can
    be read, with sorted listings, in which every byte of every name is
    above the slash, [lintPackageFs] returns the error [e] exactly when
    [walkCb] returns [e] on some visited path and returns [nil] on every
    visited path that is a smaller string: the run reports the violation
    with the least path, as a walk in lexicographic order of the paths
    would.  (A name with a byte below the slash, a hyphen or a dot,
    breaks this: [hyphen_before_slash].) *)
Theorem lintPackageFs_reports_least_path lctx fsys linters e :
  sortedFS fsys = true -> readableFS fsys = true -> plainFS fsys = true ->
  lintPackageFs lctx fsys linters = Return (Some e) <->
  exists path d,
    In (path, d) (visits fsys ".") /\
    walkCb lctx linters path (Some d) None = Return (Some e) /\
    forall path' d', In (path', d') (visits fsys ".") -> String.ltb path' path = true ->
      walkCb lctx linters path' (Some d') None = Return None.
Proof.
  intros Hs Hr Hp. unfold plainFS in Hp. rewrite forallb_forall in Hp.
  rewrite (lintPackageFs_reports_least _ _ _ _ Hs Hr), visits_keyed. split.
  - intros (k & d & Hin & He & Hl). exists (joinKey k), d. split_and!; [| done |].
    { apply in_map_iff. by exists (k, d). }
    intros path' d' ([k' e'] & [= <- <-] & Hin')%in_map_iff Hlt.
    apply (Hl k' e' Hin'), keyLt_paths; [exact (Hp _ Hin') | exact (Hp _ Hin) | done].
  - intros (path & d & ([k e'] & [= <- <-] & Hin)%in_map_iff & He & Hl).
    exists k, e'. split_and!; [done.. |]. intros k' d' Hin' Hlt.
    apply (Hl (joinKey k') d'); [apply in_map_iff; by exists (k', d') |].
    apply keyLt_paths; [exact (Hp _ Hin') | exact (Hp _ Hin) | done].
Qed.

(** C40. Where the walk is not in the order of the paths.  Whatever the
    file names [x], [y] and [x c z] are, with [c] a byte below the slash (a
    hyphen, a dot, a space), on the tree that holds the setuid file [y] in
    the directory [x] and the setuid file [x c z] beside the directory,
    whose listings are sorted, the run of [setuidgid] reports [x/y]; the
    path [x c z] is a smaller string, it is visited too, and the linter
    fails on it as well.  So the violation a run reports is the first in
    the order of the walk and not, in general, the one with the least
    path. *)
Theorem walk_parts_from_path_order lctx x y z c :
  validName x = true -> validName y = true -> validName (x +:+ String c z) = true ->
  Ascii.ltb c "/" = true ->
  sortedFS (partedFS x y z c) = true /\ readableFS (partedFS x y z c) = true /\
  String.ltb (x +:+ String c z) (x +:+ "/" +:+ y) = true /\
  (exists d, In (x +:+ String c z, d) (visits (partedFS x y z c) ".") /\
             walkCb lctx ["setuidgid"] (x +:+ String c z) (Some d) None <> Return None) /\
  lintPackageFs lctx (partedFS x y z c) ["setuidgid"] =
  Return (Some (failedError "setuidgid" (x +:+ "/" +:+ y) (errorString "File is setuid")
                  "Unset the setuid/setgid bit on the relevant files, or remove this linter")).
Proof.
  intros Hx Hy Hz Hc. pose proof (visits_partedFS x y z c Hx Hy Hz) as Hv.
  assert (readableFS (partedFS x y z c) = true) as Hr by reflexivity.
  split_and!; [| done | by apply ltb_below_slash | |].
  - unfold sortedFS, partedFS, mkFS, rootNode, dir, file. cbn. by rewrite ltb_extended.
  - eexists. rewrite Hv. split; [do 3 right; by left |].
    intros H. apply (f_equal stopOf) in H. revert H.
    change (stopOf (walkCb ?l ?n ?p ?d ?e)) with (apply (walkCb l n) (p, d, e)).
    rewrite apply_walkCb_entry. cbn [first_some]. by rewrite lintOne_setuidgid.
  - rewrite (lintPackageFs_single _ _ _ Hr), Hv. cbn [first_some fst snd].
    by rewrite !lintOne_setuidgid.
Qed.

End Reported.

(** ** The theorem at a concrete tree, and a tree on which it fails *)

Lemma lintPackageFs_reports_least_path_witness :
  lintPackageFs (sampleCtx "hello") plainOrderFS ["setuidgid"] =
  Return (Some (failedError "setuidgid" "a/b" (errorString "File is setuid")
                  "Unset the setuid/setgid bit on the relevant files, or remove this linter")) <->
  exists path d,
    In (path, d) (visits plainOrderFS ".") /\
    walkCb (sampleCtx "hello") ["setuidgid"] path (Some d) None =
    Return (Some (failedError "setuidgid" "a/b" (errorString "File is setuid")
                    "Unset the setuid/setgid bit on the relevant files, or remove this linter")) /\
    forall path' d', In (path', d') (visits plainOrderFS ".") -> String.ltb path' path = true ->
      walkCb (sampleCtx "hello") ["setuidgid"] path' (Some d') None = Return None.
Proof.
  apply (lintPackageFs_reports_least_path (sampleCtx "hello") plainOrderFS ["setuidgid"]);
    reflexivity.
Defined.

Lemma walk_parts_from_path_order_witness :
  sortedFS (partedFS "usr" "bin" "merge" "-") = true /\
  readableFS (partedFS "usr" "bin" "merge" "-") = true /\
  String.ltb "usr-merge" "usr/bin" = true /\
  (exists d, In ("usr-merge", d) (visits (partedFS "usr" "bin" "merge" "-") ".") /\
             walkCb (sampleCtx "hello") ["setuidgid"] "usr-merge" (Some d) None <> Return None) /\
  lintPackageFs (sampleCtx "hello") (partedFS "usr" "bin" "merge" "-") ["setuidgid"] =
  Return (Some (failedError "setuidgid" "usr/bin" (errorString "File is setuid")
                  "Unset the setuid/setgid bit on the relevant files, or remove this linter")).
Proof.
  apply (walk_parts_from_path_order (sampleCtx "hello") "usr" "bin" "merge" "-"); reflexivity.
Defined.

(** With a hyphen the orders part: [a-b] is a smaller string than [a/b]
    and its key comes later, so the walk of [orderFS], a tree with sorted
    listings, reports [a/b] and not the least path. *)
Example hyphen_before_slash :
  plainFS orderFS = false /\
  String.ltb "a-b" "a/b" = true /\ keyLt ["a"; "b"] ["a-b"] /\
  lintPackageFs (sampleCtx "hello") orderFS ["setuidgid"] =
  Return (Some (failedError "setuidgid" "a/b" (errorString "File is setuid")
                  "Unset the setuid/setgid bit on the relevant files, or remove this linter")).
Proof. split_and!; [done | done | by apply keyLtb_spec | by vm_compute]. Qed.
